(* ===== verification/_CoqProject ===== *)
-Q . S2P
Prelude.v
Text.v
Float.v
Json.v
Rounding.v
Posix.v
GridWorld.v
TripleBuffer.v
TripleBufferSo.v
RealtimeExecutor.v
Barrier.v
RouteGuideDb.v
RouteChat.v
RouteGuide.v
EtherCat.v
Babeltrace.v
UnixSocket.v
TcpServer.v
TcpClient.v
Udp.v
CanPoll.v
Delegate.v
DelegateMove.v
ExprTemplates.v
Box2dSettings.v
Factories.v
Patterns.v
Tricks.v
DcfFinder.v
UmlDump.v
CanOpen.v
StateMachines.v
RelaxedOrdering.v
Rcu.v
Calendar.v
TimeText.v
WebSockets.v
CsvReader.v
Box2dDraw.v
Box2dSim.v
RectPack.v
ImText.v
TextEdit.v
TextHistory.v
TextField.v
Polynomials.v
Rate.v
SmallPrograms.v
TupleTricks.v
