(* ===== verification/Prelude.v ===== *)
(** * A verification of the programs of cpp_playground

    The repository is a collection of small C++ (and some C) programs: language and
    concurrency practice under [src/cpp_practices], utilities under [src/utils] and programs
    that use libraries under [src/third_party_examples].  They have no common core, so that
    the development has one file for each program or small group of programs, on top of six
    shared files.  A definition keeps the name of the function, method or type it
    translates, and a comment before it names the file under [src/] and its lines.

    ** How C++ is modelled

    - [Prelude] (this file): [outcome] is the result of code that may return, throw or have
      undefined behaviour; [M S A] are methods of an object with state [S], with exceptions
      and output, and [wp] is their program logic; [prog R A] are programs that call an
      environment (the operating system, a library, a peer) which may answer anything the
      types allow, with [run] for one environment and [always] for all; machine integers are
      [Z] with [uwrap], [swrap] and [int_add] for their widths; transition systems are given
      by a move function, with rule induction ([moves_invariant]) or, when they are finite,
      exhaustive exploration ([closed_always]).
    - [Text]: [std::string] and the parts of the standard library used on it ([substr],
      [find], [std::stol], printing of integers).
    - [Float]: IEEE arithmetic in [float] and [double], and how [operator<<] prints it.
    - [Json]: the grammar of flat JSON objects, printed numbers in it, and a parser.
    - [Rounding]: how far sums, differences and products of [double]s are from exact ones.
    - [Posix]: the system calls of the network programs, the monad [IO] and its logic.

    Threads that share memory are step functions, one step for each atomic access or each
    statement under a mutex, interleaved in every way; only [RelaxedOrdering] needs, and
    has, the axiomatic executions of relaxed atomics.  A loop that need not end takes a fuel
    argument.  Where a theorem speaks of fuel, it says that enough fuel gives the result:
    the parser of the route guide runs with one more than the length of its input, the
    descriptor loop of the TCP server with 1024, which is FD_SETSIZE; the endless loops of
    the servers are given any fuel, and their theorems hold at every moment of the run.

    ** The parts and their theorems

    Concurrency:
    - [TripleBuffer] ([cpp_practices/lock_free_structure], [triple_buffer.h]): under every
      interleaving the three roles are distinct buffers, so that there is no data race; run
      one method at a time the class is a slot with the newest value.
    - [TripleBufferSo] ([triple_buffer_so.h]): the buffer that owns its threads; safety of
      the buffers and of [consume], and that the destructor returns under every fair
      schedule.
    - [RealtimeExecutor] ([utils/realtime_executor]): the bounded queue keeps the newest
      messages; the callback receives the data in order; when the destructor returns.
    - [Barrier] ([cpp_practices/barrier_examples], [bug_examples]): the schedule and the
      liveness of the barrier; exactly when the wake-up is lost in the other program, and that
      then only a spurious wake-up helps.
    - [RelaxedOrdering] ([cpp_practices/memory_ordering_examples]): exactly the outputs that
      the C++ memory model allows.
    - [Rcu] ([third_party_examples/urcu_examples]): the list that a writer extends and a
      reader reader empties without mutual exclusion, up to the first overlap of two updates.

    Networks and buses:
    - [TcpServer], [TcpClient], [Udp], [UnixSocket], [CanPoll] ([utils/tcp_socket],
      [utils/udp_socket], [utils/unix_domain_socket], [utils/can],
      [cpp_practices/poll_examples]) over [Posix]: the chat server refines a chat room, what
      clients relay, the layout of messages, what is printed, and where buffers overflow.
    - [RouteGuideDb], [RouteChat], [RouteGuide] ([third_party_examples/grpc_example/src/route_guide]): the
      parser of the feature data base reads back what is rendered, and always returns for
      texts on which [isspace] is defined; the handlers of the chat as threads with their
      mutex, which behave as if each note was handled at once; the four services and the
      client, alone and end to end over a working channel.
    - [EtherCat] ([cpp_practices/ethercat_user]): the configuration calls with every error
      path, and the cyclic task with its timing.
    - [CanOpen] ([third_party_examples/lely_examples]): the callbacks of master, passive
      master and slave, the programs, and the bus between master and slave; reports to the
      library, and the values that both sides count.
    - [DcfFinder] (the same directory): the search in a device configuration file.
    - [Calendar], [TimeText] ([third_party_examples/uwebsockets/src/date.h]): the calendar types
      with their conversions are the Gregorian calendar; the text of a time, whose order is
      that of the times.
    - [WebSockets] ([third_party_examples/uwebsockets]): the handlers of the servers over
      topics and subscribers, with a library that may drop messages for slow clients, the time
      server with the texts of [TimeText], and [trim].
    - [Babeltrace] ([third_party_examples/libbabeltrace2_examples]): ownership of every
      library reference on every path.

    Language practice and games:
    - [GridWorld] ([utils/grid_world]): the game refines an abstract game on a grid.
    - [Delegate], [DelegateMove] ([cpp_practices/tricks/include/delegate.h]): shared stores
      with a deleter refine variables, which have value semantics as long as the calls do not
      change the functors; moves, swap and comparisons.
    - [ExprTemplates] ([cpp_practices/expression_templates]): assignment element by element
      equals evaluation of whole vectors, unless a number of the expression is an element of
      the left side; what the size checks accept.
    - [Factories], [Patterns] ([cpp_practices/design_pattern_in_modern_cpp]): dispatch and
      type safety of the factories; builders, mixins and visitors.
    - [Tricks] ([cpp_practices/tricks]): uniformity of reservoir sampling, bits of integers,
      scope guards.
    - [TupleTricks] (the same directory): indices, functions on all elements of a tuple or
      struct with their order and state, flattening.
    - [Rate] ([cpp_practices/smart_rate], [lely_examples/sync_byte_provider.cpp]): the controlled rate
      converges in the arithmetic of [double]s; the times of the SYNC frames.
    - [Polynomials] ([third_party_examples/ceres_solver_examples]): the functors and residuals
      of the fitted curves.
    - [SmallPrograms]: the vector in a monotonic buffer, Fibonacci numbers, the type-erased
      deleter, the keys of the terminal.
    - [Box2dSettings], [Box2dDraw], [Box2dSim] ([third_party_examples/box2d_example]): saving and
      loading of settings; the batches that the renderers hand to OpenGL, and its objects; the
      simulation loop, which shows in each turn what the world draws.
    - [RectPack] ([third_party_examples/graphical_interface/imgui_example/imgui/imstb_rectpack.h]):
      the skyline packer in its linked lists; packed rectangles are in the target and disjoint,
      and are rejected only without room.
    - [ImText], [TextEdit], [TextHistory], [TextField] ([imgui.cpp], [imstb_textedit.h] and
      [imgui_widgets.cpp] in the same directory): the UTF-8 conversions; the text field with its
      history in two shared arrays, which behaves as a document with a timeline of changes,
      whatever the user does, and where it does not.
    - [CsvReader] ([utils/csv_reader]): rows of typed fields read back.
    - [StateMachines] ([third_party_examples/sml_examples]): the engine of boost::sml for tables
      with sub-machines refines nested automata; the programs that use it.
    - [UmlDump] ([third_party_examples/sml_examples/src/dump_uml.cpp]): the printed guards
      mean what the guards mean, the blocks of the diagram are balanced.

    A theorem that is a claim has its number at the start of its comment, and a lemma of the
    same name with [_witness] that applies it where it has hypotheses.  Flaws of the
    programs are modelled as the code has them and stated as theorems too, next to the
    correctness theorems that hold in spite of them.

    ** What is not modelled

    Vendored single-header libraries ([json.hpp], [catch.hpp], [nameof.hpp], the
    imgui sources but for the rectangle packer, the UTF-8 conversions and the text
    field, matplotlib-cpp), which make up most of the lines of the repository, and the
    parts of [date.h] and boost::sml that no program of the repository uses; library code is an environment or a parameter where a program calls it.
    Programs whose behaviour is that of a library (Drake, libtorch, dlib, Ceres, Bullet,
    imgui, boost process examples, LTTng, beast and others), compile-time
    techniques without run-time state (fold expressions, SFINAE, detection of members), timing
    measurements and demonstrations of tools (sanitizers, valgrind, xmake). *)

From stdpp Require Export prelude list gmap strings relations.
From Stdlib Require Export ZArith Lia Ascii.

Declare Scope cpp_scope.
Delimit Scope cpp_scope with cpp.
Local Open Scope Z_scope.

(** The newline character, as a string; the double quote, as a character. *)
Definition nl : string := String "010" EmptyString.
Definition dquote : ascii := "034".

(** * Outcomes of C++ code

    [Ok a]: the expression returned [a].  [Throw e]: an exception left it, [e]
    being its [what()].  [UB why]: it has undefined behaviour. *)
Inductive outcome (A : Type) : Type :=
| Ok (a : A)
| Throw (what : string)
| UB (why : string).
Arguments Ok {A} a.
Arguments Throw {A} what.
Arguments UB {A} why.

#[global] Instance outcome_ret : MRet outcome := @Ok.
#[global] Instance outcome_bind : MBind outcome := λ A B f o,
  match o with Ok a => f a | Throw e => Throw e | UB w => UB w end.

#[global] Instance outcome_eq_dec `{EqDecision A} : EqDecision (outcome A).
Proof. solve_decision. Defined.

(** Whether an outcome is a returned value. *)
Definition is_ok {A} (o : outcome A) : bool :=
  match o with Ok _ => true | _ => false end.

Lemma outcome_bind_ok {A B} (f : A → outcome B) (o : outcome A) b :
  o ≫= f = Ok b ↔ ∃ a, o = Ok a ∧ f a = Ok b.
Proof.
  split; [|by intros (a & -> & ?)].
  destruct o as [a| |]; intros H; [by exists a | done | done].
Qed.

(** * Methods of an object: state, exceptions and standard output

    A method that may change its object, throw and print.  On an exception
    the changes made before it stay, as in C++. *)
Definition M (S A : Type) : Type := S → outcome A * S * list string.

#[global] Instance M_ret S : MRet (M S) := λ A a s, (Ok a, s, []).
#[global] Instance M_bind S : MBind (M S) := λ A B f m s,
  match m s with
  | (Ok a, s', out) =>
      let '(r, s'', out') := f a s' in (r, s'', out ++ out')
  | (Throw e, s', out) => (Throw e, s', out)
  | (UB w, s', out) => (UB w, s', out)
  end.

Definition throw {S A} (e : string) : M S A := λ s, (Throw e, s, []).
Definition get {S} : M S S := λ s, (Ok s, s, []).
Definition put {S} (s' : S) : M S unit := λ _, (Ok tt, s', []).
Definition print {S} (t : string) : M S unit := λ s, (Ok tt, s, [t]).
Definition lift {S A} (o : outcome A) : M S A := λ s, (o, s, []).

(** Run a method of a member object: [view] reads the member, [set] writes it. *)
Definition zoom {S T A} (view : S → T) (set : T → S → S) (m : M T A) : M S A := λ s,
  let '(r, t, out) := m (view s) in (r, set t s, out).

(** ** A program logic for methods

    [wp E m Q s]: run from [s], [m] returns with a value and an object that satisfy
    [Q], or throws an exception that satisfies [E]; it has no undefined behaviour. *)
Definition wp {S A} (E : string → Prop) (m : M S A) (Q : A → S → Prop) (s : S) : Prop :=
  match m s with
  | (Ok a, s', _) => Q a s'
  | (Throw e, _, _) => E e
  | (UB _, _, _) => False
  end.

Section wp.
Context {S : Type} (E : string → Prop).
Implicit Types (s : S).

Lemma wp_ret {A} (a : A) Q s : Q a s → wp E (mret a) Q s.
Proof. done. Qed.

Lemma wp_bind {A B} (m : M S A) (f : A → M S B) Q s :
  wp E m (λ a, wp E (f a) Q) s → wp E (m ≫= f) Q s.
Proof.
  unfold wp, mbind, M_bind. destruct (m s) as [[[a|e|w] s'] out]; [|done|done].
  by destruct (f a s') as [[r s''] out'].
Qed.

Lemma wp_get Q s : Q s s → wp E get Q s.
Proof. done. Qed.

Lemma wp_put s' Q s : Q tt s' → wp E (put s') Q s.
Proof. done. Qed.

Lemma wp_mono {A} (m : M S A) (Q Q' : A → S → Prop) s :
  (∀ a s', Q a s' → Q' a s') → wp E m Q s → wp E m Q' s.
Proof. unfold wp. intros H. destruct (m s) as [[[a|e|w] s'] out]; auto. Qed.

Lemma wp_lift {A} (o : outcome A) Q s :
  match o with Ok a => Q a s | Throw e => E e | UB _ => False end → wp E (lift o) Q s.
Proof. unfold wp, lift. by destruct o. Qed.

(** A silent method that returns is a step of the code around it. *)
Lemma bind_silent {A B} (m : M S A) (f : A → M S B) s a s' :
  m s = (Ok a, s', []) → (m ≫= f) s = f a s'.
Proof.
  unfold mbind, M_bind. intros ->. by destruct (f a s') as [[r s''] out'].
Qed.
End wp.

(** * Machine integers *)

(** Reduction to an unsigned [w]-bit integer. *)
Definition uwrap (w z : Z) : Z := z mod 2 ^ w.
(** Reduction to a two's complement signed [w]-bit integer. *)
Definition swrap (w z : Z) : Z := (z + 2 ^ (w - 1)) mod 2 ^ w - 2 ^ (w - 1).

Definition int_min : Z := - 2 ^ 31.
Definition int_max : Z := 2 ^ 31 - 1.
Definition in_int (z : Z) : bool := (int_min <=? z) && (z <=? int_max).

(** [int] addition; overflow is undefined behaviour. *)
Definition int_add (a b : Z) : outcome Z :=
  if in_int (a + b) then Ok (a + b) else UB "signed integer overflow".

(** Conversion of an [int] to [size_t]. *)
Definition to_size_t (z : Z) : Z := uwrap 64 z.

#[global] Arguments uwrap : simpl never.
#[global] Arguments swrap : simpl never.
#[global] Arguments to_size_t : simpl never.
#[global] Arguments int_add : simpl never.

Lemma uwrap_small w z : 0 ≤ z < 2 ^ w → uwrap w z = z.
Proof. intros. by apply Z.mod_small. Qed.

Lemma uwrap_range w z : 0 ≤ w → 0 ≤ uwrap w z < 2 ^ w.
Proof. intros. apply Z.mod_pos_bound. by apply Z.pow_pos_nonneg. Qed.

Lemma swrap_range w z : 0 < w → - 2 ^ (w - 1) ≤ swrap w z < 2 ^ (w - 1).
Proof.
  intros. unfold swrap.
  assert (2 ^ w = 2 * 2 ^ (w - 1)) as Hw.
  { rewrite <- Z.pow_succ_r by lia. f_equal. lia. }
  pose proof (Z.mod_pos_bound (z + 2 ^ (w - 1)) (2 ^ w)) as Hb.
  assert (0 < 2 ^ (w - 1)) by (apply Z.pow_pos_nonneg; lia). lia.
Qed.

Lemma swrap_small w z : 0 < w → - 2 ^ (w - 1) ≤ z < 2 ^ (w - 1) → swrap w z = z.
Proof.
  intros Hw ?. unfold swrap.
  assert (2 ^ w = 2 * 2 ^ (w - 1)).
  { rewrite <- Z.pow_succ_r by lia. f_equal. lia. }
  rewrite Z.mod_small; lia.
Qed.

Lemma in_int_spec z : in_int z = true ↔ int_min ≤ z ≤ int_max.
Proof. unfold in_int. rewrite andb_true_iff, !Z.leb_le. done. Qed.

Lemma int_add_ok a b : int_min ≤ a + b ≤ int_max → int_add a b = Ok (a + b).
Proof. intros H. unfold int_add. by rewrite (proj2 (in_int_spec _) H). Qed.

(** * Lists *)

Lemma tail_drop_S {A} k (l : list A) : tail (drop k l) = drop (S k) l.
Proof. revert l. induction k as [|k IH]; intros [|x l]; try done. apply IH. Qed.

(** * Transition systems *)
Section transition_systems.
Context {S : Type} (step : S → S → Prop).

(** Rule induction over executions: an inductive invariant holds everywhere. *)
Lemma rtc_invariant (I : S → Prop) s s' :
  (∀ x y, I x → step x y → I y) → rtc step s s' → I s → I s'.
Proof. intros Hstep. induction 1; eauto. Qed.
End transition_systems.

(** * Systems given by an executable move function

    [exec m s] is the effect of move [m] in state [s], [None] if [m] is not
    enabled there. *)
Section moves.
Context {Mv S : Type} (exec : Mv → S → option S).

Definition move_step (s s' : S) : Prop := ∃ m, exec m s = Some s'.

Fixpoint exec_all (ms : list Mv) (s : S) : option S :=
  match ms with
  | [] => Some s
  | m :: ms => exec m s ≫= exec_all ms
  end.

Lemma exec_all_app ms ms' s :
  exec_all (ms ++ ms') s = exec_all ms s ≫= exec_all ms'.
Proof.
  revert s. induction ms as [|m ms IH]; intros s; simpl; [done|].
  destruct (exec m s); simpl; [apply IH|done].
Qed.

(** Running a list of moves is an execution of the system. *)
Lemma exec_all_rtc ms s s' : exec_all ms s = Some s' → rtc move_step s s'.
Proof.
  revert s. induction ms as [|m ms IH]; intros s Hs; simpl in Hs.
  - simplify_eq. apply rtc_refl.
  - destruct (exec m s) as [s1|] eqn:Hm; [|done].
    eapply rtc_l; [by exists m | by apply IH].
Qed.

Lemma moves_invariant (I : S → Prop) s s' :
  (∀ m x y, I x → exec m x = Some y → I y) → rtc move_step s s' → I s → I s'.
Proof.
  intros Hstep. apply (rtc_invariant move_step I).
  intros x y Hx [m Hm]. by eapply Hstep.
Qed.
End moves.

(** * Finite systems, explored exhaustively

    [explore] collects the states reachable by the listed moves; [closed] checks
    that a list of states is closed under them, which is all a proof needs. *)
Section explore.
Context {Mv S : Type} `{EqDecision S} (exec : Mv → S → option S) (moves : list Mv).

Definition successors (s : S) : list S := omap (λ m, exec m s) moves.

Fixpoint explore (fuel : nat) (todo seen : list S) : list S :=
  match fuel, todo with
  | Datatypes.S n, s :: todo =>
      if bool_decide (s ∈ seen) then explore n todo seen
      else explore n (successors s ++ todo) (s :: seen)
  | _, _ => seen
  end.

Definition closed (R : list S) : bool :=
  forallb (λ s, forallb (λ s', bool_decide (s' ∈ R)) (successors s)) R.

Context (all_moves : ∀ m, m ∈ moves).

Lemma closed_reachable (R : list S) s s' :
  closed R = true → s ∈ R → rtc (move_step exec) s s' → s' ∈ R.
Proof.
  intros Hc Hs Hr. apply (rtc_invariant (move_step exec) (.∈ R)) with (2 := Hr); [|done].
  intros x y Hx [m Hm]. unfold closed in Hc. rewrite forallb_forall in Hc.
  apply list_elem_of_In in Hx. specialize (Hc x Hx). rewrite forallb_forall in Hc.
  apply (bool_decide_eq_true_1 _), Hc, list_elem_of_In.
  apply list_elem_of_omap. eauto.
Qed.

(** A boolean property that holds on a closed list holds in every reachable state. *)
Lemma closed_always (R : list S) (P : S → bool) s s' :
  closed R = true → bool_decide (s ∈ R) = true → forallb P R = true →
  rtc (move_step exec) s s' → P s' = true.
Proof.
  intros Hc Hs HP Hr. rewrite forallb_forall in HP.
  apply HP, list_elem_of_In. apply (closed_reachable R s); [done| |done].
  by apply bool_decide_eq_true_1 in Hs.
Qed.
End explore.

(** * Programs that call their environment

    [prog R A]: a program that returns an [A] after calls of type [C], a call [c]
    being answered by a value of type [R c].  The environment (operating system,
    peer, library) is any function of the history and the call. *)
Inductive prog {C : Type} (R : C → Type) (A : Type) : Type :=
| Ret (a : A)
| Call (c : C) (k : R c → prog R A).
Arguments Ret {C R A} a.
Arguments Call {C R A} c k.

Fixpoint prog_bind {C} {R : C → Type} {A B} (p : prog R A) (f : A → prog R B) : prog R B :=
  match p with
  | Ret a => f a
  | Call c k => Call c (λ r, prog_bind (k r) f)
  end.

#[global] Instance prog_mret {C} (R : C → Type) : MRet (prog R) := @Ret C R.
#[global] Instance prog_mbind {C} (R : C → Type) : MBind (prog R) := λ A B f p, prog_bind p f.

Definition call {C} {R : C → Type} (c : C) : prog R (R c) := Call c Ret.

(** The calls made so far with their answers, oldest first. *)
Definition history {C} (R : C → Type) : Type := list (sigT R).
Definition environment {C} (R : C → Type) : Type := history R → ∀ c : C, R c.

Fixpoint run {C} {R : C → Type} {A} (env : environment R) (p : prog R A) (h : history R)
    : A * history R :=
  match p with
  | Ret a => (a, h)
  | Call c k => run env (k (env h c)) (h ++ [existT c (env h c)])
  end.

(** The calls of a history, without the answers. *)
Definition calls {C} {R : C → Type} (h : history R) : list C := projT1 <$> h.

Section prog.
Context {C : Type} {R : C → Type}.
Implicit Types (h : history R) (env : environment R).

Lemma run_bind {A B} env (p : prog R A) (f : A → prog R B) h :
  run env (p ≫= f) h = let '(a, h') := run env p h in run env (f a) h'.
Proof.
  revert h. induction p as [a|c k IH]; intros h; simpl; [done|].
  change (prog_bind (k ?r) f) with (k r ≫= f). apply IH.
Qed.

Lemma run_ret {A} env (a : A) h : run env (mret a) h = (a, h).
Proof. done. Qed.

Lemma run_call {A} env c (f : R c → prog R A) h :
  run env (call c ≫= f) h = run env (f (env h c)) (h ++ [existT c (env h c)]).
Proof. done. Qed.

(** A program only adds to the history. *)
Lemma run_extends {A} env (p : prog R A) h :
  ∃ h', snd (run env p h) = h ++ h'.
Proof.
  revert h. induction p as [a|c k IH]; intros h; simpl; [by exists []; rewrite app_nil_r|].
  destruct (IH (env h c) (h ++ [existT c (env h c)])) as [h' ->].
  exists (existT c (env h c) :: h'). by rewrite <- app_assoc.
Qed.
End prog.

(** ** A program logic

    [always ok p Q h]: run after the history [h], whatever the environment answers
    within [ok], [p] returns a value and a history that satisfy [Q]. *)
Section always.
Context {C : Type} {R : C → Type} (ok : ∀ c, R c → Prop).
Implicit Types (h : history R).

Fixpoint always {A} (p : prog R A) (Q : A → history R → Prop) h : Prop :=
  match p with
  | Ret a => Q a h
  | Call c k => ∀ r, ok c r → always (k r) Q (h ++ [existT c r])
  end.

Lemma always_bind {A B} (p : prog R A) (f : A → prog R B) Q h :
  always p (λ a, always (f a) Q) h → always (p ≫= f) Q h.
Proof.
  revert h. induction p as [a|c k IH]; intros h; simpl; [done|]. intros H r Hr. by apply IH, H.
Qed.

Lemma always_mono {A} (p : prog R A) (Q Q' : A → history R → Prop) h :
  (∀ a h', Q a h' → Q' a h') → always p Q h → always p Q' h.
Proof.
  intros HQ. revert h. induction p as [a|c k IH]; intros h; simpl; [apply HQ|]. intros H r Hr.
  by apply IH, H.
Qed.

Lemma always_run {A} (env : environment R) (p : prog R A) Q h :
  (∀ h c, ok c (env h c)) → always p Q h → Q (fst (run env p h)) (snd (run env p h)).
Proof.
  intros Hok. revert h. induction p as [a|c k IH]; intros h; simpl; [done|]. intros H.
  by apply IH, H.
Qed.
End always.

(** Any answer. *)
Definition anything {C} {R : C → Type} (c : C) (r : R c) : Prop := True.

(** A loop body either goes on with a new state or leaves the loop. *)
Fixpoint loop {C} {R : C → Type} {S A} (fuel : nat) (body : S → prog R (S + A)) (s : S)
    : prog R (option A) :=
  match fuel with
  | O => Ret None
  | Datatypes.S n =>
      body s ≫= λ r, match r with inl s' => loop n body s' | inr a => Ret (Some a) end
  end.

(** * Automation *)

(** Run a program up to the next decision. *)
Ltac prog_run :=
  unfold call; cbn [mbind prog_mbind prog_bind always app mret prog_mret negb].

(** Split hypotheses and decide boolean tests of the code. *)
Ltac destr_bool :=
  repeat match goal with
  | H : Is_true _ |- _ => apply Is_true_eq_true in H
  | H : _ && _ = true |- _ => apply andb_true_iff in H as [? ?]
  | H : _ || _ = false |- _ => apply orb_false_iff in H as [? ?]
  | H : negb _ = true |- _ => apply negb_true_iff in H
  | H : negb _ = false |- _ => apply negb_false_iff in H
  | H : (_ <=? _) = true |- _ => apply Z.leb_le in H
  | H : (_ <=? _) = false |- _ => apply Z.leb_gt in H
  | H : (_ <? _) = true |- _ => apply Z.ltb_lt in H
  | H : (_ <? _) = false |- _ => apply Z.ltb_ge in H
  | H : (_ =? _) = true |- _ => apply Z.eqb_eq in H
  | H : (_ =? _) = false |- _ => apply Z.eqb_neq in H
  end.

Create HintDb cpp discriminated.
Create Rewrite HintDb cpp.
#[export] Hint Rewrite @length_app @length_map @length_insert @length_replicate : cpp.
