(* ===== verification/Text.v ===== *)
(** Texts as [std::string] holds them, lists of characters, with the parts of the
    standard library the programs use on them: [substr], [find], [isspace],
    [std::stol], the printing of integers and [std::getline]. *)
From S2P Require Import Prelude.
Local Open Scope Z_scope.

Abbreviation text := (list ascii).

(** A literal. *)
Definition txt (s : string) : text := String.list_ascii_of_string s.

Definition code (c : ascii) : Z := Z.of_N (N_of_ascii c).
Definition chr (z : Z) : ascii := ascii_of_N (Z.to_N z).

(** [isspace] in the C locale. *)
Definition isspace (c : ascii) : bool :=
  (code c =? 32) || ((9 <=? code c) && (code c <=? 13)).

(** [isspace] of a [char] that is signed: undefined for negative values but EOF. *)
Definition isspace_char (c : ascii) : outcome bool :=
  if code c <? 128 then Ok (isspace c)
  else if code c =? 255 then Ok false
  else UB "isspace of a negative value".

(** A text that [isspace] is defined on. *)
Definition plain (s : text) : Prop := Forall (λ c, code c < 128 ∨ code c = 255) s.

Lemma isspace_plain c : code c < 128 ∨ code c = 255 → isspace_char c = Ok (isspace c).
Proof.
  intros Hc. unfold isspace_char. destruct (Z.ltb_spec (code c) 128); [done|].
  destruct Hc as [Hc|Hc]; [lia|]. rewrite Hc. cbn. unfold isspace. by rewrite Hc.
Qed.

Lemma isspace_not_plain c : ¬ (code c < 128 ∨ code c = 255) → ∃ w, isspace_char c = UB w.
Proof.
  intros Hc. unfold isspace_char. destruct (Z.ltb_spec (code c) 128); [tauto|].
  destruct (Z.eqb_spec (code c) 255); [tauto|by eexists].
Qed.

Definition isdigit (c : ascii) : bool := (48 <=? code c) && (code c <=? 57).

(** [s.substr(pos, n)] *)
Definition substr (s : text) (pos n : nat) : outcome text :=
  if (length s <? pos)%nat then Throw "std::out_of_range: substr" else Ok (take n (drop pos s)).

Fixpoint is_prefix (p s : text) : bool :=
  match p, s with
  | [], _ => true
  | x :: p, y :: s => Ascii.eqb x y && is_prefix p s
  | _ :: _, [] => false
  end.

(** [s.find(p)]: where [p] first occurs. *)
Fixpoint find (p s : text) : option nat :=
  if is_prefix p s then Some 0%nat
  else match s with [] => None | _ :: s => S <$> find p s end.

(** [s[i]]: reading at [size()] gives the terminating null character. *)
Definition char_at (s : text) (i : nat) : outcome ascii :=
  match s !! i with
  | Some c => Ok c
  | None => if (i =? length s)%nat then Ok "000"%char else UB "string index out of range"
  end.

(** ** Numbers *)

(** The value of the leading digits after [acc]. *)
Fixpoint digits_value (acc : Z) (s : text) : Z :=
  match s with
  | c :: s => if isdigit c then digits_value (10 * acc + (code c - 48)) s else acc
  | [] => acc
  end.

Fixpoint skip_space (s : text) : text :=
  match s with c :: s' => if isspace c then skip_space s' else s | [] => [] end.

(** [std::stol(s)]: white space, a sign, digits; what follows is ignored. *)
Definition stol (s : text) : outcome Z :=
  let s := skip_space s in
  let '(sg, s) :=
    match s with
    | c :: s' =>
        if Ascii.eqb c "-" then (-1, s') else if Ascii.eqb c "+" then (1, s') else (1, s)
    | [] => (1, s)
    end in
  match s with
  | c :: _ =>
      if isdigit c then
        let v := sg * digits_value 0 s in
        if (- 2 ^ 63 <=? v) && (v <? 2 ^ 63) then Ok v else Throw "std::out_of_range: stol"
      else Throw "std::invalid_argument: stol"
  | [] => Throw "std::invalid_argument: stol"
  end.

(** The exceptions of [stol]. *)
Definition stol_error (e : string) : Prop :=
  e = "std::out_of_range: stol"%string ∨ e = "std::invalid_argument: stol"%string.

Definition digit (d : Z) : ascii := chr (48 + d).

(** The decimal digits of [n]; [fuel] bounds their number. *)
Fixpoint digits (fuel : nat) (n : Z) : text :=
  match fuel with
  | O => []
  | S fuel => if n <? 10 then [digit n] else digits fuel (n / 10) ++ [digit (n mod 10)]
  end.

(** [std::to_string] and [operator<<] of an integer of at most 64 bits: 20 digits
    are enough. *)
Definition to_text (z : Z) : text :=
  if z <? 0 then "-"%char :: digits 20 (- z) else digits 20 z.

(** ** Lemmas *)

Lemma code_chr z : 0 ≤ z < 256 → code (chr z) = z.
Proof.
  intros Hz. unfold code, chr. rewrite N_ascii_embedding; [lia|].
  apply N2Z.inj_lt. rewrite Z2N.id; lia.
Qed.

Lemma digit_code d : 0 ≤ d < 10 → code (digit d) = 48 + d.
Proof. intros. unfold digit. apply code_chr. lia. Qed.

Lemma digit_isdigit d : 0 ≤ d < 10 → isdigit (digit d) = true.
Proof.
  intros. unfold isdigit. rewrite digit_code by done.
  apply andb_true_iff. split; apply Z.leb_le; lia.
Qed.

Lemma isdigit_not_space c : isdigit c = true → isspace c = false.
Proof.
  unfold isdigit, isspace. intros. destr_bool. apply orb_false_iff. split.
  - apply Z.eqb_neq. lia.
  - apply andb_false_iff. right. apply Z.leb_gt. lia.
Qed.

Lemma digits_isdigit fuel n : 0 ≤ n → Forall (λ c, isdigit c = true) (digits fuel n).
Proof.
  revert n. induction fuel as [|fuel IH]; intros n Hn; simpl; [constructor|].
  destruct (Z.ltb_spec n 10).
  - constructor; [apply digit_isdigit; lia|constructor].
  - apply Forall_app. split; [apply IH; apply Z.div_pos; lia|].
    constructor; [|constructor]. apply digit_isdigit, Z.mod_pos_bound. lia.
Qed.

Lemma digits_value_app acc s t :
  Forall (λ c, isdigit c = true) s →
  digits_value acc (s ++ t) = digits_value (digits_value acc s) t.
Proof.
  intros Hs. revert acc. induction Hs as [|c s Hc Hs IH]; intros acc; simpl; [done|].
  rewrite Hc. apply IH.
Qed.

Lemma digits_value_digits fuel n t :
  0 ≤ n < 10 ^ Z.of_nat fuel → head t = None ∨ (∃ c, head t = Some c ∧ isdigit c = false) →
  digits_value 0 (digits fuel n ++ t) = n.
Proof.
  intros Hn Ht. rewrite digits_value_app by (apply digits_isdigit; lia).
  assert (digits_value 0 (digits fuel n) = n) as ->.
  { clear Ht. revert n Hn. induction fuel as [|fuel IH]; intros n Hn; [simpl in *; lia|].
    cbn [digits]. rewrite Nat2Z.inj_succ, Z.pow_succ_r in Hn by lia.
    destruct (Z.ltb_spec n 10).
    - cbn [digits_value]. rewrite digit_isdigit, digit_code by lia. lia.
    - rewrite digits_value_app by (apply digits_isdigit, Z.div_pos; lia).
      rewrite IH by (split; [apply Z.div_pos|apply Z.div_lt_upper_bound]; lia).
      cbn [digits_value]. rewrite digit_isdigit, digit_code by (apply Z.mod_pos_bound; lia).
      pose proof (Z.div_mod n 10). lia. }
  destruct t as [|c t]; [done|]. destruct Ht as [Ht|(c' & Ht & Hc)]; simplify_eq/=. by rewrite Hc.
Qed.

Lemma digits_cons fuel n : 0 ≤ n → ∃ c s, digits (S fuel) n = c :: s ∧ isdigit c = true.
Proof.
  intros Hn. pose proof (digits_isdigit (S fuel) n Hn) as Hd.
  destruct (digits (S fuel) n) as [|c s] eqn:E; [|inversion Hd; eauto].
  exfalso. cbn [digits] in E. destruct (n <? 10); [done|].
  by apply app_eq_nil in E as [_ ?].
Qed.

Lemma skip_space_digits s : Forall (λ c, isdigit c = true) s → skip_space s = s.
Proof. intros [|c s' Hc]; [done|]. simpl. by rewrite isdigit_not_space. Qed.

(** Reading back what was printed. *)
Lemma stol_to_text z : - 2 ^ 63 ≤ z < 2 ^ 63 → stol (to_text z) = Ok z.
Proof.
  intros Hz. unfold to_text.
  assert (∀ n, 0 ≤ n ≤ 2 ^ 63 → digits_value 0 (digits 20 n) = n) as Hd.
  { intros n Hn. rewrite <- (app_nil_r (digits 20 n)).
    apply digits_value_digits; [|by left]. lia. }
  destruct (Z.ltb_spec z 0).
  - destruct (digits_cons 19 (- z)) as (c & s & Hc & Hcd); [lia|].
    unfold stol. cbn [skip_space]. change (isspace "-") with false. cbn match.
    change (Ascii.eqb "-" "-") with true. cbn match.
    pose proof (Hd (- z) ltac:(lia)) as Hv. rewrite Hc in *. cbn match. rewrite Hcd, Hv.
    replace (-1 * - z) with z by lia.
    destruct (Z.leb_spec (- 2 ^ 63) z), (Z.ltb_spec z (2 ^ 63)); [done|lia..].
  - destruct (digits_cons 19 z) as (c & s & Hc & Hcd); [lia|].
    unfold stol. rewrite skip_space_digits by (apply digits_isdigit; lia).
    pose proof (Hd z ltac:(lia)) as Hv. rewrite Hc in *.
    assert (Ascii.eqb c "-" = false ∧ Ascii.eqb c "+" = false) as [-> ->].
    { split; apply Ascii.eqb_neq; intros ->; done. }
    rewrite Hcd, Hv.
    replace (1 * z) with z by lia.
    destruct (Z.leb_spec (- 2 ^ 63) z), (Z.ltb_spec z (2 ^ 63)); [done|lia..].
Qed.

Lemma stol_outcome s :
  match stol s with Ok z => - 2 ^ 63 ≤ z < 2 ^ 63 | Throw e => stol_error e | UB _ => False end.
Proof.
  unfold stol, stol_error. destruct (match skip_space s with [] => _ | _ :: _ => _ end) as [sg t].
  destruct t as [|c t]; [by right|]. destruct (isdigit c); [|by right].
  destruct ((- 2 ^ 63 <=? _) && _) eqn:E; [|by left]. destr_bool. done.
Qed.

(** The characters of a printed number. *)
Lemma to_text_chars z c : c ∈ to_text z → isdigit c = true ∨ c = "-"%char.
Proof.
  unfold to_text. intros Hc. assert (∀ n, 0 ≤ n → c ∈ digits 20 n → isdigit c = true) as Hd.
  { intros n Hn Hin. pose proof (digits_isdigit 20 n Hn) as Hf.
    rewrite Forall_forall in Hf. by apply Hf. }
  destruct (Z.ltb_spec z 0).
  - apply elem_of_cons in Hc as [->|Hc]; [by right|left]. by apply (Hd (- z)); [lia|].
  - left. by apply (Hd z).
Qed.

Lemma is_prefix_spec p s : is_prefix p s = true ↔ ∃ t, s = p ++ t.
Proof.
  revert s. induction p as [|x p IH]; intros s; simpl; [split; eauto|].
  destruct s as [|y s]; [split; [done|by intros (? & ?)]|].
  rewrite andb_true_iff, IH, Ascii.eqb_eq. split.
  - intros [-> (t & ->)]. eauto.
  - intros (t & [= -> ->]). eauto.
Qed.

Lemma find_spec p s i :
  find p s = Some i →
  (∃ t, drop i s = p ++ t) ∧ (i + length p ≤ length s)%nat ∧
  ∀ j, (j < i)%nat → ¬ ∃ t, drop j s = p ++ t.
Proof.
  revert i. induction s as [|y s IH]; intros i; simpl.
  - destruct (is_prefix p []) eqn:E; [|done]. intros [= <-].
    apply is_prefix_spec in E as (t & Ht). split_and!; [by exists t| |lia].
    by symmetry in Ht; apply app_eq_nil in Ht as [-> _].
  - destruct (is_prefix p (y :: s)) eqn:E.
    + intros [= <-]. apply is_prefix_spec in E as (t & Ht). rewrite drop_0.
      split_and!; [by exists t| |lia]. change (S (length s)) with (length (y :: s)).
      rewrite Ht, length_app. lia.
    + destruct (find p s) as [k|]; [|done]. intros [= <-].
      destruct (IH k eq_refl) as (Ht & Hl & Hm). split_and!; [done|lia|].
      intros [|j] Hj; [|apply Hm; lia]. rewrite drop_0. intros Hp.
      apply is_prefix_spec in Hp. congruence.
Qed.

(** ** Lines *)

(** [std::getline(stream, line, delimiter)] until it fails; [line] is what was read of the
    current line, in reverse. *)
Fixpoint getlines (delimiter : ascii) (line s : text) : list text :=
  match s with
  | [] => match line with [] => [] | _ => [reverse line] end
  | c :: s => if Ascii.eqb c delimiter then reverse line :: getlines delimiter [] s
              else getlines delimiter (c :: line) s
  end.

(** Splitting what was joined. *)
Lemma getlines_line d line l s :
  d ∉ l → getlines d line (l ++ d :: s) = reverse (reverse l ++ line) :: getlines d [] s.
Proof.
  revert line. induction l as [|c l IH]; intros line; cbn [app getlines].
  - intros _. by rewrite Ascii.eqb_refl.
  - intros [Hc Hl]%not_elem_of_cons. rewrite (proj2 (Ascii.eqb_neq c d)) by done.
    rewrite IH, reverse_cons, <- app_assoc by done. done.
Qed.

Lemma getlines_lines ls :
  Forall (λ l, "010"%char ∉ l) ls → getlines "010" [] (concat ((λ l, l ++ txt nl) <$> ls)) = ls.
Proof.
  induction 1 as [|l ls Hl Hls IH]; [done|]. rewrite fmap_cons. cbn [concat]. rewrite <- app_assoc.
  change (txt nl ++ ?s) with ("010"%char :: s). rewrite getlines_line by done.
  by rewrite IH, app_nil_r, reverse_involutive.
Qed.
