(* ===== verification/Float.v ===== *)
(** IEEE 754 arithmetic as the C++ programs use it: [float] and [double] values are
    [spec_float]s, operations round to nearest even in the format at hand, and
    [operator<<] prints six significant digits. *)
From Stdlib Require Import Floats.SpecFloat.
From S2P Require Import Prelude Text.
Local Open Scope Z_scope.

Definition float := spec_float.
Definition double := spec_float.

(** ** [float] (24 bits of precision) and [double] (53) *)

Definition round_to (prec emax : Z) (v : spec_float) : spec_float :=
  match v with
  | S754_finite s m e =>
      binary_normalize prec emax (if s then Zneg m else Zpos m) e s
  | _ => v
  end.

Definition to_float (d : double) : float := round_to 24 128 d.
Definition to_double (f : float) : double := round_to 53 1024 f.

Definition float_of_Z (z : Z) : float := binary_normalize 24 128 z 0 false.
Definition double_of_Z (z : Z) : double := binary_normalize 53 1024 z 0 false.

Definition fadd : float → float → float := SFadd 24 128.
Definition fsub : float → float → float := SFsub 24 128.
Definition fmul : float → float → float := SFmul 24 128.
Definition fdiv : float → float → float := SFdiv 24 128.
Definition dadd : double → double → double := SFadd 53 1024.
Definition dsub : double → double → double := SFsub 53 1024.
Definition dmul : double → double → double := SFmul 53 1024.
Definition ddiv : double → double → double := SFdiv 53 1024.
Definition dsqrt : double → double := SFsqrt 53 1024.

(** The [double] nearest to the decimal [n / d]: both parts are exact below [2^53]. *)
Definition decimal (n d : Z) : double := ddiv (double_of_Z n) (double_of_Z d).

(** The integer part, for a value that is finite. *)
Definition trunc (v : spec_float) : option Z :=
  match v with
  | S754_zero _ => Some 0
  | S754_finite s m e =>
      let a := if 0 <=? e then Zpos m * 2 ^ e else Zpos m / 2 ^ (- e) in
      Some (if s then - a else a)
  | _ => None
  end.

(** [static_cast<long>(v)] *)
Definition to_long (v : spec_float) : outcome Z :=
  match trunc v with
  | Some z => if (- 2 ^ 63 <=? z) && (z <? 2 ^ 63) then Ok z
              else UB "float to integer conversion out of range"
  | None => UB "float to integer conversion out of range"
  end.

(** ** [operator<<]: six significant digits, as [%g] *)

Definition div_half_even (n d : Z) : Z :=
  let q := n / d in
  let r := n mod d in
  if (2 * r <? d) then q else if (d <? 2 * r) then q + 1 else if Z.even q then q else q + 1.

Fixpoint exponent10 (fuel : nat) (n d x : Z) : Z :=
  match fuel with
  | O => x
  | S fuel =>
      if n * 10 ^ Z.max 0 (- x) <? d * 10 ^ Z.max 0 x then exponent10 fuel n d (x - 1) else x
  end.

Fixpoint drop_zeros (s : text) : text :=
  match s with "0"%char :: s => drop_zeros s | _ => s end.

Definition strip_zeros (s : text) : text :=
  match drop_zeros (rev s) with
  | "."%char :: s => rev s
  | s => rev s
  end.

(** The text of the positive rational [n / d] with [p] significant digits; [x] is its
    decimal exponent. *)
Definition show_positive (p n d : Z) : text :=
  let x := exponent10 700 n d 310 in
  let r := if x <? p then div_half_even (n * 10 ^ (p - 1 - x)) d
           else div_half_even n (d * 10 ^ (x - p + 1)) in
  let '(r, x) := if r =? 10 ^ p then (10 ^ (p - 1), x + 1) else (r, x) in
  let ds := digits (Z.to_nat p) r in
  if (-4 <=? x) && (x <? p) then
    if 0 <=? x then strip_zeros (take (Z.to_nat (x + 1)) ds ++ txt "." ++ drop (Z.to_nat (x + 1)) ds)
    else strip_zeros (txt "0." ++ replicate (Z.to_nat (- x - 1)) "0"%char ++ ds)
  else
    strip_zeros (take 1 ds ++ txt "." ++ drop 1 ds) ++ txt "e" ++
    (if x <? 0 then txt "-" else txt "+") ++
    (if Z.abs x <? 10 then txt "0" else []) ++ digits 3 (Z.abs x).

(** [%.<p>g] *)
Definition show_g (p : Z) (v : spec_float) : text :=
  match v with
  | S754_zero s => (if s then txt "-" else []) ++ txt "0"
  | S754_infinity s => (if s then txt "-" else []) ++ txt "inf"
  | S754_nan => txt "nan"
  | S754_finite s m e =>
      (if s then txt "-" else []) ++
      (if 0 <=? e then show_positive p (Zpos m * 2 ^ e) 1 else show_positive p (Zpos m) (2 ^ (- e)))
  end.

Definition show_float (v : spec_float) : text := show_g 6 v.

Example show_examples :
  show_float (fdiv (float_of_Z 409146138) (float_of_Z 10000000)) = txt "40.9146" ∧
  show_float (fdiv (float_of_Z (-746188906)) (float_of_Z 10000000)) = txt "-74.6189" ∧
  show_float (decimal 1 1000) = txt "0.001" ∧ show_float (decimal 1 100000) = txt "1e-05" ∧
  show_float (double_of_Z 100) = txt "100" ∧ show_float (double_of_Z 12345678) = txt "1.23457e+07" ∧
  show_g 9 (to_float (decimal 1 10)) = txt "0.100000001" ∧ show_g 9 (float_of_Z 60) = txt "60".
Proof. vm_compute. tauto. Qed.
