(* ===== verification/Json.v ===== *)
(** JSON text as far as the programs use it: objects with names without escapes, the values
    of which are numbers, [true] and [false].  The grammar of such objects, with white space
    wherever it may stand; the numbers that the programs print are in it; and a parser of
    such objects, which shows that the grammar determines the members. *)
From Stdlib Require Import Floats.SpecFloat.
From S2P Require Import Prelude Text Float.
Local Open Scope Z_scope.
Local Open Scope list_scope.

(** ** The grammar *)

Definition json_space (c : ascii) : bool :=
  (code c =? 32) || (code c =? 9) || (code c =? 10) || (code c =? 13).
Definition blank (t : text) : Prop := Forall (λ c, json_space c = true) t.

Definition all_digits (t : text) : Prop := Forall (λ c, isdigit c = true) t.

(** The parts of a number: no zero leads another digit. *)
Definition json_integer (t : text) : Prop :=
  t = txt "0" ∨ ∃ c ds, t = c :: ds ∧ isdigit c = true ∧ c ≠ "0"%char ∧ all_digits ds.
Definition json_fraction (t : text) : Prop :=
  t = [] ∨ ∃ ds, t = "."%char :: ds ∧ ds ≠ [] ∧ all_digits ds.
Definition json_exponent (t : text) : Prop :=
  t = [] ∨ ∃ c sg ds, t = c :: sg ++ ds ∧ (c = "e"%char ∨ c = "E"%char) ∧
    (sg = [] ∨ sg = txt "+" ∨ sg = txt "-") ∧ ds ≠ [] ∧ all_digits ds.
Definition json_unsigned (t : text) : Prop :=
  ∃ i f e, t = i ++ f ++ e ∧ json_integer i ∧ json_fraction f ∧ json_exponent e.
Definition json_number (t : text) : Prop :=
  ∃ sg u, t = sg ++ u ∧ (sg = [] ∨ sg = txt "-") ∧ json_unsigned u.

Definition json_scalar (t : text) : Prop := t = txt "true" ∨ t = txt "false" ∨ json_number t.

(** A name: printable characters that need no escape. *)
Definition name_char (c : ascii) : bool :=
  (32 <=? code c) && (code c <? 127) && negb (Ascii.eqb dquote c) && negb (code c =? 92).
Definition json_name (t : text) : Prop := forallb name_char t = true.

(** A member of an object, with the text of its value. *)
Definition json_member (kv : text * text) (t : text) : Prop :=
  ∃ a b c d, t = a ++ dquote :: kv.1 ++ dquote :: b ++ ":"%char :: c ++ kv.2 ++ d ∧
    blank a ∧ blank b ∧ blank c ∧ blank d ∧ json_name kv.1 ∧ json_scalar kv.2.

Fixpoint json_members (kvs : list (text * text)) (t : text) : Prop :=
  match kvs with
  | [] => False
  | [kv] => json_member kv t
  | kv :: kvs => ∃ t1 t2, t = t1 ++ ","%char :: t2 ∧ json_member kv t1 ∧ json_members kvs t2
  end.

(** The text of an object with at least one member. *)
Definition json_object (kvs : list (text * text)) (t : text) : Prop :=
  ∃ a m b, t = a ++ "{"%char :: m ++ "}"%char :: b ∧ blank a ∧ blank b ∧ json_members kvs m.

(** ** Printed integers *)

Lemma digits_lead fuel n :
  0 < n < 10 ^ Z.of_nat fuel →
  ∃ c ds, digits fuel n = c :: ds ∧ isdigit c = true ∧ c ≠ "0"%char ∧ all_digits ds.
Proof.
  revert n. induction fuel as [|fuel IH]; intros n Hn; [simpl in Hn; lia|]. cbn [digits].
  rewrite Nat2Z.inj_succ, Z.pow_succ_r in Hn by lia. destruct (Z.ltb_spec n 10).
  - exists (digit n), []. split; [done|]. split; [apply digit_isdigit; lia|]. split; [|constructor].
    intros E. apply (f_equal code) in E. rewrite digit_code in E by lia. change (code "0") with 48 in E. lia.
  - destruct (IH (n / 10)) as (c & ds & -> & Hc & Hne & Hds).
    { split; [apply Z.div_str_pos; lia|apply Z.div_lt_upper_bound; lia]. }
    exists c, (ds ++ [digit (n mod 10)]). split_and!; try done. apply Forall_app. split; [done|].
    constructor; [|constructor]. apply digit_isdigit, Z.mod_pos_bound. lia.
Qed.

Lemma digits_length fuel k n :
  (k < fuel)%nat → 10 ^ Z.of_nat k ≤ n < 10 ^ Z.of_nat (S k) → length (digits fuel n) = S k.
Proof.
  revert k n. induction fuel as [|fuel IH]; intros k n Hk Hn; [lia|]. cbn [digits].
  rewrite Nat2Z.inj_succ, Z.pow_succ_r in Hn by lia. destruct k as [|k].
  - destruct (Z.ltb_spec n 10); [done|simpl in Hn; lia].
  - destruct (Z.ltb_spec n 10).
    + rewrite Nat2Z.inj_succ, Z.pow_succ_r in Hn by lia. pose proof (Z.pow_pos_nonneg 10 (Z.of_nat k)). lia.
    + rewrite length_app, (IH k); [simpl; lia|lia|].
      rewrite Nat2Z.inj_succ, Z.pow_succ_r in Hn |- * by lia. split; [apply Z.div_le_lower_bound|apply Z.div_lt_upper_bound]; lia.
Qed.

Lemma digits_integer fuel n : 0 ≤ n < 10 ^ Z.of_nat (S fuel) → json_integer (digits (S fuel) n).
Proof.
  intros Hn. destruct (decide (n = 0)) as [->|]; [by left|]. right. apply digits_lead. lia.
Qed.

Lemma number_integer sg i : sg = [] ∨ sg = txt "-" → json_integer i → json_number (sg ++ i).
Proof.
  intros Hsg Hi. exists sg, i. split_and!; [done..|]. exists i, [], []. rewrite !app_nil_r. split_and!; try done; by left.
Qed.

Lemma to_text_number z : - 2 ^ 63 ≤ z < 2 ^ 63 → json_number (to_text z).
Proof.
  intros Hz. assert (2 ^ 63 < 10 ^ Z.of_nat 20) by done. unfold to_text. destruct (Z.ltb_spec z 0).
  - apply (number_integer (txt "-")); [by right|]. apply (digits_integer 19). lia.
  - apply (number_integer []); [by left|]. apply (digits_integer 19). lia.
Qed.

(** ** Printed floating-point numbers *)

(** What is left of a text without the zeros at its end. *)
Lemma strip_zeros_fraction a b :
  all_digits b → ∃ f, strip_zeros (a ++ "."%char :: b) = a ++ f ∧ json_fraction f.
Proof.
  intros Hb. unfold strip_zeros.
  assert (rev (a ++ "."%char :: b) = rev b ++ "."%char :: rev a) as ->.
  { rewrite rev_app_distr. cbn [rev]. by rewrite <- app_assoc. }
  assert (all_digits (rev b)) as Hr by by apply Forall_rev.
  assert (∀ x r, all_digits (x :: r) → x ≠ "0"%char →
    ∃ f, rev (x :: r ++ "."%char :: rev a) = a ++ f ∧ json_fraction f) as Hkeep.
  { intros x r [Hx Hrs]%Forall_cons Hne. exists ("."%char :: rev r ++ [x]). split.
    - cbn [rev]. rewrite rev_app_distr. cbn [rev]. rewrite rev_involutive, <- !app_assoc. done.
    - right. eexists. split; [done|]. split; [by intros []%app_eq_nil|].
      apply Forall_app. split; [by apply Forall_rev|by constructor]. }
  induction (rev b) as [|x r IH].
  - exists []. cbn [app drop_zeros]. rewrite rev_involutive, app_nil_r. split; [done|by left].
  - pose proof Hr as [Hx Hrs]%Forall_cons. destruct (decide (x = "0"%char)) as [->|Hne]; [by apply IH|].
    assert (drop_zeros ((x :: r) ++ "."%char :: rev a) = x :: r ++ "."%char :: rev a) as ->.
    { cbn. destruct x as [[] [] [] [] [] [] [] []]; done. }
    destruct (Hkeep x r) as (f & Hf & Hj); [done..|]. exists f. split; [|done]. rewrite <- Hf.
    destruct x as [[] [] [] [] [] [] [] []]; done.
Qed.

Definition below10 (n d x : Z) : Prop := n * 10 ^ Z.max 0 (- x) < d * 10 ^ Z.max 0 x.

(** The decimal exponent: [10^x <= n/d < 10^(x+1)]. *)
Lemma exponent10_spec fuel n d x y :
  below10 n d (x + 1) → ¬ below10 n d y → y ≤ x → x - y < Z.of_nat fuel →
  ¬ below10 n d (exponent10 fuel n d x) ∧ below10 n d (exponent10 fuel n d x + 1).
Proof.
  revert x. induction fuel as [|fuel IH]; intros x Hx Hy Hyx Hf; [lia|]. cbn [exponent10].
  destruct (Z.ltb_spec (n * 10 ^ Z.max 0 (- x)) (d * 10 ^ Z.max 0 x)) as [Hlt|Hge].
  - assert (y ≠ x) by (intros ->; by apply Hy). apply IH; [|done|lia|lia].
    by replace (x - 1 + 1) with x by lia.
  - split; [unfold below10; lia|done].
Qed.

Lemma exponent10_range fuel n d x y : ¬ below10 n d y → y ≤ x → y ≤ exponent10 fuel n d x ≤ x.
Proof.
  intros Hlo. revert x. induction fuel as [|fuel IH]; intros x Hyx; cbn [exponent10]; [lia|].
  destruct (Z.ltb_spec (n * 10 ^ Z.max 0 (- x)) (d * 10 ^ Z.max 0 x)) as [Hlt|Hge]; [|lia].
  assert (y ≠ x) by (intros ->; by apply Hlo). specialize (IH (x - 1) ltac:(lia)). lia.
Qed.

Lemma div_half_even_bounds n d a b : 0 < d → a * d ≤ n ≤ b * d → a ≤ div_half_even n d ≤ b.
Proof.
  intros Hd [Ha Hb]. unfold div_half_even. pose proof (Z.div_mod n d ltac:(lia)). pose proof (Z.mod_pos_bound n d Hd).
  assert (a ≤ n / d) by (apply Z.div_le_lower_bound; lia).
  assert (n / d ≤ b) by (apply Z.div_le_upper_bound; lia).
  assert (0 < n mod d → n / d < b) by nia.
  destruct (Z.ltb_spec (2 * (n mod d)) d); [lia|]. destruct (Z.ltb_spec d (2 * (n mod d))); [lia|].
  destruct (Z.even _); lia.
Qed.

(** The digits of a number: [p] of them. *)
Lemma rounded_digits p n d x :
  0 < p → 0 < n → 0 < d → ¬ below10 n d x → below10 n d (x + 1) →
  10 ^ (p - 1) ≤ (if x <? p then div_half_even (n * 10 ^ (p - 1 - x)) d
                  else div_half_even n (d * 10 ^ (x - p + 1))) ≤ 10 ^ p.
Proof.
  unfold below10. intros Hp Hn Hd Hlo Hhi. apply Z.nlt_ge in Hlo.
  assert (∀ k, 0 ≤ k → 0 < 10 ^ k) as Hpow by (intros; apply Z.pow_pos_nonneg; lia).
  assert (∀ a b c, 0 ≤ a → 0 ≤ b → c = a + b → 10 ^ c = 10 ^ a * 10 ^ b) as Hadd
    by (intros a b c ? ? ->; by apply Z.pow_add_r).
  destruct (Z.ltb_spec x p).
  - pose proof (Hpow (p - 1 - x) ltac:(lia)) as Hk.
    apply div_half_even_bounds; [done|]. destruct (Z.leb_spec 0 x).
    + rewrite (Z.max_l 0 (- x)), (Z.max_r 0 x) in Hlo by lia. rewrite (Z.max_l 0 (- (x + 1))), (Z.max_r 0 (x + 1)) in Hhi by lia.
      rewrite (Hadd x (p - 1 - x) (p - 1)), (Hadd (x + 1) (p - 1 - x) p) by lia. nia.
    + rewrite (Z.max_r 0 (- x)), (Z.max_l 0 x) in Hlo by lia. rewrite (Z.max_r 0 (- (x + 1))), (Z.max_l 0 (x + 1)) in Hhi by lia.
      rewrite (Hadd (p - 1) (- x) (p - 1 - x)) by lia. pose proof (Hpow (p - 1) ltac:(lia)).
      rewrite (Hadd (- (x + 1)) 1 (- x)) in * by lia. rewrite (Hadd (p - 1) 1 p) by lia. nia.
  - pose proof (Hpow (x - p + 1) ltac:(lia)). apply div_half_even_bounds; [nia|].
    rewrite (Z.max_l 0 (- x)), (Z.max_r 0 x) in Hlo by lia. rewrite (Z.max_l 0 (- (x + 1))), (Z.max_r 0 (x + 1)) in Hhi by lia.
    rewrite (Hadd (p - 1) (x - p + 1) x) in Hlo by lia. rewrite (Hadd p (x - p + 1) (x + 1)) in Hhi by lia. nia.
Qed.

Lemma all_digits_take k t : all_digits t → all_digits (take k t).
Proof. apply Forall_take. Qed.
Lemma all_digits_drop k t : all_digits t → all_digits (drop k t).
Proof. apply Forall_drop. Qed.

(** The text of [ds], of [p] digits the first of which is no zero, times [10^(x-p+1)]. *)
Lemma show_digits_number p x c ds' :
  let ds := c :: ds' in
  isdigit c = true → c ≠ "0"%char → all_digits ds' → length ds = Z.to_nat p → Z.abs x < 1000 →
  json_unsigned
    (if (-4 <=? x) && (x <? p) then
       if 0 <=? x then strip_zeros (take (Z.to_nat (x + 1)) ds ++ txt "." ++ drop (Z.to_nat (x + 1)) ds)
       else strip_zeros (txt "0." ++ replicate (Z.to_nat (- x - 1)) "0"%char ++ ds)
     else
       strip_zeros (take 1 ds ++ txt "." ++ drop 1 ds) ++ txt "e" ++
       (if x <? 0 then txt "-" else txt "+") ++
       (if Z.abs x <? 10 then txt "0" else []) ++ digits 3 (Z.abs x)).
Proof.
  intros ds Hc Hne Hds Hlen Hx. assert (all_digits ds) as Hall by by constructor.
  assert (∀ k, json_integer (take (S k) ds)) as Hint.
  { intros k. right. exists c, (take k ds'). cbn. split_and!; try done. by apply all_digits_take. }
  destruct ((-4 <=? x) && (x <? p)).
  - destruct (Z.leb_spec 0 x).
    + destruct (strip_zeros_fraction (take (Z.to_nat (x + 1)) ds) (drop (Z.to_nat (x + 1)) ds)) as (f & Hf & Hj);
        [by apply all_digits_drop|]. cbn [txt String.list_ascii_of_string app] in *. rewrite Hf.
      exists (take (Z.to_nat (x + 1)) ds), f, []. rewrite app_nil_r. split_and!; try done; try (by left).
      replace (Z.to_nat (x + 1)) with (S (Z.to_nat x)) by lia. apply Hint.
    + destruct (strip_zeros_fraction (txt "0") (replicate (Z.to_nat (- x - 1)) "0"%char ++ ds)) as (f & Hf & Hj).
      { apply Forall_app. split; [by apply Forall_replicate|done]. }
      cbn [txt String.list_ascii_of_string app] in *. rewrite Hf.
      exists (txt "0"), f, []. rewrite app_nil_r. split_and!; try done; by left.
  - destruct (strip_zeros_fraction (take 1 ds) (drop 1 ds)) as (f & Hf & Hj); [by apply all_digits_drop|].
    change (txt "." ++ drop 1 ds) with ("."%char :: drop 1 ds). rewrite Hf.
    eexists (take 1 ds), f, _. rewrite <- app_assoc. split_and!; [reflexivity|apply (Hint 0%nat)|done|].
    right. exists "e"%char, (if x <? 0 then txt "-" else txt "+"), ((if Z.abs x <? 10 then txt "0" else []) ++ digits 3 (Z.abs x)).
    split_and!; [done|by left|destruct (x <? 0); auto| |].
    + destruct (digits_cons 2 (Z.abs x)) as (d & s & -> & _); [lia|]. by destruct (Z.abs x <? 10).
    + apply Forall_app. split; [by destruct (Z.abs x <? 10); repeat constructor|]. apply digits_isdigit. lia.
Qed.

Lemma show_positive_number p n d y :
  0 < p → 0 < n → 0 < d → below10 n d 311 → ¬ below10 n d y → -380 < y ≤ 310 → p < 100 → json_unsigned (show_positive p n d).
Proof.
  intros Hp Hn Hd Hhi Hlo Hy Hp'. unfold show_positive.
  destruct (exponent10_spec 700 n d 310 y) as [H1 H2]; [done|done|lia|lia|].
  pose proof (exponent10_range 700 n d 310 y Hlo ltac:(lia)) as Hrange.
  set (x := exponent10 700 n d 310) in *. pose proof (rounded_digits p n d x Hp Hn Hd H1 H2) as Hr.
  set (r := if x <? p then _ else _) in *.
  assert (∀ r, 10 ^ (p - 1) ≤ r < 10 ^ p → ∃ c ds, digits (Z.to_nat p) r = c :: ds ∧ isdigit c = true ∧
    c ≠ "0"%char ∧ all_digits ds ∧ length (c :: ds) = Z.to_nat p) as Hds.
  { intros r' Hr'. pose proof (Z.pow_pos_nonneg 10 (p - 1)). destruct (digits_lead (Z.to_nat p) r') as (c & ds & E & Hc & Hne & Hall).
    { rewrite Z2Nat.id by lia. lia. }
    exists c, ds. split_and!; try done. rewrite <- E. rewrite (digits_length _ (Z.to_nat (p - 1))); [lia|lia|].
    rewrite Nat2Z.inj_succ, !Z2Nat.id by lia. by replace (Z.succ (p - 1)) with p by lia. }
  assert (∃ r' x', (if r =? 10 ^ p then (10 ^ (p - 1), x + 1) else (r, x)) = (r', x') ∧
    10 ^ (p - 1) ≤ r' < 10 ^ p ∧ Z.abs x' < 1000) as (r' & x' & -> & Hr' & Hx').
  { destruct (Z.eqb_spec r (10 ^ p)).
    - eexists _, _. split; [done|]. split; [|lia]. split; [lia|]. apply Z.pow_lt_mono_r; lia.
    - eexists _, _. split; [done|]. split; [lia|]. lia. }
  destruct (Hds r' Hr') as (c & ds & -> & Hc & Hne & Hall & Hlen). by apply show_digits_number.
Qed.

(** A finite value of the type [float]. *)
Definition finite_float (v : float) : Prop :=
  match v with
  | S754_zero _ => True
  | S754_finite _ m e => Zpos m < 2 ^ 24 ∧ -149 ≤ e ≤ 104
  | _ => False
  end.

Lemma show_g_number v : finite_float v → json_number (show_g 9 v).
Proof.
  destruct v as [s|s| |s m e]; [|done|done|]; intros Hv.
  - cbn [show_g]. apply number_integer; [destruct s; auto|by left].
  - destruct Hv as [Hm He]. cbn [show_g].
    exists (if s then txt "-" else []). eexists. split; [reflexivity|]. split; [destruct s; auto|].
    assert (∀ k, 0 ≤ k → 0 < 2 ^ k) as Hpow by (intros; apply Z.pow_pos_nonneg; lia).
    assert (1 < 10 ^ 46) by done. assert (2 ^ 24 * 2 ^ 104 < 10 ^ 311) by done. assert (2 ^ 149 < 10 ^ 46) by done.
    destruct (Z.leb_spec 0 e).
    + pose proof (Hpow e ltac:(done)). assert (2 ^ e ≤ 2 ^ 104) by (apply Z.pow_le_mono_r; lia).
      assert (Zpos m * 2 ^ e ≤ 2 ^ 24 * 2 ^ 104) by (apply Z.mul_le_mono_nonneg; lia).
      assert (0 < Zpos m * 2 ^ e) by (apply Z.mul_pos_pos; lia).
      apply (show_positive_number _ _ _ (-46)); try lia.
      * change (Zpos m * 2 ^ e * 1 < 1 * 10 ^ 311). lia.
      * change (¬ Zpos m * 2 ^ e * 10 ^ 46 < 1 * 1). lia.
    + pose proof (Hpow (- e) ltac:(lia)). assert (2 ^ (- e) ≤ 2 ^ 149) by (apply Z.pow_le_mono_r; lia).
      assert (2 ^ 24 < 10 ^ 311) by done. assert (10 ^ 311 ≤ 2 ^ (- e) * 10 ^ 311) by lia.
      apply (show_positive_number _ _ _ (-46)); try lia.
      * change (Zpos m * 1 < 2 ^ (- e) * 10 ^ 311). lia.
      * change (¬ Zpos m * 10 ^ 46 < 2 ^ (- e) * 1). lia.
Qed.

(** ** A parser of such objects *)

Fixpoint skip_blank (t : text) : text :=
  match t with c :: t' => if json_space c then skip_blank t' else t | [] => [] end.

(** A text up to the first character for which [stop] holds, and the rest from there. *)
Fixpoint span (stop : ascii → bool) (t : text) : text * text :=
  match t with
  | [] => ([], [])
  | c :: t' => if stop c then ([], t) else let '(a, b) := span stop t' in (c :: a, b)
  end.

Definition ends_value (c : ascii) : bool := json_space c || Ascii.eqb c "," || Ascii.eqb c "}".

Fixpoint read_members (fuel : nat) (t : text) : option (list (text * text)) :=
  match fuel with
  | O => None
  | S fuel =>
      match skip_blank t with
      | q :: t =>
          if Ascii.eqb q dquote then
            let '(name, t) := span (Ascii.eqb dquote) t in
            match skip_blank (drop 1 t) with
            | ":"%char :: t =>
                let '(v, t) := span ends_value (skip_blank t) in
                match skip_blank t with
                | ","%char :: t => ((name, v) ::.) <$> read_members fuel t
                | "}"%char :: t => if bool_decide (skip_blank t = []) then Some [(name, v)] else None
                | _ => None
                end
            | _ => None
            end
          else None
      | [] => None
      end
  end.

Definition read_object (t : text) : option (list (text * text)) :=
  match skip_blank t with "{"%char :: t => read_members (length t) t | _ => None end.

Lemma skip_blank_app a t : blank a → skip_blank (a ++ t) = skip_blank t.
Proof. induction 1 as [|c a Hc Ha IH]; [done|]. cbn. by rewrite Hc. Qed.

Lemma skip_blank_all a : blank a → skip_blank a = [].
Proof. intros Ha. rewrite <- (app_nil_r a). by rewrite skip_blank_app. Qed.

Lemma span_app stop a c t : Forall (λ d, stop d = false) a → stop c = true → span stop (a ++ c :: t) = (a, c :: t).
Proof. intros Ha Hc. induction Ha as [|d a Hd Ha IH]; cbn; [by rewrite Hc|]. by rewrite Hd, IH. Qed.

(** No character of a value ends it. *)
Lemma digit_in_value c : isdigit c = true → ends_value c = false.
Proof. destruct c as [[] [] [] [] [] [] [] []]; done. Qed.

Lemma digits_in_value t : all_digits t → Forall (λ c, ends_value c = false) t.
Proof. intros Ht. eapply Forall_impl; [exact Ht|]. apply digit_in_value. Qed.

Lemma number_in_value t : json_number t → t ≠ [] ∧ Forall (λ c, ends_value c = false) t.
Proof.
  intros (sg & u & -> & Hsg & i & f & e & -> & Hi & Hf & He).
  assert (i ≠ [] ∧ Forall (λ c, ends_value c = false) i) as [Hne Hiv].
  { destruct Hi as [->|(c & ds & -> & Hc & _ & Hds)]; split; try done; repeat constructor.
    - by apply digit_in_value.
    - by apply digits_in_value. }
  split; [intros [_ [Hn _]%app_eq_nil]%app_eq_nil; done|]. rewrite !Forall_app. split_and!.
  - destruct Hsg as [->| ->]; repeat constructor.
  - done.
  - destruct Hf as [->|(ds & -> & _ & Hds)]; constructor; [done|by apply digits_in_value].
  - destruct He as [->|(c & s & ds & -> & Hc & Hs & _ & Hds)]; [constructor|]. constructor; [by destruct Hc as [->| ->]|].
    apply Forall_app. split; [destruct Hs as [->|[->| ->]]; repeat constructor|by apply digits_in_value].
Qed.

Lemma scalar_in_value t : json_scalar t → t ≠ [] ∧ Forall (λ c, ends_value c = false) t.
Proof. intros [->|[->|Ht]]; [split; [done|repeat constructor]..|by apply number_in_value]. Qed.

(** One member is read, and what follows it is a comma or the end of the object. *)
Lemma read_member kv t c rest fuel :
  json_member kv t → c = ","%char ∨ c = "}"%char →
  read_members (S fuel) (t ++ c :: rest) =
    if Ascii.eqb c "," then (kv ::.) <$> read_members fuel rest
    else if bool_decide (skip_blank rest = []) then Some [kv] else None.
Proof.
  intros (a & b & c' & d & -> & Ha & Hb & Hc & Hd & Hn & Hs) Hcc. cbn [read_members].
  rewrite <- app_assoc, skip_blank_app by done. cbn [app skip_blank].
  change (json_space dquote) with false. cbn match. rewrite Ascii.eqb_refl.
  rewrite <- app_assoc. cbn [app]. rewrite span_app; [|clear -Hn|apply Ascii.eqb_refl].
  2: { unfold json_name in Hn. apply Forall_forall. intros x Hx. rewrite forallb_forall in Hn.
       apply list_elem_of_In, Hn in Hx. unfold name_char in Hx. destruct (Ascii.eqb dquote x); [|done].
       by rewrite andb_false_r in Hx. }
  cbn [skipn app]. rewrite drop_0, <- app_assoc, skip_blank_app by done.
  cbn [app skip_blank]. change (json_space ":") with false. cbn match. rewrite <- app_assoc, skip_blank_app by done.
  destruct (scalar_in_value _ Hs) as [Hne Hv].
  assert (skip_blank ((kv.2 ++ d) ++ c :: rest) = kv.2 ++ (d ++ c :: rest)) as ->.
  { rewrite <- app_assoc. destruct Hv as [|x v Hx _]; [done|]. cbn [app skip_blank]. unfold ends_value in Hx.
    by destruct (json_space x). }
  assert (ends_value c = true ∧ json_space c = false) as [Hce Hcs] by by destruct Hcc as [->| ->].
  assert (span ends_value (kv.2 ++ (d ++ c :: rest)) = (kv.2, d ++ c :: rest)) as ->.
  { destruct Hd as [|x d Hx Hd]; cbn [app]; apply span_app; try done. unfold ends_value. by rewrite Hx. }
  rewrite skip_blank_app by done. cbn [skip_blank]. rewrite Hcs. destruct kv as [k v]. cbn [fst snd].
  by destruct Hcc as [->| ->].
Qed.

Lemma read_members_all kvs m b fuel :
  json_members kvs m → blank b → (length kvs ≤ fuel)%nat → read_members fuel (m ++ "}"%char :: b) = Some kvs.
Proof.
  revert m fuel. induction kvs as [|kv kvs IH]; intros m fuel Hm Hb Hf; [done|].
  destruct fuel as [|fuel]; [simpl in Hf; lia|]. cbn [json_members] in Hm. destruct kvs as [|kv' kvs].
  - rewrite (read_member kv) by auto. cbn. by rewrite skip_blank_all.
  - destruct Hm as (t1 & t2 & -> & H1 & H2). rewrite <- app_assoc. cbn [app]. rewrite (read_member kv) by auto.
    change (Ascii.eqb "," ",") with true. cbn match. rewrite (IH t2) by (done || simpl in *; lia). done.
Qed.

Lemma json_members_length kvs m : json_members kvs m → (length kvs ≤ length m)%nat.
Proof.
  assert (∀ kv t, json_member kv t → (1 ≤ length t)%nat) as H1.
  { intros kv t (a & b & c & d & -> & _). rewrite length_app. cbn. lia. }
  revert m. induction kvs as [|kv kvs IH]; intros m Hm; [simpl; lia|]. cbn [json_members] in Hm. destruct kvs as [|kv' kvs].
  - by eapply H1.
  - destruct Hm as (t1 & t2 & -> & Ht1 & Ht2). apply IH in Ht2. rewrite length_app. simpl in *. lia.
Qed.

(** The members of an object are read, so that its text has only these. *)
Theorem read_object_members kvs t : json_object kvs t → read_object t = Some kvs.
Proof.
  intros (a & m & b & -> & Ha & Hb & Hm). unfold read_object. rewrite skip_blank_app by done. cbn [skip_blank].
  change (json_space "{") with false. cbn match. apply read_members_all; [done|done|].
  rewrite length_app. apply json_members_length in Hm. lia.
Qed.

Lemma read_object_members_witness :
  read_object (txt "{ 'a' :1.50, 'b':true }" ≫= λ c, if Ascii.eqb c "'" then [dquote] else [c]) =
    Some [(txt "a", txt "1.50"); (txt "b", txt "true")].
Proof.
  apply (read_object_members [(txt "a", txt "1.50"); (txt "b", txt "true")]).
  exists [], (txt " 'a' :1.50, 'b':true " ≫= λ c, if Ascii.eqb c "'" then [dquote] else [c]), [].
  split_and!; [reflexivity|constructor|constructor|]. cbn [json_members].
  exists (txt " 'a' :1.50" ≫= λ c, if Ascii.eqb c "'" then [dquote] else [c]),
    (txt " 'b':true " ≫= λ c, if Ascii.eqb c "'" then [dquote] else [c]).
  split_and!; [reflexivity| |].
  - exists (txt " "), (txt " "), [], []. split_and!; try reflexivity; try (by repeat constructor).
    right; right. exists [], (txt "1.50"). split_and!; [reflexivity|by left|]. exists (txt "1"), (txt ".50"), [].
    split_and!; [reflexivity| | |by left].
    + right. exists "1"%char, []. repeat split; [discriminate|constructor].
    + right. exists (txt "50"). repeat split; [discriminate|repeat constructor].
  - exists (txt " "), [], [], (txt " "). split_and!; try reflexivity; try (by repeat constructor).
Defined.
