(* ===== verification/Rounding.v ===== *)
(** How far the operations of [double] are from exact arithmetic: the value of a finite
    [double] as a rational number, and for sums, differences and products of moderate size
    the bound of IEEE 754 on the rounding error, half a unit in the last place, proved of the
    definitions of [SpecFloat] by which [Float] computes. *)
From Stdlib Require Import Floats.SpecFloat QArith.QArith_base QArith.Qabs QArith.Qpower Lqa.
From S2P Require Import Prelude Float.
Local Open Scope Z_scope.

(** ** Shifting with a rounding bit and a sticky bit *)

(** [r] is [mx] shifted right by [n] bits, with what was shifted out. *)
Definition shifted (mx n : Z) (r : shr_record) : Prop :=
  0 ≤ n ∧ 0 ≤ shr_m r ∧ ∃ f, mx = shr_m r * 2 ^ n + f ∧ 0 ≤ f < 2 ^ n ∧
  match loc_of_shr_record r with
  | loc_Exact => f = 0
  | loc_Inexact Lt => 0 < f ∧ 2 * f < 2 ^ n
  | loc_Inexact Eq => 2 * f = 2 ^ n
  | loc_Inexact Gt => 2 ^ n < 2 * f
  end.

Lemma shifted_start mx : 0 ≤ mx → shifted mx 0 (shr_record_of_loc mx loc_Exact).
Proof. intros Hm. split_and!; [done|done|]. exists 0. cbn. lia. Qed.

Lemma shr_1_spec m r s : 0 ≤ m →
  shr_1 (Build_shr_record m r s) = Build_shr_record (m / 2) (Z.odd m) (r || s).
Proof.
  destruct m as [|[p|p|]|p]; intros Hm; try done; cbn [shr_1]; f_equal.
  - rewrite (Pos2Z.inj_xI p). replace (2 * Zpos p + 1) with (1 + Zpos p * 2) by lia. by rewrite Z.div_add.
  - rewrite (Pos2Z.inj_xO p), Z.mul_comm. by rewrite Z.div_mul.
Qed.

Lemma shifted_step mx n r : shifted mx n r → shifted mx (n + 1) (shr_1 r).
Proof.
  destruct r as [m r s]. intros (Hn & Hm & f & Hf & Hb & Hl). cbn [shr_m] in *. rewrite shr_1_spec by done.
  assert (2 ^ (n + 1) = 2 * 2 ^ n) as Hp by (rewrite Z.pow_add_r by lia; lia).
  pose proof (Z.div_mod m 2 ltac:(lia)) as Hdm. rewrite Zmod_odd in Hdm.
  split_and!; [lia|by apply Z.div_pos|]. cbn [shr_m].
  exists ((if Z.odd m then 1 else 0) * 2 ^ n + f). rewrite Hp.
  split; [rewrite Hf, Hdm at 1; lia|]. split; [destruct (Z.odd m); lia|].
  destruct r, s, (Z.odd m); cbn in *; lia.
Qed.

Lemma iter_shifted mx p : ∀ n r, shifted mx n r → shifted mx (n + Zpos p) (SpecFloat.iter_pos shr_1 p r).
Proof.
  induction p as [p IH|p IH|]; intros n r Hr; cbn [iter_pos].
  - replace (n + Zpos (xI p)) with (n + 1 + Zpos p + Zpos p) by lia. by apply IH, IH, shifted_step.
  - replace (n + Zpos (xO p)) with (n + Zpos p + Zpos p) by lia. by apply IH, IH.
  - by apply shifted_step.
Qed.

(** Rounding to nearest is off by at most half of what was shifted over. *)
Lemma rounded_shifted mx n r :
  shifted mx n r →
  let m := round_nearest_even (shr_m r) (loc_of_shr_record r) in
  0 ≤ m ∧ 2 * Z.abs (m * 2 ^ n - mx) ≤ 2 ^ n ∧ (∀ b, 0 ≤ n → mx < b * 2 ^ n → m ≤ b).
Proof.
  intros (Hn & Hm & f & Hf & Hb & Hl) m. assert (shr_m r ≤ m ≤ shr_m r + 1) as Hr.
  { unfold m, round_nearest_even. destruct (loc_of_shr_record r) as [|[]]; try lia. destruct (Z.even _); lia. }
  assert (2 * Z.abs (m * 2 ^ n - mx) ≤ 2 ^ n) as Hd.
  { unfold m, round_nearest_even. rewrite Hf.
    destruct (loc_of_shr_record r) as [|[]]; try destruct (Z.even _); lia. }
  split_and!; [lia|done|]. intros b _ Hlt. assert (shr_m r < b) by nia. lia.
Qed.

Lemma digits2_bounds m :
  2 ^ (Zpos (digits2_pos m) - 1) ≤ Zpos m < 2 ^ Zpos (digits2_pos m).
Proof.
  induction m as [m IH|m IH|]; cbn [digits2_pos]; [..|done];
    rewrite Pos2Z.inj_succ; replace (Z.succ (Zpos (digits2_pos m)) - 1) with (Zpos (digits2_pos m) - 1 + 1) by lia;
    rewrite <- Z.add_1_r, !Z.pow_add_r by lia; change (2 ^ 1) with 2; lia.
Qed.

(** ** Rounding to the format of [double] *)

Lemma fexp_double e : fexp 53 1024 e = Z.max (e - 53) (-1074).
Proof. reflexivity. Qed.

Definition build (s : bool) (m e : Z) : double :=
  match m with Zpos p => S754_finite s p e | _ => S754_zero s end.

(** The second normalisation only shifts out a bit that rounding up has put in front. *)
Lemma shr_fexp_rounded m e :
  0 ≤ m → fexp 53 1024 (Zdigits2 m + e) ≤ e ∨ m = 2 ^ 53 ∧ -1074 ≤ e →
  ∃ r e', shr_fexp 53 1024 m e loc_Exact = (r, e') ∧ 0 ≤ shr_m r ∧ m = shr_m r * 2 ^ (e' - e) ∧ e ≤ e' ≤ e + 1 ∧
    (fexp 53 1024 (Zdigits2 m + e) ≤ e → e' = e).
Proof.
  intros Hm [He|[-> He]]; unfold shr_fexp.
  - exists (Build_shr_record m false false), e. cbn [shr_m]. rewrite Z.sub_diag, Z.mul_1_r. split_and!; [|done|done|lia|lia|done].
    destruct (fexp 53 1024 (Zdigits2 m + e) - e) eqn:E; cbn [shr shr_record_of_loc]; [done|lia|done].
  - change (Zdigits2 (2 ^ 53)) with 54. rewrite fexp_double. replace (Z.max (54 + e - 53) (-1074) - e) with 1 by lia.
    exists (Build_shr_record (2 ^ 52) false false), (e + 1). split; [reflexivity|]. cbn [shr_m].
    replace (e + 1 - e) with 1 by lia. split_and!; try done; try lia.
Qed.

(** The rounded value of [mx * 2^ex]: off by at most half of [K], which is either at most
    [2^-52] times [mx] or the distance of the smallest numbers. *)
Lemma binary_round_aux_spec s (mx : positive) ex :
  ex + Zpos (digits2_pos mx) ≤ 1000 → ex ≤ 971 →
  ∃ m e K, binary_round_aux 53 1024 s (Zpos mx) ex loc_Exact = build s m e ∧ 0 ≤ m ∧ ex ≤ e ∧
    2 * Z.abs (m * 2 ^ (e - ex) - Zpos mx) ≤ K ∧
    (K * 2 ^ 52 ≤ Zpos mx ∨ ex < -1074 ∧ K = 2 ^ (-1074 - ex)).
Proof.
  intros Hd Hex. pose proof (digits2_bounds mx) as Hdig. set (d := Zpos (digits2_pos mx)) in *.
  unfold binary_round_aux, shr_fexp at 1. change (Zdigits2 (Zpos mx)) with d.
  destruct (Z.le_gt_cases (fexp 53 1024 (d + ex) - ex) 0) as [Hn|Hn].
  - (* no shift *)
    assert (shr (shr_record_of_loc (Zpos mx) loc_Exact) ex (fexp 53 1024 (d + ex) - ex) =
      (Build_shr_record (Zpos mx) false false, ex)) as -> by (destruct (fexp _ _ _ - ex); [done|lia|done]).
    cbn [shr_m loc_of_shr_record round_nearest_even].
    destruct (shr_fexp_rounded (Zpos mx) ex) as (r & e & -> & Hr & Em & He & Hk); [lia|left; change (Zdigits2 (Zpos mx)) with d; lia|].
    exists (shr_m r), e, 0. split_and!; [|done|lia|rewrite <- Em; lia|left; lia].
    destruct (shr_m r) as [|q|]; [done| |lia]. cbn [build].
    destruct (Z.leb_spec e (1024 - 53)); [done|].
    exfalso. change (Zdigits2 (Zpos mx)) with d in Hk. lia.
  - destruct (fexp 53 1024 (d + ex) - ex) as [|n|] eqn:En; [lia| |lia]. cbn [shr].
    pose proof (iter_shifted (Zpos mx) n 0 _ (shifted_start (Zpos mx) ltac:(lia))) as Hs.
    set (r := SpecFloat.iter_pos shr_1 n _) in *. rewrite Z.add_0_l in Hs. rewrite fexp_double in En.
    destruct (rounded_shifted _ _ _ Hs) as (Hm1 & Herr & Hle). set (m1 := round_nearest_even _ _) in *.
    assert (m1 ≤ 2 ^ 53) as Hm53.
    { apply Hle; [lia|]. apply (Z.lt_le_trans _ (2 ^ d)); [lia|].
      rewrite <- Z.pow_add_r by lia. apply Z.pow_le_mono_r; lia. }
    destruct (shr_fexp_rounded m1 (ex + Zpos n)) as (r2 & e & -> & Hr2 & Em & He & _); [lia| |].
    { destruct (decide (m1 = 2 ^ 53)) as [->|Hne]; [right; lia|left]. rewrite fexp_double.
      assert (Zdigits2 m1 ≤ 53) as Hdm; [|lia]. destruct m1 as [|q|q]; [done| |lia].
      pose proof (digits2_bounds q). cbn [Zdigits2]. destruct (Z.le_gt_cases (Zpos (digits2_pos q)) 53); [done|].
      assert (2 ^ 53 ≤ 2 ^ (Zpos (digits2_pos q) - 1)) by (apply Z.pow_le_mono_r; lia). lia. }
    exists (shr_m r2), e, (2 ^ Zpos n). split_and!; [|done|lia| |].
    + destruct (shr_m r2) as [|q|]; [done| |lia]. cbn [build]. destruct (Z.leb_spec e (1024 - 53)); [done|].
      exfalso. lia.
    + replace (e - ex) with (e - (ex + Zpos n) + Zpos n) by lia. rewrite Z.pow_add_r by lia.
      rewrite Z.mul_assoc, <- Em. exact Herr.
    + destruct (Z.le_gt_cases (-1074) (d + ex - 53)); [left|right; split; [lia|f_equal; lia]].
      rewrite <- Z.pow_add_r by lia. replace (Zpos n + 52) with (d - 1) by lia. lia.
Qed.

(** ** Values *)
Local Open Scope Q_scope.

(** The powers of two. *)
Definition pow2 (e : Z) : Q := inject_Z 2 ^ e.

Definition sign (s : bool) (x : Q) : Q := if s then - x else x.

(** The value of a number that is finite. *)
Definition val (v : double) : Q :=
  match v with S754_finite s m e => sign s (inject_Z (Zpos m) * pow2 e) | _ => 0 end.
Definition finite (v : double) : Prop :=
  match v with S754_zero _ | S754_finite _ _ _ => True | _ => False end.

(** Half a unit in the last place, relative to the value, and the distance of the smallest
    numbers. *)
Definition ulp : Q := pow2 (-53).
Definition tiny : Q := pow2 (-1075).

(** [y] is [x] rounded. *)
Definition rounds (x y : Q) : Prop := Qabs (y - x) <= ulp * Qabs x + tiny.

Lemma pow2_pos e : 0 < pow2 e.
Proof. by apply Qpower_0_lt. Qed.

Lemma pow2_plus a b : pow2 (a + b) == pow2 a * pow2 b.
Proof. by apply Qpower_plus. Qed.

Lemma pow2_Z n : (0 <= n)%Z → inject_Z (2 ^ n) == pow2 n.
Proof. apply Zpower_Qpower. Qed.

Lemma abs_le x e : Qabs x <= e ↔ - e <= x ∧ x <= e.
Proof. apply Qabs_Qle_condition. Qed.

Lemma sign_abs s x y : Qabs (sign s x - sign s y) == Qabs (x - y).
Proof.
  destruct s; cbn [sign]; [|done]. assert (- x - - y == - (x - y)) as -> by ring. apply Qabs_opp.
Qed.

Lemma sign_abs_1 s x : Qabs (sign s x) == Qabs x.
Proof. destruct s; [apply Qabs_opp|done]. Qed.

#[global] Instance sign_proper s : Proper (Qeq ==> Qeq) (sign s).
Proof. intros x y E. destruct s; cbn [sign]; by rewrite E. Qed.

Lemma val_build s m e : (0 <= m)%Z → val (build s m e) == sign s (inject_Z m * pow2 e).
Proof.
  intros Hm. destruct m as [|p|p]; cbn [build val]; [|done|lia].
  destruct s; cbn [sign]; unfold inject_Z; ring.
Qed.

Lemma finite_build s m e : finite (build s m e).
Proof. by destruct m. Qed.

(** What is at most [2^900] has its highest bit there. *)
Lemma magnitude (mx : positive) ex b :
  inject_Z (Zpos mx) * pow2 ex <= pow2 b → (ex + Zpos (digits2_pos mx) - 1 <= b)%Z.
Proof.
  intros Hv. apply (Qpower_le_compat_l_inv (inject_Z 2)); [|by compute].
  change (pow2 (ex + Zpos (digits2_pos mx) - 1) <= pow2 b). eapply Qle_trans; [|exact Hv].
  replace (ex + Zpos (digits2_pos mx) - 1)%Z with (Zpos (digits2_pos mx) - 1 + ex)%Z by lia. rewrite pow2_plus.
  apply Qmult_le_compat_r; [|apply Qlt_le_weak, pow2_pos]. rewrite <- pow2_Z by lia.
  rewrite <- Zle_Qle. apply digits2_bounds.
Qed.

Lemma binary_round_aux_rounds s (mx : positive) ex :
  inject_Z (Zpos mx) * pow2 ex <= pow2 900 →
  let v := binary_round_aux 53 1024 s (Zpos mx) ex loc_Exact in
  finite v ∧ rounds (sign s (inject_Z (Zpos mx) * pow2 ex)) (val v).
Proof.
  intros Hv. pose proof (magnitude mx ex 900 Hv) as Hmag.
  destruct (binary_round_aux_spec s mx ex) as (m & e & K & -> & Hm & He & Herr & HK); [lia|lia|].
  split; [apply finite_build|]. unfold rounds. rewrite val_build, sign_abs, sign_abs_1 by done.
  set (x := inject_Z (Zpos mx) * pow2 ex) in *. assert (0 <= pow2 ex) as Hex by apply Qlt_le_weak, pow2_pos.
  assert (0 <= x) as Hx by (apply Qmult_le_0_compat; [done|exact Hex]).
  assert (0 < ulp) as Hulp by apply pow2_pos. assert (0 < tiny) as Htiny by apply pow2_pos.
  assert (inject_Z m * pow2 e - x == inject_Z (m * 2 ^ (e - ex) - Zpos mx) * pow2 ex) as ->.
  { unfold x, Zminus. rewrite inject_Z_plus, inject_Z_mult, inject_Z_opp, pow2_Z by lia.
    replace e with (e - ex + ex)%Z at 1 by lia. rewrite pow2_plus. unfold Zminus. ring. }
  rewrite Qabs_Qmult, (Qabs_pos (pow2 ex)), (Qabs_pos x) by done.
  assert (2 * (Qabs (inject_Z (m * 2 ^ (e - ex) - Zpos mx)) * pow2 ex) <= inject_Z K * pow2 ex) as Hd.
  { rewrite Qmult_assoc. apply Qmult_le_compat_r; [|done]. unfold Qabs. cbn [inject_Z].
    change (inject_Z 2 * inject_Z (Z.abs (m * 2 ^ (e - ex) - Zpos mx)) <= inject_Z K).
    rewrite <- inject_Z_mult, <- Zle_Qle. exact Herr. }
  assert (inject_Z K * pow2 ex <= 2 * (ulp * x) ∨ inject_Z K * pow2 ex == 2 * tiny) as HQ.
  2: { assert (0 <= ulp * x) by (apply Qmult_le_0_compat; [by apply Qlt_le_weak|done]).
       generalize dependent (ulp * x). generalize dependent (inject_Z K * pow2 ex).
       generalize dependent (Qabs (inject_Z (m * 2 ^ (e - ex) - Zpos mx)) * pow2 ex). generalize dependent tiny.
       intros. destruct HQ; lra. }
  destruct HK as [HK|[Hlow ->]].
  - left. unfold x. rewrite !Qmult_assoc. apply Qmult_le_compat_r; [|done].
    assert (inject_Z K * pow2 52 <= inject_Z (Zpos mx)) as HKQ.
    { rewrite <- pow2_Z, <- inject_Z_mult, <- Zle_Qle by done. exact HK. }
    assert (2 * ulp * pow2 52 == 1) as E by reflexivity.
    assert (inject_Z K == 2 * ulp * (inject_Z K * pow2 52)) as ->.
    { assert (2 * ulp * (inject_Z K * pow2 52) == 2 * ulp * pow2 52 * inject_Z K) as -> by ring. rewrite E. ring. }
    apply Qmult_le_l; [reflexivity|exact HKQ].
  - right. rewrite pow2_Z, <- pow2_plus by lia. replace (-1074 - ex + ex)%Z with (-1075 + 1)%Z by lia.
    rewrite pow2_plus. unfold tiny. change (pow2 1) with 2. ring.
Qed.

(** ** The operations *)

#[global] Instance rounds_proper : Proper (Qeq ==> Qeq ==> iff) rounds.
Proof. intros x x' Ex y y' Ey. unfold rounds. by rewrite Ex, Ey. Qed.

Lemma rounds_refl x : rounds x x.
Proof.
  unfold rounds. assert (x - x == 0) as -> by ring. assert (0 <= ulp * Qabs x).
  { apply Qmult_le_0_compat; [apply Qlt_le_weak, pow2_pos|apply Qabs_nonneg]. }
  assert (0 < tiny) by apply pow2_pos. generalize dependent (ulp * Qabs x). generalize dependent tiny. intros.
  change (Qabs 0) with 0. lra.
Qed.

Theorem dmul_rounds x y :
  finite x → finite y → Qabs (val x * val y) <= pow2 900 →
  finite (dmul x y) ∧ rounds (val x * val y) (val (dmul x y)).
Proof.
  assert (∀ z, rounds (0 * z) 0 ∧ rounds (z * 0) 0) as Hz.
  { intros z. assert (0 * z == 0) as -> by ring. assert (z * 0 == 0) as -> by ring. split; apply rounds_refl. }
  destruct x as [sx|sx| |sx mx ex]; try done; destruct y as [sy|sy| |sy my ey]; try done;
    intros _ _ Hv; try (by split; [done|apply Hz]).
  cbn [dmul SFmul]. cbn [val] in Hv |- *.
  assert (sign sx (inject_Z (Zpos mx) * pow2 ex) * sign sy (inject_Z (Zpos my) * pow2 ey) ==
    sign (xorb sx sy) (inject_Z (Zpos (mx * my)) * pow2 (ex + ey))) as E.
  { rewrite Pos2Z.inj_mul, inject_Z_mult, pow2_plus. destruct sx, sy; cbn [sign xorb]; ring. }
  rewrite E in Hv |- *. apply binary_round_aux_rounds. rewrite sign_abs_1 in Hv.
  rewrite Qabs_pos in Hv; [exact Hv|]. apply Qmult_le_0_compat; [done|apply Qlt_le_weak, pow2_pos].
Qed.

Lemma iter_xO mx d : Zpos (Pos.iter xO mx d) = (Zpos mx * 2 ^ Zpos d)%Z.
Proof.
  induction d as [|d IH] using Pos.peano_ind; [cbn; lia|].
  rewrite Pos.iter_succ, Pos2Z.inj_xO, IH, Pos2Z.inj_succ, Z.pow_succ_r by lia. lia.
Qed.

Lemma shl_align_value mx ex ex' :
  inject_Z (Zpos (shl_align mx ex ex').1) * pow2 (shl_align mx ex ex').2 == inject_Z (Zpos mx) * pow2 ex ∧
  ((ex' <= ex)%Z → (shl_align mx ex ex').2 = ex').
Proof.
  unfold shl_align. destruct (ex' - ex)%Z as [|d|d] eqn:E; cbn [fst snd]; [split; [done|lia]..|].
  split; [|done]. rewrite iter_xO, inject_Z_mult, pow2_Z by lia. replace ex with (ex' + Zpos d)%Z at 1 by lia.
  replace ex with (Zpos d + ex')%Z by lia. rewrite pow2_plus. ring.
Qed.

Lemma binary_normalize_rounds z ez s :
  Qabs (inject_Z z * pow2 ez) <= pow2 900 →
  finite (binary_normalize 53 1024 z ez s) ∧ rounds (inject_Z z * pow2 ez) (val (binary_normalize 53 1024 z ez s)).
Proof.
  assert (∀ s (m : positive), Qabs (inject_Z (Zpos m) * pow2 ez) <= pow2 900 →
    finite (binary_round 53 1024 s m ez) ∧ rounds (sign s (inject_Z (Zpos m) * pow2 ez)) (val (binary_round 53 1024 s m ez))) as Hround.
  { intros s' m Hv. unfold binary_round. rewrite Qabs_pos in Hv by (apply Qmult_le_0_compat; [done|apply Qlt_le_weak, pow2_pos]).
    destruct (shl_align_value m ez (fexp 53 1024 (Zpos (digits2_pos m) + ez))) as [E _].
    destruct (shl_align _ _ _) as [mz e']. cbn [fst snd] in E. rewrite <- E in Hv |- *. by apply binary_round_aux_rounds. }
  intros Hv. destruct z as [|m|m]; cbn [binary_normalize].
  - split; [done|]. assert (inject_Z 0 * pow2 ez == 0) as -> by (change (inject_Z 0) with 0; ring). apply rounds_refl.
  - apply (Hround false m Hv).
  - assert (inject_Z (Zneg m) * pow2 ez == - (inject_Z (Zpos m) * pow2 ez)) as E.
    { change (Zneg m) with (- Zpos m)%Z. rewrite inject_Z_opp. ring. }
    rewrite E, Qabs_opp in Hv. rewrite E. apply (Hround true m Hv).
Qed.

Lemma cond_Zopp_value s a : inject_Z (cond_Zopp s a) == sign s (inject_Z a).
Proof. destruct s; cbn [cond_Zopp sign]; [by rewrite inject_Z_opp|done]. Qed.

(** The sum of two mantissas brought to the same exponent. *)
Lemma aligned_sum sx mx ex sy my ey :
  let ez := Z.min ex ey in
  inject_Z (cond_Zopp sx (Zpos (shl_align mx ex ez).1) + cond_Zopp sy (Zpos (shl_align my ey ez).1)) * pow2 ez ==
  val (S754_finite sx mx ex) + val (S754_finite sy my ey).
Proof.
  intros ez. destruct (shl_align_value mx ex ez) as [Ex Hx], (shl_align_value my ey ez) as [Ey Hy].
  rewrite Hx in Ex by lia. rewrite Hy in Ey by lia. cbn [val]. rewrite <- Ex, <- Ey.
  rewrite inject_Z_plus, !cond_Zopp_value. destruct sx, sy; cbn [sign]; ring.
Qed.

Theorem dadd_rounds x y :
  finite x → finite y → Qabs (val x + val y) <= pow2 900 →
  finite (dadd x y) ∧ rounds (val x + val y) (val (dadd x y)).
Proof.
  destruct x as [sx|sx| |sx mx ex]; try done; destruct y as [sy|sy| |sy my ey]; try done; intros _ _ Hv.
  - assert (val (S754_zero sx) + val (S754_zero sy) == 0) as -> by reflexivity.
    unfold dadd; cbn [SFadd]. destruct sx, sy; (split; [done|apply rounds_refl]).
  - cbn [dadd SFadd]. split; [done|]. assert (val (S754_zero sx) + val (S754_finite sy my ey) == val (S754_finite sy my ey)) as ->
      by (cbn [val]; ring). apply rounds_refl.
  - cbn [dadd SFadd]. split; [done|]. assert (val (S754_finite sx mx ex) + val (S754_zero sy) == val (S754_finite sx mx ex)) as ->
      by (cbn [val]; ring). apply rounds_refl.
  - pose proof (aligned_sum sx mx ex sy my ey) as E. cbn zeta in E. rewrite <- E in Hv |- *.
    by apply binary_normalize_rounds.
Qed.

(** A difference is the sum with the opposite. *)
Lemma dsub_opp x y : finite x → finite y → dsub x y = dadd x (SFopp y) ∨ val (dsub x y) == 0 ∧ val x == 0 ∧ val y == 0 ∧ finite (dsub x y).
Proof.
  destruct x as [sx|sx| |sx mx ex]; try done; destruct y as [sy|sy| |sy my ey]; try done; intros _ _.
  - right. by destruct sx, sy.
  - by left.
  - by left.
  - left. unfold dsub, dadd. cbn [SFsub SFopp SFadd]. f_equal. destruct sx, sy; cbn [cond_Zopp negb]; lia.
Qed.

Theorem dsub_rounds x y :
  finite x → finite y → Qabs (val x - val y) <= pow2 900 →
  finite (dsub x y) ∧ rounds (val x - val y) (val (dsub x y)).
Proof.
  intros Hx Hy Hv. assert (val (SFopp y) == - val y) as Eo.
  { destruct y as [s|s| |s m e]; try done. cbn [SFopp val]. destruct s; cbn [negb sign]; ring. }
  destruct (dsub_opp x y Hx Hy) as [->|(E & Ex & Ey & Hf)].
  - assert (val x - val y == val x + val (SFopp y)) as E by (rewrite Eo; ring). rewrite E in Hv |- *.
    apply dadd_rounds; [done|by destruct y|done].
  - split; [done|]. rewrite E, Ex, Ey. apply rounds_refl.
Qed.
