(* ===== verification/Posix.v ===== *)
(** The system calls and C library functions the network programs use.

    They are the environment of the programs: [sys_call] lists the calls, [sys_ret]
    their answers.  A call that may fail answers [None] (or -1) for the error.  File
    descriptors are integers, bytes are characters.

    [IO] adds exceptions and undefined behaviour to the programs; [iowp] is its
    program logic. *)
From S2P Require Import Prelude Text.
Local Open Scope Z_scope.

Inductive sys_call :=
| Socket | Socketpair
| Connect (fd : Z) (addr : text) | Bind (fd : Z) (addr : text) | Listen (fd backlog : Z)
| Setsockopt (fd : Z) | Getaddrinfo (host port : text) | Getnameinfo
| Accept (fd : Z)
| Read (fd : Z) (size : Z) | Write (fd : Z) (data : text)
| Sendto (fd : Z) (data : text)
| Close (fd : Z) | Unlink (path : text)
| Select (fds : list Z)
| Ioctl (fd : Z)
| EpollCreate | EpollAdd (epfd fd : Z) | EpollWait (epfd maxevents : Z)
| Poll (fds : list (Z * Z))
| Fork
| Fgets (size : Z) | Getline
| Strerror
| Print (t : text) | Eprint (t : text).

Definition sys_ret (c : sys_call) : Type :=
  match c with
  | Socket | Accept _ => option Z          (* the new descriptor *)
  | Socketpair => option (Z * Z)
  | Connect _ _ | Bind _ _ | Listen _ _ | Setsockopt _ | Close _ | Ioctl _ => bool   (* success *)
  | Getaddrinfo _ _ => option text         (* the first address *)
  | Getnameinfo => option (text * text)    (* the host and the service *)
  | Read _ _ => option text                (* the bytes read *)
  | Write _ _ | Sendto _ _ => option Z     (* the number of bytes written *)
  | Unlink _ => unit
  | Select _ => option (list Z)            (* the readable descriptors *)
  | EpollCreate => option Z
  | EpollAdd _ _ => bool
  | EpollWait _ _ => list Z
  | Poll _ => option (list Z)              (* the returned events *)
  | Fork => option Z
  | Fgets _ => option text
  | Getline => text
  | Strerror => text
  | Print _ | Eprint _ => unit
  end.

Definition IO (A : Type) : Type := prog sys_ret (outcome A).

#[global] Instance IO_ret : MRet IO := λ A a, Ret (Ok a).
#[global] Instance IO_bind : MBind IO := λ A B f p,
  prog_bind p (λ o, match o with Ok a => f a | Throw e => Ret (Throw e) | UB w => Ret (UB w) end).

Definition sys (c : sys_call) : IO (sys_ret c) := Call c (λ r, Ret (Ok r)).
Definition io_throw {A} (e : string) : IO A := Ret (Throw e).
Definition undefined {A} (why : string) : IO A := Ret (UB why).

Definition newline : text := ["010"%char].
Definition print (t : text) : IO unit := sys (Print t).
Definition eprint (t : text) : IO unit := sys (Eprint t).

(** [perror(m)] *)
Definition perror (m : string) : IO unit :=
  e ← sys Strerror; eprint (txt m ++ txt ": " ++ e ++ newline).

(** An endless loop whose body may leave it with a value; [None] is that it still
    runs after [fuel] iterations. *)
Fixpoint forever {S A} (fuel : nat) (body : S → IO (S + A)) (s : S) : IO (option A) :=
  match fuel with
  | O => mret None
  | Datatypes.S fuel =>
      r ← body s;
      match r with inl s => forever fuel body s | inr a => mret (Some a) end
  end.

(** What a program has written to the standard output, and the data it has written
    to a descriptor. *)
Definition stdout (h : history sys_ret) : list text :=
  omap (λ c, match c with Print t => Some t | _ => None end) (calls h).
Definition written (h : history sys_ret) : list (Z * text) :=
  omap (λ c, match c with Write fd d => Some (fd, d) | _ => None end) (calls h).

Lemma stdout_app h1 h2 : stdout (h1 ++ h2) = stdout h1 ++ stdout h2.
Proof. unfold stdout, calls. by rewrite fmap_app, omap_app. Qed.
Lemma written_app h1 h2 : written (h1 ++ h2) = written h1 ++ written h2.
Proof. unfold written, calls. by rewrite fmap_app, omap_app. Qed.

Lemma run_io {A B} (env : environment sys_ret) (p : IO A) (f : A → IO B) h :
  run env (p ≫= f) h =
    let '(o, h') := run env p h in
    match o with Ok a => run env (f a) h' | Throw e => (Throw e, h') | UB w => (UB w, h') end.
Proof.
  unfold mbind, IO_bind. change (prog_bind p ?g) with (mbind (M:=prog sys_ret) g p).
  rewrite run_bind. by destruct (run env p h) as [[a| |] h'].
Qed.

(** ** The program logic *)
Section iowp.
Context (ok : ∀ c, sys_ret c → Prop).
Implicit Types (h : history sys_ret).

(** [p] returns with a result and a history that satisfy [Q], or throws after a
    history that satisfies [E]; it has no undefined behaviour. *)
Definition iowp {A} (p : IO A) (Q : A → history sys_ret → Prop)
    (E : string → history sys_ret → Prop) h : Prop :=
  always ok p (λ o h',
    match o with Ok a => Q a h' | Throw e => E e h' | UB _ => False end) h.

Lemma iowp_bind {A B} (p : IO A) (f : A → IO B) Q E h :
  iowp p (λ a, iowp (f a) Q E) E h → iowp (p ≫= f) Q E h.
Proof.
  unfold iowp. intros Hp. apply always_bind. eapply always_mono; [|exact Hp].
  by intros [a| |] h'.
Qed.

Lemma iowp_ret {A} (a : A) Q E h : Q a h → iowp (mret a) Q E h.
Proof. done. Qed.

Lemma iowp_throw {A} e (Q : A → _) E h : E e h → iowp (io_throw e) Q E h.
Proof. done. Qed.

Lemma iowp_sys c Q E h :
  (∀ r, ok c r → Q r (h ++ [existT c r])) → iowp (sys c) Q E h.
Proof. done. Qed.

Lemma iowp_mono {A} (p : IO A) (Q Q' : A → _) (E E' : string → _) h :
  (∀ a h', Q a h' → Q' a h') → (∀ e h', E e h' → E' e h') → iowp p Q E h → iowp p Q' E' h.
Proof. intros HQ HE. apply always_mono. intros [a| |] h'; auto. Qed.

Lemma iowp_run {A} (env : environment sys_ret) (p : IO A) Q E h :
  (∀ h c, ok c (env h c)) → iowp p Q E h →
  match fst (run env p h) with
  | Ok a => Q a (snd (run env p h))
  | Throw e => E e (snd (run env p h))
  | UB _ => False
  end.
Proof. intros Hok Hp. exact (always_run ok env p _ h Hok Hp). Qed.
End iowp.

(** The system knows the addresses the program asks for, and their names: [getaddrinfo] and
    [getnameinfo] do not fail. *)
Definition resolves (c : sys_call) : sys_ret c → Prop :=
  match c with
  | Getaddrinfo _ _ => λ r, is_Some r
  | Getnameinfo => λ r, is_Some r
  | _ => λ _, True
  end.

(** The calls answer within their documented ranges: [read] gives at most the bytes
    asked for, descriptors are not negative. *)
Definition posix_ok (c : sys_call) : sys_ret c → Prop :=
  match c with
  | Socket | Accept _ | EpollCreate => λ r, from_option (λ fd, 0 ≤ fd) True r
  | Read _ size => λ r, from_option (λ d, Z.of_nat (length d) ≤ size) True r
  | Write _ d | Sendto _ d =>
      λ r, from_option (λ n, 0 ≤ n ≤ Z.of_nat (length d)) True r
  | Select fds => λ r, from_option (λ l, ∀ fd, fd ∈ l → fd ∈ fds) True r
  | _ => λ _, True
  end.
