(* ===== verification/GridWorld.v ===== *)
(** The grid-world game of [src/utils/grid_world].

    [GridBoard] models [include/grid_board.h] (a list of named pieces on a
    square board), [where_] the filter of [include/where.h], [GridWorld]
    models [include/grid_world.h] (the game played on the board) and [main]
    models [src/grid_world_example.cpp].  Coordinates are [int]s, the board's
    size a [size_t]; mixed expressions convert to [size_t] as in the code.
    The table printer of libfort is a parameter ([to_string]).

    The theorems: the game refines an abstract game of one player on a grid,
    its invariant holds in every reachable state, the state vectors are one-hot,
    displaying never throws, and small boards make every step throw. *)
From S2P Require Import Prelude.
From stdpp Require Import pretty.
Local Open Scope Z_scope.

(** ** [where.h] *)

(* @src utils/grid_world/include/where.h 29-48 where *)
(** The elements (by reference) of [container] that satisfy [predicate]:
    [std::copy_if] over the range of the container. *)
Definition where_ {A} (container : list A) (predicate : A → bool) : list A :=
  filter predicate container.

(** ** [grid_board.h] *)
Module GridBoard.

(* @src utils/grid_world/include/grid_board.h 86-91 GridBoard::BoardPiece *)
Record BoardPiece := mkPiece {
  name : string; code : ascii; row_idx : Z; col_idx : Z }.

(* @src utils/grid_world/include/grid_board.h 93-94 GridBoard *)
Record t := mk { size_ : Z; pieces_ : list BoardPiece }.

#[global] Instance BoardPiece_eq_dec : EqDecision BoardPiece.
Proof. solve_decision. Defined.

(* @src utils/grid_world/include/grid_board.h 16-16 GridBoard::GridBoard *)
Definition new (size : Z) : t := mk size [].

(* @src utils/grid_world/include/grid_board.h 96-103 GridBoard::findPiece *)
(** The reference to the first piece of that name: its position in the vector
    and the piece read through it. *)
Definition findPiece (b : t) (nm : string) : option (nat * BoardPiece) :=
  list_find (λ p, name p = nm) (pieces_ b).

(* @src utils/grid_world/include/grid_board.h 18-26 GridBoard::addPiece *)
Definition addPiece (nm : string) (cd : ascii) (row col : Z) : M t unit :=
  b ← get;
  match findPiece b nm with
  | None => put (mk (size_ b) (pieces_ b ++ [mkPiece nm cd row col]))
  | Some _ =>
      throw ("addPiece failed. Piece with name " +:+ nm +:+ " already exists.")
  end.

(* @src utils/grid_world/include/grid_board.h 28-36 GridBoard::getPiecePos *)
Definition getPiecePos (nm : string) : M t (Z * Z) :=
  b ← get;
  match findPiece b nm with
  | Some (_, p) => mret (row_idx p, col_idx p)
  | None =>
      throw ("getPiecePos failed. Piece with name " +:+ nm +:+ " does not exist.")
  end.

(* @src utils/grid_world/include/grid_board.h 38-47 GridBoard::movePiece *)
Definition movePiece (nm : string) (row_idx_delta col_idx_delta : Z) : M t unit :=
  b ← get;
  match findPiece b nm with
  | Some (i, p) =>
      r ← lift (int_add (row_idx p) row_idx_delta);
      c ← lift (int_add (col_idx p) col_idx_delta);
      put (mk (size_ b) (<[i := mkPiece (name p) (code p) r c]> (pieces_ b)))
  | None =>
      throw ("movePiece failed. Piece with name " +:+ nm +:+ " does not exist.")
  end.

(* @src utils/grid_world/include/grid_board.h 53-53 GridBoard::state *)
(** The [size_t] index of a piece in its state vector. *)
Definition cell_index (size : Z) (p : BoardPiece) : Z :=
  uwrap 64 (uwrap 64 (to_size_t (row_idx p) * size) + to_size_t (col_idx p)).

(* @src utils/grid_world/include/grid_board.h 52-54 GridBoard::state *)
(** [state_p.at(idx) = 1] on a vector of [size * size] zeros. *)
Definition piece_state (size : Z) (p : BoardPiece) : outcome (list Z) :=
  let n := uwrap 64 (size * size) in
  if cell_index size p <? n
  then Ok (<[Z.to_nat (cell_index size p) := 1]> (replicate (Z.to_nat n) 0))
  else Throw "std::out_of_range".

(* @src utils/grid_world/include/grid_board.h 49-57 GridBoard::state *)
Definition state : M t (list (list Z)) :=
  b ← get; lift (mapM (piece_state (size_ b)) (pieces_ b)).

(* @src utils/grid_world/include/grid_board.h 81-83 GridBoard::isOnBoard *)
Definition isOnBoard (b : t) (row col : Z) : bool :=
  (0 <=? row) && (to_size_t row <? size_ b) && (0 <=? col) && (to_size_t col <? size_ b).

(** What is streamed into a [fort::char_table]. *)
Inductive fort_op := Cell (s : string) | Endr | Separator.

Section display.
(** [fort::char_table::to_string], code of libfort. *)
Context (to_string : list fort_op → string).

(* @src utils/grid_world/include/grid_board.h 63-73 GridBoard::display *)
(** One cell: the code of the only piece at the position, a blank if none. *)
Definition display_cell (b : t) (row col : Z) : outcome fort_op :=
  match where_ (pieces_ b) (λ p,
    (to_size_t (row_idx p) =? row) && (to_size_t (col_idx p) =? col)) with
  | [] => Ok (Cell " ")
  | [p] => Ok (Cell (String (code p) EmptyString))
  | _ => Throw "more than one pieces_ at a pos"
  end.

(* @src utils/grid_world/include/grid_board.h 62-75 GridBoard::display *)
Definition display_row (b : t) (row : Z) : outcome (list fort_op) :=
  cells ← mapM (display_cell b row) (seqZ 0 (size_ b));
  mret (cells ++ [Endr; Separator]).

(* @src utils/grid_world/include/grid_board.h 59-78 GridBoard::display *)
Definition display : M t unit :=
  b ← get;
  rows ← lift (mapM (display_row b) (seqZ 0 (size_ b)));
  print (to_string (concat rows) +:+ nl).
End display.

End GridBoard.
Import GridBoard (BoardPiece, mkPiece, fort_op).

(** ** [grid_world.h] *)

Module Action.
(* @src utils/grid_world/include/grid_world.h 7-7 GridWorld::Action *)
Inductive t := up | down | left | right.
End Action.

Module Status.
(* @src utils/grid_world/include/grid_world.h 48-48 GridWorld::Status *)
Inductive t := ongoing | loss | win.
#[global] Instance t_eq_dec : EqDecision t.
Proof. solve_decision. Defined.
End Status.

Module GridWorld.

(* @src utils/grid_world/include/grid_world.h 46-49 GridWorld *)
Record t := mk { board_ : GridBoard.t; status_ : Status.t }.

(** A call of a method of [board_]. *)
Definition on_board {A} : M GridBoard.t A → M t A :=
  zoom board_ (λ b w, mk b (status_ w)).

(* @src utils/grid_world/include/grid_world.h 10-16 GridWorld::GridWorld *)
Definition ctor : M t unit :=
  on_board (GridBoard.addPiece "Player" "P"%char 0 0);;
  on_board (GridBoard.addPiece "Wall" "W"%char 1 2);;
  on_board (GridBoard.addPiece "Pit" "-"%char 2 2);;
  on_board (GridBoard.addPiece "Goal" "+"%char 3 3).

(* @src utils/grid_world/include/grid_world.h 10-16 GridWorld::GridWorld *)
(** [GridWorld world(size)]. *)
Definition create (size : Z) : outcome t :=
  match ctor (mk (GridBoard.new size) Status.ongoing) with
  | (Ok _, w, _) => Ok w
  | (Throw e, _, _) => Throw e
  | (UB u, _, _) => UB u
  end.

(* @src utils/grid_world/include/grid_world.h 57-75 GridWorld::mapAction *)
Definition mapAction (action : Action.t) : Z * Z :=
  match action with
  | Action.up => (-1, 0)
  | Action.down => (1, 0)
  | Action.left => (0, -1)
  | Action.right => (0, 1)
  end.

(* @src utils/grid_world/include/grid_world.h 51-55 GridWorld::isValid *)
Definition isValid (row_idx_delta col_idx_delta : Z) : M t bool :=
  p1 ← on_board (GridBoard.getPiecePos "Player");
  r ← lift (int_add p1.1 row_idx_delta);
  p2 ← on_board (GridBoard.getPiecePos "Player");
  c ← lift (int_add p2.2 col_idx_delta);
  wall ← on_board (GridBoard.getPiecePos "Wall");
  w ← get;
  mret (negb (bool_decide ((r, c) = wall)) && GridBoard.isOnBoard (board_ w) r c).

Definition set_status (s : Status.t) : M t unit := w ← get; put (mk (board_ w) s).

(* @src utils/grid_world/include/grid_world.h 77-88 GridWorld::evaluate *)
Definition evaluate : M t Z :=
  p1 ← on_board (GridBoard.getPiecePos "Player");
  pit ← on_board (GridBoard.getPiecePos "Pit");
  if bool_decide (p1 = pit) then set_status Status.loss;; mret (-10)
  else
    p2 ← on_board (GridBoard.getPiecePos "Player");
    goal ← on_board (GridBoard.getPiecePos "Goal");
    if bool_decide (p2 = goal) then set_status Status.win;; mret 10
    else mret (-1).

(* @src utils/grid_world/include/grid_world.h 18-29 GridWorld::step *)
(** The two arguments of [std::pair] are evaluated left to right. *)
Definition step (action : Action.t) : M t (Z * list (list Z)) :=
  w ← get;
  if bool_decide (status_ w ≠ Status.ongoing)
  then throw "cannot step a finished game."
  else
    let '(row_idx_delta, col_idx_delta) := mapAction action in
    valid ← isValid row_idx_delta col_idx_delta;
    (if valid : bool
     then on_board (GridBoard.movePiece "Player" row_idx_delta col_idx_delta)
     else print ("invalid move" +:+ nl));;
    reward ← evaluate;
    state ← on_board GridBoard.state;
    mret (reward, state).

(* @src utils/grid_world/include/grid_world.h 31-43 GridWorld::display *)
Definition display (to_string : list fort_op → string) : M t unit :=
  w ← get;
  match status_ w with
  | Status.ongoing => on_board (GridBoard.display to_string)
  | Status.win => print ("You won the game by reaching the goal" +:+ nl)
  | Status.loss => print ("You loss the game by falling in the pit" +:+ nl)
  end.

End GridWorld.
Import GridWorld (board_, status_).
Export (hints) GridWorld GridBoard.

(** ** [grid_world_example.cpp] *)

(* @src utils/grid_world/src/grid_world_example.cpp 8-9 main *)
Definition show_step (to_string : list fort_op → string) (a : Action.t) : M GridWorld.t unit :=
  r ← GridWorld.step a;
  print (pretty r.1 +:+ nl);;
  GridWorld.display to_string.

(* @src utils/grid_world/src/grid_world_example.cpp 5-23 main *)
Definition main (to_string : list fort_op → string) : M GridWorld.t Z :=
  GridWorld.ctor;;
  GridWorld.display to_string;;
  show_step to_string Action.right;;
  show_step to_string Action.down;;
  show_step to_string Action.right;;
  show_step to_string Action.down;;
  show_step to_string Action.down;;
  show_step to_string Action.right;;
  show_step to_string Action.right;;
  mret 0.

(** ** The abstract game

    One player on a [size] x [size] grid with a wall, a pit and a goal. *)
Record game := mkGame { pos : Z * Z; outcome_of : Status.t }.

Definition wall : Z * Z := (1, 2).
Definition pit : Z * Z := (2, 2).
Definition goal : Z * Z := (3, 3).

Definition inside (size : Z) (p : Z * Z) : bool :=
  (0 <=? p.1) && (p.1 <? size) && (0 <=? p.2) && (p.2 <? size).

Definition status_at (p : Z * Z) : Status.t :=
  if bool_decide (p = pit) then Status.loss
  else if bool_decide (p = goal) then Status.win else Status.ongoing.

Definition reward_at (p : Z * Z) : Z :=
  match status_at p with Status.loss => -10 | Status.win => 10 | Status.ongoing => -1 end.

(** Where an action leads: blocked by the wall and by the border. *)
Definition target (size : Z) (a : Action.t) (p : Z * Z) : Z * Z :=
  let q := (p.1 + (GridWorld.mapAction a).1, p.2 + (GridWorld.mapAction a).2) in
  if negb (bool_decide (q = wall)) && inside size q then q else p.

Definition spec_step (size : Z) (a : Action.t) (g : game) : game :=
  mkGame (target size a (pos g)) (status_at (target size a (pos g))).

(** The one-hot vector of a position. *)
Definition one_hot (size : Z) (p : Z * Z) : list Z :=
  <[Z.to_nat (p.1 * size + p.2) := 1]> (replicate (Z.to_nat (size * size)) 0).

(** The concrete world of an abstract game. *)
Definition world_of (size : Z) (g : game) : GridWorld.t :=
  GridWorld.mk
    (GridBoard.mk size
       [mkPiece "Player" "P"%char (pos g).1 (pos g).2; mkPiece "Wall" "W"%char 1 2;
        mkPiece "Pit" "-"%char 2 2; mkPiece "Goal" "+"%char 3 3])
    (outcome_of g).

(** The game's invariant: the player is on the board, not on the wall, and the
    status is the one of its position. *)
Definition game_inv (size : Z) (g : game) : Prop :=
  inside size (pos g) = true ∧ pos g ≠ wall ∧ outcome_of g = status_at (pos g).

Definition size_ok (size : Z) : Prop := 4 ≤ size ≤ int_max.

Lemma inside_spec size p :
  inside size p = true ↔ 0 ≤ p.1 < size ∧ 0 ≤ p.2 < size.
Proof.
  unfold inside. rewrite !andb_true_iff, !Z.leb_le, !Z.ltb_lt. tauto.
Qed.

Lemma to_size_t_small z : 0 ≤ z ≤ int_max → to_size_t z = z.
Proof. unfold int_max. intros. apply uwrap_small. lia. Qed.

(** A coordinate that is a row or column of a board converts to itself, a
    negative one does not convert to a position of the board. *)
Lemma isOnBoard_inside size ps r c :
  size_ok size → -1 ≤ r ≤ size → -1 ≤ c ≤ size →
  GridBoard.isOnBoard (GridBoard.mk size ps) r c = inside size (r, c).
Proof.
  unfold size_ok, int_max, GridBoard.isOnBoard, inside. intros Hs Hr Hc. simpl.
  destruct (Z.leb_spec 0 r); simpl; [|done].
  destruct (Z.leb_spec 0 c); simpl; [|by rewrite !andb_false_r].
  rewrite !to_size_t_small by (unfold int_max; lia). done.
Qed.

Lemma create_world size : GridWorld.create size = Ok (world_of size (mkGame (0, 0) Status.ongoing)).
Proof. reflexivity. Qed.

Lemma game_inv_init size : size_ok size → game_inv size (mkGame (0, 0) Status.ongoing).
Proof.
  intros. split; [|done]. apply inside_spec. unfold size_ok in *. simpl. lia.
Qed.

(** ** Running the methods on a concrete world *)

Lemma isValid_world size g dr dc :
  size_ok size → inside size (pos g) = true → -1 ≤ dr ≤ 1 → -1 ≤ dc ≤ 1 →
  GridWorld.isValid dr dc (world_of size g) =
    (Ok (negb (bool_decide (((pos g).1 + dr, (pos g).2 + dc) = wall)) &&
         inside size ((pos g).1 + dr, (pos g).2 + dc)), world_of size g, []).
Proof.
  intros Hs [Hr Hc]%inside_spec Hdr Hdc. destruct g as [[r c] st]; simpl in *.
  assert (Hr' := int_add_ok r dr). assert (Hc' := int_add_ok c dc).
  unfold size_ok, int_min, int_max in *.
  unfold GridWorld.isValid, GridWorld.on_board, zoom, lift, mbind, M_bind; simpl.
  rewrite Hr' by lia; simpl. rewrite Hc' by lia; simpl.
  unfold world_of; simpl. by rewrite isOnBoard_inside by (unfold size_ok, int_max; lia).
Qed.

Lemma movePiece_world size g dr dc :
  size_ok size → inside size (pos g) = true → -1 ≤ dr ≤ 1 → -1 ≤ dc ≤ 1 →
  GridWorld.on_board (GridBoard.movePiece "Player" dr dc) (world_of size g) =
    (Ok tt, world_of size (mkGame ((pos g).1 + dr, (pos g).2 + dc) (outcome_of g)), []).
Proof.
  intros Hs [Hr Hc]%inside_spec Hdr Hdc. destruct g as [[r c] st]; simpl in *.
  assert (Hr' := int_add_ok r dr). assert (Hc' := int_add_ok c dc).
  unfold size_ok, int_min, int_max in *.
  unfold GridWorld.on_board, zoom, GridBoard.movePiece, lift, mbind, M_bind; simpl.
  rewrite Hr' by lia; simpl. rewrite Hc' by lia; simpl. done.
Qed.

Lemma evaluate_world size g :
  outcome_of g = Status.ongoing →
  GridWorld.evaluate (world_of size g) =
    (Ok (reward_at (pos g)), world_of size (mkGame (pos g) (status_at (pos g))), []).
Proof.
  destruct g as [[r c] st]; simpl. intros ->.
  unfold GridWorld.evaluate, reward_at, status_at, pit, goal.
  unfold GridWorld.on_board, zoom, mbind, M_bind; simpl.
  case_bool_decide; simpl; [done|]. by case_bool_decide.
Qed.

Lemma board_cells size : size_ok size → 0 ≤ size * size < 2 ^ 64.
Proof. unfold size_ok, int_max. intros. nia. Qed.

(** The index of a piece on the board does not wrap and is in range. *)
Lemma cell_index_small size nm cd r c :
  size_ok size → 0 ≤ r < size → 0 ≤ c < size →
  GridBoard.cell_index size (mkPiece nm cd r c) = r * size + c ∧
  0 ≤ r * size + c < size * size.
Proof.
  unfold size_ok, int_max. intros Hs Hr Hc. unfold GridBoard.cell_index; simpl.
  rewrite (to_size_t_small r), (to_size_t_small c) by (unfold int_max; lia).
  assert (0 ≤ r * size ≤ (size - 1) * size) by nia.
  pose proof (board_cells size Hs) as Hcells.
  rewrite (uwrap_small 64 (r * size)) by lia. rewrite uwrap_small by lia. lia.
Qed.

Lemma piece_state_ok size nm cd r c :
  size_ok size → 0 ≤ r < size → 0 ≤ c < size →
  GridBoard.piece_state size (mkPiece nm cd r c) = Ok (one_hot size (r, c)).
Proof.
  intros Hs Hr Hc. unfold GridBoard.piece_state, one_hot.
  destruct (cell_index_small size nm cd r c Hs Hr Hc) as [-> ?].
  rewrite uwrap_small by (by apply board_cells).
  destruct (Z.ltb_spec (r * size + c) (size * size)); [done|lia].
Qed.

Definition state_of (size : Z) (p : Z * Z) : list (list Z) :=
  [one_hot size p; one_hot size wall; one_hot size pit; one_hot size goal].

Lemma state_world size g :
  size_ok size → inside size (pos g) = true →
  GridWorld.on_board GridBoard.state (world_of size g) =
    (Ok (state_of size (pos g)), world_of size g, []).
Proof.
  intros Hs [Hr Hc]%inside_spec. destruct g as [[r c] st]; simpl in *.
  assert (Hs' := Hs). unfold size_ok in Hs'.
  unfold GridWorld.on_board, zoom, GridBoard.state, lift, mbind, M_bind, world_of; simpl.
  rewrite !piece_state_ok by (done || lia). done.
Qed.

Lemma mapAction_delta a :
  -1 ≤ (GridWorld.mapAction a).1 ≤ 1 ∧ -1 ≤ (GridWorld.mapAction a).2 ≤ 1.
Proof. destruct a; simpl; lia. Qed.

Lemma target_inv size a p :
  inside size p = true → p ≠ wall →
  inside size (target size a p) = true ∧ target size a p ≠ wall.
Proof.
  intros Hi Hw. unfold target. set (q := (_, _)).
  destruct (bool_decide_reflect (q = wall)); simpl; [done|].
  by destruct (inside size q) eqn:?.
Qed.

(** What the game prints: a message for a blocked move. *)
Definition step_output (size : Z) (a : Action.t) (p : Z * Z) : list string :=
  let q := (p.1 + (GridWorld.mapAction a).1, p.2 + (GridWorld.mapAction a).2) in
  if negb (bool_decide (q = wall)) && inside size q then [] else ["invalid move" +:+ nl].

Lemma step_ongoing size g a :
  size_ok size → game_inv size g → outcome_of g = Status.ongoing →
  GridWorld.step a (world_of size g) =
    (Ok (reward_at (target size a (pos g)), state_of size (target size a (pos g))),
     world_of size (spec_step size a g), step_output size a (pos g)).
Proof.
  intros Hs (Hin & Hw & _) Hst.
  pose proof (mapAction_delta a) as [Hd1 Hd2].
  pose proof (target_inv size a (pos g) Hin Hw) as [Hin' _].
  unfold GridWorld.step, spec_step, step_output, target in *.
  destruct (GridWorld.mapAction a) as [dr dc]; simpl in *.
  unfold mbind at 1, M_bind at 1. simpl. rewrite Hst. simpl.
  unfold mbind at 1, M_bind at 1. rewrite isValid_world by done.
  destruct (negb _ && _) eqn:Hv;
    unfold mbind at 1, M_bind at 1;
    [rewrite movePiece_world by done | simpl];
    unfold mbind at 1, M_bind at 1;
    rewrite evaluate_world by done;
    unfold mbind at 1, M_bind at 1;
    rewrite state_world by done; done.
Qed.

Lemma step_finished w a :
  status_ w ≠ Status.ongoing →
  GridWorld.step a w = (Throw "cannot step a finished game.", w, []).
Proof.
  intros H. unfold GridWorld.step, mbind, M_bind; simpl.
  by rewrite bool_decide_eq_true_2.
Qed.

(** A call of [step] on a world, whatever its outcome. *)
Definition steps_to (w w' : GridWorld.t) : Prop :=
  ∃ a r out, GridWorld.step a w = (r, w', out).

Definition reachable (size : Z) (w : GridWorld.t) : Prop :=
  ∃ w0, GridWorld.create size = Ok w0 ∧ rtc steps_to w0 w.

Lemma spec_step_inv size a g : game_inv size g → game_inv size (spec_step size a g).
Proof.
  intros (Hi & Hw & _). destruct (target_inv size a _ Hi Hw). by split_and!.
Qed.

Lemma reachable_inv size w :
  size_ok size → reachable size w → ∃ g, w = world_of size g ∧ game_inv size g.
Proof.
  intros Hs (w0 & Hw0 & Hr). rewrite create_world in Hw0. simplify_eq.
  apply (rtc_invariant steps_to (λ w, ∃ g, w = world_of size g ∧ game_inv size g) _ _)
    with (2 := Hr); [|eauto using game_inv_init].
  intros x y (g & -> & Hg) (a & r & out & Hstep).
  destruct (decide (outcome_of g = Status.ongoing)) as [Ho|Ho].
  - rewrite step_ongoing in Hstep by done. simplify_eq. eauto using spec_step_inv.
  - rewrite step_finished in Hstep by done. simplify_eq. eauto.
Qed.

(** ** Displaying *)

Lemma mapM_outcome_ok {A B} (f : A → outcome B) (l : list A) :
  (∀ x, x ∈ l → is_ok (f x) = true) → is_ok (mapM f l) = true.
Proof.
  induction l as [|x l IH]; intros H; [done|]. simpl.
  pose proof (H x ltac:(by left)) as Hx. destruct (f x); try done. simpl.
  assert (is_ok (mapM f l) = true) as Hl by (apply IH; intros; apply H; by right).
  by destruct (mapM f l).
Qed.

Lemma where_cons {A} (x : A) l p :
  where_ (x :: l) p = if p x then x :: where_ l p else where_ l p.
Proof.
  unfold where_. rewrite filter_cons. destruct (decide (p x)) as [Hp|Hp].
  - by rewrite (Is_true_eq_true _ Hp).
  - by destruct (p x).
Qed.

(** While the game goes on the pieces stand on distinct positions. *)
Lemma display_cell_ok size g row col :
  size_ok size → game_inv size g → outcome_of g = Status.ongoing →
  is_ok (GridBoard.display_cell (board_ (world_of size g)) row col) = true.
Proof.
  intros Hs (Hi & Hw & Ho) Hst. rewrite Hst in Ho.
  apply inside_spec in Hi. destruct g as [[r c] st]; simpl in *.
  unfold size_ok, int_max, status_at, pit, goal, wall in *.
  repeat case_bool_decide; try done.
  unfold GridBoard.display_cell, world_of. cbn [board_ GridBoard.pieces_ pos].
  rewrite !where_cons. cbn [GridBoard.row_idx GridBoard.col_idx fst snd].
  rewrite (to_size_t_small r), (to_size_t_small c) by (unfold int_max; lia).
  change (to_size_t 1) with 1. change (to_size_t 2) with 2. change (to_size_t 3) with 3.
  destruct (Z.eqb_spec r row), (Z.eqb_spec c col), (Z.eqb_spec 1 row), (Z.eqb_spec 2 row),
    (Z.eqb_spec 3 row), (Z.eqb_spec 2 col), (Z.eqb_spec 3 col);
    first [lia | subst; congruence | done].
Qed.

Lemma is_ok_inv {A} (o : outcome A) : is_ok o = true → ∃ a, o = Ok a.
Proof. destruct o; naive_solver. Qed.

Lemma board_display_ok (to_string : list fort_op → string) b :
  (∀ row col, is_ok (GridBoard.display_cell b row col) = true) →
  ∃ out, GridBoard.display to_string b = (Ok tt, b, [out]).
Proof.
  intros Hc.
  assert (is_ok (mapM (GridBoard.display_row b) (seqZ 0 (GridBoard.size_ b))) = true)
    as [rows Hr]%is_ok_inv.
  { apply mapM_outcome_ok. intros row _. unfold GridBoard.display_row.
    destruct (is_ok_inv (mapM (GridBoard.display_cell b row) (seqZ 0 (GridBoard.size_ b))))
      as [cells ->]; [by apply mapM_outcome_ok | done]. }
  unfold GridBoard.display, mbind, M_bind, get, lift. rewrite Hr. simpl. eauto.
Qed.

Lemma display_world (to_string : list fort_op → string) size g :
  size_ok size → game_inv size g →
  ∃ out, GridWorld.display to_string (world_of size g) = (Ok tt, world_of size g, [out]).
Proof.
  intros Hs Hg. unfold GridWorld.display, mbind at 1, M_bind at 1, get. simpl.
  destruct (outcome_of g) eqn:Ho; [|eexists; done..].
  destruct (board_display_ok to_string (board_ (world_of size g))) as [out Hout].
  { intros. by apply display_cell_ok. }
  exists out. unfold GridWorld.on_board, zoom. rewrite Hout. done.
Qed.

(** ** Theorems *)

(** C4: refinement.  On every reachable world of a board of at least four rows,
    [step] behaves as the abstract game: while the game is on it returns the
    reward of the square the player ends on together with the one-hot vectors of
    the four pieces and moves to the abstract successor; once the game is over
    it throws and changes nothing. *)
Theorem grid_world_refines_game size w a :
  size_ok size → reachable size w →
  ∃ g, w = world_of size g ∧ game_inv size g ∧
    GridWorld.step a w =
      if bool_decide (outcome_of g = Status.ongoing)
      then (Ok (reward_at (target size a (pos g)), state_of size (target size a (pos g))),
            world_of size (spec_step size a g), step_output size a (pos g))
      else (Throw "cannot step a finished game.", w, []).
Proof.
  intros Hs Hr. destruct (reachable_inv size w Hs Hr) as (g & -> & Hg).
  exists g. split_and!; [done..|]. case_bool_decide.
  - by apply step_ongoing.
  - by apply step_finished.
Qed.

Lemma grid_world_refines_game_witness :
  let w := world_of 4 (mkGame (0, 0) Status.ongoing) in
  ∃ g, w = world_of 4 g ∧ game_inv 4 g ∧
    GridWorld.step Action.down w =
      if bool_decide (outcome_of g = Status.ongoing)
      then (Ok (reward_at (target 4 Action.down (pos g)), state_of 4 (target 4 Action.down (pos g))),
            world_of 4 (spec_step 4 Action.down g), step_output 4 Action.down (pos g))
      else (Throw "cannot step a finished game.", w, []).
Proof.
  apply (grid_world_refines_game 4).
  - unfold size_ok, int_max. lia.
  - eexists. split; [reflexivity | apply rtc_refl].
Defined.

(** Safety.  In every reachable world of a board of at least four rows the
    player is on the board and not on the wall, and displaying the world succeeds:
    no two pieces share a square while the game is on. *)
Theorem grid_world_display_safe (to_string : list fort_op → string) size w :
  size_ok size → reachable size w →
  (∃ out, GridWorld.display to_string w = (Ok tt, w, [out])) ∧
  ∃ p, GridWorld.on_board (GridBoard.getPiecePos "Player") w = (Ok p, w, []) ∧
       inside size p = true ∧ p ≠ wall.
Proof.
  intros Hs Hr. destruct (reachable_inv size w Hs Hr) as (g & -> & Hg).
  split; [by apply display_world|]. destruct Hg as (? & ? & _).
  exists (pos g). split_and!; [|done..]. by destruct g as [[r c] st].
Qed.

Lemma grid_world_display_safe_witness :
  let w := world_of 5 (mkGame (0, 0) Status.ongoing) in
  (∃ out, GridWorld.display (λ _, "table") w = (Ok tt, w, [out])) ∧
  ∃ p, GridWorld.on_board (GridBoard.getPiecePos "Player") w = (Ok p, w, []) ∧
       inside 5 p = true ∧ p ≠ wall.
Proof.
  apply (grid_world_display_safe (λ _, "table") 5).
  - unfold size_ok, int_max. lia.
  - eexists. split; [reflexivity | apply rtc_refl].
Defined.

(** Error behaviour.  The constructor accepts any size, but on a board of less
    than four rows every first step throws [std::out_of_range] from [state()], after
    the player has been moved and the game evaluated. *)
Theorem small_board_step_throws size a :
  0 ≤ size < 4 →
  ∃ w w' out, GridWorld.create size = Ok w ∧
    GridWorld.step a w = (Throw "std::out_of_range", w', out).
Proof.
  intros Hs. assert (size = 0 ∨ size = 1 ∨ size = 2 ∨ size = 3) as Hc by lia.
  destruct Hc as [->|[->|[->| ->]]]; destruct a;
    (do 3 eexists; split; [apply create_world | vm_compute; reflexivity]).
Qed.

Lemma small_board_step_throws_witness :
  ∃ w w' out, GridWorld.create 3 = Ok w ∧
    GridWorld.step Action.right w = (Throw "std::out_of_range", w', out).
Proof. apply (small_board_step_throws 3). lia. Defined.

(** The example program wins the game: its rewards and messages, the table
    printer being a constant. *)
Example main_output :
  (main (λ _, "table") (GridWorld.mk (GridBoard.new 4) Status.ongoing)).2 =
  ["table" +:+ nl; "-1" +:+ nl; "table" +:+ nl; "-1" +:+ nl; "table" +:+ nl;
   "invalid move" +:+ nl; "-1" +:+ nl; "table" +:+ nl; "-1" +:+ nl; "table" +:+ nl;
   "-1" +:+ nl; "table" +:+ nl; "-1" +:+ nl; "table" +:+ nl; "10" +:+ nl;
   "You won the game by reaching the goal" +:+ nl].
Proof. vm_compute. reflexivity. Qed.
