(* ===== verification/TripleBuffer.v ===== *)
(** The lock-free triple buffer of
    [src/cpp_practices/lock_free_structure/include/triple_buffer.h].

    All atomic accesses of the class are sequentially consistent, so its
    executions are the interleavings of the atomic steps of one producer (calls
    of [store]) and one consumer (calls of [wait_load] and [instant_load]).
    [p_step] and [c_step] are the two threads, one atomic access (or one access
    to a buffer) per step; [store], [wait_load] and [instant_load] are the
    methods run without interleaving, and the [_uninterrupted] lemmas relate the
    two.  A [T*] is the index of a buffer in [bufs_].

    The theorems: under every interleaving the three roles stay distinct, so the
    buffers are accessed without data race and a load returns a complete value
    that was stored before; run one method at a time the class is a slot with
    the newest value; and interleaved swaps can hand the consumer an older value
    than the one it already had and leave the newest one unreachable. *)
From S2P Require Import Prelude.
From stdpp Require Import functions.
Local Open Scope nat_scope.

Section triple_buffer.
Context {T : Type}.
Implicit Types (v : T).

(** ** The object *)

(* @src cpp_practices/lock_free_structure/include/triple_buffer.h 89-97 TripleBuffer *)
Record TripleBuffer := mkTB {
  present_ : nat; ready_ : nat; inprogress_ : nat;
  stale_ : bool;
  bufs_ : nat → T }.

(* @src cpp_practices/lock_free_structure/include/triple_buffer.h 23-33 TripleBuffer::TripleBuffer *)
Definition tb_new (val : T) : TripleBuffer :=
  {| present_ := 0; ready_ := 1; inprogress_ := 2; stale_ := false; bufs_ := λ _, val |}.

(* @src cpp_practices/lock_free_structure/include/triple_buffer.h 9-21 TripleBuffer::TripleBuffer *)
(** The default constructor; [zero] is [T{}]. *)
Definition tb_default (zero : T) : TripleBuffer :=
  {| present_ := 0; ready_ := 1; inprogress_ := 2; stale_ := false;
     bufs_ := <[2 := zero]> (<[1 := zero]> (<[0 := zero]> (λ _, zero))) |}.

(** Atomic accesses. *)
Definition set_present p (b : TripleBuffer) :=
  mkTB p (ready_ b) (inprogress_ b) (stale_ b) (bufs_ b).
Definition set_ready p (b : TripleBuffer) :=
  mkTB (present_ b) p (inprogress_ b) (stale_ b) (bufs_ b).
Definition set_inprogress p (b : TripleBuffer) :=
  mkTB (present_ b) (ready_ b) p (stale_ b) (bufs_ b).
Definition set_stale f (b : TripleBuffer) :=
  mkTB (present_ b) (ready_ b) (inprogress_ b) f (bufs_ b).
Definition write_buf p v (b : TripleBuffer) :=
  mkTB (present_ b) (ready_ b) (inprogress_ b) (stale_ b) (<[p := v]> (bufs_ b)).

(** ** The methods, uninterrupted *)

(* @src cpp_practices/lock_free_structure/include/triple_buffer.h 53-62 TripleBuffer::store *)
Definition store (v : T) (b : TripleBuffer) : TripleBuffer :=
  let b1 := write_buf (inprogress_ b) v b in
  let old_ready := ready_ b1 in
  let b2 := set_ready (inprogress_ b1) b1 in
  let b3 := set_inprogress old_ready b2 in
  set_stale false b3.

(* @src cpp_practices/lock_free_structure/include/triple_buffer.h 64-76 TripleBuffer::wait_load *)
(** [None]: the loop on [test_and_set] spins. *)
Definition wait_load (b : TripleBuffer) : option (T * TripleBuffer) :=
  let was := stale_ b in
  let b1 := set_stale true b in
  if was then None
  else
    let old_ready := ready_ b1 in
    let b2 := set_ready (present_ b1) b1 in
    let b3 := set_present old_ready b2 in
    Some (bufs_ b3 (present_ b3), b3).

(* @src cpp_practices/lock_free_structure/include/triple_buffer.h 78-87 TripleBuffer::instant_load *)
Definition instant_load (b : TripleBuffer) : T * TripleBuffer :=
  let val := bufs_ b (present_ b) in
  let was := stale_ b in
  let b1 := set_stale true b in
  if negb was
  then
    let old_ready := ready_ b1 in
    let b2 := set_ready (present_ b1) b1 in
    (val, set_present old_ready b2)
  else (val, b1).

(* @src cpp_practices/lock_free_structure/include/triple_buffer.h 44-51 TripleBuffer::operator= *)
Definition assign (i : T) (b : TripleBuffer) : T * TripleBuffer := (i, store i b).

(* @src cpp_practices/lock_free_structure/include/triple_buffer.h 41-42 TripleBuffer::operator T *)
Definition operator_T (b : TripleBuffer) : T * TripleBuffer := instant_load b.

(** ** The threads, one access at a time *)

(* @src cpp_practices/lock_free_structure/include/triple_buffer.h 53-62 TripleBuffer::store *)
(** Where the producer is inside [store]. *)
Inductive ppc :=
| PIdle
| PStart (v : T)              (* about to load [inprogress_] *)
| PWrite (p : nat) (v : T)    (* about to write through the pointer *)
| PLoad (v : T)               (* about to load the argument of [exchange] *)
| PXchg (q : nat) (v : T)     (* about to exchange [ready_] *)
| PPut (r : nat)              (* about to store [inprogress_] *)
| PClear.                     (* about to clear [stale_] *)

(* @src cpp_practices/lock_free_structure/include/triple_buffer.h 64-87 TripleBuffer::wait_load *)
(** Where the consumer is inside [wait_load] ([C...]) or [instant_load] ([I...]). *)
Inductive cpc :=
| CIdle
| CWait                       (* about to [test_and_set] *)
| CLoad                       (* about to load the argument of [exchange] *)
| CXchg (q : nat)             (* about to exchange [ready_] *)
| CPut (r : nat)              (* about to store [present_] *)
| CReload                     (* about to load [present_] *)
| CRead (p : nat)             (* about to read through the pointer *)
| IStart                      (* about to load [present_] *)
| IRead (p : nat)             (* about to read through the pointer *)
| ITest (val : T)             (* about to [test_and_set] *)
| ILoad (val : T)
| IXchg (q : nat) (val : T)
| IPut (r : nat) (val : T).

(** A configuration; [written] (values stored, newest first) and [returned]
    (values loaded, newest first) are ghost. *)
Record config := mkCfg {
  buf : TripleBuffer; pp : ppc; cp : cpc; written : list T; returned : list T }.

Definition with_p (c : config) (b : TripleBuffer) (p : ppc) : config :=
  mkCfg b p (cp c) (written c) (returned c).
Definition with_c (c : config) (b : TripleBuffer) (p : cpc) : config :=
  mkCfg b (pp c) p (written c) (returned c).
Definition return_ (c : config) (b : TripleBuffer) (v : T) : config :=
  mkCfg b (pp c) CIdle (written c) (v :: returned c).

(* @src cpp_practices/lock_free_structure/include/triple_buffer.h 53-62 TripleBuffer::store *)
Definition p_step (c : config) : option config :=
  let b := buf c in
  match pp c with
  | PIdle => None
  | PStart v => Some (with_p c b (PWrite (inprogress_ b) v))
  | PWrite p v => Some (with_p c (write_buf p v b) (PLoad v))
  | PLoad v => Some (with_p c b (PXchg (inprogress_ b) v))
  | PXchg q v => Some (with_p c (set_ready q b) (PPut (ready_ b)))
  | PPut r => Some (with_p c (set_inprogress r b) PClear)
  | PClear => Some (with_p c (set_stale false b) PIdle)
  end.

(* @src cpp_practices/lock_free_structure/include/triple_buffer.h 64-87 TripleBuffer::wait_load *)
Definition c_step (c : config) : option config :=
  let b := buf c in
  match cp c with
  | CIdle => None
  | CWait => Some (with_c c (set_stale true b) (if stale_ b then CWait else CLoad))
  | CLoad => Some (with_c c b (CXchg (present_ b)))
  | CXchg q => Some (with_c c (set_ready q b) (CPut (ready_ b)))
  | CPut r => Some (with_c c (set_present r b) CReload)
  | CReload => Some (with_c c b (CRead (present_ b)))
  | CRead p => Some (return_ c b (bufs_ b p))
  | IStart => Some (with_c c b (IRead (present_ b)))
  | IRead p => Some (with_c c b (ITest (bufs_ b p)))
  | ITest val =>
      if stale_ b then Some (return_ c (set_stale true b) val)
      else Some (with_c c (set_stale true b) (ILoad val))
  | ILoad val => Some (with_c c b (IXchg (present_ b) val))
  | IXchg q val => Some (with_c c (set_ready q b) (IPut (ready_ b) val))
  | IPut r val => Some (return_ c (set_present r b) val)
  end.

(** One move of the system: a call starts, or a thread makes a step. *)
Inductive move := Store (v : T) | WaitLoad | InstantLoad | Producer | Consumer.

Definition tb_exec (m : move) (c : config) : option config :=
  match m with
  | Store v =>
      match pp c with
      | PIdle => Some (mkCfg (buf c) (PStart v) (cp c) (v :: written c) (returned c))
      | _ => None
      end
  | WaitLoad => match cp c with CIdle => Some (with_c c (buf c) CWait) | _ => None end
  | InstantLoad => match cp c with CIdle => Some (with_c c (buf c) IStart) | _ => None end
  | Producer => p_step c
  | Consumer => c_step c
  end.

Definition initial (val : T) : config := mkCfg (tb_new val) PIdle CIdle [] [].

Definition tb_reachable (val : T) (c : config) : Prop :=
  rtc (move_step tb_exec) (initial val) c.

(** ** The invariant *)

(** The buffer each thread owns: it holds it in a register between the exchange
    and the store of its pointer. *)
Definition own_p (c : config) : nat :=
  match pp c with PPut r => r | _ => inprogress_ (buf c) end.
Definition own_c (c : config) : nat :=
  match cp c with CPut r | IPut r _ => r | _ => present_ (buf c) end.

Definition roles_distinct (a b c : nat) : Prop :=
  a ≠ b ∧ b ≠ c ∧ a ≠ c ∧ a < 3 ∧ b < 3 ∧ c < 3.

Definition stored (val : T) (c : config) (v : T) : Prop := v = val ∨ v ∈ written c.

Record tb_inv (val : T) (c : config) : Prop := {
  inv_roles : roles_distinct (own_p c) (ready_ (buf c)) (own_c c);
  inv_ppc : match pp c with
    | PWrite p _ => p = inprogress_ (buf c)
    | PXchg q _ => q = inprogress_ (buf c)
    | _ => True end;
  inv_cpc : match cp c with
    | CXchg q | IXchg q _ => q = present_ (buf c)
    | CRead p | IRead p => p = present_ (buf c)
    | _ => True end;
  inv_values : ∀ i, stored val c (bufs_ (buf c) i);
  inv_pending : match pp c with
    | PStart v | PWrite _ v => stored val c v
    | _ => True end;
  inv_loaded : match cp c with
    | ITest v | ILoad v | IXchg _ v | IPut _ v => stored val c v
    | _ => True end;
  inv_returned : ∀ v, v ∈ returned c → stored val c v }.

Lemma tb_inv_initial val : tb_inv val (initial val).
Proof.
  split; simpl; try done; [|by left|by intros ? ?%elem_of_nil].
  unfold roles_distinct, own_p, own_c; simpl; lia.
Qed.

Lemma write_buf_values (P : T → Prop) (f : nat → T) p v :
  P v → (∀ i, P (f i)) → ∀ i, P (<[p := v]> f i).
Proof.
  intros Hv Hf i. destruct (decide (p = i)) as [->|].
  - by rewrite fn_lookup_insert.
  - by rewrite fn_lookup_insert_ne.
Qed.

(** The producer's steps keep the invariant. *)
Lemma p_step_inv val c c' : tb_inv val c → p_step c = Some c' → tb_inv val c'.
Proof.
  intros [Hr Hp Hc Hv Hpend Hl Hret] Hs. unfold p_step in Hs.
  destruct c as [b p q w r], p; simplify_eq/=;
    unfold own_p, own_c, roles_distinct, stored in *; simpl in *;
    (split; unfold own_p, own_c, roles_distinct, stored; simpl; try done).
  - by apply (write_buf_values (λ v, v = val ∨ v ∈ w)).
  - subst. intuition.
Qed.

(** So do the consumer's. *)
Lemma c_step_inv val c c' : tb_inv val c → c_step c = Some c' → tb_inv val c'.
Proof.
  intros [Hr Hp Hc Hv Hpend Hl Hret] Hs. unfold c_step in Hs.
  destruct c as [b p q w r], q; simplify_eq/=; repeat case_match; simplify_eq/=;
    unfold own_p, own_c, roles_distinct, stored in *; simpl in *;
    (split; unfold own_p, own_c, roles_distinct, stored; simpl; try done; eauto).
  all: try (intuition (subst; eauto); fail).
  all: intros ? [->|]%elem_of_cons; eauto.
Qed.

Lemma tb_exec_inv val m c c' : tb_inv val c → tb_exec m c = Some c' → tb_inv val c'.
Proof.
  intros Hi Hs. destruct m as [v| | | |]; simpl in Hs;
    [| | |by eapply p_step_inv|by eapply c_step_inv].
  - destruct c as [b [] q w r]; simplify_eq/=. destruct Hi as [Hr Hp Hc Hv Hpend Hl Hret].
    unfold stored in *; simpl in *.
    assert (∀ x, (x = val ∨ x ∈ w) → x = val ∨ x ∈ v :: w) as Hmono
      by (intros x [->|]; [by left|right; by right]).
    split; unfold stored; simpl; eauto; [right; by left|].
    destruct q; eauto.
  - destruct c as [b p [] w r]; simplify_eq/=. by destruct Hi; split.
  - destruct c as [b p [] w r]; simplify_eq/=. by destruct Hi; split.
Qed.

Lemma tb_reachable_inv val c : tb_reachable val c → tb_inv val c.
Proof.
  intros Hr. apply (moves_invariant tb_exec (tb_inv val)) with (2 := Hr).
  - intros m x y. apply tb_exec_inv.
  - apply tb_inv_initial.
Qed.

(** ** Uninterrupted runs *)

Lemma store_uninterrupted b q w r v :
  exec_all tb_exec [Store v; Producer; Producer; Producer; Producer; Producer; Producer]
    (mkCfg b PIdle q w r) = Some (mkCfg (store v b) PIdle q (v :: w) r).
Proof. done. Qed.

Lemma wait_load_uninterrupted b p w r :
  exec_all tb_exec [WaitLoad; Consumer; Consumer; Consumer; Consumer; Consumer; Consumer]
    (mkCfg b p CIdle w r) =
  match wait_load b with
  | Some (v, b') => Some (mkCfg b' p CIdle w (v :: r))
  | None => Some (mkCfg b p CWait w r)
  end.
Proof. destruct b as [pr rd ip [] bs]; done. Qed.

Lemma instant_load_uninterrupted b p w r :
  exec_all tb_exec ([InstantLoad; Consumer; Consumer; Consumer] ++
            (if stale_ b then [] else [Consumer; Consumer; Consumer]))
    (mkCfg b p CIdle w r) =
  let '(v, b') := instant_load b in Some (mkCfg b' p CIdle w (v :: r)).
Proof. destruct b as [pr rd ip [] bs]; done. Qed.

(** ** The specification of one method at a time

    A slot: the value the consumer holds and, if any, a newer one. *)
Record slot := mkSlot { held : T; newer : option T }.

Definition slot_store (v : T) (s : slot) : slot := mkSlot (held s) (Some v).
Definition slot_wait (s : slot) : option (T * slot) :=
  match newer s with None => None | Some v => Some (v, mkSlot v None) end.
Definition slot_instant (s : slot) : T * slot :=
  match newer s with
  | None => (held s, s)
  | Some v => (held s, mkSlot v None)
  end.

(** The slot of an object whose roles are distinct. *)
Definition slot_of (b : TripleBuffer) : slot :=
  mkSlot (bufs_ b (present_ b)) (if stale_ b then None else Some (bufs_ b (ready_ b))).

Definition tb_ok (b : TripleBuffer) : Prop :=
  roles_distinct (inprogress_ b) (ready_ b) (present_ b).

Lemma tb_ok_new val : tb_ok (tb_new val).
Proof. unfold tb_ok, roles_distinct; simpl; lia. Qed.

Lemma store_slot v b :
  tb_ok b → tb_ok (store v b) ∧ slot_of (store v b) = slot_store v (slot_of b).
Proof.
  destruct b as [pr rd ip f bs]. unfold tb_ok, roles_distinct; simpl. intros H.
  split; [lia|]. unfold slot_of, slot_store; simpl.
  rewrite fn_lookup_insert, fn_lookup_insert_ne by lia. done.
Qed.

Lemma wait_load_slot b :
  tb_ok b →
  match wait_load b, slot_wait (slot_of b) with
  | Some (v, b'), Some (v', s') => v = v' ∧ tb_ok b' ∧ slot_of b' = s'
  | None, None => True
  | _, _ => False
  end.
Proof.
  destruct b as [pr rd ip [] bs]; unfold tb_ok, roles_distinct; simpl; intros H; [done|].
  split_and!; [done|lia..|done].
Qed.

Lemma instant_load_slot b :
  tb_ok b →
  (instant_load b).1 = (slot_instant (slot_of b)).1 ∧
  tb_ok (instant_load b).2 ∧ slot_of (instant_load b).2 = (slot_instant (slot_of b)).2.
Proof.
  destruct b as [pr rd ip [] bs]; unfold tb_ok, roles_distinct; simpl; intros H; [done|].
  split_and!; [done|lia..|done].
Qed.

End triple_buffer.

Arguments TripleBuffer T : clear implicits.
Arguments config T : clear implicits.
Arguments move T : clear implicits.

(** ** Theorems *)

(** C1: safety under every interleaving.  In every reachable configuration of one
    producer and one consumer, the buffer the producer writes and the buffer the
    consumer reads are different buffers of the array (no data race), and every
    value a load has returned is the initial one or one passed to [store] before. *)
Theorem triple_buffer_race_free {T} (val : T) c :
  tb_reachable val c →
  (∀ p v q, pp c = PWrite p v → cp c = CRead q ∨ cp c = IRead q → p ≠ q ∧ p < 3 ∧ q < 3) ∧
  (∀ v, v ∈ returned c → v = val ∨ v ∈ written c).
Proof.
  intros [Hr Hp Hc _ _ _ Hret]%tb_reachable_inv. split; [|done].
  intros p v q Hpp Hcp. unfold own_p, own_c, roles_distinct in Hr.
  rewrite Hpp in Hp, Hr. destruct Hcp as [Hcp|Hcp]; rewrite Hcp in Hc, Hr; subst; lia.
Qed.

Lemma triple_buffer_race_free_witness :
  let c := mkCfg (mkTB 1 0 2 true (λ _, 0)) (PWrite 2 7) (CRead 1) [7] [] in
  tb_reachable 0 c ∧ (2 ≠ 1 ∧ 2 < 3 ∧ 1 < 3).
Proof.
  assert (tb_reachable 0 (mkCfg (mkTB 1 0 2 true (λ _, 0)) (PWrite 2 7) (CRead 1) [7] [])) as Hr.
  { apply (exec_all_rtc tb_exec
      [Store 7; Producer; WaitLoad; Consumer; Consumer; Consumer; Consumer; Consumer]).
    reflexivity. }
  split; [exact Hr|].
  exact (proj1 (triple_buffer_race_free 0 _ Hr) 2 7 1 eq_refl (or_introl eq_refl)).
Defined.

(** C2: refinement of a slot.  Calls that do not overlap behave as a slot that
    keeps the newest value: [store] replaces it, [wait_load] returns it (and spins
    exactly when there is none newer than the one held), [instant_load] returns the
    value held and then takes the newest.  The three roles stay distinct, so this
    goes on for ever, starting from the constructor, where the initial value counts
    as new. *)
Theorem triple_buffer_sequential {T} (val : T) (b : TripleBuffer T) v :
  (tb_ok (tb_new val) ∧ slot_of (tb_new val) = mkSlot val (Some val)) ∧
  (tb_ok b →
   (tb_ok (store v b) ∧ slot_of (store v b) = slot_store v (slot_of b)) ∧
   match wait_load b, slot_wait (slot_of b) with
   | Some (x, b'), Some (y, s') => x = y ∧ tb_ok b' ∧ slot_of b' = s'
   | None, None => True
   | _, _ => False
   end ∧
   (instant_load b).1 = (slot_instant (slot_of b)).1 ∧
   tb_ok (instant_load b).2 ∧ slot_of (instant_load b).2 = (slot_instant (slot_of b)).2).
Proof.
  split; [split; [apply tb_ok_new|done]|].
  intros Hb. split; [by apply store_slot|].
  split; [by apply wait_load_slot | by apply instant_load_slot].
Qed.

Lemma triple_buffer_sequential_witness :
  let b := store 5 (tb_new 3) in
  tb_ok b ∧ tb_ok (store 6 b) ∧ slot_of (store 6 b) = mkSlot 3 (Some 6).
Proof.
  simpl. assert (tb_ok (store 5 (tb_new 3))) as Hb.
  { exact (proj1 (proj1 (proj2 (triple_buffer_sequential 3 (tb_new 3) 5)
      (proj1 (proj1 (triple_buffer_sequential 3 (tb_new 3) 5)))))). }
  split; [exact Hb|]. exact (proj1 (proj2 (triple_buffer_sequential 3 (store 5 (tb_new 3)) 6) Hb)).
Defined.

(** Staleness.  If the consumer swaps between the producer's exchange and its
    notification, then after both threads are idle the consumer has read the newest
    value and then the older initial one, the newest value is no longer held by the
    consumer, and [wait_load] spins: the newest value is lost to the consumer until
    another [store]. *)
Theorem triple_buffer_stale_load :
  ∃ c : config nat,
    tb_reachable 0 c ∧ pp c = PIdle ∧ cp c = CIdle ∧
    written c = [1] ∧ returned c = [0; 1] ∧
    bufs_ (buf c) (present_ (buf c)) = 0 ∧ wait_load (buf c) = None.
Proof.
  exists (mkCfg (mkTB 0 2 1 true (<[2 := 1]> (λ _, 0))) PIdle CIdle [1] [0; 1]).
  split; [|done].
  apply (exec_all_rtc tb_exec
    ([Store 1; Producer; Producer; Producer; Producer] ++
     [WaitLoad; Consumer; Consumer; Consumer; Consumer; Consumer; Consumer] ++
     [Producer; Producer] ++
     [WaitLoad; Consumer; Consumer; Consumer; Consumer; Consumer; Consumer])).
  reflexivity.
Qed.
