(* ===== verification/TripleBufferSo.v ===== *)
(** The self-driven triple buffer of
    [src/cpp_practices/lock_free_structure/include/triple_buffer_so.h] with the
    program of [src/triple_buffer_so_example.cpp].

    The class owns its two threads: [producer] and [consumer] loop until [stop],
    the destructor stops and joins them.  As in [TripleBuffer], one atomic access
    or one call of [produce]/[consume] is one step.  [produce] and [consume] are
    template parameters of the class and parameters here.

    The theorems: the threads never work on the same buffer, [consume] is only
    called on a buffer that [produce] has filled, and the destructor returns under
    every fair schedule. *)
From S2P Require Import Prelude.
From stdpp Require Import functions pretty.
Local Open Scope nat_scope.

Section triple_buffer_so.
(** Buffers, the static state of [produce], what [consume] emits. *)
Context {buffer G O : Type}.
Context (produce : buffer → G → buffer * G) (consume : buffer → O).

(** ** The object *)

(* @src cpp_practices/lock_free_structure/include/triple_buffer_so.h 49-58 triple_buffer *)
(** [filled] is ghost: which buffers [produce] has written. *)
Record shared := mkShared {
  present : nat; ready : nat; inprogress : nat;
  stop : bool; stale : bool;
  bufs : nat → buffer;
  gen : G;
  consumed : list O;
  filled : nat → bool }.

(* @src cpp_practices/lock_free_structure/include/triple_buffer_so.h 60-66 triple_buffer::producer *)
Inductive qpc :=
| QCheck                (* about to test [stop] *)
| QLoad                 (* about to load [inprogress] *)
| QProduce (p : nat)    (* about to call [produce] *)
| QLoad2                (* about to load the argument of [exchange] *)
| QXchg (q : nat)
| QPut (r : nat)        (* about to store [inprogress] *)
| QClear                (* about to clear [stale] *)
| QDone.

(* @src cpp_practices/lock_free_structure/include/triple_buffer_so.h 68-75 triple_buffer::consumer *)
Inductive kpc :=
| KCheck                (* about to test [stop] *)
| KLoad                 (* about to load [present] *)
| KConsume (p : nat)    (* about to call [consume] *)
| KTas                  (* about to [test_and_set] *)
| KLoad2
| KXchg (q : nat)
| KPut (r : nat)        (* about to store [present] *)
| KDone.

(* @src cpp_practices/lock_free_structure/include/triple_buffer_so.h 41-47 triple_buffer::~triple_buffer *)
(** The thread that owns the object. *)
Inductive dpc :=
| DRun                  (* the object is in use *)
| DJoinP                (* [stop] stored, joining the producer *)
| DClear
| DJoinC
| DDone.

Record so_config := mkSo { sh : shared; qp : qpc; kp : kpc; dp : dpc }.

Definition set_ptrs (pr rd ip : nat) (s : shared) : shared :=
  mkShared pr rd ip (stop s) (stale s) (bufs s) (gen s) (consumed s) (filled s).
Definition set_flags (sp sl : bool) (s : shared) : shared :=
  mkShared (present s) (ready s) (inprogress s) sp sl (bufs s) (gen s) (consumed s) (filled s).

(* @src cpp_practices/lock_free_structure/include/triple_buffer_so.h 62-62 triple_buffer::producer *)
(** [produce(p)]. *)
Definition do_produce (p : nat) (s : shared) : shared :=
  let '(b, g) := produce (bufs s p) (gen s) in
  mkShared (present s) (ready s) (inprogress s) (stop s) (stale s)
    (<[p := b]> (bufs s)) g (consumed s) (<[p := true]> (filled s)).

(* @src cpp_practices/lock_free_structure/include/triple_buffer_so.h 70-70 triple_buffer::consumer *)
(** [consume(p)]. *)
Definition do_consume (p : nat) (s : shared) : shared :=
  mkShared (present s) (ready s) (inprogress s) (stop s) (stale s)
    (bufs s) (gen s) (consumed s ++ [consume (bufs s p)]) (filled s).

(* @src cpp_practices/lock_free_structure/include/triple_buffer_so.h 31-39 triple_buffer::triple_buffer *)
Definition so_new (bs : nat → buffer) (g : G) : so_config :=
  let s := mkShared 0 1 2 false true bs g [] (λ _, false) in
  mkSo (do_produce (present s) s) QCheck KCheck DRun.

(* @src cpp_practices/lock_free_structure/include/triple_buffer_so.h 60-66 triple_buffer::producer *)
Definition producer_step (s : shared) (q : qpc) : option (shared * qpc) :=
  match q with
  | QCheck => Some (s, if stop s then QDone else QLoad)
  | QLoad => Some (s, QProduce (inprogress s))
  | QProduce p => Some (do_produce p s, QLoad2)
  | QLoad2 => Some (s, QXchg (inprogress s))
  | QXchg q => Some (set_ptrs (present s) q (inprogress s) s, QPut (ready s))
  | QPut r => Some (set_ptrs (present s) (ready s) r s, QClear)
  | QClear => Some (set_flags (stop s) false s, QCheck)
  | QDone => None
  end.

(* @src cpp_practices/lock_free_structure/include/triple_buffer_so.h 68-75 triple_buffer::consumer *)
Definition consumer_step (s : shared) (k : kpc) : option (shared * kpc) :=
  match k with
  | KCheck => Some (s, if stop s then KDone else KLoad)
  | KLoad => Some (s, KConsume (present s))
  | KConsume p => Some (do_consume p s, KTas)
  | KTas => Some (set_flags (stop s) true s, if stale s then KTas else KLoad2)
  | KLoad2 => Some (s, KXchg (present s))
  | KXchg q => Some (set_ptrs (present s) q (inprogress s) s, KPut (ready s))
  | KPut r => Some (set_ptrs r (ready s) (inprogress s) s, KCheck)
  | KDone => None
  end.

(* @src cpp_practices/lock_free_structure/include/triple_buffer_so.h 41-47 triple_buffer::~triple_buffer *)
Definition destructor_step (c : so_config) : option so_config :=
  let '(mkSo s q k d) := c in
  match d with
  | DRun => Some (mkSo (set_flags true (stale s) s) q k DJoinP)
  | DJoinP => match q with QDone => Some (mkSo s q k DClear) | _ => None end
  | DClear => Some (mkSo (set_flags (stop s) false s) q k DJoinC)
  | DJoinC => match k with KDone => Some (mkSo s q k DDone) | _ => None end
  | DDone => None
  end.

Inductive so_move := MProducer | MConsumer | MOwner.

Definition so_exec (m : so_move) (c : so_config) : option so_config :=
  match m with
  | MProducer => '(s, q) ← producer_step (sh c) (qp c); Some (mkSo s q (kp c) (dp c))
  | MConsumer => '(s, k) ← consumer_step (sh c) (kp c); Some (mkSo s (qp c) k (dp c))
  | MOwner => destructor_step c
  end.

Definition so_reachable (bs : nat → buffer) (g : G) (c : so_config) : Prop :=
  rtc (move_step so_exec) (so_new bs g) c.

(** ** The invariant *)

Definition owner_q (c : so_config) : nat :=
  match qp c with QPut r => r | _ => inprogress (sh c) end.
Definition owner_k (c : so_config) : nat :=
  match kp c with KPut r => r | _ => present (sh c) end.

(** The consumer may still go on to [consume] without another swap. *)
Definition before_swap (c : so_config) : Prop :=
  match kp c with
  | KLoad | KConsume _ => True
  | KCheck => stop (sh c) = false
  | _ => False
  end.
(** The consumer has been let through to a swap. *)
Definition in_swap (c : so_config) : Prop :=
  match kp c with KLoad2 | KXchg _ => True | _ => False end.
(** The producer has published its buffer and not yet notified. *)
Definition publishing (c : so_config) : Prop :=
  match qp c with QPut _ | QClear => True | _ => False end.
(** Nothing has been published: the flag is set and nobody may swap. *)
Definition unpublished (c : so_config) : Prop :=
  stale (sh c) = true ∧ ¬ in_swap c ∧ ¬ publishing c.

Record so_inv (c : so_config) : Prop := {
  so_roles : owner_q c ≠ ready (sh c) ∧ ready (sh c) ≠ owner_k c ∧ owner_q c ≠ owner_k c;
  so_qpc : match qp c with
    | QProduce p => p = inprogress (sh c)
    | QXchg q => q = inprogress (sh c) ∧ filled (sh c) q = true
    | QLoad2 => filled (sh c) (inprogress (sh c)) = true
    | _ => True end;
  so_kpc : match kp c with
    | KConsume p => p = present (sh c)
    | KXchg q => q = present (sh c)
    | _ => True end;
  so_stop : dp c ≠ DRun → stop (sh c) = true;
  so_joined : (dp c = DClear ∨ dp c = DJoinC ∨ dp c = DDone) → qp c = QDone;
  so_released : (dp c = DJoinC ∨ dp c = DDone) →
    (kp c = KLoad ∨ (∃ p, kp c = KConsume p) ∨ kp c = KTas) → stale (sh c) = false;
  so_filled : before_swap c → filled (sh c) (owner_k c) = true;
  so_ready : stop (sh c) = false →
    filled (sh c) (owner_k c) = true ∧
    (filled (sh c) (ready (sh c)) = true ∨ unpublished c) }.

Lemma so_inv_new bs g : so_inv (so_new bs g).
Proof.
  unfold so_new, do_produce. simpl. destruct (produce (bs 0) g) as [b g'].
  split; unfold owner_q, owner_k, before_swap, unpublished, in_swap, publishing; simpl;
    try done; try (intuition discriminate); by rewrite fn_lookup_insert.
Qed.

Lemma filled_insert (f : nat → bool) p i : f i = true → <[p := true]> f i = true.
Proof.
  intros H. destruct (decide (p = i)) as [->|];
    [by rewrite fn_lookup_insert | by rewrite fn_lookup_insert_ne].
Qed.

Ltac so_unfold :=
  unfold owner_q, owner_k, before_swap, unpublished, in_swap, publishing in *; simpl in *.

Lemma producer_step_inv s q k d s' q' :
  so_inv (mkSo s q k d) → producer_step s q = Some (s', q') → so_inv (mkSo s' q' k d).
Proof.
  intros [Hr Hq Hk Hs Hj Hrel Hf Hrd] Hstep. so_unfold.
  destruct q; simplify_eq/=; try (destruct (stop s') eqn:?); try unfold do_produce;
    try destruct (produce _ _) as [b g']; subst;
    (split; so_unfold; try done; try (intuition (congruence || eauto using filled_insert); fail)).
  all: try (rewrite fn_lookup_insert; done).
  all: destruct k; intuition (congruence || eauto using filled_insert).
Qed.

Lemma consumer_step_inv s q k d s' k' :
  so_inv (mkSo s q k d) → consumer_step s k = Some (s', k') → so_inv (mkSo s' q k' d).
Proof.
  intros [Hr Hq Hk Hs Hj Hrel Hf Hrd] Hstep. so_unfold.
  destruct k; simplify_eq/=;
    try (destruct (stop s') eqn:?); try (destruct (stale s) eqn:?); subst;
    (split; so_unfold; try done; try (intuition (congruence || eauto); fail)).
  all: try (destruct q; intuition (congruence || eauto); fail).
  all: intros _ [?|[[? ?]|?]]; done.
Qed.

Lemma destructor_step_inv c c' : so_inv c → destructor_step c = Some c' → so_inv c'.
Proof.
  destruct c as [s q k d]. intros [Hr Hq Hk Hs Hj Hrel Hf Hrd] Hstep. so_unfold.
  destruct d; simplify_eq/=; try (destruct q; simplify_eq/=); try (destruct k; simplify_eq/=);
    (split; so_unfold; try done; try (intuition (congruence || eauto); fail)).
Qed.

Lemma so_exec_inv m c c' : so_inv c → so_exec m c = Some c' → so_inv c'.
Proof.
  intros Hi Hx. destruct c as [s q k d], m; simpl in Hx.
  - destruct (producer_step s q) as [[s' q']|] eqn:Hs; simplify_eq/=.
    by eapply producer_step_inv.
  - destruct (consumer_step s k) as [[s' k']|] eqn:Hs; simplify_eq/=.
    by eapply consumer_step_inv.
  - by eapply destructor_step_inv.
Qed.

Lemma so_reachable_inv bs g c : so_reachable bs g c → so_inv c.
Proof.
  intros Hr. apply (moves_invariant so_exec so_inv) with (2 := Hr).
  - apply so_exec_inv.
  - apply so_inv_new.
Qed.

(** ** Shutting down

    Steps left once [stop] is set; a failed [test_and_set] is the only step that
    does not count down. *)
Definition q_left (q : qpc) : nat :=
  match q with
  | QDone => 0 | QCheck => 1 | QClear => 2 | QPut _ => 3 | QXchg _ => 4
  | QLoad2 => 5 | QProduce _ => 6 | QLoad => 7
  end.
Definition k_left (k : kpc) : nat :=
  match k with
  | KDone => 0 | KCheck => 1 | KPut _ => 2 | KXchg _ => 3 | KLoad2 => 4 | KTas => 5
  | KConsume _ => 6 | KLoad => 7
  end.
Definition d_left (d : dpc) : nat :=
  match d with DRun => 4 | DJoinP => 3 | DClear => 2 | DJoinC => 1 | DDone => 0 end.
Definition so_left (c : so_config) : nat := q_left (qp c) + k_left (kp c) + d_left (dp c).

(** After [stop] every step counts down or changes nothing. *)
Lemma so_step_left m c c' :
  stop (sh c) = true → so_exec m c = Some c' →
  stop (sh c') = true ∧ (c' = c ∨ so_left c' < so_left c).
Proof.
  destruct c as [s q k d]; simpl. intros Hstop Hx. unfold so_left.
  destruct s as [pr rd ip sp sl bs g cs fl], m; simpl in *; subst.
  - destruct q; simplify_eq/=; try (split; [done|right; lia]).
    unfold do_produce; simpl. destruct (produce _ _). split; [done|right; simpl; lia].
  - destruct k; simplify_eq/=; try (split; [done|right; lia]).
    destruct sl; [by split; [|left] | split; [done|right; simpl; lia]].
  - destruct d; simplify_eq/=; try (split; [done|right; lia]).
    + destruct q; simplify_eq/=. split; [done|right; lia].
    + destruct k; simplify_eq/=. split; [done|right; lia].
Qed.

(** A producer told to stop can count down. *)
Lemma producer_progress c :
  stop (sh c) = true → qp c ≠ QDone →
  ∃ c', so_exec MProducer c = Some c' ∧ so_left c' < so_left c.
Proof.
  destruct c as [s q k d]; unfold so_left; simpl. intros Hstop Hq.
  destruct q; try done; try (eexists; split; [done|simpl; lia]).
  - simpl. rewrite Hstop. eexists; split; [done|simpl; lia].
Qed.

(** So can a consumer told to stop, once the flag has been cleared for it. *)
Lemma consumer_progress c :
  so_inv c → dp c = DJoinC ∨ dp c = DDone → stop (sh c) = true → kp c ≠ KDone →
  ∃ c', so_exec MConsumer c = Some c' ∧ so_left c' < so_left c.
Proof.
  destruct c as [s q k d]; unfold so_left; intros Hi Hd Hstop Hk; simpl in *.
  destruct k; try done; try (eexists; split; [done|simpl; lia]).
  - simpl. rewrite Hstop. eexists; split; [done|simpl; lia].
  - pose proof (so_released _ Hi) as Hrel; simpl in *. rewrite Hrel by auto. eexists; split; [done|simpl; lia].
Qed.

(** After [stop] some thread can count down until all is done. *)
Lemma so_progress c :
  so_inv c → stop (sh c) = true → dp c ≠ DRun →
  (qp c = QDone ∧ kp c = KDone ∧ dp c = DDone) ∨
  ∃ m c', so_exec m c = Some c' ∧ so_left c' < so_left c.
Proof.
  intros Hi Hstop Hd.
  assert (∀ q : qpc, q = QDone ∨ q ≠ QDone) as Hqd by (intros []; auto).
  assert (∀ k : kpc, k = KDone ∨ k ≠ KDone) as Hkd by (intros []; auto).
  destruct (dp c) eqn:Hdp; [done| | | |].
  - destruct (Hqd (qp c)) as [Hq|Hq]; [|right; exists MProducer; by apply producer_progress].
    right. exists MOwner. destruct c; unfold so_left; simpl in *; subst.
    eexists; split; [done|simpl; lia].
  - right. exists MOwner. destruct c; unfold so_left; simpl in *; subst.
    eexists; split; [done|simpl; lia].
  - destruct (Hkd (kp c)) as [Hk|Hk];
      [|right; exists MConsumer; by apply consumer_progress; auto].
    right. exists MOwner. destruct c; unfold so_left; simpl in *; subst.
    eexists; split; [done|simpl; lia].
  - destruct (Hkd (kp c)) as [Hk|Hk];
      [|right; exists MConsumer; by apply consumer_progress; auto].
    left. split_and!; [apply (so_joined _ Hi); auto|done|done].
Qed.

End triple_buffer_so.

(** ** The example program *)

(* @src cpp_practices/lock_free_structure/src/triple_buffer_so_example.cpp 7-10 buffer *)
Record ex_buffer := mkBuffer { id : Z; value : Z }.

(* @src cpp_practices/lock_free_structure/src/triple_buffer_so_example.cpp 12-15 produce *)
(** The static counter is the second argument; its overflow is not modelled. *)
Definition ex_produce (b : ex_buffer) (value : Z) : ex_buffer * Z :=
  (mkBuffer (id b) value, (value + 1)%Z).

(* @src cpp_practices/lock_free_structure/src/triple_buffer_so_example.cpp 17-19 consume *)
Definition ex_consume (b : ex_buffer) : string :=
  pretty (id b) +:+ ": " +:+ pretty (value b) +:+ nl.

(* @src cpp_practices/lock_free_structure/src/triple_buffer_so_example.cpp 20-24 main *)
(** The object the program creates; what the threads do before it is destroyed
    depends on the schedule. *)
Definition ex_main : so_config :=
  so_new (O := string) ex_produce (λ i, mkBuffer (Z.of_nat i) 0) 0%Z.

(** ** Theorems *)

(** C12: safety.  In every reachable configuration the producer and the consumer work on
    different buffers, and a buffer about to be consumed has been filled by [produce]. *)
Theorem triple_buffer_so_safe {buffer G O} (produce : buffer → G → buffer * G)
    (consume : buffer → O) bs g c :
  so_reachable produce consume bs g c →
  (∀ p q, qp c = QProduce p → kp c = KConsume q → p ≠ q) ∧
  (∀ q, kp c = KConsume q → filled (sh c) q = true).
Proof.
  intros Hi%so_reachable_inv. split.
  - intros p q Hp Hq. pose proof (so_roles _ Hi) as Hr.
    pose proof (so_qpc _ Hi) as Hqp. pose proof (so_kpc _ Hi) as Hkp.
    unfold owner_q, owner_k in Hr. rewrite Hp in Hr, Hqp. rewrite Hq in Hr, Hkp. intuition congruence.
  - intros q Hq. pose proof (so_filled _ Hi) as Hf. pose proof (so_kpc _ Hi) as Hkp.
    unfold before_swap, owner_k in Hf. rewrite Hq in Hf, Hkp. subst. by apply Hf.
Qed.

Lemma triple_buffer_so_safe_witness :
  ∃ c, so_reachable ex_produce ex_consume (λ i, mkBuffer (Z.of_nat i) 0) 0%Z c ∧
    kp c = KConsume 0 ∧ filled (sh c) 0 = true.
Proof.
  assert (∃ c, exec_all (so_exec ex_produce ex_consume) [MConsumer; MConsumer] ex_main = Some c ∧
    kp c = KConsume 0) as (c & Hc & Hk) by (eexists; split; reflexivity).
  assert (so_reachable ex_produce ex_consume (λ i, mkBuffer (Z.of_nat i) 0) 0%Z c) as Hr
    by (exact (exec_all_rtc _ _ _ _ Hc)).
  exists c. split; [exact Hr|]. split; [exact Hk|].
  exact (proj2 (triple_buffer_so_safe ex_produce ex_consume _ _ c Hr) 0 Hk).
Defined.

(** C13: termination of the destructor.  Once [~triple_buffer] has stored [stop], every
    step of any thread either changes nothing (a failed [test_and_set] of the consumer)
    or decreases the number of steps left, and unless everything has finished some thread
    can make a decreasing step: both joins return under every fair schedule, the consumer
    being released from its spin loop by the final [clear]. *)
Theorem triple_buffer_so_destructor_returns {buffer G O}
    (produce : buffer → G → buffer * G) (consume : buffer → O) bs g c :
  so_reachable produce consume bs g c → dp c ≠ DRun →
  ((qp c = QDone ∧ kp c = KDone ∧ dp c = DDone) ∨
   ∃ m c', so_exec produce consume m c = Some c' ∧ so_left c' < so_left c) ∧
  (∀ m c', so_exec produce consume m c = Some c' → c' = c ∨ so_left c' < so_left c).
Proof.
  intros Hr Hd. pose proof (so_reachable_inv _ _ _ _ _ Hr) as Hi.
  pose proof (so_stop _ Hi Hd) as Hs. split; [by apply so_progress|].
  intros m c' Hx. by destruct (so_step_left produce consume m c c' Hs Hx).
Qed.

Lemma triple_buffer_so_destructor_returns_witness :
  ∃ c, so_reachable ex_produce ex_consume (λ i, mkBuffer (Z.of_nat i) 0) 0%Z c ∧ dp c = DJoinP ∧
    ∃ m c', so_exec ex_produce ex_consume m c = Some c' ∧ so_left c' < so_left c.
Proof.
  assert (∃ c, exec_all (so_exec ex_produce ex_consume) [MConsumer; MOwner] ex_main = Some c ∧
    dp c = DJoinP) as (c & Hc & Hk) by (eexists; split; reflexivity).
  assert (so_reachable ex_produce ex_consume (λ i, mkBuffer (Z.of_nat i) 0) 0%Z c) as Hr
    by (exact (exec_all_rtc _ _ _ _ Hc)).
  assert (dp c ≠ DRun) as Hd by (rewrite Hk; discriminate).
  exists c. split; [exact Hr|]. split; [exact Hk|].
  destruct (proj1 (triple_buffer_so_destructor_returns ex_produce ex_consume _ _ c Hr Hd))
    as [(_ & _ & Hdd)|Hx]; [|exact Hx].
  rewrite Hk in Hdd. discriminate.
Defined.
