(* ===== verification/RealtimeExecutor.v ===== *)
(** The realtime executor of [src/utils/realtime_executor].

    [queue_push], [queue_pop] model the methods of [include/queue.h] (each runs
    under the queue's mutex, so each is one step); the step functions model the
    two threads of [include/realtime_executor.h]: the worker in [execution_loop]
    and the owner that calls [execute], [stop] and the destructor.

    The theorems: a bounded queue keeps exactly the newest messages in order; the
    callback receives the executed data in order, all of them if the queue is
    unbounded; and the destructor returns under every fair schedule unless the
    worker is blocked on an empty queue, in which case it never returns. *)
From S2P Require Import Prelude.
Local Open Scope nat_scope.

Section realtime_executor.
Context {DataT : Type}.
Implicit Types (q : list DataT) (d : DataT).

(** ** [queue.h] *)

(* @src utils/realtime_executor/include/queue.h 27-36 Queue::pop_if_needed *)
(** [queue_size] is the template parameter; 0 selects the overload that does nothing. *)
Definition pop_if_needed (queue_size : nat) q : list DataT :=
  match queue_size with
  | 0 => q
  | _ => if queue_size <? length q then tail q else q
  end.

(* @src utils/realtime_executor/include/queue.h 12-17 Queue::push *)
(** The new contents; the waiting threads are notified as well, see [execute]. *)
Definition queue_push (queue_size : nat) (msg : DataT) q : list DataT :=
  pop_if_needed queue_size (q ++ [msg]).

(* @src utils/realtime_executor/include/queue.h 19-25 Queue::waitAndPop *)
(** [None]: the predicate of the wait is false. *)
Definition queue_pop q : option (DataT * list DataT) :=
  match q with [] => None | res :: q => Some (res, q) end.

(* @src utils/realtime_executor/include/realtime_executor.h 24-30 with_queue *)
(** The queue size a policy selects. *)
Inductive QueuePolicy := with_queue | without_queue.
Definition policy_value (p : QueuePolicy) : nat :=
  match p with with_queue => 0 | without_queue => 1 end.

(** ** [realtime_executor.h] *)

(* @src utils/realtime_executor/include/realtime_executor.h 63-71 RealtimeExecutor::execution_loop *)
(** Where the worker is. *)
Inductive worker :=
| WStart                  (* about to set [is_running_] *)
| WTest                   (* about to test [keep_running_] *)
| WPop                    (* in [waitAndPop], about to take the lock *)
| WSleep                  (* asleep on the condition variable *)
| WCall (d : DataT)       (* about to call [f] *)
| WExit                   (* about to clear [is_running_] *)
| WDone.

(* @src utils/realtime_executor/include/realtime_executor.h 43-52 RealtimeExecutor::~RealtimeExecutor *)
(** Where the owner is. *)
Inductive owner := ORun | OSpin | OJoin | ODone.

(* @src utils/realtime_executor/include/realtime_executor.h 73-79 RealtimeExecutor *)
(** [pushed] and [called] (oldest first) are ghost: the data executed and the
    data [f] was called with. *)
Record executor := mkEx {
  data_queue_ : list DataT;
  keep_running_ : bool;
  is_running_ : bool;
  wk : worker; ow : owner;
  pushed : list DataT; called : list DataT }.

(* @src utils/realtime_executor/include/realtime_executor.h 37-41 RealtimeExecutor::RealtimeExecutor *)
(** [is_running_] is not initialised: [garbage] is what it holds. *)
Definition ex_new (garbage : bool) : executor :=
  mkEx [] true garbage WStart ORun [] [].

Definition with_wk (w : worker) (e : executor) : executor :=
  mkEx (data_queue_ e) (keep_running_ e) (is_running_ e) w (ow e) (pushed e) (called e).
Definition with_ow (o : owner) (e : executor) : executor :=
  mkEx (data_queue_ e) (keep_running_ e) (is_running_ e) (wk e) o (pushed e) (called e).

Context (queue_size : nat).

(* @src utils/realtime_executor/include/realtime_executor.h 54-54 RealtimeExecutor::execute *)
(** [push] notifies: a sleeping worker goes back to take the lock. *)
Definition execute (d : DataT) (e : executor) : executor :=
  mkEx (queue_push queue_size d (data_queue_ e)) (keep_running_ e) (is_running_ e)
    (match wk e with WSleep => WPop | w => w end) (ow e) (pushed e ++ [d]) (called e).

(* @src utils/realtime_executor/include/realtime_executor.h 56-56 RealtimeExecutor::stop *)
Definition ex_stop (e : executor) : executor :=
  mkEx (data_queue_ e) false (is_running_ e) (wk e) (ow e) (pushed e) (called e).

(* @src utils/realtime_executor/include/realtime_executor.h 63-71 RealtimeExecutor::execution_loop *)
Definition worker_step (e : executor) : option executor :=
  match wk e with
  | WStart =>
      Some (mkEx (data_queue_ e) (keep_running_ e) true WTest (ow e) (pushed e) (called e))
  | WTest => Some (with_wk (if keep_running_ e then WPop else WExit) e)
  | WPop =>
      match queue_pop (data_queue_ e) with
      | None => Some (with_wk WSleep e)
      | Some (d, q) =>
          Some (mkEx q (keep_running_ e) (is_running_ e) (WCall d) (ow e) (pushed e) (called e))
      end
  | WSleep => None
  | WCall d =>
      Some (mkEx (data_queue_ e) (keep_running_ e) (is_running_ e) WTest (ow e)
              (pushed e) (called e ++ [d]))
  | WExit =>
      Some (mkEx (data_queue_ e) (keep_running_ e) false WDone (ow e) (pushed e) (called e))
  | WDone => None
  end.

(* @src utils/realtime_executor/include/realtime_executor.h 43-52 RealtimeExecutor::~RealtimeExecutor *)
(** The destructor: stop, spin on [is_running_], join. *)
Definition executor_destructor_step (e : executor) : option executor :=
  match ow e with
  | ORun => Some (with_ow OSpin (ex_stop e))
  | OSpin => Some (with_ow (if is_running_ e then OSpin else OJoin) e)
  | OJoin => match wk e with WDone => Some (with_ow ODone e) | _ => None end
  | ODone => None
  end.

(** [Spurious]: the condition variable wakes without a notification. *)
Inductive ex_move := Execute (d : DataT) | Stop | Destroy | Worker | Spurious.

Definition ex_exec (m : ex_move) (e : executor) : option executor :=
  match m with
  | Execute d => match ow e with ORun => Some (execute d e) | _ => None end
  | Stop => match ow e with ORun => Some (ex_stop e) | _ => None end
  | Destroy => executor_destructor_step e
  | Worker => worker_step e
  | Spurious => match wk e with WSleep => Some (with_wk WPop e) | _ => None end
  end.

Definition ex_reachable (e : executor) : Prop :=
  ∃ garbage, rtc (move_step ex_exec) (ex_new garbage) e.

(** ** The queue *)

Lemma queue_push_bound msg q :
  queue_size ≠ 0 → length q ≤ queue_size → length (queue_push queue_size msg q) ≤ queue_size.
Proof.
  unfold queue_push, pop_if_needed. intros Hs Hq. destruct queue_size as [|n] eqn:E; [done|].
  destruct (Nat.ltb_spec (S n) (length (q ++ [msg]))); [|lia].
  destruct q; simpl in *; [lia|]. rewrite length_app in *; simpl in *; lia.
Qed.

(** A push either keeps everything or drops the oldest message. *)
Lemma queue_push_cases msg q :
  queue_push queue_size msg q = q ++ [msg] ∨
  (queue_size ≠ 0 ∧ ∃ x q', q ++ [msg] = x :: q' ∧ queue_push queue_size msg q = q').
Proof.
  unfold queue_push, pop_if_needed. destruct queue_size as [|n]; [by left|].
  destruct (Nat.ltb_spec (S n) (length (q ++ [msg]))); [right|by left].
  split; [done|]. destruct (q ++ [msg]) eqn:E; [simpl in *; lia|]. eauto.
Qed.

Lemma queue_push_newest msgs :
  queue_size ≠ 0 →
  foldl (λ q m, queue_push queue_size m q) [] msgs = drop (length msgs - queue_size) msgs.
Proof.
  intros Hs. induction msgs as [|m msgs IH] using rev_ind; [done|].
  rewrite foldl_app; simpl. rewrite IH, length_app; simpl.
  unfold queue_push, pop_if_needed. destruct queue_size as [|n] eqn:E; [done|].
  destruct (Nat.ltb_spec (S n) (length (drop (length msgs - S n) msgs ++ [m]))) as [Hl|Hl];
    rewrite length_app, length_drop in Hl; simpl in Hl.
  - replace (length msgs + 1 - S n) with (S (length msgs - S n)) by lia.
    rewrite !drop_app_le by lia.
    rewrite <- tail_drop_S.
    destruct (drop (length msgs - S n) msgs) eqn:Ed; [|done].
    apply (f_equal length) in Ed. rewrite length_drop in Ed; simpl in Ed. lia.
  - rewrite drop_app_le by lia.
    replace (length msgs + 1 - S n) with 0 by lia.
    by replace (length msgs - S n) with 0 by lia.
Qed.

(** ** The executor's invariant *)

(** The data popped and possibly not yet passed to [f]. *)
Definition in_hand (e : executor) : list DataT :=
  match wk e with WCall d => [d] | _ => [] end.

Record ex_inv (e : executor) : Prop := {
  ex_order : ∃ taken, (called e ++ in_hand e) `sublist_of` taken ∧
    pushed e = taken ++ data_queue_ e ∧
    (queue_size = 0 → called e ++ in_hand e = taken);
  ex_bound : queue_size ≠ 0 → length (data_queue_ e) ≤ queue_size;
  ex_sleep : wk e = WSleep → data_queue_ e = [];
  ex_stopped : ow e ≠ ORun → keep_running_ e = false;
  ex_joined : ow e = ODone → wk e = WDone }.

Lemma ex_inv_new garbage : ex_inv (ex_new garbage).
Proof.
  split; simpl; try done; [|lia]. exists []. done.
Qed.

Lemma execute_inv d e : ow e = ORun → ex_inv e → ex_inv (execute d e).
Proof.
  intros Ho [(tk & Hsub & Hp & Hz) Hb Hs Hst Hj].
  assert (in_hand (execute d e) = in_hand e) as Hw
    by (unfold execute, in_hand; simpl; by destruct (wk e)).
  split; rewrite ?Hw; simpl.
  - destruct (queue_push_cases d (data_queue_ e)) as [->|(Hq & x & q' & Hx & ->)].
    + exists tk. rewrite Hp, <- app_assoc. by split_and!.
    + exists (tk ++ [x]). split_and!; [by apply sublist_inserts_r| |done].
      by rewrite Hp, <- !app_assoc, Hx.
  - intros Hq. by apply queue_push_bound; auto.
  - intros Hc. destruct (wk e); discriminate.
  - congruence.
  - congruence.
Qed.

Lemma worker_step_inv e e' : ex_inv e → worker_step e = Some e' → ex_inv e'.
Proof.
  intros [(tk & Hsub & Hp & Hz) Hb Hs Hst Hj] Hx.
  destruct e as [q kr ir w o ps cs]; unfold worker_step, in_hand in *; simpl in *.
  destruct w as [| | | |d| |]; simplify_eq/=;
    try (split; simpl; eauto; try (intros H; by specialize (Hj H)); destruct kr; by eauto).
  - destruct q as [|d q]; simplify_eq/=.
    + split; simpl; eauto. intros H. specialize (Hj H). done.
    + split; simpl; try done; [|intros Hq; specialize (Hb Hq); lia|intros H; by specialize (Hj H)].
      exists (tk ++ [d]). rewrite app_nil_r in *. split_and!.
      * by apply sublist_app.
      * by rewrite <- app_assoc.
      * intros Hq. by rewrite Hz.
  - split; simpl; try done; [|intros H; by specialize (Hj H)]. exists tk. by rewrite app_nil_r.
Qed.

Lemma ex_exec_inv m e e' : ex_inv e → ex_exec m e = Some e' → ex_inv e'.
Proof.
  intros Hi Hx. destruct m as [d| | | |]; simpl in Hx.
  - destruct (ow e) eqn:Ho; simplify_eq. by apply execute_inv.
  - destruct (ow e) eqn:Ho; simplify_eq. destruct Hi. by split.
  - destruct Hi as [Ho Hb Hs Hst Hj]. unfold executor_destructor_step in Hx.
    destruct (ow e) eqn:Eo; simplify_eq; [by split| |].
    + split; simpl; try done; [by intros _; apply Hst|]. by destruct (is_running_ e).
    + destruct (wk e) eqn:Ew; simplify_eq.
      split; simpl; rewrite ?Ew; try done. by intros _; apply Hst.
  - by eapply worker_step_inv.
  - destruct (wk e) eqn:Ew; simplify_eq. destruct Hi as [Ho Hb Hs Hst Hj].
    unfold in_hand in *; rewrite Ew in *. split; simpl; try done.
    intros H. by specialize (Hj H).
Qed.

Lemma ex_reachable_inv e : ex_reachable e → ex_inv e.
Proof.
  intros [garbage Hr]. apply (moves_invariant ex_exec ex_inv) with (2 := Hr).
  - apply ex_exec_inv.
  - apply ex_inv_new.
Qed.

(** ** Destruction *)

(** The worker is waiting for data that cannot come: the owner is in the
    destructor and the queue is empty. *)
Definition blocked (e : executor) : Prop :=
  ow e ≠ ORun ∧ (wk e = WPop ∨ wk e = WSleep) ∧ data_queue_ e = [].

(** A blocked worker stays blocked, and the destructor with it. *)
Lemma blocked_step m e e' : ex_inv e → blocked e → ex_exec m e = Some e' → blocked e'.
Proof.
  intros Hi (Ho & Hw & Hq) Hx. unfold blocked. destruct m; simpl in Hx.
  - destruct (ow e); done.
  - destruct (ow e); done.
  - unfold executor_destructor_step in Hx. destruct (ow e) eqn:Eo; [done| | |done]; simplify_eq.
    + split_and!; simpl; try done. by destruct (is_running_ e).
    + destruct Hw as [Hw|Hw]; rewrite Hw in Hx; done.
  - unfold worker_step in Hx. destruct Hw as [Hw|Hw]; rewrite Hw in Hx; [|done].
    rewrite Hq in Hx; simplify_eq/=. auto.
  - destruct Hw as [Hw|Hw]; rewrite Hw in Hx; simplify_eq/=. auto.
Qed.

Definition w_left (w : worker) : nat :=
  match w with
  | WDone => 0 | WExit => 1 | WTest => 2 | WCall _ => 3 | WPop => 4 | WSleep => 5 | WStart => 3
  end.
Definition o_left (o : owner) : nat :=
  match o with ORun => 3 | OSpin => 2 | OJoin => 1 | ODone => 0 end.
Definition ex_left (e : executor) : nat := w_left (wk e) + o_left (ow e).

(** The worker has set [is_running_] and not yet cleared it, or will do both. *)
Definition ran (e : executor) : Prop := wk e = WDone → is_running_ e = false.

Lemma ran_step m e e' : ran e → ex_exec m e = Some e' → ran e'.
Proof.
  unfold ran. intros Hr Hx. destruct m; simpl in Hx.
  - destruct (ow e); simplify_eq/=. destruct (wk e); auto; discriminate.
  - destruct (ow e); by simplify_eq/=.
  - unfold executor_destructor_step in Hx. destruct (ow e); simplify_eq/=; auto.
    destruct (wk e) eqn:?; simplify_eq/=; auto.
  - unfold worker_step in Hx. destruct e as [q kr ir w o ps cs]; simpl in *.
    destruct w; simplify_eq/=; try done; [by destruct kr|by destruct q; simplify_eq/=].
  - destruct (wk e); simplify_eq/=. discriminate.
Qed.

(** In the destructor, a worker that is not blocked can count down... *)
Lemma ex_progress e :
  ex_inv e → ran e → ow e ≠ ORun → ¬ blocked e →
  (ow e = ODone) ∨ ∃ m e', ex_exec m e = Some e' ∧ ex_left e' < ex_left e ∧ ¬ blocked e'.
Proof.
  intros Hi Hran Ho Hb. pose proof (ex_stopped _ Hi Ho) as Hk.
  destruct e as [q kr ir w o ps cs]; unfold ex_left, blocked, ran in *; simpl in *; subst.
  destruct w as [| | | |d| |].
  - right. exists Worker. eexists. split; [done|]. simpl. split; [lia|by intros (_ & [?|?] & ?)].
  - right. exists Worker. eexists. split; [done|]. simpl. split; [lia|by intros (_ & [?|?] & ?)].
  - destruct q as [|d q]; [destruct Hb; by auto|].
    right. exists Worker. eexists. split; [done|]. simpl. split; [lia|by intros (_ & [?|?] & ?)].
  - pose proof (ex_sleep _ Hi eq_refl) as Hq; simpl in Hq; subst. destruct Hb; by auto.
  - right. exists Worker. eexists. split; [done|]. simpl. split; [lia|by intros (_ & [?|?] & ?)].
  - right. exists Worker. eexists. split; [done|]. simpl. split; [lia|by intros (_ & [?|?] & ?)].
  - rewrite Hran by done. destruct o; [done| | |by left]; right; exists Destroy; eexists;
      (split; [done|]); simpl; (split; [lia|by intros (_ & [?|?] & ?)]).
Qed.

(** ... and the only steps that do not count down change nothing (the owner's
    spin). *)
Lemma ex_step_left m e e' :
  ex_inv e → ow e ≠ ORun → ¬ blocked e → ex_exec m e = Some e' →
  e' = e ∨ (ex_left e' < ex_left e ∧ ¬ blocked e').
Proof.
  intros Hi Ho Hb Hx. pose proof (ex_stopped _ Hi Ho) as Hk.
  pose proof (ex_sleep _ Hi) as Hs.
  destruct e as [q kr ir w o ps cs]; unfold ex_left, blocked in *; simpl in *; subst.
  destruct m; simpl in Hx; try (destruct o; done).
  - unfold executor_destructor_step in Hx; simpl in Hx.
    destruct o; [done| | |done]; simplify_eq/=;
      [destruct ir; [by left|]|destruct w; simplify_eq/=]; right; simpl;
      (split; [lia|]); intros (_ & Hw & Hq); [by apply Hb|by destruct Hw].
  - unfold worker_step in Hx; simpl in Hx. right.
    destruct w; simplify_eq/=; try (split; [lia|by intros (_ & [?|?] & ?)]).
    destruct q; [destruct Hb; by auto|]. simplify_eq/=. split; [lia|by intros (_ & [?|?] & ?)].
  - destruct w; simplify_eq/=. destruct Hb. split_and!; auto.
Qed.

(** The destructor is never left for the running state. *)
Lemma ex_stays_out m e e' : ex_exec m e = Some e' → ow e ≠ ORun → ow e' ≠ ORun.
Proof.
  destruct e as [q kr ir w o ps cs]; simpl. intros Hx Ho. destruct m; simpl in Hx.
  - destruct o; done.
  - destruct o; done.
  - destruct o; unfold executor_destructor_step in Hx; simplify_eq/=; [by destruct ir|].
    destruct w; by simplify_eq/=.
  - unfold worker_step in Hx. destruct w; simplify_eq/=; try done. destruct q; by simplify_eq/=.
  - destruct w; by simplify_eq/=.
Qed.

Lemma ex_reachable_ran e : ex_reachable e → ran e.
Proof.
  intros [garbage Hr]. by apply (moves_invariant ex_exec ran) with (2 := Hr); [apply ran_step|].
Qed.

(** A destructor that is not blocked has a schedule that returns, of at most
    [ex_left e] steps. *)
Lemma ex_returns n e :
  ex_left e ≤ n → ex_inv e → ran e → ow e ≠ ORun → ¬ blocked e →
  ∃ ms e', exec_all ex_exec ms e = Some e' ∧ length ms ≤ n ∧ ow e' = ODone.
Proof.
  revert e. induction n as [|n IH]; intros e Hn Hi Hr Ho Hb;
    destruct (ex_progress e Hi Hr Ho Hb) as [Hd|(m & e1 & Hx & Hl & Hb1)];
    try lia; try (exists [], e; split_and!; simpl; by auto with lia).
  destruct (IH e1) as (ms & e2 & Hms & Hlen & Hd); [lia|by eapply ex_exec_inv|by eapply ran_step| |done|].
  { by apply ex_stays_out with (1 := Hx). }
  exists (m :: ms), e2. simpl. rewrite Hx. split_and!; simpl; auto with lia.
Qed.

(** ** Properties *)

(** The queue with bound [queue_size > 0] holds, after any sequence of
    pushes, exactly the newest [queue_size] messages in their order, and never
    more. *)
Theorem realtime_queue_keeps_newest msgs :
  queue_size ≠ 0 →
  let q := foldl (λ q m, queue_push queue_size m q) [] msgs in
  q = drop (length msgs - queue_size) msgs ∧ length q = length msgs `min` queue_size.
Proof.
  intros Hs q. subst q. rewrite queue_push_newest by done. split; [done|].
  rewrite length_drop. lia.
Qed.

(** C7: in every interleaving of the owner's calls and the worker, [f] is called
    with a subsequence of the executed data in order; with [with_queue] (no
    bound) it is a gapless prefix, what is missing being the datum in the
    worker's hand and the queue; with a bound the queue never exceeds it. *)
Theorem realtime_executor_order e :
  ex_reachable e →
  called e `sublist_of` pushed e ∧
  (queue_size = policy_value with_queue →
    pushed e = called e ++ in_hand e ++ data_queue_ e) ∧
  (queue_size ≠ 0 → length (data_queue_ e) ≤ queue_size).
Proof.
  intros Hr. destruct (ex_reachable_inv e Hr) as [(tk & Hsub & Hp & Hz) Hb _ _ _].
  split_and!; [|simpl; intros Hq|done].
  - rewrite Hp. apply sublist_inserts_r.
    etrans; [|exact Hsub]. by apply sublist_inserts_r.
  - rewrite Hp, <- (Hz Hq). by rewrite <- app_assoc.
Qed.

(** C39: once the destructor was entered, either the worker is blocked waiting on
    the empty queue and then the destructor never returns, in no schedule; or
    there is a schedule in which it returns, every step of every schedule that
    changes the state comes closer to that, and the worker can never become
    blocked. *)
Theorem realtime_executor_destructor e :
  ex_reachable e → ow e ≠ ORun →
  (blocked e → ∀ e', rtc (move_step ex_exec) e e' → ow e' ≠ ODone) ∧
  (¬ blocked e →
    (∃ ms e', exec_all ex_exec ms e = Some e' ∧ length ms ≤ ex_left e ∧ ow e' = ODone) ∧
    (∀ m e', ex_exec m e = Some e' → e' = e ∨ (ex_left e' < ex_left e ∧ ¬ blocked e'))).
Proof.
  intros Hr Ho. pose proof (ex_reachable_inv e Hr) as Hi. split.
  - intros Hb e' He.
    assert (ex_inv e' ∧ blocked e') as [Hi' (_ & Hw & _)].
    { apply (moves_invariant ex_exec (λ e, ex_inv e ∧ blocked e)) with (2 := He); [|done].
      intros m x y [Hx Hbx] Hm. split; [by eapply ex_exec_inv|by eapply blocked_step]. }
    intros Hd. pose proof (ex_joined _ Hi' Hd) as Hj. rewrite Hj in Hw. by destruct Hw.
  - intros Hb. split; [|by intros m e' Hx; eapply ex_step_left].
    apply ex_returns; [lia|done|by apply ex_reachable_ran|done|done].
Qed.

End realtime_executor.

(** ** Witnesses *)

Lemma realtime_queue_keeps_newest_witness :
  foldl (λ q m, queue_push 2 m q) [] [1; 2; 3; 4; 5] = [4; 5].
Proof. exact (proj1 (realtime_queue_keeps_newest 2 [1; 2; 3; 4; 5] ltac:(done))). Defined.

(** Three data with the latest-only policy: the first and the last are processed. *)
Definition ex_run3 : list (@ex_move nat) :=
  [Execute 1; Worker; Worker; Worker; Execute 2; Execute 3; Worker; Worker; Worker; Worker].

Lemma realtime_executor_order_witness :
  ∃ e, exec_all (ex_exec 1) ex_run3 (ex_new false) = Some e ∧ called e = [1; 3] ∧
       called e `sublist_of` pushed e.
Proof.
  eexists. split; [vm_compute; reflexivity|]. split; [reflexivity|].
  apply (realtime_executor_order 1). exists false.
  apply exec_all_rtc with (ms := ex_run3). vm_compute. reflexivity.
Defined.

(** The worker has gone to sleep when the owner enters the destructor: it is
    blocked, so [realtime_executor_destructor] says that the program hangs. *)
Lemma realtime_executor_destructor_witness :
  ∃ e : @executor nat,
    exec_all (ex_exec 0) [Worker; Worker; Worker; Destroy] (ex_new false) = Some e ∧
    ∀ e', rtc (move_step (ex_exec 0)) e e' → ow e' ≠ ODone.
Proof.
  eexists. split; [vm_compute; reflexivity|].
  refine (proj1 (realtime_executor_destructor 0 _ _ _) _).
  - exists false. apply exec_all_rtc with (ms := [Worker; Worker; Worker; Destroy]).
    vm_compute. reflexivity.
  - done.
  - unfold blocked; simpl. auto.
Defined.
