(* ===== verification/Barrier.v ===== *)
(** Two programs built on a condition variable:
    [src/cpp_practices/barrier_examples/src/simple_barrier.cpp] and
    [src/cpp_practices/bug_examples/src/dead_condition_variable.cpp].

    In both, a thread is a program counter whose steps are the statements of the
    thread function; the mutex and the sleeping threads of the condition variable
    are part of the state.  A waiting thread wakes by a notification or spuriously,
    and then has to take the mutex again.

    The state spaces are finite, so the proofs explore them exhaustively
    ([closed] of the prelude) and check a boolean property in every state. *)
From stdpp Require Import pretty.
From S2P Require Import Prelude.
Local Open Scope Z_scope.

Module SimpleBarrier.

(* @src cpp_practices/barrier_examples/src/simple_barrier.cpp 24-46 worker_a *)
(** The point [worker_a] is about to execute. *)
Inductive apc :=
| ALock1 | AInc1 | AAssert1 | APrint1 | ASet1 | AUnlock1 | ANotify
| ALock2 | AWait | ASleep | ARelock | AClear2 | AInc2 | AAssert2 | APrint2 | AUnlock2.

(* @src cpp_practices/barrier_examples/src/simple_barrier.cpp 48-70 worker_b *)
(** The point [worker_b] is about to execute. *)
Inductive bpc :=
| BLock1 | BWait | BSleep | BRelock | BClear1 | BDec1 | BAssert1 | BPrint1 | BUnlock1
| BLock2 | BDec2 | BAssert2 | BPrint2 | BSet2 | BUnlock2 | BNotify.

Inductive thread := A | B.

#[global] Instance apc_eq_dec : EqDecision apc.
Proof. solve_decision. Defined.
#[global] Instance bpc_eq_dec : EqDecision bpc.
Proof. solve_decision. Defined.
#[global] Instance thread_eq_dec : EqDecision thread.
Proof. solve_decision. Defined.

(* @src cpp_practices/barrier_examples/src/simple_barrier.cpp 18-22 state *)
(** The globals, the two program counters, and two ghosts: the number of lines
    printed modulo 4, and whether an [assert] failed. *)
Record sys := mkSys {
  state : Z; mutex : option thread; barrier1 : bool; barrier2 : bool;
  a : apc; b : bpc; lines : nat; failed : bool }.

#[global] Instance sys_eq_dec : EqDecision sys.
Proof. solve_decision. Defined.

(* @src cpp_practices/barrier_examples/src/simple_barrier.cpp 72-77 main *)
Definition init : sys := mkSys 0 None false false ALock1 BLock1 0 false.

Definition set_a (x : apc) (s : sys) : sys :=
  mkSys (state s) (mutex s) (barrier1 s) (barrier2 s) x (b s) (lines s) (failed s).
Definition set_b (x : bpc) (s : sys) : sys :=
  mkSys (state s) (mutex s) (barrier1 s) (barrier2 s) (a s) x (lines s) (failed s).
Definition set_mutex (m : option thread) (s : sys) : sys :=
  mkSys (state s) m (barrier1 s) (barrier2 s) (a s) (b s) (lines s) (failed s).
Definition set_barrier1 (v : bool) (s : sys) : sys :=
  mkSys (state s) (mutex s) v (barrier2 s) (a s) (b s) (lines s) (failed s).
Definition set_barrier2 (v : bool) (s : sys) : sys :=
  mkSys (state s) (mutex s) (barrier1 s) v (a s) (b s) (lines s) (failed s).
Definition add_state (d : Z) (s : sys) : sys :=
  mkSys (state s + d) (mutex s) (barrier1 s) (barrier2 s) (a s) (b s) (lines s) (failed s).
Definition check (v : Z) (s : sys) : sys :=
  mkSys (state s) (mutex s) (barrier1 s) (barrier2 s) (a s) (b s) (lines s)
    (failed s || negb (state s =? v)).
Definition print_line (s : sys) : sys :=
  mkSys (state s) (mutex s) (barrier1 s) (barrier2 s) (a s) (b s)
    (S (lines s) mod 4)%nat (failed s).

(** Taking the mutex; not enabled while another thread has it. *)
Definition lock (t : thread) (s : sys) : option sys :=
  match mutex s with None => Some (set_mutex (Some t) s) | Some _ => None end.

(* @src cpp_practices/barrier_examples/src/simple_barrier.cpp 24-46 worker_a *)
Definition worker_a (s : sys) : option sys :=
  match a s with
  | ALock1 => set_a AInc1 <$> lock A s
  | AInc1 => Some (set_a AAssert1 (add_state 1 s))
  | AAssert1 => Some (set_a APrint1 (check 1 s))
  | APrint1 => Some (set_a ASet1 (print_line s))
  | ASet1 => Some (set_a AUnlock1 (set_barrier1 true s))
  | AUnlock1 => Some (set_a ANotify (set_mutex None s))
  | ANotify => Some (set_a ALock2 (match b s with BSleep => set_b BRelock s | _ => s end))
  | ALock2 => set_a AWait <$> lock A s
  | AWait => Some (if barrier2 s then set_a AClear2 s else set_a ASleep (set_mutex None s))
  | ASleep => None
  | ARelock => set_a AWait <$> lock A s
  | AClear2 => Some (set_a AInc2 (set_barrier2 false s))
  | AInc2 => Some (set_a AAssert2 (add_state 1 s))
  | AAssert2 => Some (set_a APrint2 (check 0 s))
  | APrint2 => Some (set_a AUnlock2 (print_line s))
  | AUnlock2 => Some (set_a ALock1 (set_mutex None s))
  end.

(* @src cpp_practices/barrier_examples/src/simple_barrier.cpp 48-70 worker_b *)
Definition worker_b (s : sys) : option sys :=
  match b s with
  | BLock1 => set_b BWait <$> lock B s
  | BWait => Some (if barrier1 s then set_b BClear1 s else set_b BSleep (set_mutex None s))
  | BSleep => None
  | BRelock => set_b BWait <$> lock B s
  | BClear1 => Some (set_b BDec1 (set_barrier1 false s))
  | BDec1 => Some (set_b BAssert1 (add_state (-1) s))
  | BAssert1 => Some (set_b BPrint1 (check 0 s))
  | BPrint1 => Some (set_b BUnlock1 (print_line s))
  | BUnlock1 => Some (set_b BLock2 (set_mutex None s))
  | BLock2 => set_b BDec2 <$> lock B s
  | BDec2 => Some (set_b BAssert2 (add_state (-1) s))
  | BAssert2 => Some (set_b BPrint2 (check (-1) s))
  | BPrint2 => Some (set_b BSet2 (print_line s))
  | BSet2 => Some (set_b BUnlock2 (set_barrier2 true s))
  | BUnlock2 => Some (set_b BNotify (set_mutex None s))
  | BNotify => Some (set_b BLock1 (match a s with ASleep => set_a ARelock s | _ => s end))
  end.

(** The line a thread prints with its next step. *)
Definition printed (t : thread) (s : sys) : option string :=
  match t, a s, b s with
  | A, APrint1, _ => Some ("worker_a - first state++: " +:+ pretty (state s) +:+ nl)
  | A, APrint2, _ => Some ("worker_a - second state++: " +:+ pretty (state s) +:+ nl)
  | B, _, BPrint1 => Some ("worker_b - first state--: " +:+ pretty (state s) +:+ nl)
  | B, _, BPrint2 => Some ("worker_b - second state--: " +:+ pretty (state s) +:+ nl)
  | _, _, _ => None
  end.

(** A thread takes a step, or its wait returns without a notification. *)
Inductive move := Run (t : thread) | Spurious (t : thread).

Definition step (m : move) (s : sys) : option sys :=
  match m with
  | Run A => worker_a s
  | Run B => worker_b s
  | Spurious A => match a s with ASleep => Some (set_a ARelock s) | _ => None end
  | Spurious B => match b s with BSleep => Some (set_b BRelock s) | _ => None end
  end.

Definition moves : list move := [Run A; Run B; Spurious A; Spurious B].

Lemma all_moves m : m ∈ moves.
Proof. destruct m as [[]|[]]; set_solver. Qed.

(** All that is printed in a run. *)
Fixpoint output (ms : list move) (s : sys) : list string :=
  match ms with
  | [] => []
  | m :: ms =>
      match step m s with
      | None => []
      | Some s' =>
          match m with Run t => option_list (printed t s) | _ => [] end ++ output ms s'
      end
  end.

(** The comment's schedule: the lines the workers print, round after round. *)
Definition schedule_line (n : nat) : string :=
  match (n mod 4)%nat with
  | 0%nat => "worker_a - first state++: 1" +:+ nl
  | 1%nat => "worker_b - first state--: 0" +:+ nl
  | 2%nat => "worker_b - second state--: -1" +:+ nl
  | _ => "worker_a - second state++: 0" +:+ nl
  end.

(** The reachable states. *)
Definition R : list sys := Eval vm_compute in explore step moves 4000 [init] [].

Lemma R_closed : closed step moves R = true.
Proof. vm_compute. reflexivity. Qed.

Lemma R_always (P : sys → bool) s :
  forallb P R = true → rtc (move_step step) init s → P s = true.
Proof.
  apply (closed_always step moves all_moves R); [apply R_closed | by vm_compute].
Qed.

(** One thread at least can step. *)
Definition can_run (s : sys) : bool :=
  match worker_a s, worker_b s with None, None => false | _, _ => true end.

Definition bounds_ok (s : sys) : bool :=
  negb (failed s) && (-1 <=? state s) && (state s <=? 1) && can_run s.

(** What a step prints is the line the schedule has at this point. *)
Definition step_ok (s : sys) : bool :=
  forallb (λ m, match step m s with
    | None => true
    | Some s' =>
        match (match m with Run t => printed t s | _ => None end) with
        | None => bool_decide (lines s' = lines s)
        | Some l => bool_decide (l = schedule_line (lines s)) &&
                    bool_decide (lines s' = (S (lines s) mod 4)%nat)
        end
    end) moves.

(** Every run of [k] steps without spurious wake-ups prints something. *)
Fixpoint must_print (k : nat) (s : sys) : bool :=
  match k with
  | O => false
  | S k =>
      forallb (λ t, match step (Run t) s with
        | None => true
        | Some s' => match printed t s with Some _ => true | None => must_print k s' end
        end) [A; B]
  end.

Lemma R_bounds : forallb bounds_ok R = true.
Proof. vm_compute. reflexivity. Qed.
Lemma R_steps : forallb step_ok R = true.
Proof. vm_compute. reflexivity. Qed.
Lemma R_prints : forallb (must_print 14) R = true.
Proof. vm_compute. reflexivity. Qed.

Lemma schedule_line_mod n : schedule_line (n mod 4) = schedule_line n.
Proof. unfold schedule_line. by rewrite Nat.Div0.mod_mod. Qed.

Lemma output_from n ms s s' :
  rtc (move_step step) init s → lines s = (n mod 4)%nat → exec_all step ms s = Some s' →
  ∃ k, output ms s = schedule_line <$> seq n k.
Proof.
  revert n s. induction ms as [|m ms IH]; intros n s Hr Hl Hx; cbn [exec_all output] in *;
    [by exists 0%nat|].
  destruct (step m s) as [s1|] eqn:Hs; [|done]; cbn in Hx.
  assert (rtc (move_step step) init s1) as Hr1 by (eapply rtc_r; [done|by exists m]).
  pose proof (R_always step_ok s R_steps Hr) as Hok. unfold step_ok in Hok.
  rewrite forallb_forall in Hok.
  specialize (Hok m (proj1 (list_elem_of_In _ _) (all_moves m))). rewrite Hs in Hok.
  destruct (match m with Run t => printed t s | _ => None end) as [l|] eqn:Hp.
  - apply andb_true_iff in Hok as [Hl1%bool_decide_eq_true_1 Hl2%bool_decide_eq_true_1].
    destruct (IH (S n) s1 Hr1) as [k Hk]; [|done|].
    { rewrite Hl2, Hl. change (((1 + n mod 4) mod 4)%nat = ((1 + n) mod 4)%nat).
      by rewrite Nat.Div0.add_mod_idemp_r. }
    exists (S k). destruct m as [t|t]; [|done]. rewrite Hp. cbn. by rewrite Hk, Hl1, Hl, schedule_line_mod.
  - apply bool_decide_eq_true_1 in Hok.
    destruct (IH n s1 Hr1) as [k Hk]; [congruence|done|].
    exists k. destruct m as [t|t]; [rewrite Hp|]; done.
Qed.

Lemma must_print_sound k ts s s' :
  must_print k s = true → exec_all step (Run <$> ts) s = Some s' → (k ≤ length ts)%nat →
  output (Run <$> ts) s ≠ [].
Proof.
  revert s ts. induction k as [|k IH]; intros s ts Hm Hx Hk; [done|].
  destruct ts as [|t ts]; simpl in Hk; [lia|]. cbn [must_print] in Hm.
  rewrite forallb_forall in Hm.
  specialize (Hm t ltac:(destruct t; simpl; auto)).
  cbn [fmap list_fmap exec_all output] in *.
  destruct (step (Run t) s) as [s1|]; [|done]. cbn in Hx.
  destruct (printed t s); [done|]. simpl. apply IH; [done|done|lia].
Qed.

(** C14: in every interleaving of the two workers, spurious wake-ups included,
    no [assert] fails, [state] stays in [-1..1], the program never deadlocks, and
    what is printed is the schedule of the comment: first ++, first --, second --,
    second ++, round after round. *)
Theorem simple_barrier_schedule ms s :
  exec_all step ms init = Some s →
  failed s = false ∧ -1 ≤ state s ≤ 1 ∧
  (∃ t s', step (Run t) s = Some s') ∧
  ∃ k, output ms init = schedule_line <$> seq 0 k.
Proof.
  intros Hx. pose proof (exec_all_rtc _ _ _ _ Hx) as Hr.
  pose proof (R_always bounds_ok s R_bounds Hr) as Hb. unfold bounds_ok, can_run in Hb.
  destr_bool. split_and!; [done|done|done| |by apply (output_from 0 ms init s)].
  destruct (worker_a s) as [s1|] eqn:Ha; [by exists A, s1|].
  destruct (worker_b s) as [s1|] eqn:Hb; [by exists B, s1|done].
Qed.

(** C15: the two workers always go on: from every reachable state, every run of
    14 steps without spurious wake-ups prints a line, whatever the scheduler does. *)
Theorem simple_barrier_live ms ts s s' :
  exec_all step ms init = Some s → exec_all step (Run <$> ts) s = Some s' →
  (14 ≤ length ts)%nat → output (Run <$> ts) s ≠ [].
Proof.
  intros Hx. pose proof (exec_all_rtc _ _ _ _ Hx) as Hr.
  apply must_print_sound. by apply R_always.
Qed.

Definition sample : list move :=
  Run <$> ([B; B; A; A; A; A; A; A; A; B; B; B; B; B; B; B] : list thread).

Lemma simple_barrier_schedule_witness :
  ∃ s, exec_all step sample init = Some s ∧ failed s = false ∧
    output sample init = schedule_line <$> seq 0 2.
Proof.
  eexists. split; [vm_compute; reflexivity|].
  split; [|vm_compute; reflexivity].
  apply (simple_barrier_schedule sample). vm_compute. reflexivity.
Defined.

Lemma simple_barrier_live_witness :
  output (Run <$> ([B; B; A; A; A; A; A; A; A; B; B; B; B; B; B; B] : list thread)) init ≠ [].
Proof.
  eapply (simple_barrier_live []); [reflexivity| |simpl; lia].
  vm_compute. reflexivity.
Defined.
End SimpleBarrier.

Module DeadConditionVariable.

(* @src cpp_practices/bug_examples/src/dead_condition_variable.cpp 16-27 main::thread2 *)
(** The point [thread2] is about to execute.  [TPrint1 r] to [TReturn r] are the
    body of the predicate after [r] was loaded. *)
Inductive tpc :=
| TLock | TLoad | TPrint1 (r : bool) | TPause (r : bool) | TPrint2 (r : bool)
| TReturn (r : bool) | TSleep | TRelock | THello | TFinish | TDone.

(* @src cpp_practices/bug_examples/src/dead_condition_variable.cpp 28-49 main *)
(** The point [main] is about to execute, after it started [thread2]. *)
Inductive mpc :=
| MPause | MHello | MReady | MNotify | MDetach | MPoll | MTest | MGoodbye | MDone.

#[global] Instance tpc_eq_dec : EqDecision tpc.
Proof. solve_decision. Defined.
#[global] Instance mpc_eq_dec : EqDecision mpc.
Proof. solve_decision. Defined.

(* @src cpp_practices/bug_examples/src/dead_condition_variable.cpp 12-15 main *)
Record sys := mkSys {
  locked : bool; ready : bool; thread2_finished : bool; thread2 : tpc; main : mpc;
  hanging : bool (* main printed that thread2 is hanging *) }.

#[global] Instance dead_sys_eq_dec : EqDecision sys.
Proof. solve_decision. Defined.

Definition init : sys := mkSys false false false TLock MPause false.

Definition set_t (t : tpc) (s : sys) : sys :=
  mkSys (locked s) (ready s) (thread2_finished s) t (main s) (hanging s).
Definition set_m (m : mpc) (s : sys) : sys :=
  mkSys (locked s) (ready s) (thread2_finished s) (thread2 s) m (hanging s).
Definition set_locked (l : bool) (s : sys) : sys :=
  mkSys l (ready s) (thread2_finished s) (thread2 s) (main s) (hanging s).

(* @src cpp_practices/bug_examples/src/dead_condition_variable.cpp 16-27 main::thread2 *)
Definition thread2_step (s : sys) : option sys :=
  match thread2 s with
  | TLock => if locked s then None else Some (set_t TLoad (set_locked true s))
  | TLoad => Some (set_t (TPrint1 (ready s)) s)
  | TPrint1 r => Some (set_t (TPause r) s)
  | TPause r => Some (set_t (TPrint2 r) s)
  | TPrint2 r => Some (set_t (TReturn r) s)
  | TReturn r => Some (if r then set_t THello s else set_t TSleep (set_locked false s))
  | TSleep => None
  | TRelock => if locked s then None else Some (set_t TLoad (set_locked true s))
  | THello => Some (set_t TFinish s)
  | TFinish =>
      Some (mkSys false (ready s) true TDone (main s) (hanging s))
  | TDone => None
  end.

(* @src cpp_practices/bug_examples/src/dead_condition_variable.cpp 28-49 main *)
(** [timeout]: the two seconds are over when the clock is read. *)
Definition main_step (timeout : bool) (s : sys) : option sys :=
  match main s with
  | MPause => Some (set_m MHello s)
  | MHello => Some (set_m MReady s)
  | MReady => Some (mkSys (locked s) true (thread2_finished s) (thread2 s) MNotify (hanging s))
  | MNotify => Some (set_m MDetach (match thread2 s with TSleep => set_t TRelock s | _ => s end))
  | MDetach => Some (set_m MPoll s)
  | MPoll => Some (if timeout || thread2_finished s then set_m MTest s else s)
  | MTest =>
      Some (mkSys (locked s) (ready s) (thread2_finished s) (thread2 s) MGoodbye
              (negb (thread2_finished s)))
  | MGoodbye => Some (set_m MDone s)
  | MDone => None
  end.

(* @src cpp_practices/bug_examples/src/dead_condition_variable.cpp 18-18 main::thread2 *)
(** [wait] may wake without a notification. *)
Definition spurious_step (s : sys) : option sys :=
  match thread2 s with TSleep => Some (set_t TRelock s) | _ => None end.

Inductive move := Thread2 | Spurious | Main (timeout : bool).

(** The return of [main] ends the detached thread. *)
Definition step (m : move) (s : sys) : option sys :=
  match m with
  | Thread2 => match main s with MDone => None | _ => thread2_step s end
  | Spurious => match main s with MDone => None | _ => spurious_step s end
  | Main t => main_step t s
  end.

(** A step other than a spurious wake-up. *)
Definition quiet_step (m : move) (s : sys) : option sys :=
  match m with Spurious => None | _ => step m s end.

Definition moves : list move := [Thread2; Spurious; Main true; Main false].

Lemma dead_all_moves m : m ∈ moves.
Proof. destruct m as [| |[]]; set_solver. Qed.

Definition R : list sys := Eval vm_compute in explore step moves 4000 [init] [].

Lemma dead_R_closed : closed step moves R = true.
Proof. vm_compute. reflexivity. Qed.

Lemma dead_R_always (P : sys → bool) s :
  forallb P R = true → rtc (move_step step) init s → P s = true.
Proof.
  apply (closed_always step moves dead_all_moves R); [apply dead_R_closed | by vm_compute].
Qed.

(** [main] has notified. *)
Definition notified (m : mpc) : bool :=
  match m with MPause | MHello | MReady | MNotify => false | _ => true end.

(** [thread2] sleeps or has decided to, and the notification is over. *)
Definition lost (s : sys) : bool :=
  notified (main s) &&
  match thread2 s with
  | TPrint1 false | TPause false | TPrint2 false | TReturn false | TSleep => true
  | _ => false
  end.

(** The schedule of the example's sleeps: [thread2] loads [ready] and pauses for
    as long as [main] does, [main] stores and notifies in that pause. *)
Definition lost_run : list move :=
  [Thread2; Thread2; Thread2; Main false; Main false; Main false; Main false;
   Thread2; Thread2; Thread2; Main false; Main true; Main true; Main true].

Definition lost_forever (s : sys) : bool :=
  implb (lost s) (forallb (λ m, match quiet_step m s with None => true | Some s' => lost s' end) moves) &&
  implb (lost s) (negb (thread2_finished s)).

Lemma R_lost_forever : forallb lost_forever R = true.
Proof. vm_compute. reflexivity. Qed.

(** Unless it is lost, [thread2] has a schedule that finishes it: it runs as far
    as it gets, [main] goes on until it has notified, [thread2] runs again. *)
Fixpoint thread2_runs (n : nat) (s : sys) : sys :=
  match n with
  | O => s
  | S n => match quiet_step Thread2 s with None => s | Some s' => thread2_runs n s' end
  end.

Definition main_notifies (s : sys) : sys :=
  default s (exec_all quiet_step [Main false] s).

Definition finishes (s : sys) : bool :=
  lost s || bool_decide (main s = MDone) || thread2_finished
    (thread2_runs 12 (Nat.iter 4 (λ s, if notified (main s) then s else main_notifies s)
      (thread2_runs 12 s))).

Lemma R_finishes : forallb finishes R = true.
Proof. vm_compute. reflexivity. Qed.

Lemma thread2_runs_rtc n s : rtc (move_step quiet_step) s (thread2_runs n s).
Proof.
  revert s. induction n as [|n IH]; intros s; cbn [thread2_runs]; [done|].
  destruct (quiet_step Thread2 s) as [s'|] eqn:Hs; [|done].
  eapply rtc_l; [by exists Thread2|apply IH].
Qed.

Lemma main_notifies_rtc n s :
  rtc (move_step quiet_step) s
    (Nat.iter n (λ s, if notified (main s) then s else main_notifies s) s).
Proof.
  induction n as [|n IH]; simpl; [done|].
  set (s1 := Nat.iter _ _ _) in *. etrans; [exact IH|].
  destruct (notified (main s1)); [done|]. unfold main_notifies; cbn.
  destruct (main_step false s1) as [s2|] eqn:Hs; cbn; [|done].
  apply rtc_once. by exists (Main false).
Qed.

Lemma quiet_rtc s s' : rtc (move_step quiet_step) s s' → rtc (move_step step) s s'.
Proof. apply rtc_subrel. intros x y [m Hm]. exists m. by destruct m. Qed.

(** From a lost wake-up, [thread2] goes to sleep, wakes spuriously and runs on. *)
Definition rescued (s : sys) : sys :=
  thread2_runs 12 (default (thread2_runs 12 s) (step Spurious (thread2_runs 12 s))).

Lemma R_rescued :
  forallb (λ s, implb (lost s && bool_decide (main s ≠ MDone)) (thread2_finished (rescued s))) R = true.
Proof. vm_compute. reflexivity. Qed.

Lemma rescued_rtc s : rtc (move_step step) s (rescued s).
Proof.
  unfold rescued. etrans; [apply quiet_rtc, (thread2_runs_rtc 12)|]. etrans; [|apply quiet_rtc, thread2_runs_rtc].
  destruct (step Spurious (thread2_runs 12 s)) as [s'|] eqn:E; [|done]. apply rtc_once. by exists Spurious.
Qed.

(** C38: The lost wake-up, exactly.  When [main] has notified and [thread2] had loaded [ready]
    as false before (and has not woken since), only a spurious wake-up of [wait] can help:
    [thread2] finishes in no continuation without one, and before [main] returns it finishes
    in some continuation with one.  In every other state before [main] returns, some
    continuation finishes [thread2] without a spurious wake-up.  A run of the program without
    one reaches such a state and ends with main reporting that thread2 hangs. *)
Theorem lost_wakeup_exact s :
  rtc (move_step step) init s →
  (lost s = true → ∀ s', rtc (move_step quiet_step) s s' → thread2_finished s' = false) ∧
  (lost s = true → main s ≠ MDone → ∃ s', rtc (move_step step) s s' ∧ thread2_finished s' = true) ∧
  (lost s = false → main s ≠ MDone → ∃ s', rtc (move_step quiet_step) s s' ∧ thread2_finished s' = true) ∧
  (hanging <$> exec_all quiet_step lost_run init) = Some true.
Proof.
  intros Hr. split_and!; [| | |vm_compute; reflexivity].
  - intros Hl s' Hs'.
    assert (rtc (move_step step) init s' ∧ lost s' = true) as [Hr' Hl'].
    { apply (moves_invariant quiet_step (λ x, rtc (move_step step) init x ∧ lost x = true))
        with (2 := Hs'); [|done].
      intros m x y [Hx Hlx] Hm. split; [etrans; [done|]; apply quiet_rtc, rtc_once; by exists m|].
      pose proof (dead_R_always _ x R_lost_forever Hx) as Ho. unfold lost_forever in Ho.
      rewrite Hlx in Ho. apply andb_true_iff in Ho as [Ho _]. cbn [implb] in Ho.
      rewrite forallb_forall in Ho.
      specialize (Ho m (proj1 (list_elem_of_In _ _) (dead_all_moves m))). by rewrite Hm in Ho. }
    pose proof (dead_R_always _ s' R_lost_forever Hr') as Ho. unfold lost_forever in Ho.
    rewrite Hl' in Ho. apply andb_true_iff in Ho as [_ Ho]. by apply negb_true_iff.
  - intros Hl Hm. pose proof (dead_R_always _ s R_rescued Hr) as Hf. cbn beta in Hf.
    rewrite Hl, bool_decide_eq_true_2 in Hf by done. exists (rescued s). split; [apply rescued_rtc|exact Hf].
  - intros Hl Hm. pose proof (dead_R_always _ s R_finishes Hr) as Hf. unfold finishes in Hf.
    rewrite Hl, bool_decide_eq_false_2 in Hf by done. eexists. split; [|exact Hf].
    etrans; [apply thread2_runs_rtc|]. etrans; [apply main_notifies_rtc|]. apply thread2_runs_rtc.
Qed.

Lemma lost_wakeup_exact_witness :
  ∃ s, exec_all quiet_step lost_run init = Some s ∧
    ∀ s', rtc (move_step quiet_step) s s' → thread2_finished s' = false.
Proof.
  eexists. split; [vm_compute; reflexivity|].
  refine (proj1 (lost_wakeup_exact _ _) _); [|vm_compute; reflexivity].
  apply quiet_rtc, exec_all_rtc with (ms := lost_run). vm_compute. reflexivity.
Defined.
End DeadConditionVariable.
