(* ===== verification/RouteGuideDb.v ===== *)
(** The route guide's data base reader,
    [src/third_party_examples/grpc_example/src/route_guide/helper.cpp].

    [Parser] is the state of the class; its methods are computations of the monad
    [M] (state, exceptions, output), [TryParseOne] also over the feature it fills
    in.  The file system is a parameter of [GetDbFileContent].

    The white space is removed with [isspace] of a plain [char], which is defined on
    the characters below 128 and on 255 ([Text.plain]) only.

    The theorems: of a text of such characters, the reader recovers every data base
    written in the form the comment asks for, whatever white space is in it; it always
    returns, throws only what [std::stol] throws, and a failure leaves the feature list
    empty; any other text is undefined behaviour; and the path argument is read without
    going out of the string. *)
From S2P Require Import Prelude Text.
Local Open Scope nat_scope.

(* @src third_party_examples/grpc_example/src/route_guide/route_guide_server.cpp 42-47 Point *)
(** The messages of [route_guide.proto]: coordinates are [int32]. *)
Record Point := mkPoint { latitude : Z; longitude : Z }.
(* @src third_party_examples/grpc_example/src/route_guide/helper.h 26-26 Feature *)
Record Feature := mkFeature { name : text; location : Point }.

#[global] Instance Point_eq_dec : EqDecision Point.
Proof. solve_decision. Defined.
#[global] Instance Feature_eq_dec : EqDecision Feature.
Proof. solve_decision. Defined.

(** The default message. *)
Definition Point_default : Point := mkPoint 0 0.
Definition Feature_default : Feature := mkFeature [] Point_default.

(** [set_latitude(long)]: the argument is converted to [int32]. *)
Definition set_latitude (z : Z) (f : Feature) : Feature :=
  mkFeature (name f) (mkPoint (swrap 32 z) (longitude (location f))).
Definition set_longitude (z : Z) (f : Feature) : Feature :=
  mkFeature (name f) (mkPoint (latitude (location f)) (swrap 32 z)).
Definition set_name (n : text) (f : Feature) : Feature := mkFeature n (location f).

(* @src third_party_examples/grpc_example/src/route_guide/helper.cpp 63-63 remove_if *)
(** [isspace] of a plain [char]. *)
Fixpoint remove_space (s : text) : outcome text :=
  match s with
  | [] => Ok []
  | c :: s =>
      b ← isspace_char c;
      r ← remove_space s;
      Ok (if (b : bool) then r else c :: r)
  end.

(* @src third_party_examples/grpc_example/src/route_guide/helper.cpp 126-132 Parser *)
Record Parser := mkParser { failed_ : bool; db_ : text; current_ : nat }.

Definition quoted (s : string) : text := dquote :: txt s ++ [dquote].

(* @src third_party_examples/grpc_example/src/route_guide/helper.cpp 129-129 Parser::location_ *)
Definition location_ : text := quoted "location" ++ txt ":".
(* @src third_party_examples/grpc_example/src/route_guide/helper.cpp 130-130 Parser::latitude_ *)
Definition latitude_ : text := quoted "latitude" ++ txt ":".
(* @src third_party_examples/grpc_example/src/route_guide/helper.cpp 131-131 Parser::longitude_ *)
Definition longitude_ : text := quoted "longitude" ++ txt ":".
(* @src third_party_examples/grpc_example/src/route_guide/helper.cpp 132-132 Parser::name_ *)
Definition name_ : text := quoted "name" ++ txt ":".

(* @src third_party_examples/grpc_example/src/route_guide/helper.cpp 69-69 Parser::Finished *)
Definition Finished (p : Parser) : bool := length (db_ p) <=? current_ p.

(* @src third_party_examples/grpc_example/src/route_guide/helper.cpp 106-109 Parser::SetFailedAndReturnFalse *)
Definition SetFailedAndReturnFalse : M Parser bool := λ p,
  (Ok false, mkParser true (db_ p) (current_ p), []).

(* @src third_party_examples/grpc_example/src/route_guide/helper.cpp 111-115 Parser::Match *)
Definition Match (prefix : text) : M Parser bool :=
  p ← get;
  s ← lift (substr (db_ p) (current_ p) (length prefix));
  _ ← put (mkParser (failed_ p) (db_ p) (current_ p + length prefix));
  mret (bool_decide (s = prefix)).

(* @src third_party_examples/grpc_example/src/route_guide/helper.cpp 119-121 Parser::ReadLong *)
(** Where the loop of [ReadLong] stops: the number of characters it passes. *)
Fixpoint long_end (s : text) : nat :=
  match s with
  | [] => 0
  | c :: s => if Ascii.eqb c "," || Ascii.eqb c "}" then 0 else S (long_end s)
  end.

(* @src third_party_examples/grpc_example/src/route_guide/helper.cpp 117-124 Parser::ReadLong *)
(** The loop starts with [current_ <= db_.size()]; from a larger value it would
    run out of the string. *)
Definition ReadLong : M Parser Z :=
  p ← get;
  if length (db_ p) <? current_ p then lift (UB "string index out of range") else
  let n := long_end (drop (current_ p) (db_ p)) in
  _ ← put (mkParser (failed_ p) (db_ p) (current_ p + n));
  s ← lift (substr (db_ p) (current_ p) n);
  lift (stol s).

(* @src third_party_examples/grpc_example/src/route_guide/helper.cpp 90-91 Parser::TryParseOne *)
(** The number of characters the loop of lines 90-91 passes: up to and with the
    closing quote, or all. *)
Fixpoint name_end (s : text) : nat :=
  match s with
  | [] => 0
  | c :: s => if Ascii.eqb c dquote then 1 else S (name_end s)
  end.

(** The short-circuit [!a || ...] of the conditions: go on only while they hold. *)
Definition expect {A} (ms : list (M Parser bool)) (ok bad : M Parser A) : M Parser A :=
  foldr (λ m k, b ← m; if (b : bool) then k else bad) ok ms.

Definition fail_with (f : Feature) : M Parser (bool * Feature) :=
  b ← SetFailedAndReturnFalse; mret (b, f).

(* @src third_party_examples/grpc_example/src/route_guide/helper.cpp 89-102 Parser::TryParseOne *)
(** The end of [TryParseOne]: the name and what closes the feature. *)
Definition parse_name (feature : Feature) : M Parser (bool * Feature) :=
  p ← get;
  if length (db_ p) <? current_ p then lift (UB "string index out of range") else
  let name_start := current_ p in
  let p := mkParser (failed_ p) (db_ p)
    (current_ p + name_end (drop (current_ p) (db_ p))) in
  _ ← put p;
  if current_ p =? length (db_ p) then fail_with feature else
  n ← lift (substr (db_ p) name_start (current_ p - name_start - 1));
  let feature := set_name n feature in
  b ← Match (txt "},");
  if (b : bool) then mret (true, feature) else
  p ← get;
  c ← lift (char_at (db_ p) (current_ p - 1));
  if Ascii.eqb c "]" && (current_ p =? length (db_ p)) then mret (true, feature)
  else fail_with feature.

(* @src third_party_examples/grpc_example/src/route_guide/helper.cpp 71-103 Parser::TryParseOne *)
(** [feature] is the object the argument points to: the result holds its new
    value on return. *)
Definition TryParseOne (feature : Feature) : M Parser (bool * Feature) :=
  p ← get;
  if failed_ p || Finished p then fail_with feature else
  expect [Match (txt "{"); Match location_; Match (txt "{"); Match latitude_]
    (temp ← ReadLong;
     let feature := set_latitude temp feature in
     expect [Match (txt ","); Match longitude_]
       (temp ← ReadLong;
        let feature := set_longitude temp feature in
        expect [Match (txt "},"); Match name_; Match [dquote]]
          (parse_name feature)
          (fail_with feature))
       (fail_with feature))
    (fail_with feature).

(* @src third_party_examples/grpc_example/src/route_guide/helper.cpp 61-67 Parser::Parser *)
Definition Parser_new (db : text) : outcome Parser * Parser * list string :=
  (db ← lift (remove_space db);
   _ ← put (mkParser false db 0);
   b ← Match (txt "["); _ ← (if (b : bool) then mret true else SetFailedAndReturnFalse); get)
    (mkParser false db 0).

(* @src third_party_examples/grpc_example/src/route_guide/helper.cpp 142-149 ParseDb *)
(** The loop of [ParseDb]; [fuel] bounds its iterations, [None] is running out. *)
Fixpoint parse_loop (fuel : nat) (p : Parser) (l : list Feature)
    : outcome (option (list Feature)) * list string :=
  match fuel with
  | O => (Ok None, [])
  | S fuel =>
      if Finished p then (Ok (Some l), []) else
      match TryParseOne Feature_default p with
      | (Ok (true, f), p', _) => parse_loop fuel p' (l ++ [f])
      | (Ok (false, f), p', _) => (Ok (Some []), ["Error parsing the db file"%string])
      | (Throw e, _, _) => (Throw e, [])
      | (UB w, _, _) => (UB w, [])
      end
  end.

(* @src third_party_examples/grpc_example/src/route_guide/helper.cpp 135-151 ParseDb *)
(** The new contents of the list and what is printed. *)
Definition ParseDb (db : text) : outcome (option (list Feature)) * list string :=
  match remove_space db with
  | Ok db_content =>
      match Parser_new db_content with
      | (Ok parser, _, _) =>
          match parse_loop (S (length db_content)) parser [] with
          | (Ok (Some l), out) =>
              (Ok (Some l), out ++ ["DB parsed, loaded " +:+
                 String.string_of_list_ascii (to_text (Z.of_nat (length l))) +:+ " features." +:+ nl]%string)
          | r => r
          end
      | (Throw e, _, _) => (Throw e, [])
      | (UB w, _, _) => (UB w, [])
      end
  | Throw e => (Throw e, [])
  | UB w => (UB w, [])
  end.

(* @src third_party_examples/grpc_example/src/route_guide/helper.cpp 31-54 GetDbFileContent *)
(** [args] are the arguments [argv[0..argc-1]], [open] the file system: the
    content of a file that can be opened. *)
Definition GetDbFileContent (open : text → option text) (args : list text)
    : outcome text * list text :=
  let arg_str := txt "--db_path" in
  let db_path : outcome text :=
    match args !! 1 with
    | Some argv_1 =>
        match find arg_str argv_1 with
        | Some start_position =>
            let start_position := start_position + length arg_str in
            c ← char_at argv_1 start_position;
            if Ascii.eqb c " " || Ascii.eqb c "="
            then substr argv_1 (start_position + 1) (length argv_1)
            else Ok []
        | None => Ok []
        end
    | None => Ok (txt "route_guide_db.json")
    end in
  match db_path with
  | Ok db_path =>
      match open db_path with
      | None => (Ok [], [txt "Failed to open " ++ db_path ++ ["010"%char]])
      | Some content => (Ok content, [])
      end
  | Throw e => (Throw e, [])
  | UB w => (UB w, [])
  end.

(** ** Reading what is there

    [pos fl pre s]: the parser stands between [pre] and [s]. *)

Definition pos (fl : bool) (pre s : text) : Parser := mkParser fl (pre ++ s) (length pre).

Lemma pos_Finished fl pre s : Finished (pos fl pre s) = bool_decide (s = []).
Proof.
  unfold Finished, pos; simpl. rewrite length_app.
  destruct s; simpl; [apply Nat.leb_le; lia|apply Nat.leb_gt; lia].
Qed.

Lemma Match_hit fl pre x r :
  Match x (pos fl pre (x ++ r)) = (Ok true, pos fl (pre ++ x) r, []).
Proof.
  unfold Match, pos, substr. simpl.
  assert ((length (pre ++ x ++ r) <? length pre) = false) as Hl
    by (apply Nat.ltb_ge; rewrite length_app; lia).
  unfold mbind, M_bind, get, lift, put; simpl. rewrite Hl. simpl.
  rewrite drop_app_length, take_app_length. rewrite bool_decide_eq_true_2 by done.
  rewrite length_app, app_assoc. done.
Qed.

Lemma long_end_app n c r :
  Forall (λ c, Ascii.eqb c "," || Ascii.eqb c "}" = false) n →
  Ascii.eqb c "," || Ascii.eqb c "}" = true →
  long_end (n ++ c :: r) = length n.
Proof.
  intros Hn Hc. induction Hn as [|x n Hx Hn IH]; simpl; [by rewrite Hc|].
  rewrite Hx. by rewrite IH.
Qed.

Lemma ReadLong_hit fl pre n c r :
  Forall (λ c, Ascii.eqb c "," || Ascii.eqb c "}" = false) n →
  Ascii.eqb c "," || Ascii.eqb c "}" = true →
  ReadLong (pos fl pre (n ++ c :: r)) = (stol n, pos fl (pre ++ n) (c :: r), []).
Proof.
  intros Hn Hc. unfold ReadLong, pos, substr. unfold mbind, M_bind, get, lift, put; simpl.
  assert ((length (pre ++ n ++ c :: r) <? length pre) = false) as Hl
    by (apply Nat.ltb_ge; rewrite length_app; lia).
  rewrite Hl. simpl. rewrite drop_app_length, long_end_app by done.
  rewrite take_app_length. rewrite length_app, <- app_assoc. by destruct (stol n).
Qed.

Lemma name_end_app n r :
  Forall (λ c, Ascii.eqb c dquote = false) n → name_end (n ++ dquote :: r) = S (length n).
Proof.
  intros Hn. induction Hn as [|x n Hx Hn IH]; simpl; [done|]. rewrite Hx. by rewrite IH.
Qed.

(** ** The form of a data base *)

Definition render_feature (f : Feature) (rest : text) : text :=
  txt "{" ++ location_ ++ txt "{" ++ latitude_ ++ to_text (latitude (location f)) ++
  txt "," ++ longitude_ ++ to_text (longitude (location f)) ++
  txt "}," ++ name_ ++ [dquote] ++ name f ++ [dquote] ++ rest.

Fixpoint render_features (f : Feature) (fs : list Feature) : text :=
  match fs with
  | [] => render_feature f (txt "}]")
  | f' :: fs => render_feature f (txt "}," ++ render_features f' fs)
  end.

(** [[{...},{...}]], without white space. *)
Definition render (f : Feature) (fs : list Feature) : text := txt "[" ++ render_features f fs.

(** Features that the form can hold: [int32] coordinates, no quote and no white
    space in the name. *)
Definition int32 (z : Z) : Prop := (- 2 ^ 31 ≤ z < 2 ^ 31)%Z.
Definition plain_feature (f : Feature) : Prop :=
  int32 (latitude (location f)) ∧ int32 (longitude (location f)) ∧
  Forall (λ c, Ascii.eqb c dquote = false ∧ isspace c = false) (name f).

Lemma number_plain z : Forall (λ c, Ascii.eqb c "," || Ascii.eqb c "}" = false) (to_text z).
Proof.
  apply Forall_forall. intros c [Hc|Hc]%to_text_chars; [|by rewrite Hc].
  apply orb_false_iff. split; apply Ascii.eqb_neq; by intros ->.
Qed.

(** Silent steps of a method that is run from a known place. *)
Ltac hit :=
  erewrite bind_silent; [|first [reflexivity | apply Match_hit]]; cbv beta iota.

Lemma Match_closing pre r :
  Match (txt "},") (pos false pre (txt "}]" ++ r)) = (Ok false, pos false (pre ++ txt "}]") r, []).
Proof.
  unfold Match, pos, substr, mbind, M_bind, get, lift, put; cbn [db_ current_ failed_].
  assert ((length (pre ++ txt "}]" ++ r) <? length pre) = false) as ->
    by (apply Nat.ltb_ge; rewrite length_app; lia).
  rewrite drop_app_length, length_app, <- app_assoc. done.
Qed.

Lemma char_at_last (s : text) a b : char_at (s ++ [a; b]) (length (s ++ [a; b]) - 1) = Ok b.
Proof.
  unfold char_at. rewrite length_app. simpl.
  replace (length s + 2 - 1) with (length s + 1) by lia.
  rewrite lookup_app_r by lia. by replace (length s + 1 - length s) with 1 by lia.
Qed.

Lemma parse_name_hit pre n f x r :
  Forall (λ c, Ascii.eqb c dquote = false) n →
  (x = txt "}," ∨ (x = txt "}]" ∧ r = [])) →
  parse_name f (pos false pre (n ++ [dquote] ++ x ++ r)) =
    (Ok (true, set_name n f), pos false (pre ++ n ++ [dquote] ++ x) r, []).
Proof.
  intros Hn Hx. unfold parse_name. hit. cbn [db_ current_ failed_ pos].
  rewrite drop_app_length. change ([dquote] ++ ?r) with (dquote :: r).
  rewrite name_end_app by done. rewrite (proj2 (Nat.ltb_ge _ _)) by (rewrite length_app; lia).
  hit. rewrite (proj2 (Nat.eqb_neq _ _)).
  2:{ rewrite !length_app; simpl. destruct Hx as [->|[-> _]]; simpl; lia. }
  erewrite bind_silent.
  2:{ unfold substr, lift. rewrite (proj2 (Nat.ltb_ge _ _)) by (rewrite length_app; lia).
      rewrite drop_app_length. replace (_ - _ - 1) with (length n) by lia.
      rewrite take_app_length. done. }
  cbv zeta beta.
  assert (mkParser false (pre ++ n ++ dquote :: x ++ r) (length pre + S (length n)) =
    pos false (pre ++ n ++ [dquote]) (x ++ r)) as ->.
  { unfold pos. rewrite <- !app_assoc. f_equal. rewrite !length_app; simpl; lia. }
  replace (pre ++ n ++ dquote :: x) with ((pre ++ n ++ [dquote]) ++ x)
    by (by rewrite <- !app_assoc).
  destruct Hx as [->|[-> ->]].
  - hit. done.
  - erewrite bind_silent by apply Match_closing. cbv iota. hit.
    erewrite bind_silent.
    2:{ cbn [db_ current_ pos]. rewrite app_nil_r. change (txt "}]") with (["}"; "]"]%char).
        by rewrite char_at_last. }
    cbn [db_ current_ pos]. rewrite app_nil_r, Nat.eqb_refl. done.
Qed.

(** One feature is read back, and the parser is behind its [},] or []]. *)
Lemma TryParseOne_hit pre f f0 x r :
  plain_feature f → (x = txt "}," ∨ (x = txt "}]" ∧ r = [])) →
  ∃ pre', length pre' > length pre ∧
    TryParseOne f0 (pos false pre (render_feature f (x ++ r))) =
      (Ok (true, f), pos false pre' r, []).
Proof.
  destruct f as [n [la lo]]. intros (Hlat & Hlon & Hname) Hx. simpl in Hlat, Hlon, Hname.
  unfold TryParseOne, render_feature, expect.
  hit. rewrite pos_Finished.
  rewrite bool_decide_eq_false_2 by done. cbn [failed_ pos orb foldr].
  do 4 hit. cbv zeta.
  change (txt "," ++ ?r) with (","%char :: r).
  erewrite bind_silent.
  2:{ rewrite ReadLong_hit, stol_to_text; [done|unfold int32 in *; simpl; lia|apply number_plain|done]. }
  change (","%char :: ?r) with (txt "," ++ r). cbv zeta beta.
  do 2 hit.
  change (txt "}," ++ ?r) with ("}"%char :: txt "," ++ r).
  erewrite bind_silent.
  2:{ rewrite ReadLong_hit, stol_to_text; [done|unfold int32 in *; simpl; lia|apply number_plain|done]. }
  change ("}"%char :: txt "," ++ ?r) with (txt "}," ++ r). cbv zeta beta.
  do 3 hit.
  rewrite parse_name_hit; [|by eapply Forall_impl; [exact Hname|intros ? []]|done].
  eexists. split; [|].
  2:{ unfold set_name, set_longitude, set_latitude; simpl.
      rewrite !swrap_small by (unfold int32 in *; lia). done. }
  rewrite !length_app; simpl; lia.
Qed.

Lemma parse_loop_hit fuel pre f fs l :
  plain_feature f → Forall plain_feature fs →
  length fs + 1 < fuel →
  parse_loop fuel (pos false pre (render_features f fs)) l = (Ok (Some (l ++ f :: fs)), []).
Proof.
  revert fuel pre f l. induction fs as [|f' fs IH]; intros fuel pre f l Hf Hfs Hfuel;
    (destruct fuel as [|fuel]; [simpl in Hfuel; lia|]); cbn [parse_loop render_features]; rewrite pos_Finished;
    rewrite bool_decide_eq_false_2 by done.
  - destruct (TryParseOne_hit pre f Feature_default (txt "}]") [] Hf) as (pre' & _ & Ht); [by right|].
    rewrite app_nil_r in Ht. rewrite Ht.
    destruct fuel as [|fuel]; [simpl in Hfuel; lia|]. cbn [parse_loop]. by rewrite pos_Finished.
  - inversion Hfs; subst. simpl in Hfuel.
    destruct (TryParseOne_hit pre f Feature_default (txt "},") (render_features f' fs) Hf)
      as (pre' & _ & Ht); [by left|].
    rewrite Ht, IH by (auto with lia). by rewrite <- app_assoc.
Qed.

(** ** White space *)

(** A text without its white space. *)
Definition no_space (s : text) : text := filter (λ c, isspace c = false) s.

Lemma remove_space_plain s : plain s → remove_space s = Ok (no_space s).
Proof.
  unfold no_space. induction 1 as [|c s Hc Hs IH]; [done|]. cbn [remove_space].
  rewrite isspace_plain, IH by done. cbn [mbind outcome_bind]. rewrite filter_cons.
  by destruct (isspace c).
Qed.

Lemma remove_space_not_plain s : ¬ plain s → ∃ w, remove_space s = UB w.
Proof.
  induction s as [|c s IH]; intros Hs; [by destruct Hs; constructor|]. cbn [remove_space].
  destruct (decide (code c < 128 ∨ code c = 255)%Z) as [Hc|Hc].
  - rewrite isspace_plain by done. cbn [mbind outcome_bind].
    destruct IH as [w ->]; [intros Hs'; apply Hs; by constructor|]. by eexists.
  - destruct (isspace_not_plain c Hc) as [w ->]. by eexists.
Qed.

Lemma no_space_plain s : plain s → plain (no_space s).
Proof.
  unfold plain. rewrite !Forall_forall. intros Hs c [_ Hc]%list_elem_of_filter. by apply Hs.
Qed.

Lemma no_space_idemp s : no_space (no_space s) = no_space s.
Proof.
  unfold no_space. induction s as [|c s IH]; [done|].
  rewrite filter_cons. destruct (decide _) as [Hc|Hc]; [|done].
  by rewrite filter_cons, decide_True, IH.
Qed.

Lemma no_space_app s t : no_space (s ++ t) = no_space s ++ no_space t.
Proof. apply filter_app. Qed.

Lemma no_space_none s : Forall (λ c, isspace c = false) s → no_space s = s.
Proof.
  unfold no_space. induction 1 as [|c s Hc Hs IH]; [done|].
  by rewrite filter_cons, decide_True, IH.
Qed.

Lemma to_text_no_space z : no_space (to_text z) = to_text z.
Proof.
  apply no_space_none, Forall_forall. intros c [Hc|Hc]%to_text_chars; [|by rewrite Hc].
  by apply isdigit_not_space.
Qed.

Lemma render_feature_no_space f r :
  plain_feature f → no_space (render_feature f r) = render_feature f (no_space r).
Proof.
  intros (_ & _ & Hn). unfold render_feature.
  rewrite !no_space_app, !to_text_no_space, (no_space_none (name f)).
  - reflexivity.
  - eapply Forall_impl; [exact Hn|by intros ? []].
Qed.

Lemma render_no_space f fs :
  plain_feature f → Forall plain_feature fs →
  no_space (render f fs) = render f fs.
Proof.
  intros Hf Hfs. unfold render. rewrite no_space_app. f_equal.
  revert f Hf. induction Hfs as [|f' fs Hf' Hfs IH]; intros f Hf;
    cbn [render_features]; rewrite render_feature_no_space by done; [done|].
  by rewrite no_space_app, IH.
Qed.

Lemma render_feature_length f r : S (length r) < length (render_feature f r).
Proof. unfold render_feature. rewrite !length_app. simpl. lia. Qed.

Lemma render_length f fs : length fs + 1 < length (render f fs).
Proof.
  unfold render. rewrite length_app. change (length (txt "[")) with 1.
  revert f. induction fs as [|f' fs IH]; intros f; cbn [render_features length].
  - pose proof (render_feature_length f (txt "}]")). lia.
  - specialize (IH f'). pose proof (render_feature_length f (txt "}," ++ render_features f' fs)) as Hl.
    rewrite length_app in Hl. lia.
Qed.

Lemma Parser_new_hit s :
  remove_space (txt "[" ++ s) = Ok (txt "[" ++ s) →
  Parser_new (txt "[" ++ s) = (Ok (pos false (txt "[") s), pos false (txt "[") s, []).
Proof.
  intros Hs. unfold Parser_new. rewrite Hs. hit. hit.
  change (mkParser false _ 0) with (pos false [] (txt "[" ++ s)). hit. done.
Qed.

(** ** Reading anything

    Each method keeps the position in the string as long as it succeeds, so no
    [substr] throws and no index is out of range: the only exceptions are those of
    [std::stol]. *)

Definition inside (p : Parser) : Prop := current_ p ≤ length (db_ p).

(** Where the parser may be after it stood at [p]: the same text, further on. *)
Definition after (p p' : Parser) : Prop :=
  db_ p' = db_ p ∧ failed_ p' = failed_ p ∧ current_ p ≤ current_ p' ∧ inside p'.

Lemma wp_Match x p (Q : bool → Parser → Prop) :
  inside p →
  (∀ p', after p p' → current_ p' = current_ p + length x → Q true p') →
  (∀ p', db_ p' = db_ p → current_ p' = current_ p + length x → failed_ p' = failed_ p → Q false p') →
  wp stol_error (Match x) Q p.
Proof.
  unfold inside. intros Hin Ht Hf. unfold Match. apply wp_bind, wp_get, wp_bind, wp_lift.
  unfold substr. rewrite (proj2 (Nat.ltb_ge _ _)) by done. apply wp_bind, wp_put, wp_ret.
  case_bool_decide as Hx; [|by apply Hf]. apply Ht; [|done].
  split_and!; simpl; [done|done|lia|]. apply (f_equal length) in Hx.
  rewrite length_take, length_drop in Hx. unfold inside; simpl. lia.
Qed.

Lemma long_end_le s : long_end s ≤ length s.
Proof. induction s as [|c s IH]; simpl; [lia|]. destruct (_ || _); lia. Qed.

Lemma name_end_le s : name_end s ≤ length s.
Proof. induction s as [|c s IH]; simpl; [lia|]. destruct (Ascii.eqb c dquote); lia. Qed.

Lemma wp_ReadLong p (Q : Z → Parser → Prop) :
  inside p → (∀ z p', after p p' → Q z p') → wp stol_error ReadLong Q p.
Proof.
  unfold inside. intros Hin HQ. unfold ReadLong. apply wp_bind, wp_get.
  rewrite (proj2 (Nat.ltb_ge _ _)) by done. apply wp_bind, wp_put, wp_bind, wp_lift.
  unfold substr. rewrite (proj2 (Nat.ltb_ge _ _)) by done. apply wp_lift.
  pose proof (stol_outcome (take (long_end (drop (current_ p) (db_ p))) (drop (current_ p) (db_ p)))) as Ho.
  destruct (stol _); [|done|done]. apply HQ.
  pose proof (long_end_le (drop (current_ p) (db_ p))) as Hl. rewrite length_drop in Hl.
  split_and!; unfold inside; simpl; [done|done|lia|lia].
Qed.

Lemma after_refl p : inside p → after p p.
Proof. by unfold after. Qed.

Lemma after_trans p p' p'' : after p p' → after p' p'' → after p p''.
Proof.
  intros (Hd & Hf & Hc & Hi) (Hd1 & Hf1 & Hc1 & Hi1). unfold after.
  split_and!; congruence || lia || done.
Qed.

Lemma wp_fail_with f (Q : bool * Feature → Parser → Prop) p :
  (∀ p', Q (false, f) p') → wp stol_error (fail_with f) Q p.
Proof. intros HQ. unfold fail_with. apply wp_bind. by apply wp_ret. Qed.

(** A condition made of matches: from inside, either all match and the parser is
    further on (by as much as the first match at least), or the failure branch runs. *)
Lemma wp_expect {A} x xs (ok bad : M Parser A) p (Q : A → Parser → Prop) :
  inside p →
  (∀ p', after p p' → current_ p + length x ≤ current_ p' → wp stol_error ok Q p') →
  (∀ p', wp stol_error bad Q p') →
  wp stol_error (expect (Match <$> x :: xs) ok bad) Q p.
Proof.
  intros Hin Hok Hbad. revert p x Hin Hok. induction xs as [|y xs IH]; intros p x Hin Hok;
    unfold expect; cbn [fmap list_fmap foldr]; apply wp_bind, wp_Match; auto.
  - intros p' Ha Hc. apply Hok; [done|lia].
  - intros p' Ha Hc. apply (IH p' y); [apply Ha|].
    intros p'' Ha' Hc'. apply Hok; [by eapply after_trans|].
    destruct Ha' as (_ & _ & Hle & _). lia.
Qed.

Lemma wp_parse_name f p p0 (Q : bool * Feature → Parser → Prop) :
  after p0 p →
  (∀ f' p', after p0 p' → Q (true, f') p') → (∀ f' p', Q (false, f') p') →
  wp stol_error (parse_name f) Q p.
Proof.
  intros Ha Ht Hf. pose proof Ha as (_ & _ & Hc & Hin). unfold parse_name.
  apply wp_bind, wp_get. rewrite (proj2 (Nat.ltb_ge _ _)) by done. cbv zeta.
  apply wp_bind, wp_put.
  pose proof (name_end_le (drop (current_ p) (db_ p))) as Hl. rewrite length_drop in Hl.
  set (p1 := mkParser _ _ _). assert (after p p1) as Ha1.
  { unfold inside in Hin. split_and!; unfold inside; simpl; [done|done|lia|lia]. }
  destruct (current_ p1 =? length (db_ p1)) eqn:E; [by apply wp_fail_with|].
  apply wp_bind, wp_lift. unfold substr at 1.
  rewrite (proj2 (Nat.ltb_ge _ _)) by done.
  apply wp_bind, wp_Match; [apply Ha1| |].
  - intros p2 Ha2 _. apply wp_ret, Ht. eapply after_trans; [|done]. by eapply after_trans.
  - intros p2 Hd Hc2 Hf2. apply wp_bind, wp_get, wp_bind, wp_lift.
    destruct Ha1 as (Hd1 & Hf1 & Hc1 & Hi1). unfold inside in Hi1.
    apply Nat.eqb_neq in E. change (length (txt "},")) with 2 in Hc2.
    assert (∃ c, char_at (db_ p2) (current_ p2 - 1) = Ok c) as [c ->].
    { unfold char_at. rewrite Hc2, Hd. destruct (db_ p1 !! _) eqn:El; [eauto|].
      apply lookup_ge_None in El. rewrite (proj2 (Nat.eqb_eq _ _)) by lia. eauto. }
    destruct (Ascii.eqb c "]" && _) eqn:Eb; [|by apply wp_fail_with].
    apply wp_ret, Ht. apply andb_true_iff in Eb as [_ Eb%Nat.eqb_eq].
    destruct Ha as (Hd0 & Hf0 & Hc0 & Hi0). split_and!; unfold inside; congruence || lia.
Qed.

Lemma wp_TryParseOne f p (Q : bool * Feature → Parser → Prop) :
  inside p →
  (∀ f' p', after p p' → current_ p < current_ p' → Q (true, f') p') →
  (∀ f' p', Q (false, f') p') →
  wp stol_error (TryParseOne f) Q p.
Proof.
  intros Hin Ht Hf. unfold TryParseOne. apply wp_bind, wp_get.
  destruct (failed_ p || Finished p); [by apply wp_fail_with|].
  apply (wp_expect (txt "{") [location_; txt "{"; latitude_]); [done| |by intros; apply wp_fail_with].
  intros p1 Ha1 Hc1. apply wp_bind, wp_ReadLong; [apply Ha1|]. intros z p2 Ha2. cbv zeta.
  apply (wp_expect (txt ",") [longitude_]); [apply Ha2| |by intros; apply wp_fail_with].
  intros p3 Ha3 _. apply wp_bind, wp_ReadLong; [apply Ha3|]. intros z' p4 Ha4. cbv zeta.
  apply (wp_expect (txt "},") [name_; [dquote]]); [apply Ha4| |by intros; apply wp_fail_with].
  intros p5 Ha5 _. apply (wp_parse_name _ _ p1); [|intros f' p' Ha'|done].
  - repeat (eapply after_trans; [eassumption|]). apply after_refl, Ha5.
  - apply Ht; [by eapply after_trans|]. destruct Ha' as (_ & _ & Hle & _). simpl in Hc1. lia.
Qed.

(** The loop never needs more iterations than there are characters left. *)
Lemma parse_loop_total fuel p l :
  current_ p ≤ length (db_ p) ∨ Finished p = true →
  0 < fuel → length (db_ p) < fuel + current_ p →
  match parse_loop fuel p l with
  | (Ok (Some l'), out) => out ≠ [] → l' = []
  | (Ok None, _) => False
  | (Throw e, _) => stol_error e
  | (UB _, _) => False
  end.
Proof.
  revert p l. induction fuel as [|fuel IH]; intros p l Hin Hpos Hfuel; cbn [parse_loop].
  { lia. }
  destruct (Finished p) eqn:Ef; [done|]. destruct Hin as [Hin|]; [|done].
  assert (wp stol_error (TryParseOne Feature_default)
    (λ r p', fst r = true → after p p' ∧ current_ p < current_ p') p) as Hwp.
  { by apply wp_TryParseOne. }
  unfold wp in Hwp. destruct (TryParseOne Feature_default p) as [[[[[] f]|e|w] p'] out]; try done.
  destruct (Hwp eq_refl) as ((Hd & _ & _ & Hi) & Hlt). unfold inside in Hi. rewrite Hd in Hi.
  apply IH; [left; by rewrite Hd|lia|].
  rewrite Hd. lia.
Qed.

Lemma parse_loop_out fuel p l r out : parse_loop fuel p l = (r, out) → length out ≤ 1.
Proof.
  revert p l. induction fuel as [|fuel IH]; intros p l; cbn [parse_loop]; [by intros [= _ <-]; simpl; lia|].
  destruct (Finished p); [by intros [= _ <-]; simpl; lia|].
  destruct (TryParseOne Feature_default p) as [[[[[] f]|e|w] p'] out'];
    [apply IH|by intros [= _ <-]; simpl; lia..].
Qed.

Lemma Parser_new_ok db db' :
  remove_space db = Ok db' →
  ∃ p, Parser_new db = (Ok p, p, []) ∧ db_ p = db' ∧ current_ p = 1.
Proof.
  intros Hdb. unfold Parser_new. rewrite Hdb.
  unfold Match, substr, SetFailedAndReturnFalse, mbind, M_bind, get, lift, put; simpl.
  case_bool_decide; simpl; eexists; done.
Qed.

Lemma char_at_inside s i :
  i ≤ length s → ∃ c, char_at s i = Ok c ∧ (c ≠ "000"%char → i < length s).
Proof.
  intros Hi. unfold char_at. destruct (s !! i) as [c|] eqn:E.
  - exists c. split; [done|]. intros _. by apply lookup_lt_Some in E.
  - apply lookup_ge_None in E. rewrite (proj2 (Nat.eqb_eq _ _)) by lia. by eexists.
Qed.

Lemma substr_rest (pre s : text) n : length s ≤ n → substr (pre ++ s) (length pre) n = Ok s.
Proof.
  intros Hn. unfold substr. rewrite (proj2 (Nat.ltb_ge _ _)) by (rewrite length_app; lia).
  by rewrite drop_app_length, take_ge.
Qed.

(** ** Properties *)

(** C5: [ParseDb] reads back every data base in the form its comment asks for:
    for features with [int32] coordinates and plain names, any text of characters on
    which [isspace] is defined (below 128, or 255) that is their rendering up to white
    space (names included, as the comment says) gives the list of exactly these
    features, and the message with their number. *)
Theorem ParseDb_render f fs db :
  plain_feature f → Forall plain_feature fs → plain db → no_space db = render f fs →
  ParseDb db =
    (Ok (Some (f :: fs)),
     ["DB parsed, loaded " +:+
        String.string_of_list_ascii (to_text (Z.of_nat (S (length fs)))) +:+
        " features." +:+ nl]%string).
Proof.
  intros Hf Hfs Hp Hdb. unfold ParseDb. pose proof (no_space_plain _ Hp) as Hr.
  rewrite remove_space_plain, Hdb by done. rewrite Hdb in Hr. unfold render at 1.
  rewrite Parser_new_hit.
  - rewrite parse_loop_hit; [done|done|done|]. pose proof (render_length f fs). lia.
  - rewrite remove_space_plain by done. f_equal. by apply render_no_space.
Qed.

(** C40: [ParseDb] on every text: when [isspace] is defined on its characters (all are
    below 128, or 255), [ParseDb] returns: its loop ends, no index or [substr] is out of
    range, the only exceptions are those of [std::stol] on a coordinate, and when the
    error message is printed the feature list is empty.  Any other text is undefined
    behaviour. *)
Theorem ParseDb_total db :
  (plain db →
   match ParseDb db with
   | (Ok (Some l), out) => length out = 1 ∨ (length out = 2 ∧ l = [])
   | (Ok None, _) => False
   | (Throw e, _) => stol_error e
   | (UB _, _) => False
   end) ∧
  (¬ plain db → ∃ w, ParseDb db = (UB w, [])).
Proof.
  unfold ParseDb. split; intros Hp.
  2:{ destruct (remove_space_not_plain db Hp) as [w ->]. by eexists. }
  rewrite remove_space_plain by done. set (s := no_space db).
  assert (remove_space s = Ok s) as Hs.
  { unfold s. rewrite remove_space_plain by by apply no_space_plain. by rewrite no_space_idemp. }
  destruct (Parser_new_ok s s Hs) as (p & -> & Hd & Hc).
  pose proof (parse_loop_total (S (length s)) p []) as Hl. rewrite Hd, Hc in Hl.
  assert (1 ≤ length s ∨ Finished p = true) as Hin.
  { unfold Finished. rewrite Hd, Hc.
    destruct (decide (1 ≤ length s)); [by left|right; apply Nat.leb_le; lia]. }
  specialize (Hl Hin ltac:(lia) ltac:(lia)).
  destruct (parse_loop (S (length s)) p []) as [[[l|]|e|w] out] eqn:El; try done.
  pose proof (parse_loop_out _ _ _ _ _ El) as Ho. rewrite length_app. simpl.
  destruct out as [|o out]; [by left|right]. split; [simpl in *; lia|by apply Hl].
Qed.

(** [GetDbFileContent] reads its argument within the string: it never throws
    or has undefined behaviour, without argument it opens the default file, and
    [--db_path=P] (or with a space) opens exactly [P]. *)
Theorem GetDbFileContent_path open args :
  is_ok (fst (GetDbFileContent open args)) = true ∧
  (length args ≤ 1 → ∀ c, open (txt "route_guide_db.json") = Some c →
    GetDbFileContent open args = (Ok c, [])) ∧
  (∀ argv_0 sep p c, args = [argv_0; txt "--db_path" ++ sep :: p] →
    sep = "="%char ∨ sep = " "%char → open p = Some c →
    GetDbFileContent open args = (Ok c, [])).
Proof.
  split_and!.
  - unfold GetDbFileContent. destruct (args !! 1) as [a|]; [|by destruct (open _)].
    destruct (find (txt "--db_path") a) as [i|] eqn:Ef; [|by destruct (open _)].
    apply find_spec in Ef as ((t & Ht) & Hl & _).
    destruct (char_at_inside a (i + length (txt "--db_path")) Hl) as (c & Hc & Hin).
    rewrite Hc. cbn [mbind outcome_bind].
    destruct (Ascii.eqb c " " || Ascii.eqb c "=") eqn:E; [|by destruct (open _)].
    unfold substr. rewrite (proj2 (Nat.ltb_ge _ _)); [by destruct (open _)|].
    assert (i + length (txt "--db_path") < length a); [|lia].
    apply Hin. intros ->. done.
  - intros Hl c Hc. unfold GetDbFileContent.
    rewrite (proj2 (lookup_ge_None args 1)) by done. cbv zeta iota. by rewrite Hc.
  - intros argv_0 sep p c -> Hsep Hc. unfold GetDbFileContent.
    change ([argv_0; ?a] !! 1) with (Some a). cbv iota zeta.
    change (find _ _) with (Some 0). cbv iota zeta. change (0 + _) with 9.
    change (char_at _ 9) with (Ok sep). cbn [mbind outcome_bind].
    rewrite (substr_rest (txt "--db_path" ++ [sep]) p) by (rewrite ?length_app; simpl; lia).
    destruct Hsep as [-> | ->]; simpl; by rewrite Hc.
Qed.

(** ** Witnesses *)

Definition ex_feature : Feature := mkFeature (txt "BerkshireValleyManagementAreaTrail") (mkPoint 409146138 (-746188906)).
Definition ex_feature2 : Feature := mkFeature [] (mkPoint 0 (-1)).

(** The two features, with some white space. *)
Definition ex_db : text := txt " [" ++ drop 1 (render ex_feature [ex_feature2]) ++ ["010"%char].

Lemma ParseDb_render_witness :
  fst (ParseDb ex_db) = Ok (Some [ex_feature; ex_feature2]).
Proof.
  rewrite (ParseDb_render ex_feature [ex_feature2] ex_db); [done| | | |vm_compute; reflexivity].
  - split_and!; [vm_compute; intuition congruence..|]. simpl. repeat constructor.
  - constructor; [|constructor]. split_and!; [vm_compute; intuition congruence..|constructor].
  - repeat constructor.
Defined.
