(* ===== verification/RouteChat.v ===== *)
(** The bidirectional stream of the route guide service,
    [RouteGuideImpl::RouteChat] of
    [src/third_party_examples/grpc_example/src/route_guide/route_guide_server.cpp].

    gRPC calls the handler in a thread of its own for every client.  The threads share the
    service: its vector [received_notes_] and the mutex [mu_].  [RouteChat_step] is one step of
    one handler: a [Read], the lock, the comparison with one note, a [Write], the
    [push_back], the unlock by the destructor of [lock], the return.  A run is any sequence of steps
    of any threads; a step that has to wait cannot be taken.

    The range-based loop keeps iterators into the vector: when the vector has grown since
    the loop began, they are invalid, and their use is undefined behaviour ([stale]).

    The theorem: the handlers behave as if every note was handled at once when it was
    appended: no iterator is invalid, and the replies to each client are the earlier notes at
    the locations of its notes, in the order of the [push_back]s. *)
From stdpp Require Import functions.
From S2P Require Import Prelude Text RouteGuideDb.
Local Open Scope nat_scope.

(* @src third_party_examples/grpc_example/src/route_guide/route_guide_server.cpp 46-46 RouteNote *)
Record RouteNote := mkNote { note_location : Point; message : text }.

#[global] Instance RouteNote_eq_dec : EqDecision RouteNote.
Proof. solve_decision. Defined.

(* @src third_party_examples/grpc_example/src/route_guide/route_guide_server.cpp 159-163 RouteGuideImpl *)
(** The mutex is part of [chat]. *)
Record RouteGuideImpl := mkImpl {
  feature_list_ : list Feature; received_notes_ : list RouteNote }.

(** Same latitude and longitude. *)
Definition same_location (a b : Point) : bool :=
  (latitude a =? latitude b)%Z && (longitude a =? longitude b)%Z.

(** The condition of lines 148-149. *)
Definition at_location (note n : RouteNote) : bool := same_location (note_location n) (note_location note).

(** ** The handlers *)

(* @src third_party_examples/grpc_example/src/route_guide/route_guide_server.cpp 144-156 RouteGuideImpl::RouteChat *)
(** Where a handler is: [i] and [last] are the iterators of the loop. *)
Inductive chat_place :=
| Reading
| Locking (note : RouteNote)
| Scanning (note : RouteNote) (i last : nat)
| Writing (note : RouteNote) (i last : nat)
| Appending (note : RouteNote)
| Unlocking
| Returned.

(** A handler and the notes it has written to its stream. *)
Record handler := mkHandler { at_ : chat_place; written : list RouteNote }.

(* @src third_party_examples/grpc_example/src/route_guide/route_guide_server.cpp 159-163 RouteGuideImpl *)
(** The service, the thread that holds [mu_], and the handlers. *)
Record chat := mkChat { impl : RouteGuideImpl; mu_ : option nat; handlers : nat → handler }.

(** The vector has grown since the loop began. *)
Definition stale (last : nat) (s : chat) : bool := negb (length (received_notes_ (impl s)) =? last).

(* @src third_party_examples/grpc_example/src/route_guide/route_guide_server.cpp 142-157 RouteGuideImpl::RouteChat *)
(** One step of the handler [t]; [read] is the answer of the stream when the step is a [Read]:
    a note, or [None] at the end.  The outer [None]: the handler has to wait, or has
    returned. *)
Definition RouteChat_step (t : nat) (read : option RouteNote) (s : chat) : option (outcome chat) :=
  let h := handlers s t in
  let goto p := mkChat (impl s) (mu_ s) (<[t := mkHandler p (written h)]> (handlers s)) in
  match at_ h with
  | Reading => Some (Ok (goto (match read with Some note => Locking note | None => Returned end)))
  | Locking note =>
      match mu_ s with
      | Some _ => None
      | None =>
          Some (Ok (mkChat (impl s) (Some t)
            (<[t := mkHandler (Scanning note 0 (length (received_notes_ (impl s)))) (written h)]> (handlers s))))
      end
  | Scanning note i last =>
      if i =? last then Some (Ok (goto (Appending note))) else
      if stale last s then Some (UB "iterator of a vector that has grown") else
      match received_notes_ (impl s) !! i with
      | Some n => Some (Ok (goto (if at_location note n then Writing note i last else Scanning note (S i) last)))
      | None => Some (UB "iterator out of range")
      end
  | Writing note i last =>
      if stale last s then Some (UB "iterator of a vector that has grown") else
      match received_notes_ (impl s) !! i with
      | Some n => Some (Ok (mkChat (impl s) (mu_ s)
          (<[t := mkHandler (Scanning note (S i) last) (written h ++ [n])]> (handlers s))))
      | None => Some (UB "iterator out of range")
      end
  | Appending note =>
      Some (Ok (mkChat (mkImpl (feature_list_ (impl s)) (received_notes_ (impl s) ++ [note])) (mu_ s)
        (<[t := mkHandler Unlocking (written h)]> (handlers s))))
  | Unlocking => Some (Ok (mkChat (impl s) None (<[t := mkHandler Reading (written h)]> (handlers s))))
  | Returned => None
  end.

(** A run: which thread takes a step, and what its stream answers if it reads. *)
Fixpoint RouteChat_run (es : list (nat * option RouteNote)) (s : chat) : option (outcome chat) :=
  match es with
  | [] => Some (Ok s)
  | (t, read) :: es =>
      match RouteChat_step t read s with
      | Some (Ok s) => RouteChat_run es s
      | r => r
      end
  end.

(** The handlers before they have read anything. *)
Definition chat_start (service : RouteGuideImpl) : chat := mkChat service None (λ _, mkHandler Reading []).

(** A handler that runs alone on a stream with the notes [inbox]; [fuel] bounds its steps. *)
Fixpoint RouteChat_alone (fuel : nat) (inbox : list RouteNote) (s : chat) : option (outcome chat) :=
  match fuel with
  | O => None
  | S fuel =>
      match at_ (handlers s 0) with
      | Returned => Some (Ok s)
      | p =>
          match RouteChat_step 0 (head inbox) s with
          | Some (Ok s) =>
              RouteChat_alone fuel (match p with Reading => tail inbox | _ => inbox end) s
          | r => r
          end
      end
  end.

(** What a client that is alone with the server reads. *)
Definition replies_alone (service : RouteGuideImpl) (inbox : list RouteNote) : list RouteNote :=
  let n := length inbox + length (received_notes_ service) in
  match RouteChat_alone (S (length inbox) * (2 * n + 6)) inbox (chat_start service) with
  | Some (Ok s) => written (handlers s 0)
  | _ => []
  end.

(** ** The specification: notes are handled one after the other

    [log] are the notes in the order in which they were appended, each with the thread that
    received it. *)

(** The reply to [note] when the server has [notes]. *)
Definition reply (notes : list RouteNote) (note : RouteNote) : list RouteNote :=
  List.filter (at_location note) notes.

(** The replies of the thread [t]. *)
Fixpoint replies (t : nat) (notes : list RouteNote) (log : list (nat * RouteNote)) : list RouteNote :=
  match log with
  | [] => []
  | (u, note) :: log => (if u =? t then reply notes note else []) ++ replies t (notes ++ [note]) log
  end.

(** The notes that the thread [t] received. *)
Definition notes_of (t : nat) (log : list (nat * RouteNote)) : list RouteNote :=
  snd <$> List.filter (λ e, fst e =? t) log.

(** ** The state of a handler *)

(** The note that a handler has read and not appended yet. *)
Definition pending (p : chat_place) : list RouteNote :=
  match p with
  | Locking note | Scanning note _ _ | Writing note _ _ | Appending note => [note]
  | Reading | Unlocking | Returned => []
  end.

(** The handler is between the lock and the unlock. *)
Definition critical (p : chat_place) : bool :=
  match p with
  | Scanning _ _ _ | Writing _ _ _ | Appending _ | Unlocking => true
  | Reading | Locking _ | Returned => false
  end.

(** What a handler has written of the reply to its pending note. *)
Definition partial (notes : list RouteNote) (p : chat_place) : list RouteNote :=
  match p with
  | Scanning note i _ | Writing note i _ => reply (take i notes) note
  | Appending note => reply notes note
  | Reading | Locking _ | Unlocking | Returned => []
  end.

(** The iterators are in the vector. *)
Definition place_ok (notes : list RouteNote) (p : chat_place) : Prop :=
  match p with
  | Scanning _ i last => last = length notes ∧ i ≤ last
  | Writing note i last => last = length notes ∧ ∃ n, notes !! i = Some n ∧ at_location note n = true
  | _ => True
  end.

(** The notes that the handlers have read in a run, in order, with their threads.  A run has
    the same steps whatever the streams answer to steps that do not read. *)
Fixpoint reads (es : list (nat * option RouteNote)) (s : chat) : list (nat * RouteNote) :=
  match es with
  | [] => []
  | (t, read) :: es =>
      (match at_ (handlers s t), read with Reading, Some note => [(t, note)] | _, _ => [] end) ++
      (match RouteChat_step t read s with Some (Ok s) => reads es s | _ => [] end)
  end.

(** The state [s] after the notes [rs] were read and those of [log] appended. *)
Record chat_inv (service : RouteGuideImpl) (rs log : list (nat * RouteNote)) (s : chat) : Prop := {
  ci_features : feature_list_ (impl s) = feature_list_ service;
  ci_notes : received_notes_ (impl s) = received_notes_ service ++ (snd <$> log);
  ci_mutex : ∀ t, critical (at_ (handlers s t)) = true ↔ mu_ s = Some t;
  ci_place : ∀ t, critical (at_ (handlers s t)) = true → place_ok (received_notes_ (impl s)) (at_ (handlers s t));
  ci_reads : ∀ t, notes_of t rs = notes_of t log ++ pending (at_ (handlers s t));
  ci_written : ∀ t, written (handlers s t) =
    replies t (received_notes_ service) log ++ partial (received_notes_ (impl s)) (at_ (handlers s t)) }.

Lemma notes_of_app t log log' : notes_of t (log ++ log') = notes_of t log ++ notes_of t log'.
Proof. unfold notes_of. by rewrite List.filter_app, fmap_app. Qed.

Lemma notes_of_one t u note : notes_of t [(u, note)] = if u =? t then [note] else [].
Proof. unfold notes_of. simpl. by destruct (u =? t). Qed.

Lemma replies_snoc t notes log u note :
  replies t notes (log ++ [(u, note)]) =
    replies t notes log ++ if u =? t then reply (notes ++ (snd <$> log)) note else [].
Proof.
  revert notes. induction log as [|[v n] log IH]; intros notes; simpl.
  - by rewrite !app_nil_r.
  - rewrite IH, <- !app_assoc. done.
Qed.

Lemma reply_take_S notes note i n :
  notes !! i = Some n →
  reply (take (S i) notes) note = reply (take i notes) note ++ if at_location note n then [n] else [].
Proof.
  intros Hn. unfold reply. rewrite (take_S_r _ _ _ Hn), List.filter_app. simpl.
  by destruct (at_location note n).
Qed.

Lemma chat_start_inv service : chat_inv service [] [] (chat_start service).
Proof. split; intros; simpl; rewrite ?app_nil_r; done. Qed.

(** A thread goes to another place and writes [w]; the vector and the mutex stay, and so do the
    other threads. *)
Lemma inv_goto service rs rs' log s t p w x ws :
  chat_inv service rs log s →
  critical p = critical (at_ (handlers s t)) →
  (critical p = true → place_ok (received_notes_ (impl s)) p) →
  (∀ u, notes_of u rs' = notes_of u rs ++ if t =? u then w else []) →
  pending p = pending (at_ (handlers s t)) ++ w →
  partial (received_notes_ (impl s)) p = partial (received_notes_ (impl s)) (at_ (handlers s t)) ++ x →
  ws = written (handlers s t) ++ x →
  chat_inv service rs' log (mkChat (impl s) (mu_ s) (<[t := mkHandler p ws]> (handlers s))).
Proof.
  intros [Hf Hn Hm Hp Hr Hw] Hcrit Hok Hrs Hpend Hpart ->. split; cbn [impl mu_ handlers]; [done|done|..]; intros u;
    (destruct (decide (u = t)) as [->|Hut];
     [rewrite fn_lookup_insert|rewrite fn_lookup_insert_ne by congruence]); cbn [at_ written].
  - by rewrite Hcrit.
  - apply Hm.
  - apply Hok.
  - apply Hp.
  - by rewrite Hrs, Hr, Nat.eqb_refl, Hpend, app_assoc.
  - rewrite Hrs, (proj2 (Nat.eqb_neq t u)) by congruence. by rewrite app_nil_r.
  - by rewrite Hw, Hpart, app_assoc.
  - apply Hw.
Qed.

Lemma inv_quiet service rs log s t p x ws :
  chat_inv service rs log s →
  critical p = critical (at_ (handlers s t)) →
  (critical p = true → place_ok (received_notes_ (impl s)) p) →
  pending p = pending (at_ (handlers s t)) →
  partial (received_notes_ (impl s)) p = partial (received_notes_ (impl s)) (at_ (handlers s t)) ++ x →
  ws = written (handlers s t) ++ x →
  chat_inv service rs log (mkChat (impl s) (mu_ s) (<[t := mkHandler p ws]> (handlers s))).
Proof.
  intros Hi Hc Hok Hp Hx Hws. apply (inv_goto service rs rs log s t p [] x ws); try done.
  - intros u. destruct (t =? u); by rewrite app_nil_r.
  - by rewrite app_nil_r.
Qed.

(** The thread takes or gives back the mutex; nothing is written. *)
Lemma inv_mutex service rs log s t p m :
  chat_inv service rs log s →
  (∀ u, u ≠ t → critical (at_ (handlers s u)) = false) →
  m = (if critical p then Some t else None) →
  (critical p = true → place_ok (received_notes_ (impl s)) p) →
  pending p = pending (at_ (handlers s t)) →
  partial (received_notes_ (impl s)) p = partial (received_notes_ (impl s)) (at_ (handlers s t)) →
  chat_inv service rs log (mkChat (impl s) m (<[t := mkHandler p (written (handlers s t))]> (handlers s))).
Proof.
  intros [Hf Hn Hm Hp Hr Hw] Hothers -> Hok Hpend Hpart. split; cbn [impl mu_ handlers]; [done|done|..]; intros u;
    (destruct (decide (u = t)) as [->|Hut];
     [rewrite fn_lookup_insert|rewrite fn_lookup_insert_ne by congruence]); cbn [at_ written].
  - by destruct (critical p).
  - rewrite (Hothers u Hut). split; [done|]. destruct (critical p); congruence.
  - apply Hok.
  - apply Hp.
  - by rewrite Hr, Hpend.
  - apply Hr.
  - by rewrite Hw, Hpart.
  - apply Hw.
Qed.

(** No other thread is between the lock and the unlock. *)
Lemma inv_alone service rs log s t :
  chat_inv service rs log s → mu_ s = Some t ∨ mu_ s = None →
  ∀ u, u ≠ t → critical (at_ (handlers s u)) = false.
Proof.
  intros Hi Ht u Hu. destruct (critical _) eqn:E; [|done].
  apply (ci_mutex _ _ _ _ Hi) in E. destruct Ht; congruence.
Qed.

(** The thread [t] appends its note. *)
Lemma inv_append service rs log s t note :
  chat_inv service rs log s → at_ (handlers s t) = Appending note →
  chat_inv service rs (log ++ [(t, note)])
    (mkChat (mkImpl (feature_list_ (impl s)) (received_notes_ (impl s) ++ [note])) (mu_ s)
       (<[t := mkHandler Unlocking (written (handlers s t))]> (handlers s))).
Proof.
  intros Hi Ht. pose proof Hi as [Hf Hn Hm Hp Hr Hw].
  assert (mu_ s = Some t) as Hmu by (apply Hm; by rewrite Ht).
  pose proof (inv_alone service rs log s t Hi (or_introl Hmu)) as Hothers.
  split; cbn [impl mu_ handlers feature_list_ received_notes_]; [done|by rewrite fmap_app, app_assoc, Hn|..];
    intros u; (destruct (decide (u = t)) as [->|Hut];
     [rewrite fn_lookup_insert|rewrite fn_lookup_insert_ne by congruence]); cbn [at_ written].
  - done.
  - rewrite (Hothers u Hut). split; [done|congruence].
  - done.
  - by rewrite (Hothers u Hut).
  - by rewrite Hr, Ht, notes_of_app, notes_of_one, Nat.eqb_refl, app_nil_r.
  - by rewrite Hr, notes_of_app, notes_of_one, (proj2 (Nat.eqb_neq t u)), app_nil_r by congruence.
  - by rewrite Hw, Ht, replies_snoc, Nat.eqb_refl, app_nil_r, <- Hn.
  - rewrite Hw, replies_snoc, (proj2 (Nat.eqb_neq t u)), app_nil_r by congruence. f_equal.
    specialize (Hothers u Hut). by destruct (at_ (handlers s u)).
Qed.

Lemma reads_one t u rs note :
  notes_of u (rs ++ [(t, note)]) = notes_of u rs ++ if t =? u then [note] else [].
Proof. by rewrite notes_of_app, notes_of_one. Qed.

Lemma RouteChat_step_inv service rs log s t read o :
  chat_inv service rs log s → RouteChat_step t read s = Some o →
  ∃ s' log', o = Ok s' ∧
    chat_inv service (rs ++ match at_ (handlers s t), read with Reading, Some note => [(t, note)] | _, _ => [] end)
      log' s'.
Proof.
  intros Hi. pose proof (ci_place _ _ _ _ Hi t) as Hplace. pose proof (ci_mutex _ _ _ _ Hi t) as Hmu.
  unfold RouteChat_step. cbv zeta.
  destruct (at_ (handlers s t)) as [|note|note i last|note i last|note| |] eqn:Hat;
    cbn [critical place_ok] in Hplace, Hmu.
  - intros [= <-]. eexists _, log. split; [done|]. destruct read as [note|].
    + apply (inv_goto service rs _ log s t (Locking note) [note] []); rewrite ?Hat, ?app_nil_r; try done.
      intros u. apply reads_one.
    + rewrite app_nil_r. apply (inv_quiet _ _ _ _ _ _ []); rewrite ?Hat, ?app_nil_r; done.
  - destruct (mu_ s) eqn:Em; [done|]. intros [= <-]. eexists _, log. split; [done|]. rewrite app_nil_r.
    apply inv_mutex; rewrite ?Hat; try done; [|simpl; auto with lia].
    apply (inv_alone service rs log s t Hi). by right.
  - destruct (Hplace eq_refl) as [-> Hle]. unfold stale. rewrite Nat.eqb_refl. simpl.
    destruct (Nat.eqb_spec i (length (received_notes_ (impl s)))) as [->|Hne].
    { intros [= <-]. eexists _, log. split; [done|]. rewrite app_nil_r.
      apply (inv_quiet _ _ _ _ _ _ []); rewrite ?Hat, ?app_nil_r; try done. simpl. by rewrite firstn_all. }
    destruct (lookup_lt_is_Some_2 (received_notes_ (impl s)) i ltac:(lia)) as [n Hn]. rewrite Hn.
    intros [= <-]. eexists _, log. split; [done|]. rewrite app_nil_r.
    destruct (at_location note n) eqn:El.
    + apply (inv_quiet _ _ _ _ _ _ []); rewrite ?Hat, ?app_nil_r; try done; simpl; eauto.
    + apply (inv_quiet _ _ _ _ _ _ []); rewrite ?Hat, ?app_nil_r; try done; simpl; [lia|].
      by rewrite (reply_take_S _ _ _ _ Hn), El, app_nil_r.
  - destruct (Hplace eq_refl) as (-> & n & Hn & El). unfold stale. rewrite Nat.eqb_refl. simpl. rewrite Hn.
    intros [= <-]. eexists _, log. split; [done|]. rewrite app_nil_r.
    apply lookup_lt_Some in Hn as Hlt.
    apply (inv_quiet _ _ _ _ _ _ [n]); rewrite ?Hat; try done; simpl.
    by rewrite (reply_take_S _ _ _ _ Hn), El.
  - intros [= <-]. eexists _, _. split; [done|]. rewrite app_nil_r. by apply inv_append.
  - intros [= <-]. eexists _, log. split; [done|]. rewrite app_nil_r.
    apply inv_mutex; rewrite ?Hat; try done. apply (inv_alone service rs log s t Hi). left. by apply Hmu.
  - done.
Qed.

Lemma RouteChat_run_inv service es rs log s o :
  chat_inv service rs log s → RouteChat_run es s = Some o →
  ∃ s' log', o = Ok s' ∧ chat_inv service (rs ++ reads es s) log' s'.
Proof.
  revert rs log s. induction es as [|[t read] es IH]; intros rs log s Hi; cbn [RouteChat_run reads].
  { intros [= <-]. exists s, log. by rewrite app_nil_r. }
  destruct (RouteChat_step t read s) as [o'|] eqn:E; [|done].
  destruct (RouteChat_step_inv service rs log s t read o' Hi E) as (s' & log' & -> & Hi').
  intros Hr. destruct (IH _ _ _ Hi' Hr) as (s2 & log2 & -> & Hi2). exists s2, log2. by rewrite app_assoc.
Qed.

(** The handler that holds the mutex can always go on; without a holder, a handler that waits for
    it can. *)
Lemma chat_progress service rs log s t :
  chat_inv service rs log s → pending (at_ (handlers s t)) ≠ [] →
  ∃ u, (u = t ∨ mu_ s = Some u) ∧ at_ (handlers s u) ≠ Reading ∧ ∀ read, is_Some (RouteChat_step u read s).
Proof.
  intros Hi Hp.
  assert (∀ u, critical (at_ (handlers s u)) = true → at_ (handlers s u) ≠ Reading ∧ ∀ read, is_Some (RouteChat_step u read s)) as Hgo.
  { intros u Hu. unfold RouteChat_step. destruct (at_ (handlers s u)); try done; (split; [done|]); intros read; cbv zeta.
    - destruct (_ =? _); [done|]. destruct (stale _ _); [done|]. by destruct (_ !! _).
    - destruct (stale _ _); [done|]. by destruct (_ !! _). }
  destruct (mu_ s) as [u|] eqn:Em.
  - exists u. split; [by right|]. apply Hgo. by apply (ci_mutex _ _ _ _ Hi).
  - exists t. split; [by left|]. pose proof (ci_mutex _ _ _ _ Hi t) as Hm. rewrite Em in Hm.
    unfold RouteChat_step. destruct (at_ (handlers s t)) eqn:Hat; try done;
      try discriminate (proj1 Hm eq_refl). rewrite Em. by split.
Qed.

(** ** The property *)

(** C19: [RouteChat], called by any number of clients at the same time, each handler in a thread of
    its own whose reads, comparisons, writes, appends, locks and unlocks interleave in any way.  No iterator
    into the notes is used after the vector has grown, two handlers are never between the lock and
    the unlock together, and there is an order of the notes, that in which they are appended,
    such that: the service has its first notes and then these; each handler has received its notes in this order,
    and has at most one more, which it has read last and not appended yet; and
    what it has written to its client is, for each of its notes in order, the notes
    before it in the service that are at the same location, and a beginning of the reply to the
    note that is not appended yet.  While a note is not appended, its handler, or the one that
    holds the mutex, can take a step. *)
Theorem RouteChat_interleaved service es o :
  RouteChat_run es (chat_start service) = Some o →
  ∃ s log, o = Ok s ∧
    feature_list_ (impl s) = feature_list_ service ∧
    received_notes_ (impl s) = received_notes_ service ++ (snd <$> log) ∧
    (∀ t u, critical (at_ (handlers s t)) = true → critical (at_ (handlers s u)) = true → t = u) ∧
    ∀ t, notes_of t (reads es (chat_start service)) = notes_of t log ++ pending (at_ (handlers s t)) ∧
      (∃ part, written (handlers s t) = replies t (received_notes_ service) log ++ part ∧
         match pending (at_ (handlers s t)) with
         | [] => part = []
         | note :: _ => part `prefix_of` reply (received_notes_ (impl s)) note
         end) ∧
      (pending (at_ (handlers s t)) ≠ [] →
       ∃ u, (u = t ∨ mu_ s = Some u) ∧ at_ (handlers s u) ≠ Reading ∧ ∀ read, is_Some (RouteChat_step u read s)).
Proof.
  intros Hr. destruct (RouteChat_run_inv service es [] [] _ o (chat_start_inv service) Hr) as (s & log & -> & Hi).
  exists s, log. split; [done|]. split; [apply Hi|]. split; [apply Hi|]. split.
  { intros t u Ht%(ci_mutex _ _ _ _ Hi) Hu%(ci_mutex _ _ _ _ Hi). congruence. }
  intros t. split; [apply (ci_reads _ _ _ _ Hi)|]. split; [|by eapply chat_progress].
  eexists. split; [apply (ci_written _ _ _ _ Hi)|].
  assert (∀ note i, reply (take i (received_notes_ (impl s))) note `prefix_of` reply (received_notes_ (impl s)) note) as Hpre.
  { intros note i. unfold reply. rewrite <- (take_drop i (received_notes_ (impl s))) at 2.
    rewrite List.filter_app. by apply prefix_app_r. }
  destruct (at_ (handlers s t)); cbn [partial pending]; done || apply Hpre || apply prefix_nil.
Qed.

(** ** Witnesses *)

Definition note_hi : RouteNote := mkNote (mkPoint 1 1) (txt "hi").
Definition note_ho : RouteNote := mkNote (mkPoint 1 1) (txt "ho").

(** Two clients: the second handler reads while the first holds the mutex, and then replies. *)
Definition two_clients : list (nat * option RouteNote) :=
  [(1, Some note_hi); (1, None); (2, Some note_ho); (1, None); (1, None); (1, None);
   (2, None); (2, None); (1, None); (2, None); (2, None); (2, None); (2, None)].

Lemma RouteChat_interleaved_witness :
  ∃ s (log : list (nat * RouteNote)), RouteChat_run two_clients (chat_start (mkImpl [] [])) = Some (Ok s) ∧
    received_notes_ (impl s) = [note_hi; note_ho] ∧ written (handlers s 2) = [note_hi] ∧
    received_notes_ (impl s) = [] ++ (snd <$> log).
Proof.
  assert (∃ s, RouteChat_run two_clients (chat_start (mkImpl [] [])) = Some (Ok s) ∧
    received_notes_ (impl s) = [note_hi; note_ho] ∧ written (handlers s 2) = [note_hi]) as (s & Hs & Hn & Hw)
    by (eexists; split; [vm_compute; reflexivity|split; vm_compute; reflexivity]).
  destruct (RouteChat_interleaved (mkImpl [] []) two_clients (Ok s) Hs) as (s' & log & [= <-] & _ & Hl & _).
  exists s, log. split; [exact Hs|]. split; [exact Hn|]. split; [exact Hw|exact Hl].
Defined.
