(* ===== verification/RouteGuide.v ===== *)
(** The route guide service and its client,
    [src/third_party_examples/grpc_example/src/route_guide/route_guide_server.cpp]
    and [route_guide_client.cpp].

    The handlers of [RouteGuideImpl] are functions of the service's fields and of
    the stream they read; what they write to a stream is part of their result.
    gRPC is a parameter: a [stub] answers the client's calls, and [transport] is
    the stub of a working channel to the modelled server.  The C library's
    trigonometric functions are the parameter [libm].

    [RouteChat], whose handlers share the service, is in the file [RouteChat].

    The theorems: [ListFeatures] answers with the features in the rectangle for any
    two opposite corners; [RecordRoute] counts what it was sent; and client and server
    together do what the client reports. *)
From Stdlib Require Import Floats.SpecFloat.
From S2P Require Import Prelude Text Float RouteGuideDb RouteChat.
Local Open Scope Z_scope.

(** ** [route_guide_server.cpp] *)

(* @src third_party_examples/grpc_example/src/route_guide/route_guide_server.cpp 44-44 Rectangle *)
Record Rectangle := mkRectangle { lo : Point; hi : Point }.
(* @src third_party_examples/grpc_example/src/route_guide/route_guide_server.cpp 47-47 RouteSummary *)
Record RouteSummary := mkSummary {
  point_count : Z; feature_count : Z; distance : Z; elapsed_time : Z }.

(** The functions of [<cmath>] the server calls, on [double]. *)
Record libm := mkLibm {
  c_sin : double → double; c_cos : double → double;
  c_atan2 : double → double → double; c_pow : double → double → double }.

Section server.
Context (m : libm).

(* @src third_party_examples/grpc_example/src/route_guide/route_guide_server.cpp 50-52 ConvertToRadians *)
Definition ConvertToRadians (num : float) : float :=
  to_float (ddiv (dmul (to_double num) (decimal 31415926 10000000)) (double_of_Z 180)).

(* @src third_party_examples/grpc_example/src/route_guide/route_guide_server.cpp 54-72 GetDistance *)
Definition GetDistance (start end_ : Point) : float :=
  let kCoordFactor := float_of_Z 10000000 in
  let lat_1 := fdiv (float_of_Z (latitude start)) kCoordFactor in
  let lat_2 := fdiv (float_of_Z (latitude end_)) kCoordFactor in
  let lon_1 := fdiv (float_of_Z (longitude start)) kCoordFactor in
  let lon_2 := fdiv (float_of_Z (longitude end_)) kCoordFactor in
  let lat_rad_1 := ConvertToRadians lat_1 in
  let lat_rad_2 := ConvertToRadians lat_2 in
  let delta_lat_rad := ConvertToRadians (fsub lat_2 lat_1) in
  let delta_lon_rad := ConvertToRadians (fsub lon_2 lon_1) in
  let two := double_of_Z 2 in
  let half x := to_double (fdiv x (float_of_Z 2)) in
  let a := to_float
    (dadd (c_pow m (c_sin m (half delta_lat_rad)) two)
       (dmul (dmul (c_cos m (to_double lat_rad_1)) (c_cos m (to_double lat_rad_2)))
          (c_pow m (c_sin m (half delta_lon_rad)) two))) in
  let c := to_float
    (dmul two (c_atan2 m (dsqrt (to_double a)) (dsqrt (to_double (fsub (float_of_Z 1) a))))) in
  fmul (float_of_Z 6371000) c.

(* @src third_party_examples/grpc_example/src/route_guide/route_guide_server.cpp 74-82 GetFeatureName *)
Fixpoint GetFeatureName (point : Point) (feature_list : list Feature) : text :=
  match feature_list with
  | f :: fs =>
      if (latitude (location f) =? latitude point) && (longitude (location f) =? longitude point)
      then name f else GetFeatureName point fs
  | [] => []
  end.

(* @src third_party_examples/grpc_example/src/route_guide/route_guide_server.cpp 86-86 RouteGuideImpl::RouteGuideImpl *)
Definition RouteGuideImpl_new (db : text) : outcome RouteGuideImpl :=
  match fst (ParseDb db) with
  | Ok l => Ok (mkImpl (default [] l) [])
  | Throw e => Throw e
  | UB w => UB w
  end.

(* @src third_party_examples/grpc_example/src/route_guide/route_guide_server.cpp 88-92 RouteGuideImpl::GetFeature *)
Definition GetFeature (service : RouteGuideImpl) (point : Point) : Feature :=
  mkFeature (GetFeatureName point (feature_list_ service)) point.

(* @src third_party_examples/grpc_example/src/route_guide/route_guide_server.cpp 94-110 RouteGuideImpl::ListFeatures *)
(** The features written to the stream. *)
Definition ListFeatures (service : RouteGuideImpl) (rectangle : Rectangle) : list Feature :=
  let left := Z.min (longitude (lo rectangle)) (longitude (hi rectangle)) in
  let right := Z.max (longitude (lo rectangle)) (longitude (hi rectangle)) in
  let top := Z.max (latitude (lo rectangle)) (latitude (hi rectangle)) in
  let bottom := Z.min (latitude (lo rectangle)) (latitude (hi rectangle)) in
  List.filter (λ f,
    (left <=? longitude (location f)) && (longitude (location f) <=? right) &&
    (bottom <=? latitude (location f)) && (latitude (location f) <=? top))
    (feature_list_ service).

(* @src third_party_examples/grpc_example/src/route_guide/route_guide_server.cpp 123-130 RouteGuideImpl::RecordRoute *)
(** One iteration of the loop of [RecordRoute]: the counters are [int]s. *)
Definition record_point (service : RouteGuideImpl) (st : Z * Z * float * Point) (point : Point)
    : outcome (Z * Z * float * Point) :=
  let '(point_count, feature_count, distance, previous) := st in
  point_count ← int_add point_count 1;
  feature_count ←
    (match GetFeatureName point (feature_list_ service) with
     | [] => Ok feature_count
     | _ => int_add feature_count 1
     end);
  let distance :=
    if point_count =? 1 then distance else fadd distance (GetDistance previous point) in
  Ok (point_count, feature_count, distance, point).

(* @src third_party_examples/grpc_example/src/route_guide/route_guide_server.cpp 122-131 RouteGuideImpl::RecordRoute *)
Fixpoint record_points (service : RouteGuideImpl) (st : Z * Z * float * Point)
    (points : list Point) : outcome (Z * Z * float * Point) :=
  match points with
  | [] => Ok st
  | p :: points => record_point service st p ≫= λ st, record_points service st points
  end.

(* @src third_party_examples/grpc_example/src/route_guide/route_guide_server.cpp 112-140 RouteGuideImpl::RecordRoute *)
(** [points] are what the reader delivers, [secs] the elapsed whole seconds. *)
Definition RecordRoute (service : RouteGuideImpl) (points : list Point) (secs : Z)
    : outcome RouteSummary :=
  '(point_count, feature_count, distance, _) ←
    record_points service (0, 0, float_of_Z 0, Point_default) points;
  d ← to_long distance;
  Ok (mkSummary point_count feature_count (swrap 32 d) (swrap 32 secs)).

(** ** Lemmas *)

Lemma record_points_spec service pc fc d prev points :
  0 ≤ pc → 0 ≤ fc → pc + Z.of_nat (length points) ≤ int_max →
  fc + Z.of_nat (length points) ≤ int_max →
  ∃ d' prev',
    record_points service (pc, fc, d, prev) points =
      Ok (pc + Z.of_nat (length points),
          fc + Z.of_nat (length (List.filter
            (λ p, match GetFeatureName p (feature_list_ service) with [] => false | _ => true end)
            points)), d', prev') ∧
    (0 < pc → d' = foldl (λ d '(a, b), fadd d (GetDistance a b)) d
                     (zip (prev :: points) points)).
Proof.
  revert pc fc d prev. induction points as [|p points IH]; intros pc fc d prev Hpc Hfc Hp Hf.
  { exists d, prev. simpl. rewrite !Z.add_0_r. done. }
  cbn [record_points record_point]. cbn [length] in Hp, Hf. rewrite Nat2Z.inj_succ in Hp, Hf.
  unfold mbind, outcome_bind.
  rewrite (int_add_ok pc 1) by (unfold int_min in *; lia). cbv beta iota zeta.
  assert (∀ fc', fc ≤ fc' ≤ fc + 1 → ∃ d' prev',
    record_points service
      (pc + 1, fc', if pc + 1 =? 1 then d else fadd d (GetDistance prev p), p) points =
      Ok (pc + 1 + Z.of_nat (length points),
          fc' + Z.of_nat (length (List.filter
            (λ p, match GetFeatureName p (feature_list_ service) with [] => false | _ => true end)
            points)), d', prev') ∧
    (0 < pc + 1 → d' = foldl (λ d '(a, b), fadd d (GetDistance a b))
       (if pc + 1 =? 1 then d else fadd d (GetDistance prev p)) (zip (p :: points) points))) as HI.
  { intros fc' Hfc'. apply IH; lia. }
  cbn [List.filter].
  replace (pc + Z.of_nat (length (p :: points))) with (pc + 1 + Z.of_nat (length points))
    by (cbn [length]; lia).
  destruct (GetFeatureName p (feature_list_ service)) as [|x n] eqn:En.
  - cbv beta iota. destruct (HI fc ltac:(lia)) as (d' & prev' & Hr & Hd).
    exists d', prev'. rewrite Hr. split; [done|].
    intros Hpos. rewrite Hd by lia. by rewrite (proj2 (Z.eqb_neq _ _)) by lia.
  - rewrite (int_add_ok fc 1) by (unfold int_min in *; lia). cbv beta iota.
    destruct (HI (fc + 1) ltac:(lia)) as (d' & prev' & Hr & Hd).
    exists d', prev'. rewrite Hr.
    split; [cbn [length]; rewrite Nat2Z.inj_succ, <- Z.add_1_l, Z.add_assoc; done|].
    intros Hpos. rewrite Hd by lia. by rewrite (proj2 (Z.eqb_neq _ _)) by lia.
Qed.

(** A feature list, and whether a point of it is named. *)
Lemma GetFeatureName_named fs f :
  Forall (λ f, name f ≠ []) fs → f ∈ fs → GetFeatureName (location f) fs ≠ [].
Proof.
  intros Hn. induction Hn as [|g fs Hg Hn IH]; intros Hf; [by apply not_elem_of_nil in Hf|].
  cbn [GetFeatureName]. destruct (_ && _) eqn:E; [done|].
  apply elem_of_cons in Hf as [->|Hf]; [|by apply IH].
  by rewrite !Z.eqb_refl in E.
Qed.

Lemma GetFeatureName_first fs p n :
  GetFeatureName p fs = n → n ≠ [] →
  ∃ fs1 f fs2, fs = fs1 ++ f :: fs2 ∧ name f = n ∧ location f = p ∧
    Forall (λ g, location g ≠ p) fs1.
Proof.
  intros Hg Hn. induction fs as [|f fs IH]; [by subst|]. cbn [GetFeatureName] in Hg.
  destruct ((latitude (location f) =? latitude p) && _) eqn:E.
  - destr_bool. exists [], f, fs. split_and!; [done|done| |constructor].
    destruct (location f), p; simpl in *. by subst.
  - destruct (IH Hg) as (fs1 & g & fs2 & -> & Hname & Hloc & Hall).
    exists (f :: fs1), g, fs2. split_and!; [done|done|done|]. constructor; [|done].
    intros Hp. rewrite Hp, !Z.eqb_refl in E. done.
Qed.

Lemma RecordRoute_counts service p ps secs :
  Z.of_nat (S (length ps)) ≤ int_max →
  RecordRoute service (p :: ps) secs =
    (to_long (foldl (λ d '(a, b), fadd d (GetDistance a b)) (float_of_Z 0) (zip (p :: ps) ps))
     ≫= λ d, Ok (mkSummary (Z.of_nat (S (length ps)))
       (Z.of_nat (length (List.filter (λ p, negb (bool_decide
          (GetFeatureName p (feature_list_ service) = []))) (p :: ps))))
       (swrap 32 d) (swrap 32 secs))).
Proof.
  intros Hl. unfold RecordRoute. cbn [record_points record_point].
  unfold mbind, outcome_bind. rewrite (int_add_ok 0 1) by (unfold int_min, int_max in *; lia).
  cbv beta iota zeta. change (0 + 1 =? 1) with true. cbv iota.
  assert (∀ q : Point, negb (bool_decide (GetFeatureName q (feature_list_ service) = [])) =
    match GetFeatureName q (feature_list_ service) with [] => false | _ => true end) as Hb
    by (intros q; by destruct (GetFeatureName q _)).
  rewrite (filter_ext _ _ Hb). cbn [List.filter].
  set (named := match GetFeatureName p (feature_list_ service) with [] => false | _ => true end).
  assert ((match GetFeatureName p (feature_list_ service) with
    | [] => Ok 0 | _ :: _ => Ok (0 + 1) end) = Ok (if named then 1 else 0)) as Hc.
  { unfold named. by destruct (GetFeatureName p _). }
  rewrite Hc. cbv beta iota. rewrite Nat2Z.inj_succ in *.
  destruct (record_points_spec service (0 + 1) (if named then 1 else 0) (float_of_Z 0) p ps)
    as (d' & prev' & Hr & Hd); [lia|by destruct named|lia|destruct named; lia|].
  rewrite Hr, Hd by lia. cbv beta iota.
  destruct (to_long _); [|done|done].
  f_equal. f_equal; [lia|]. destruct named; cbn [length]; lia.
Qed.

(** ** Properties of the server *)

(** [ListFeatures] writes exactly the features of the data base that lie in
    the rectangle, in their order, for any two opposite corners in any order. *)
Theorem ListFeatures_rectangle service a b :
  let out := ListFeatures service (mkRectangle a b) in
  out `sublist_of` feature_list_ service ∧
  (∀ f, f ∈ out ↔ f ∈ feature_list_ service ∧
     Z.min (longitude a) (longitude b) ≤ longitude (location f)
       ≤ Z.max (longitude a) (longitude b) ∧
     Z.min (latitude a) (latitude b) ≤ latitude (location f)
       ≤ Z.max (latitude a) (latitude b)) ∧
  ListFeatures service (mkRectangle b a) = out ∧
  ListFeatures service (mkRectangle (mkPoint (latitude a) (longitude b))
                                    (mkPoint (latitude b) (longitude a))) = out.
Proof.
  intros out. split_and!.
  - unfold out, ListFeatures. induction (feature_list_ service) as [|f fs IH]; [done|].
    cbn [List.filter]. destruct (_ && _); by constructor.
  - intros f. unfold out, ListFeatures. rewrite !list_elem_of_In, filter_In, !andb_true_iff, !Z.leb_le.
    simpl. tauto.
  - unfold out, ListFeatures; simpl.
    by rewrite (Z.min_comm (longitude b)), (Z.max_comm (longitude b)),
      (Z.min_comm (latitude b)), (Z.max_comm (latitude b)).
  - unfold out, ListFeatures; simpl.
    by rewrite (Z.min_comm (longitude b)), (Z.max_comm (longitude b)).
Qed.

(** [RecordRoute] on a stream of fewer than 2^31 points reports their number,
    the number of those that have a named feature, and the sum of the distances
    between consecutive points, accumulated from the first to the last. *)
Theorem RecordRoute_summary service p ps secs :
  Z.of_nat (S (length ps)) ≤ int_max →
  RecordRoute service (p :: ps) secs =
    (to_long (foldl (λ d '(a, b), fadd d (GetDistance a b)) (float_of_Z 0) (zip (p :: ps) ps))
     ≫= λ d, Ok (mkSummary (Z.of_nat (S (length ps)))
       (Z.of_nat (length (List.filter (λ p, negb (bool_decide
          (GetFeatureName p (feature_list_ service) = []))) (p :: ps))))
       (swrap 32 d) (swrap 32 secs))).
Proof. apply RecordRoute_counts. Qed.

End server.

(** ** [route_guide_client.cpp] *)

(* @src third_party_examples/grpc_example/src/route_guide/route_guide_client.cpp 48-53 MakePoint *)
Definition MakePoint (latitude longitude : Z) : Point :=
  mkPoint (swrap 32 latitude) (swrap 32 longitude).

(* @src third_party_examples/grpc_example/src/route_guide/route_guide_client.cpp 55-60 MakeFeature *)
Definition MakeFeature (name : text) (latitude longitude : Z) : Feature :=
  mkFeature name (MakePoint latitude longitude).

(* @src third_party_examples/grpc_example/src/route_guide/route_guide_client.cpp 62-67 MakeRouteNote *)
Definition MakeRouteNote (message : text) (latitude longitude : Z) : RouteNote :=
  mkNote (MakePoint latitude longitude) message.

(** What gRPC offers the client.  A call that fails gives [None] or [false];
    [stub_Write i] is whether the [i]-th write of a stream succeeds. *)
Record stub := mkStub {
  stub_GetFeature : Point → option (option Point * text);
  stub_ListFeatures : Rectangle → list Feature * bool;
  stub_Write : nat → bool;
  stub_RecordRoute : list Point → option RouteSummary;
  stub_RouteChat : list RouteNote → list RouteNote * bool }.

Section client.
Context (stub_ : stub).

Definition endl : text := ["010"%char].

(* @src third_party_examples/grpc_example/src/route_guide/route_guide_client.cpp 197-197 RouteGuideClient::kCoordFactor_ *)
Definition coord (z : Z) : text := show_float (fdiv (float_of_Z z) (float_of_Z 10000000)).

Definition at_point (p : Point) : text := coord (latitude p) ++ txt ", " ++ coord (longitude p).

(* @src third_party_examples/grpc_example/src/route_guide/route_guide_client.cpp 175-195 RouteGuideClient::GetOneFeature *)
Definition GetOneFeature (point : Point) : bool * list text :=
  match stub_GetFeature stub_ point with
  | None => (false, [txt "GetFeature rpc failed." ++ endl])
  | Some (None, _) => (false, [txt "Server returns incomplete feature." ++ endl])
  | Some (Some loc, []) => (true, [txt "Found no feature at " ++ at_point loc ++ endl])
  | Some (Some loc, n) =>
      (true, [txt "Found feature called " ++ n ++ txt " at " ++ at_point loc ++ endl])
  end.

(* @src third_party_examples/grpc_example/src/route_guide/route_guide_client.cpp 76-83 RouteGuideClient::GetFeature *)
Definition client_GetFeature : list text :=
  snd (GetOneFeature (MakePoint 409146138 (-746188906))) ++ snd (GetOneFeature (MakePoint 0 0)).

(* @src third_party_examples/grpc_example/src/route_guide/route_guide_client.cpp 85-108 RouteGuideClient::ListFeatures *)
Definition client_ListFeatures : list text :=
  let rect := mkRectangle (mkPoint 400000000 (-750000000)) (mkPoint 420000000 (-730000000)) in
  let '(features, ok) := stub_ListFeatures stub_ rect in
  [txt "Looking for features between 40, -75 and 42, -73" ++ endl] ++
  ((λ f, txt "Found feature called " ++ name f ++ txt " at " ++ at_point (location f) ++ endl)
     <$> features) ++
  [txt (if (ok : bool) then "ListFeatures rpc succeeded." else "ListFeatures rpc failed.") ++ endl].

(* @src third_party_examples/grpc_example/src/route_guide/route_guide_client.cpp 122-131 RouteGuideClient::RecordRoute *)
(** The loop of lines 122-131: [draw i] is the [i]-th number of the distribution,
    [n] the iterations left.  The points written and what is printed. *)
Fixpoint visit (feature_list : list Feature) (draw : nat → nat) (n i : nat)
    : outcome (list Point * list text) :=
  match n with
  | O => Ok ([], [])
  | S n =>
      match feature_list !! draw i with
      | None => UB "vector index out of range"
      | Some f =>
          let line := txt "Visiting point " ++ at_point (location f) ++ endl in
          if stub_Write stub_ i
          then '(ps, out) ← visit feature_list draw n (S i); Ok (location f :: ps, line :: out)
          else Ok ([], [line])
      end
  end.

(* @src third_party_examples/grpc_example/src/route_guide/route_guide_client.cpp 110-142 RouteGuideClient::RecordRoute *)
(** [feature_distribution(0, size() - 1)]: with no features the bounds are 0 and -1,
    which the distribution must not be given. *)
Definition client_RecordRoute (feature_list : list Feature) (draw : nat → nat)
    : outcome (option RouteSummary * list text) :=
  match feature_list with
  | [] => UB "uniform_int_distribution: a > b"
  | _ =>
      let kPoints := 10%nat in
      '(points, out) ← visit feature_list draw kPoints 0;
      match stub_RecordRoute stub_ points with
      | Some stats =>
          Ok (Some stats, out ++
            [txt "Finished trip with " ++ to_text (point_count stats) ++ txt " points" ++ endl ++
             txt "Passed " ++ to_text (feature_count stats) ++ txt " features" ++ endl ++
             txt "Travelled " ++ to_text (distance stats) ++ txt " meters" ++ endl ++
             txt "It took " ++ to_text (elapsed_time stats) ++ txt " seconds" ++ endl])
      | None => Ok (None, out ++ [txt "RecordRoute rpc failed." ++ endl])
      end
  end.

(* @src third_party_examples/grpc_example/src/route_guide/route_guide_client.cpp 150-152 RouteGuideClient::RouteChat *)
Definition chat_notes : list RouteNote :=
  [MakeRouteNote (txt "First message") 0 0; MakeRouteNote (txt "Second message") 0 1;
   MakeRouteNote (txt "Third message") 1 0; MakeRouteNote (txt "Fourth message") 0 0].

Definition note_line (what : string) (n : RouteNote) : text :=
  txt what ++ message n ++ txt " at " ++ to_text (latitude (note_location n)) ++ txt ", " ++
  to_text (longitude (note_location n)) ++ endl.

(* @src third_party_examples/grpc_example/src/route_guide/route_guide_client.cpp 144-172 RouteGuideClient::RouteChat *)
(** What the writer thread prints and what the reading thread prints. *)
Definition client_RouteChat : list text * list text :=
  let '(replies, ok) := stub_RouteChat stub_ chat_notes in
  (note_line "Sending message " <$> chat_notes,
   (note_line "Got message " <$> replies) ++
   (if (ok : bool) then [] else [txt "RouteChat rpc failed." ++ endl])).

Definition banner (what : string) : list text :=
  [txt "-------------- " ++ txt what ++ txt " --------------" ++ endl].

(* @src third_party_examples/grpc_example/src/route_guide/route_guide_client.cpp 202-218 main *)
(** [db] is what [GetDbFileContent] returned; the two threads' lines of the chat
    are shown one after the other. *)
Definition client_main (db : text) (draw : nat → nat) : outcome (list text) :=
  match fst (ParseDb db) with
  | Throw e => Throw e
  | UB w => UB w
  | Ok l =>
      '(_, trip) ← client_RecordRoute (default [] l) draw;
      Ok (banner "GetFeature" ++ client_GetFeature ++
          banner "ListFeatures" ++ client_ListFeatures ++
          banner "RecordRoute" ++ trip ++
          banner "RouteChat" ++ fst client_RouteChat ++ snd client_RouteChat)
  end.
End client.

(** A channel that works, to the server that holds [service]. *)
Definition transport (m : libm) (service : RouteGuideImpl) : stub :=
  mkStub
    (λ p, let f := GetFeature service p in Some (Some (location f), name f))
    (λ r, (ListFeatures service r, true))
    (λ _, true)
    (λ ps, match RecordRoute m service ps 0 with Ok s => Some s | _ => None end)
    (λ notes, (replies_alone service notes, true)).

(** ** Properties of client and server together *)

Lemma visit_all stub_ fs draw n i :
  (∀ i, stub_Write stub_ i = true) → (∀ i, draw i < length fs)%nat →
  ∃ ps out, visit stub_ fs draw n i = Ok (ps, out) ∧ length ps = n ∧
    Forall (λ p, ∃ f, f ∈ fs ∧ location f = p) ps.
Proof.
  intros Hw Hd. revert i. induction n as [|n IH]; intros i; cbn [visit].
  { by exists [], []. }
  destruct (lookup_lt_is_Some_2 fs (draw i) (Hd i)) as [f Hf]. rewrite Hf, Hw.
  destruct (IH (S i)) as (ps & out & -> & Hl & Hall). unfold mbind, outcome_bind; cbv beta iota.
  do 2 eexists. split; [done|]. split; [simpl; lia|]. constructor; [|done].
  exists f. split; [by eapply list_elem_of_lookup_2|done].
Qed.

(** A client and a server with the same features, all named, on a working
    channel: the client's [RecordRoute] visits ten points and, if the distance is a
    number, is told that it passed ten points and ten features. *)
Theorem record_route_end_to_end m fs notes draw :
  fs ≠ [] → Forall (λ f, name f ≠ []) fs → (∀ i, draw i < length fs)%nat →
  (∀ ps, length ps = 10%nat → is_ok (RecordRoute m (mkImpl fs notes) ps 0) = true) →
  ∃ stats out,
    client_RecordRoute (transport m (mkImpl fs notes)) fs draw = Ok (Some stats, out) ∧
    point_count stats = 10 ∧ feature_count stats = 10.
Proof.
  intros Hfs Hn Hd Hok. unfold client_RecordRoute.
  destruct (visit_all (transport m (mkImpl fs notes)) fs draw 10 0) as (ps & out & Hv & Hl & Hall);
    [done|done|].
  rewrite Hv. destruct fs as [|f0 fs0] eqn:Efs; [done|]. rewrite <- Efs in *. clear Efs f0 fs0.
  unfold mbind, outcome_bind; cbv beta iota. cbn [stub_RecordRoute transport].
  destruct ps as [|p ps]; [done|].
  specialize (Hok (p :: ps) Hl). assert (length ps = 9%nat) as Hl9 by (simpl in Hl; lia).
  rewrite RecordRoute_counts in Hok |- * by (rewrite Hl9; vm_compute; congruence).
  destruct (to_long _) as [d| |]; [|done|done]. unfold mbind, outcome_bind.
  do 2 eexists. split; [done|]. cbn [point_count feature_count].
  rewrite Hl9. split; [done|].
  assert (List.filter (λ p, negb (bool_decide (GetFeatureName p (feature_list_ (mkImpl fs notes)) = [])))
    (p :: ps) = p :: ps) as ->.
  { apply List.forallb_filter_id. apply forallb_forall. intros q Hq.
    apply list_elem_of_In in Hq. rewrite Forall_forall in Hall.
    destruct (Hall q Hq) as (f & Hf & <-). apply negb_true_iff, bool_decide_eq_false_2.
    by apply GetFeatureName_named. }
  by rewrite Hl.
Qed.

(** On a server without notes, the reader of the client's [RouteChat] prints
    one line, the first message, which the fourth note at the same location brings
    back; the writer prints the four notes in order. *)
Theorem route_chat_end_to_end m fs :
  client_RouteChat (transport m (mkImpl fs [])) =
    (note_line "Sending message " <$> chat_notes,
     [txt "Got message First message at 0, 0" ++ endl]).
Proof. reflexivity. Qed.

(** A client whose data base cannot be read has no features, and its
    [RecordRoute] then has undefined behaviour. *)
Theorem client_without_features_UB stub_ draw :
  client_main stub_ (txt "[]") draw = UB "uniform_int_distribution: a > b".
Proof. reflexivity. Qed.

(** ** Witnesses *)

(** A flat earth: all distances are 0. *)
Definition flat : libm :=
  mkLibm (λ _, S754_zero false) (λ _, S754_zero false) (λ _ _, S754_zero false)
    (λ _ _, S754_zero false).

Definition ex_service : RouteGuideImpl := mkImpl [ex_feature] [].

Lemma RecordRoute_summary_witness :
  RecordRoute flat ex_service [location ex_feature; Point_default; location ex_feature] 5 =
    Ok (mkSummary 3 2 0 5).
Proof.
  rewrite (RecordRoute_summary flat ex_service (location ex_feature)
    [Point_default; location ex_feature] 5); [vm_compute; reflexivity|vm_compute; congruence].
Defined.

Lemma flat_sum (l : list (Point * Point)) :
  foldl (λ d '(a, b), fadd d (GetDistance flat a b)) (float_of_Z 0) l = float_of_Z 0.
Proof.
  induction l as [|[a b] l IH]; [done|]. cbn [foldl].
  assert (fadd (float_of_Z 0) (GetDistance flat a b) = float_of_Z 0) as -> by (vm_compute; reflexivity).
  exact IH.
Qed.

Lemma record_route_end_to_end_witness :
  ∃ stats out,
    client_RecordRoute (transport flat ex_service) [ex_feature] (λ _, 0%nat) = Ok (Some stats, out) ∧
    point_count stats = 10 ∧ feature_count stats = 10.
Proof.
  apply (record_route_end_to_end flat [ex_feature] [] (λ _, 0%nat)); [done| |simpl; lia|].
  - constructor; [done|constructor].
  - intros [|p ps] Hl; [done|]. rewrite RecordRoute_counts, flat_sum; [done|].
    assert (length ps = 9%nat) as -> by (simpl in Hl; lia). vm_compute. congruence.
Defined.
