(* ===== verification/EtherCat.v ===== *)
(** The EtherCAT application [src/cpp_practices/ethercat_user/main.cpp].

    The EtherCAT master library, the scheduler, the clock and the standard streams
    are the environment: [ec_call] lists the calls, [ec_ret] the types of their
    answers.  The static variables of the file are the record [statics]; the macros
    and tables are definitions of the same names.

    The theorems: the first configuration call that fails ends the program with -1 and its
    message before any process data are exchanged, and the configuration calls are those of
    the source, all PDO tables going to the analog input slave; the wake-up times are the
    multiples of the period from the start, normalised; each check prints exactly
    what changed; the outputs blink with a period of 1001 cycles each way. *)
From S2P Require Import Prelude Text.
Local Open Scope Z_scope.

(* @src cpp_practices/ethercat_user/main.cpp 54-55 PERIOD_NS *)
Definition PERIOD_NS : Z := 1000000.
(* @src cpp_practices/ethercat_user/main.cpp 65-65 NSEC_PER_SEC *)
Definition NSEC_PER_SEC : Z := 1000000000.
(* @src cpp_practices/ethercat_user/main.cpp 66-66 FREQUENCY *)
Definition FREQUENCY : Z := NSEC_PER_SEC / PERIOD_NS.

(** ** Slaves *)

(* @src cpp_practices/ethercat_user/main.cpp 85-88 BusCouplerPos *)
(** Alias and position. *)
Definition BusCouplerPos : Z * Z := (0, 0).
Definition DigOutSlavePos : Z * Z := (0, 2).
Definition AnaInSlavePos : Z * Z := (0, 3).
Definition AnaOutSlavePos : Z * Z := (0, 4).

(* @src cpp_practices/ethercat_user/main.cpp 90-95 Beckhoff_EK1100 *)
(** Vendor and product. *)
Definition Beckhoff_EK1100 : Z * Z := (0x00000002, 0x044c2c52).
Definition Beckhoff_EL2032 : Z * Z := (0x00000002, 0x07f03052).
Definition Beckhoff_EL3102 : Z * Z := (0x00000002, 0x0c1e3052).
Definition Beckhoff_EL4102 : Z * Z := (0x00000002, 0x10063052).

(** The variables the offsets are stored in. *)
Inductive offset := off_ana_in_status | off_ana_in_value | off_ana_out | off_dig_out.

(** [ec_pdo_entry_reg_t]: position, product, index, subindex, offset. *)
Definition pdo_entry_reg : Type := (Z * Z) * (Z * Z) * Z * Z * offset.

(* @src cpp_practices/ethercat_user/main.cpp 103-108 domain1_regs *)
(** Without the empty entry that ends the array. *)
Definition domain1_regs : list pdo_entry_reg :=
  [(AnaInSlavePos, Beckhoff_EL3102, 0x3101, 1, off_ana_in_status);
   (AnaInSlavePos, Beckhoff_EL3102, 0x3101, 2, off_ana_in_value);
   (AnaOutSlavePos, Beckhoff_EL4102, 0x3001, 1, off_ana_out);
   (DigOutSlavePos, Beckhoff_EL2032, 0x3001, 1, off_dig_out)].

(** [ec_pdo_entry_info_t]: index, subindex, bit length. *)
Record pdo_entry := mkEntry { e_index : Z; e_subindex : Z; e_bits : Z }.
(** [ec_pdo_info_t]: index and entries. *)
Record pdo := mkPdo { p_index : Z; p_entries : list pdo_entry }.
Inductive direction := EC_DIR_OUTPUT | EC_DIR_INPUT.
(** [ec_sync_info_t]: sync manager, direction, PDOs; the end mark 0xff is left out. *)
Record sync := mkSync { s_index : Z; s_dir : direction; s_pdos : list pdo }.

(** [n] entries of a table from position [i]. *)
Definition slice {A} (i n : nat) (l : list A) : list A := take n (drop i l).

Module el3102.
(* @src cpp_practices/ethercat_user/main.cpp 118-125 el3102::pdo_entries *)
Definition pdo_entries : list pdo_entry :=
  [mkEntry 0x3101 1 8; mkEntry 0x3101 2 16; mkEntry 0x3102 1 8; mkEntry 0x3102 2 16;
   mkEntry 0x6401 1 16; mkEntry 0x6401 2 16].
(* @src cpp_practices/ethercat_user/main.cpp 127-128 el3102::pdos *)
Definition pdos : list pdo :=
  [mkPdo 0x1A00 (slice 0 2 pdo_entries); mkPdo 0x1A01 (slice 2 2 pdo_entries)].
(* @src cpp_practices/ethercat_user/main.cpp 130-132 el3102::syncs *)
Definition syncs : list sync := [mkSync 2 EC_DIR_OUTPUT []; mkSync 3 EC_DIR_INPUT pdos].
End el3102.

Module el4102.
(* @src cpp_practices/ethercat_user/main.cpp 138-141 el4102::pdo_entries *)
Definition pdo_entries : list pdo_entry := [mkEntry 0x3001 1 16; mkEntry 0x3002 1 16].
(* @src cpp_practices/ethercat_user/main.cpp 143-144 el4102::pdos *)
Definition pdos : list pdo :=
  [mkPdo 0x1600 (slice 0 1 pdo_entries); mkPdo 0x1601 (slice 1 1 pdo_entries)].
(* @src cpp_practices/ethercat_user/main.cpp 146-148 el4102::syncs *)
Definition syncs : list sync := [mkSync 2 EC_DIR_OUTPUT pdos; mkSync 3 EC_DIR_INPUT []].
End el4102.

Module el2004.
(* @src cpp_practices/ethercat_user/main.cpp 154-159 el2004::channels *)
Definition channels : list pdo_entry :=
  [mkEntry 0x3001 1 1; mkEntry 0x3001 2 1; mkEntry 0x3001 3 1; mkEntry 0x3001 4 1].
(* @src cpp_practices/ethercat_user/main.cpp 161-164 el2004::pdos *)
Definition pdos : list pdo :=
  [mkPdo 0x1600 (slice 0 1 channels); mkPdo 0x1601 (slice 1 1 channels);
   mkPdo 0x1602 (slice 2 1 channels); mkPdo 0x1603 (slice 3 1 channels)].
(* @src cpp_practices/ethercat_user/main.cpp 166-168 el2004::syncs *)
Definition syncs : list sync := [mkSync 0 EC_DIR_OUTPUT pdos; mkSync 1 EC_DIR_INPUT []].
End el2004.

(** ** The environment *)

(** What the library reports: [ec_domain_state_t], [ec_master_state_t],
    [ec_slave_config_state_t]. *)
Record domain_state := mkDomainState { working_counter : Z; wc_state : Z }.
Record ec_master_state := mkMasterState { slaves_responding : Z; al_states : Z; link_up : bool }.
Record slave_state := mkSlaveState { al_state : Z; online : bool; operational : bool }.

Record timespec := mkTime { tv_sec : Z; tv_nsec : Z }.

(** Pointers the library returns: [None] is NULL. *)
Definition pointer := option Z.

Inductive ec_call :=
| RequestMaster | CreateDomain
| SlaveConfig (pos product : Z * Z)
| ConfigPdos (sc : Z) (s : list sync)
| RegPdoEntryList (regs : list pdo_entry_reg)
| Activate | DomainData
| PriorityMax | SetScheduler (priority : Z) | Mlockall
| Gettime | Nanosleep (t : timespec)
| Receive | Process | DomainState | MasterState | SlaveConfigState
| WriteU8 (off : offset) (v : Z)
| Queue | Send
| Strerror (e : option Z)   (* the text of an error number, [None]: of [errno] *)
| Printf (t : text) | Eprintf (t : text).

Definition ec_ret (c : ec_call) : Type :=
  match c with
  | RequestMaster | CreateDomain | SlaveConfig _ _ | DomainData => pointer
  | ConfigPdos _ _ | RegPdoEntryList _ | Activate | PriorityMax | SetScheduler _ | Mlockall
  | Nanosleep _ => Z
  | Gettime => timespec
  | DomainState => domain_state
  | MasterState => ec_master_state
  | SlaveConfigState => slave_state
  | Strerror _ => text
  | _ => unit
  end.

Abbreviation ec := (prog ec_ret).
Definition printf (t : text) : ec unit := call (Printf t).
Definition eprintf (t : text) : ec unit := call (Eprintf t).

Definition newline : text := ["010"%char].

(** [%02X] *)
Definition hex_digit (d : Z) : ascii := if d <? 10 then chr (48 + d) else chr (55 + d).
Fixpoint hex_digits (fuel : nat) (n : Z) : text :=
  match fuel with
  | O => []
  | S fuel => if n <? 16 then [hex_digit n] else hex_digits fuel (n / 16) ++ [hex_digit (n mod 16)]
  end.
Definition hex2 (n : Z) : text :=
  let s := hex_digits 8 n in (if (length s <? 2)%nat then txt "0" else []) ++ s.

(** ** The cyclic task *)

(* @src cpp_practices/ethercat_user/main.cpp 71-78 master_state *)
(** The static variables the cyclic task changes. *)
Record statics := mkStatics {
  domain1_state : domain_state; master_state : ec_master_state;
  sc_ana_in_state : slave_state; counter : Z; blink : bool }.

(* @src cpp_practices/ethercat_user/main.cpp 110-111 counter *)
(** Zero initialisation. *)
Definition statics_init : statics :=
  mkStatics (mkDomainState 0 0) (mkMasterState 0 0 false) (mkSlaveState 0 false false) 0 false.

(* @src cpp_practices/ethercat_user/main.cpp 173-186 check_domain1_state *)
Definition check_domain1_state (g : statics) : ec statics :=
  ds ← call DomainState;
  _ ← (if working_counter ds =? working_counter (domain1_state g) then mret tt
       else printf (txt "Domain1: WC " ++ to_text (working_counter ds) ++ txt "." ++ newline));
  _ ← (if wc_state ds =? wc_state (domain1_state g) then mret tt
       else printf (txt "Domain1: State " ++ to_text (wc_state ds) ++ txt "." ++ newline));
  mret (mkStatics ds (master_state g) (sc_ana_in_state g) (counter g) (blink g)).

(* @src cpp_practices/ethercat_user/main.cpp 190-206 check_master_state *)
Definition check_master_state (g : statics) : ec statics :=
  ms ← call MasterState;
  _ ← (if slaves_responding ms =? slaves_responding (master_state g) then mret tt
       else printf (to_text (slaves_responding ms) ++ txt " slave(s)." ++ newline));
  _ ← (if al_states ms =? al_states (master_state g) then mret tt
       else printf (txt "AL states: 0x" ++ hex2 (al_states ms) ++ txt "." ++ newline));
  _ ← (if Bool.eqb (link_up ms) (link_up (master_state g)) then mret tt
       else printf (txt "Link is " ++ txt (if link_up ms then "up" else "down") ++ txt "." ++ newline));
  mret (mkStatics (domain1_state g) ms (sc_ana_in_state g) (counter g) (blink g)).

(* @src cpp_practices/ethercat_user/main.cpp 210-226 check_slave_config_states *)
Definition check_slave_config_states (g : statics) : ec statics :=
  s ← call SlaveConfigState;
  _ ← (if al_state s =? al_state (sc_ana_in_state g) then mret tt
       else printf (txt "AnaIn: State 0x" ++ hex2 (al_state s) ++ txt "." ++ newline));
  _ ← (if Bool.eqb (online s) (online (sc_ana_in_state g)) then mret tt
       else printf (txt "AnaIn: " ++ txt (if online s then "online" else "offline") ++ txt "." ++ newline));
  _ ← (if Bool.eqb (operational s) (operational (sc_ana_in_state g)) then mret tt
       else printf (txt "AnaIn: " ++ (if operational s then [] else txt "Not ") ++ txt "operational." ++ newline));
  mret (mkStatics (domain1_state g) (master_state g) s (counter g) (blink g)).

(* @src cpp_practices/ethercat_user/main.cpp 230-268 cyclic_task *)
Definition cyclic_task (g : statics) : ec statics :=
  _ ← call Receive;
  _ ← call Process;
  g ← check_domain1_state g;
  g ← (if counter g =? 0 then
         let g := mkStatics (domain1_state g) (master_state g) (sc_ana_in_state g)
                    FREQUENCY (negb (blink g)) in
         g ← check_master_state g;
         check_slave_config_states g
       else mret (mkStatics (domain1_state g) (master_state g) (sc_ana_in_state g)
                    (counter g - 1) (blink g)));
  _ ← call (WriteU8 off_dig_out (if blink g then 0x06 else 0x09));
  _ ← call Queue;
  _ ← call Send;
  mret g.

(** The inner loop of lines 376-379; [fuel] bounds its iterations. *)
Fixpoint normalise (fuel : nat) (t : timespec) : timespec :=
  match fuel with
  | O => t
  | S fuel =>
      if NSEC_PER_SEC <=? tv_nsec t
      then normalise fuel (mkTime (tv_sec t + 1) (tv_nsec t - NSEC_PER_SEC)) else t
  end.

(* @src cpp_practices/ethercat_user/main.cpp 375-379 main *)
(** One iteration of the inner loop is enough: [tv_nsec] starts below a second. *)
Definition next_wakeup (t : timespec) : timespec :=
  normalise 2 (mkTime (tv_sec t) (tv_nsec t + PERIOD_NS)).

(* @src cpp_practices/ethercat_user/main.cpp 366-380 main *)
(** The body of the endless loop; leaving it gives [ret]. *)
Definition cycle (st : timespec * statics) : ec ((timespec * statics) + Z) :=
  let '(wakeup_time, g) := st in
  ret ← call (Nanosleep wakeup_time);
  if ret =? 0 then
    g ← cyclic_task g;
    mret (inl (next_wakeup wakeup_time, g))
  else
    e ← call (Strerror (Some ret));
    _ ← eprintf (txt "clock_nanosleep(): " ++ e ++ newline);
    mret (inr ret).

(** ** Start-up *)

(** Go on with the value of a pointer, or leave with [e]. *)
Definition require {A B} (p : option A) (e : ec (B + Z)) (k : A → ec (B + Z)) : ec (B + Z) :=
  match p with Some a => k a | None => e end.

Definition return_ {B} (z : Z) : ec (B + Z) := mret (inr z).
Definition complain {B} (m : string) : ec (B + Z) :=
  _ ← eprintf (txt m ++ newline); return_ (-1).

Definition complain_errno (m : string) : ec unit :=
  e ← call (Strerror None); eprintf (txt m ++ e ++ newline).

(* @src cpp_practices/ethercat_user/main.cpp 304-310 main *)
(** The loop over the variant: [sc_ana_in] for each of the tables. *)
Fixpoint config_slaves {B} (sc_ana_in : Z) (slaves : list (list sync)) (k : ec (B + Z)) : ec (B + Z) :=
  match slaves with
  | [] => k
  | s :: slaves =>
      ret ← call (ConfigPdos sc_ana_in s);
      if ret =? 0 then config_slaves sc_ana_in slaves k else complain "Failed to configure PDOs."
  end.

(* @src cpp_practices/ethercat_user/main.cpp 285-364 main *)
(** The left side: everything is set up, the first wake-up time. *)
Definition setup : ec (timespec + Z) :=
  master ← call RequestMaster;
  require master (return_ (-1)) (λ _,
  domain1 ← call CreateDomain;
  require domain1 (return_ (-1)) (λ _,
  sc_ana_in ← call (SlaveConfig AnaInSlavePos Beckhoff_EL3102);
  require sc_ana_in (complain "Failed to get slave configuration.") (λ sc_ana_in,
  _ ← printf (txt "Configuring PDOs..." ++ newline);
  config_slaves sc_ana_in [el3102.syncs; el4102.syncs; el2004.syncs] (
  sc ← call (SlaveConfig AnaOutSlavePos Beckhoff_EL4102);
  require sc (complain "Failed to get slave configuration.") (λ _,
  sc ← call (SlaveConfig DigOutSlavePos Beckhoff_EL2032);
  require sc (complain "Failed to get slave configuration.") (λ _,
  sc ← call (SlaveConfig BusCouplerPos Beckhoff_EK1100);
  require sc (return_ (-1)) (λ _,
  r ← call (RegPdoEntryList domain1_regs);
  if negb (r =? 0) then complain "PDO entry registration failed!" else
  _ ← printf (txt "Activating master..." ++ newline);
  r ← call Activate;
  if negb (r =? 0) then return_ (-1) else
  domain1_pd ← call DomainData;
  require domain1_pd (return_ (-1)) (λ _,
  priority ← call PriorityMax;
  _ ← printf (txt "Using priority " ++ to_text priority ++ txt ".");
  r ← call (SetScheduler priority);
  _ ← (if r =? -1 then complain_errno "sched_setscheduler failed: " else mret tt);
  r ← call Mlockall;
  _ ← (if r =? -1 then complain_errno "Warning: Failed to lock memory: " else mret tt);
  _ ← printf (txt "Starting RT task with dt=" ++ to_text PERIOD_NS ++ txt " ns." ++ newline);
  wakeup_time ← call Gettime;
  mret (inl (mkTime (tv_sec wakeup_time + 1) 0)))))))))).

(* @src cpp_practices/ethercat_user/main.cpp 280-383 main *)
(** [fuel] bounds the number of cycles; [None] is that the program still runs. *)
Definition ethercat_main (fuel : nat) : ec (option Z) :=
  r ← setup;
  match r with
  | inr ret => mret (Some ret)
  | inl wakeup_time => loop fuel cycle (wakeup_time, statics_init)
  end.

(** ** Start-up *)

(** A call that exchanges process data or starts a cycle. *)
Definition cyclic_call (c : ec_call) : bool :=
  match c with
  | Nanosleep _ | Receive | Process | WriteU8 _ _ | Queue | Send => true
  | _ => false
  end.

(** A call that prints or looks up an error text. *)
Definition message_call (c : ec_call) : bool :=
  match c with Printf _ | Eprintf _ | Strerror _ => true | _ => false end.

(** The calls of a complete start-up, [sc] being the handle of the analog input. *)
Definition setup_calls (sc priority : Z) : list ec_call :=
  [RequestMaster; CreateDomain; SlaveConfig AnaInSlavePos Beckhoff_EL3102;
   ConfigPdos sc el3102.syncs; ConfigPdos sc el4102.syncs; ConfigPdos sc el2004.syncs;
   SlaveConfig AnaOutSlavePos Beckhoff_EL4102; SlaveConfig DigOutSlavePos Beckhoff_EL2032;
   SlaveConfig BusCouplerPos Beckhoff_EK1100; RegPdoEntryList domain1_regs; Activate;
   DomainData; PriorityMax; SetScheduler priority; Mlockall; Gettime].

(** A configuration call reports an error: a null pointer, or a result that is not zero. *)
Definition failed (e : sigT ec_ret) : bool :=
  let 'existT c r := e in
  (match c return ec_ret c → bool with
   | RequestMaster | CreateDomain | SlaveConfig _ _ | DomainData => λ r, negb (bool_decide (is_Some r))
   | ConfigPdos _ _ | RegPdoEntryList _ | Activate => λ r, negb (r =? 0)
   | _ => λ _, false
   end) r.

(** What is written to the standard error when a call fails. *)
Definition complaint (c : ec_call) : list text :=
  match c with
  | SlaveConfig pos _ =>
      if bool_decide (pos = BusCouplerPos) then [] else [txt "Failed to get slave configuration." ++ newline]
  | ConfigPdos _ _ => [txt "Failed to configure PDOs." ++ newline]
  | RegPdoEntryList _ => [txt "PDO entry registration failed!" ++ newline]
  | _ => []
  end.

Definition complaints (h : history ec_ret) : list text :=
  omap (λ c, match c with Eprintf t => Some t | _ => None end) (calls h).

(** The events of a history without the messages. *)
Definition steps_of (h : history ec_ret) : list (sigT ec_ret) :=
  List.filter (λ e, negb (message_call (projT1 e))) h.

(** The calls of the start-up in order, up to and with the first that fails. *)
Definition setup_done (res : timespec + Z) (h : history ec_ret) : Prop :=
  Forall (λ c, cyclic_call c = false) (calls h) ∧
  ∃ sc priority before e, steps_of h = before ++ [e] ∧ Forall (λ e, failed e = false) before ∧
  match res with
  | inl t => failed e = false ∧ projT1 <$> steps_of h = setup_calls sc priority ∧
      ∃ now, e = existT Gettime now ∧ t = mkTime (tv_sec now + 1) 0
  | inr ret => ret = -1 ∧ failed e = true ∧ projT1 <$> steps_of h `prefix_of` setup_calls sc priority ∧
      complaints h = complaint (projT1 e)
  end.

(** Take the answer of a call, decide a test on it. *)
Ltac answer :=
  unfold complain, complain_errno, return_, printf, eprintf; cbn [config_slaves require]; prog_run;
  first
  [ intros ? _
  | match goal with
    | |- always _ (require ?p _ _) _ _ => destruct p
    | |- always _ (if ?b then _ else _) _ _ => destruct b eqn:?
    | |- always _ (prog_bind (if ?b then _ else _) _) _ _ => destruct b eqn:?
    | |- always _ ((if ?b then _ else _) ≫= _) _ _ => destruct b eqn:?
    end ].

(** The last event of a list that is written out. *)
Ltac last_event l := match l with [?e] => e | _ :: ?l => last_event l end.
Ltac but_last l :=
  match l with [_] => constr:(@nil (sigT ec_ret)) | ?e :: ?l => let r := but_last l in constr:(e :: r) end.

Ltac decided := cbn; first [done | assumption | by apply negb_false_iff | by apply negb_true_iff].

(** Show what a run of the start-up that ended did. *)
Ltac setup_ended :=
  cbn [app]; split; [repeat constructor|]; unfold steps_of; cbn [List.filter message_call negb projT1];
  match goal with |- ∃ sc priority before e, ?l = _ ∧ _ =>
    let e := last_event l in let b := but_last l in
    eexists _, _, b, e; split; [reflexivity|]; split;
      [repeat constructor; decided|]
  end;
  first
  [ split; [reflexivity|]; split; [decided|]; split; [eexists; reflexivity|reflexivity]
  | split; [reflexivity|]; split; [reflexivity|]; eexists; split; reflexivity ].

Lemma setup_always : always anything setup setup_done [].
Proof.
  unfold setup. repeat answer; unfold return_; prog_run. all: setup_ended.
  Unshelve. all: exact 0.
Qed.

(** ** Wake-up times *)

(** Nanoseconds since the start second. *)
Lemma next_wakeup_multiple t k :
  0 ≤ k → next_wakeup (mkTime (t + k / 1000) (k mod 1000 * 1000000)) =
    mkTime (t + (k + 1) / 1000) ((k + 1) mod 1000 * 1000000).
Proof.
  intros Hk. unfold next_wakeup, PERIOD_NS. cbn [tv_sec tv_nsec normalise]. unfold NSEC_PER_SEC.
  pose proof (Z.div_mod k 1000 ltac:(lia)) as Hd. pose proof (Z.mod_pos_bound k 1000 ltac:(lia)) as Hm.
  pose proof (Z.div_mod (k + 1) 1000 ltac:(lia)) as Hd1.
  pose proof (Z.mod_pos_bound (k + 1) 1000 ltac:(lia)) as Hm1.
  destruct (Z.leb_spec 1000000000 (k mod 1000 * 1000000 + 1000000)) as [H|H]; cbn [tv_sec tv_nsec].
  - destruct (Z.leb_spec 1000000000 (k mod 1000 * 1000000 + 1000000 - 1000000000)); [lia|].
    f_equal; lia.
  - f_equal; lia.
Qed.

(** ** Cycles *)

Definition outputs (h : history ec_ret) : list Z :=
  omap (λ c, match c with WriteU8 off_dig_out v => Some v | _ => None end) (calls h).
Definition wakeups (h : history ec_ret) : list timespec :=
  omap (λ c, match c with Nanosleep t => Some t | _ => None end) (calls h).
Definition printed (h : history ec_ret) : list text :=
  omap (λ c, match c with Printf t => Some t | _ => None end) (calls h).

Lemma no_cyclic_calls (h : history ec_ret) :
  Forall (λ c, cyclic_call c = false) (calls h) → outputs h = [] ∧ wakeups h = [].
Proof.
  unfold outputs, wakeups. induction 1 as [|c cs Hc Hcs [IHo IHw]]; [done|].
  by destruct c.
Qed.

Section cycles.
Context (ok : ∀ c, ec_ret c → Prop).
Implicit Types (h : history ec_ret).

(** [h'] continues [h] with the outputs [os] and the sleeps [ts]. *)
Definition extends h h' (os : list Z) (ts : list timespec) : Prop :=
  outputs h' = outputs h ++ os ∧ wakeups h' = wakeups h ++ ts.

Lemma extends_refl h : extends h h [] [].
Proof. by split; rewrite app_nil_r. Qed.

Lemma extends_call h h' os ts c (r : ec_ret c) :
  extends h h' os ts →
  extends h (h' ++ [existT c r]) (os ++ outputs [existT c r]) (ts ++ wakeups [existT c r]).
Proof.
  unfold extends, outputs, wakeups, calls. intros [Ho Hw].
  rewrite !fmap_app, !omap_app, Ho, Hw, <- !app_assoc. done.
Qed.

Lemma extends_quiet h h' os ts c (r : ec_ret c) :
  outputs [existT c r] = [] → wakeups [existT c r] = [] →
  extends h h' os ts → extends h (h' ++ [existT c r]) os ts.
Proof.
  intros Ho Hw He. apply (extends_call _ _ _ _ c r) in He. by rewrite Ho, Hw, !app_nil_r in He.
Qed.

Lemma extends_trans h1 h2 h3 os ts os' ts' :
  extends h1 h2 os ts → extends h2 h3 os' ts' → extends h1 h3 (os ++ os') (ts ++ ts').
Proof. unfold extends. intros [-> ->] [-> ->]. by rewrite !app_assoc. Qed.

Ltac quiet := repeat (apply extends_quiet; [done|done|]); apply extends_refl.

Lemma check_domain1_state_always g h :
  always ok (check_domain1_state g) (λ g' h',
    counter g' = counter g ∧ blink g' = blink g ∧ extends h h' [] []) h.
Proof.
  unfold check_domain1_state, printf. prog_run. intros ds _.
  do 2 destruct (_ =? _); prog_run; intros; (split_and!; [done|done|quiet]).
Qed.

Lemma check_master_state_always g h :
  always ok (check_master_state g) (λ g' h',
    counter g' = counter g ∧ blink g' = blink g ∧ extends h h' [] []) h.
Proof.
  unfold check_master_state, printf. prog_run. intros ms _.
  do 2 destruct (_ =? _); destruct (Bool.eqb _ _); prog_run; intros; (split_and!; [done|done|quiet]).
Qed.

Lemma check_slave_config_states_always g h :
  always ok (check_slave_config_states g) (λ g' h',
    counter g' = counter g ∧ blink g' = blink g ∧ extends h h' [] []) h.
Proof.
  unfold check_slave_config_states, printf. prog_run. intros s _.
  destruct (_ =? _); do 2 destruct (Bool.eqb _ _); prog_run; intros; (split_and!; [done|done|quiet]).
Qed.

(** The counter and the output after [k] cycles, in closed form. *)
Definition at_cycle (k : Z) (g : statics) : Prop :=
  counter g = (- k) mod 1001 ∧ blink g = Z.odd ((k + 1000) / 1001).

Definition output_at (k : Z) : Z := if Z.even (k / 1001) then 0x06 else 0x09.

Lemma at_cycle_step k c b :
  0 ≤ k → c = (- k) mod 1001 → b = Z.odd ((k + 1000) / 1001) →
  (if c =? 0 then FREQUENCY else c - 1) = (- (k + 1)) mod 1001 ∧
  (if c =? 0 then negb b else b) = Z.odd ((k + 1 + 1000) / 1001) ∧
  output_at k = if Z.odd ((k + 1 + 1000) / 1001) then 0x06 else 0x09.
Proof.
  intros Hk -> ->. unfold output_at, FREQUENCY, NSEC_PER_SEC, PERIOD_NS.
  change (1000000000 / 1000000) with 1000.
  pose proof (Z.div_mod k 1001 ltac:(lia)) as Hd. pose proof (Z.mod_pos_bound k 1001 ltac:(lia)) as Hm.
  set (q := k / 1001) in *. set (r := k mod 1001) in *.
  assert ((k + 1 + 1000) / 1001 = q + 1) as ->
    by (symmetry; apply (Z.div_unique_pos _ _ _ r); lia).
  rewrite (Z.add_1_r q), Z.odd_succ.
  destruct (Z.eq_dec r 0) as [Hr|Hr].
  - assert ((- k) mod 1001 = 0) as -> by (symmetry; apply (Z.mod_unique_pos _ _ (- q)); lia).
    assert ((- (k + 1)) mod 1001 = 1000) as -> by (symmetry; apply (Z.mod_unique_pos _ _ (- q - 1)); lia).
    assert ((k + 1000) / 1001 = q) as -> by (symmetry; apply (Z.div_unique_pos _ _ _ (r + 1000)); lia).
    by rewrite Z.negb_odd.
  - assert ((- k) mod 1001 = 1001 - r) as -> by (symmetry; apply (Z.mod_unique_pos _ _ (- q - 1)); lia).
    assert ((- (k + 1)) mod 1001 = 1001 - r - 1) as ->
      by (symmetry; apply (Z.mod_unique_pos _ _ (- q - 1)); lia).
    assert ((k + 1000) / 1001 = q + 1) as -> by (symmetry; apply (Z.div_unique_pos _ _ _ (r - 1)); lia).
    rewrite (proj2 (Z.eqb_neq _ _)) by lia. by rewrite Z.add_1_r, Z.odd_succ.
Qed.

Lemma cyclic_task_always k g h :
  0 ≤ k → at_cycle k g →
  always ok (cyclic_task g) (λ g' h', at_cycle (k + 1) g' ∧ extends h h' [output_at k] []) h.
Proof.
  intros Hk [Hc Hb]. unfold cyclic_task. prog_run. intros [] _ [] _.
  destruct (at_cycle_step k _ _ Hk Hc Hb) as (Hc' & Hb' & Ho). rewrite Ho.
  assert (∀ g' h', counter g' = (- (k + 1)) mod 1001 → blink g' = Z.odd ((k + 1 + 1000) / 1001) →
    extends h h' [] [] →
    always ok (_ ← call (WriteU8 off_dig_out (if blink g' then 0x06 else 0x09));
      _ ← call Queue; _ ← call Send; mret g')
      (λ g' h', at_cycle (k + 1) g' ∧
        extends h h' [if Z.odd ((k + 1 + 1000) / 1001) then 6 else 9] []) h') as Hend.
  { intros g' h' Hcg Hbg He. prog_run. intros [] _ [] _ [] _. split; [by split|].
    do 2 (apply extends_quiet; [done|done|]). rewrite <- Hbg.
    by apply (extends_call h h' [] []). }
  apply always_bind.
  eapply always_mono; [|apply check_domain1_state_always].
  intros g1 h1 (Hc1 & Hb1 & He1). cbv beta.
  assert (extends h h1 [] []) as He.
  { apply (extends_trans _ _ _ [] [] [] []) with (2 := He1). quiet. }
  rewrite <- Hc1 in Hc'. rewrite <- Hb1 in Hb'. rewrite <- Hc1 in Hb'. apply always_bind.
  destruct (counter g1 =? 0).
  - apply always_bind. eapply always_mono; [|apply check_master_state_always].
    intros g2 h2 (Hc2 & Hb2 & He2). eapply always_mono; [|apply check_slave_config_states_always].
    intros g3 h3 (Hc3 & Hb3 & He3). apply Hend; [by rewrite Hc3, Hc2|by rewrite Hb3, Hb2|].
    apply (extends_trans _ _ _ [] [] [] []) with (2 := He3).
    by apply (extends_trans _ _ _ [] [] [] []) with (2 := He2).
  - by apply Hend.
Qed.
End cycles.

(** Every sleep ends at its time. *)
Definition sleeps (c : ec_call) : ec_ret c → Prop :=
  match c with Nanosleep _ => λ r, r = 0 | _ => λ _, True end.

Definition wakeup_at (t k : Z) : timespec := mkTime (t + k / 1000) (k mod 1000 * 1000000).

Lemma cycle_always t k g h :
  0 ≤ k → at_cycle k g →
  always sleeps (cycle (wakeup_at t k, g)) (λ r h', ∃ g',
    r = inl (wakeup_at t (k + 1), g') ∧ at_cycle (k + 1) g' ∧
    extends h h' [output_at k] [wakeup_at t k]) h.
Proof.
  intros Hk Hg. unfold cycle. prog_run. intros r Hr. simpl in Hr. subst r. cbn [Z.eqb].
  apply always_bind. eapply always_mono; [|by apply cyclic_task_always].
  intros g' h' [Hg' He]. simpl. eexists. split; [|split; [done|]].
  - unfold wakeup_at. by rewrite next_wakeup_multiple.
  - apply (extends_trans _ _ _ [] [wakeup_at t k] [output_at k] []) with (2 := He).
    apply (extends_call h h [] []), extends_refl.
Qed.

Lemma loop_always n t k g h :
  0 ≤ k → at_cycle k g →
  always sleeps (loop n cycle (wakeup_at t k, g)) (λ r h',
    r = None ∧
    extends h h' (output_at <$> seqZ k (Z.of_nat n)) (wakeup_at t <$> seqZ k (Z.of_nat n))) h.
Proof.
  revert k g h. induction n as [|n IH]; intros k g h Hk Hg; cbn [loop always].
  { split; [done|]. apply extends_refl. }
  apply always_bind. eapply always_mono; [|by apply cycle_always].
  intros r h1 (g' & -> & Hg' & He1). cbv beta iota.
  eapply always_mono; [|apply (IH (k + 1) g' h1); [lia|done]].
  intros r h2 [-> He2]. split; [done|].
  rewrite Nat2Z.inj_succ, seqZ_cons by lia. rewrite Z.pred_succ, <- (Z.add_1_r k).
  apply (extends_trans _ _ _ [output_at k] [wakeup_at t k] _ _ He1 He2).
Qed.

Lemma printed_app (h1 h2 : history ec_ret) : printed (h1 ++ h2) = printed h1 ++ printed h2.
Proof. unfold printed, calls. by rewrite fmap_app, omap_app. Qed.

Lemma app_self_nil {A} (l l' : list A) : l ++ l' = l ↔ l' = [].
Proof.
  split; [|intros ->; apply app_nil_r]. intros H. apply (app_inv_head l). by rewrite app_nil_r.
Qed.

(** Finish a run whose tests are decided: what was printed, and whether the states agree. *)
Ltac run_prints env :=
  cbn [mbind prog_mbind prog_bind mret prog_mret run domain1_state master_state sc_ana_in_state];
  repeat match goal with
  | |- context [env ?h (Printf ?t)] => generalize (env h (Printf t)); intros ?
  end;
  rewrite <- ?app_assoc, ?printed_app, ?app_self_nil;
  (split; [done|]); subst; cbn; split; congruence.

(** ** Properties *)

(** C17: the start-up of the program, for every behaviour of the library.  The configuration
    calls of the source are made in order (in particular the PDO tables of all three slaves are
    given to the analog input slave) until one fails: a null pointer from the calls that return one, and a
    result that is not zero from the configuration of PDOs, the registration of the PDO
    entries and the activation of the master.  The first that fails is the last call,
    the program ends with -1 and has written the message for this call, and no other, to the
    standard error.  If none fails, the program goes on, and its first wake-up time is the whole second
    after the time it read last.  In both cases no process data have been exchanged. *)
Theorem ethercat_setup env :
  let '(res, h) := run env setup [] in
  Forall (λ c, cyclic_call c = false) (calls h) ∧
  ∃ sc priority before e, steps_of h = before ++ [e] ∧ Forall (λ e, failed e = false) before ∧
  match res with
  | inl t => failed e = false ∧ projT1 <$> steps_of h = setup_calls sc priority ∧
      ∃ now, e = existT Gettime now ∧ t = mkTime (tv_sec now + 1) 0
  | inr ret => ret = -1 ∧ failed e = true ∧ projT1 <$> steps_of h `prefix_of` setup_calls sc priority ∧
      complaints h = complaint (projT1 e)
  end.
Proof.
  pose proof (always_run anything env setup setup_done [] ltac:(done) setup_always) as H.
  by destruct (run env setup []).
Qed.

(** C16: while the sleeps succeed, the program either stopped in its start-up or
    runs for ever; in cycle [k] it wakes at the [k]-th multiple of the period after
    a whole second, in normal form, and writes 0x06 or 0x09 by turns of 1001
    cycles. *)
Theorem ethercat_cycles (env : environment ec_ret) n :
  (∀ h t, env h (Nanosleep t) = 0) →
  let '(res, h) := run env (ethercat_main n) [] in
  match res with
  | Some ret => ret = -1 ∧ outputs h = [] ∧ wakeups h = []
  | None => ∃ t,
      outputs h = output_at <$> seqZ 0 (Z.of_nat n) ∧
      wakeups h = wakeup_at t <$> seqZ 0 (Z.of_nat n)
  end.
Proof.
  intros Hs.
  assert (∀ h c, sleeps c (env h c)) as Hok 
    by (intros h c; destruct c; try done; apply Hs).
  unfold ethercat_main. rewrite run_bind.
  pose proof (always_run anything env setup setup_done [] ltac:(done) setup_always) as Hd.
  destruct (run env setup []) as [[t|ret] h]; simpl in Hd; destruct Hd as [Hc Hd];
    destruct (no_cyclic_calls h Hc) as [Ho Hw]; destruct Hd as (sc & priority & before & e & _ & _ & Hd);
    [|destruct Hd as (-> & _); done].
  destruct Hd as (_ & _ & now & _ & ->). set (t := tv_sec now + 1).
  pose proof (always_run sleeps env (loop n cycle (wakeup_at t 0, statics_init)) _ h Hok
    (loop_always n t 0 statics_init h ltac:(lia) ltac:(done))) as Hl. cbv beta in Hl.
  replace (wakeup_at t 0) with (mkTime t 0) in Hl
    by (unfold wakeup_at; cbn; by rewrite Z.add_0_r).
  destruct (run env (loop n cycle _) h) as [res h'].
  destruct Hl as [Hn [Hlo Hlw]]. simpl in Hn, Hlo, Hlw. subst res. exists t. by rewrite Hlo, Hlw, Ho, Hw.
Qed.


(** Each check prints a line for every field that changed and remembers what
    was reported: it is silent exactly when the reported state is the remembered
    one. *)
Theorem ethercat_checks_report_changes env g h :
  (let '(g', h') := run env (check_domain1_state g) h in
   domain1_state g' = env h DomainState ∧
   (printed h' = printed h ↔ domain1_state g' = domain1_state g)) ∧
  (let '(g', h') := run env (check_master_state g) h in
   master_state g' = env h MasterState ∧
   (printed h' = printed h ↔ master_state g' = master_state g)) ∧
  (let '(g', h') := run env (check_slave_config_states g) h in
   sc_ana_in_state g' = env h SlaveConfigState ∧
   (printed h' = printed h ↔ sc_ana_in_state g' = sc_ana_in_state g)).
Proof.
  split_and!; unfold check_domain1_state, check_master_state, check_slave_config_states, printf, call;
    cbn [mbind prog_mbind prog_bind run].
  - destruct (env h DomainState) as [w s], (domain1_state g) as [w0 s0] eqn:Eg. cbn [working_counter wc_state].
    destruct (Z.eqb_spec w w0), (Z.eqb_spec s s0); run_prints env.
  - destruct (env h MasterState) as [n a l], (master_state g) as [n0 a0 l0] eqn:Eg.
    cbn [slaves_responding al_states link_up].
    destruct (Z.eqb_spec n n0), (Z.eqb_spec a a0), (Bool.eqb_spec l l0); run_prints env.
  - destruct (env h SlaveConfigState) as [a o p], (sc_ana_in_state g) as [a0 o0 p0] eqn:Eg.
    cbn [al_state online operational].
    destruct (Z.eqb_spec a a0), (Bool.eqb_spec o o0), (Bool.eqb_spec p p0); run_prints env.
Qed.

(** A working bus: all calls succeed, the sleeps end in time. *)
Definition ex_env : environment ec_ret := λ _ c,
  match c with
  | RequestMaster | CreateDomain | SlaveConfig _ _ | DomainData => Some 1
  | ConfigPdos _ _ | RegPdoEntryList _ | Activate | SetScheduler _ | Mlockall | Nanosleep _ => 0
  | PriorityMax => 99
  | Gettime => mkTime 41 123
  | DomainState => mkDomainState 3 2
  | MasterState => mkMasterState 5 8 true
  | SlaveConfigState => mkSlaveState 8 true true
  | Strerror _ => []
  | Receive | Process | WriteU8 _ _ | Queue | Send | Printf _ | Eprintf _ => tt
  end.

(** Two cycles of it. *)
Lemma ethercat_cycles_witness :
  ∃ t, outputs (snd (run ex_env (ethercat_main 2) [])) = [6; 6] ∧
       wakeups (snd (run ex_env (ethercat_main 2) [])) = [mkTime t 0; mkTime t 1000000].
Proof.
  pose proof (ethercat_cycles ex_env 2 ltac:(done)) as H.
  assert (fst (run ex_env (ethercat_main 2) []) = None) as Hn by (vm_compute; reflexivity).
  destruct (run ex_env (ethercat_main 2) []) as [res h]. simpl in Hn. subst res. simpl in *.
  destruct H as (t & Ho & Hw). exists t. unfold wakeup_at in Hw.
  rewrite Ho, Hw. split; [vm_compute; reflexivity|].
  change ((Z.of_nat 1 + 0) / 1000) with ((Z.of_nat 0 + 0) / 1000).
  change ((Z.of_nat 0 + 0) / 1000) with 0. by rewrite Z.add_0_r.
Defined.
