(* ===== verification/Babeltrace.v ===== *)
(** The trace readers [src/third_party_examples/libbabeltrace2_examples/read_trace_file.cpp]
    and [read_lttng_live.cpp].

    libbabeltrace2 is the environment: [bt_call] lists the calls, [bt_ret] their
    answers.  What matters of it is the ownership of references: some calls give the
    caller a new reference ([acquired]), the [put_ref] functions give one back
    ([released]).  The callback [relay_consume] runs inside [bt_graph_run_once].
    The [goto error] paths of the sources are the failure branches here.

    The two files share most of their text: the common functions are modelled once,
    in [ReadTraceFile], and [ReadLttngLive] has what differs.

    The theorems: reading a trace file releases every reference exactly once and
    none it does not hold, on every path on which the plugins are found and the message
    iterator does not say "try again"; if a plugin
    is not found an uninitialised pointer is released; the live reader leaks one
    array per graph, and if the message iterator says "try again" it handles and
    releases the previous messages a second time. *)
From S2P Require Import Prelude Text.
Local Open Scope Z_scope.

(** ** The library *)

(** Reference-counted objects. *)
Inductive obj := OValue (id : Z) | OPlugin (id : Z) | OGraph (id : Z) | OMsg (id : Z).

#[global] Instance obj_eq_dec : EqDecision obj.
Proof. solve_decision. Defined.

(** The values of the status enumerations. *)
Definition STATUS_OK : Z := 0.
Definition STATUS_END : Z := 1.
Definition STATUS_AGAIN : Z := 11.
Definition STATUS_ERROR : Z := -1.
Definition STATUS_MEMORY_ERROR : Z := -12.

(** A field of an event's payload: its name and, if it is a string, its value. *)
Definition field : Type := text * option text.

Inductive bt_call :=
| MapCreate | ArrayCreate
| MapInsertEmptyArray (map : Z) (key : string)
| MapInsertEntry (map : Z) (key : string) (v : option Z)
| MapInsertString (map : Z) (key v : string)
| ArrayAppendString (array : option Z) (v : text)
| PluginFind (name : string)
| BorrowClass (plugin : Z) (name : string)
| GraphCreate
| AddSource (graph cls : Z) (name : string) (params : Z)
| AddFilter (graph cls : Z) (name : string)
| AddSimpleSink (graph : Z) (name : string)
| OutputPortCount (comp : Z)
| ConnectPorts (graph : Z) (out_comp out_port in_comp in_port : Z)
| IteratorNext
| RunOnce
| RunOnceStatus (consumed : Z)
| MessageIsEvent (msg : Z) | EventName (msg : Z) | PayloadFields (msg : Z)
| Print (t : text)   (* to the standard output *)
| PutRef (o : option obj).

(** Calls that make an object give [None] for NULL; calls that fill an output
    argument give the status and the output. *)
Definition bt_ret (c : bt_call) : Type :=
  match c with
  | MapCreate | ArrayCreate | BorrowClass _ _ | GraphCreate => option Z
  | MapInsertEmptyArray _ _ => Z * option Z
  | PluginFind _ => Z * Z
  | MapInsertEntry _ _ _ | MapInsertString _ _ _ | ArrayAppendString _ _ => Z
  | AddSource _ _ _ _ | AddFilter _ _ _ | AddSimpleSink _ _ => Z * Z
  | OutputPortCount _ => Z
  | ConnectPorts _ _ _ _ _ => Z
  | IteratorNext => Z * list Z
  | RunOnce => option Z
  | RunOnceStatus _ => Z
  | MessageIsEvent _ => bool
  | EventName _ => text
  | PayloadFields _ => list field
  | Print _ | PutRef _ => unit
  end.

(** Programs that may also stop with an exception or undefined behaviour. *)
Definition BT (A : Type) : Type := prog bt_ret (outcome A).

#[global] Instance BT_ret : MRet BT := λ A a, Ret (Ok a).
#[global] Instance BT_bind : MBind BT := λ A B f p,
  prog_bind p (λ o, match o with Ok a => f a | Throw e => Ret (Throw e) | UB w => Ret (UB w) end).

Definition bt (c : bt_call) : BT (bt_ret c) := Call c (λ r, Ret (Ok r)).
Definition undefined {A} (why : string) : BT A := Ret (UB why).
Definition newline : text := ["010"%char].
Definition puts (t : string) : BT unit := bt (Print (txt t ++ newline)).

(** [put_ref] of a pointer variable that may be uninitialised. *)
Inductive pointer_var := Uninitialised | Pointer (o : option obj).
Definition put_ref (v : pointer_var) : BT unit :=
  match v with
  | Uninitialised => undefined "use of an uninitialised pointer"
  | Pointer o => bt (PutRef o)
  end.

Module ReadTraceFile.

(* @src third_party_examples/libbabeltrace2_examples/read_trace_file.cpp 13-16 relay_data *)
(** The messages of the array; its length is [msg_count]. *)
Definition relay_data : Type := list Z.

(* @src third_party_examples/libbabeltrace2_examples/read_trace_file.cpp 24-51 relay_consume *)
(** The status and the new contents of [relay_data]: a failing
    [bt_message_iterator_next] leaves it as it was. *)
Definition relay_consume (rd : relay_data) : BT (Z * relay_data) :=
  '(next_status, msgs) ← bt IteratorNext;
  let rd := if next_status =? STATUS_OK then msgs else rd in
  let status :=
    if next_status =? STATUS_END then STATUS_END
    else if next_status =? STATUS_MEMORY_ERROR then STATUS_MEMORY_ERROR
    else if next_status =? STATUS_ERROR then STATUS_ERROR
    else STATUS_OK in
  mret (status, rd).

(* @src third_party_examples/libbabeltrace2_examples/read_trace_file.cpp 61-66 add_relay_comp *)
Definition add_relay_comp (graph : Z) : BT (Z * Z) := bt (AddSimpleSink graph "relay").

(* @src third_party_examples/libbabeltrace2_examples/read_trace_file.cpp 74-110 create_ctf_fs_comp_params *)
Definition create_ctf_fs_comp_params (trace_dir : text) : BT (option Z) :=
  let error (params : option Z) : BT (option Z) :=
    _ ← put_ref (Pointer (OValue <$> params)); mret None in
  params ← bt MapCreate;
  match params with
  | None => error None
  | Some p =>
      '(insert_entry_status, inputs) ← bt (MapInsertEmptyArray p "inputs");
      if negb (insert_entry_status =? STATUS_OK) then error params else
      append_elem_status ← bt (ArrayAppendString inputs trace_dir);
      if negb (append_elem_status =? STATUS_OK) then error params else
      mret params
  end.

(** The end of the functions that add a component: both references are released. *)
Definition put_plugin_and_params (plugin : pointer_var) (params : option Z) (res : Z * Z) : BT (Z * Z) :=
  _ ← put_ref plugin; _ ← put_ref (Pointer (OValue <$> params)); mret res.

(** [add_ctf_fs_comp] of the one file and [add_ctf_lttng_live_comp] of the other
    differ in the name of the component class and in the parameters. *)
Definition add_ctf_comp (cls not_found no_params : string) (create_params : BT (option Z))
    (graph : Z) : BT (Z * Z) :=
  let error (plugin : pointer_var) (params : option Z) : BT (Z * Z) :=
    put_plugin_and_params plugin params (STATUS_ERROR, 0) in
  '(plugin_find_status, plugin) ← bt (PluginFind "ctf");
  if negb (plugin_find_status =? STATUS_OK) then
    _ ← puts "Failed to find 'ctf' plugin."; error Uninitialised None
  else
  let plugin_var := Pointer (Some (OPlugin plugin)) in
  comp_cls ← bt (BorrowClass plugin cls);
  match comp_cls with
  | None => _ ← puts not_found; error plugin_var None
  | Some comp_cls =>
      params ← create_params;
      match params with
      | None => _ ← puts no_params; error plugin_var None
      | Some p =>
          res ← bt (AddSource graph comp_cls "ctf" p);
          put_plugin_and_params plugin_var params res
      end
  end.

(* @src third_party_examples/libbabeltrace2_examples/read_trace_file.cpp 120-162 add_ctf_fs_comp *)
Definition add_ctf_fs_comp (graph : Z) (trace_dir : text) : BT (Z * Z) :=
  add_ctf_comp "fs" "Failed to find component 'fs' in 'ctf' plugin."
    "Failed to create ctf.fs parameters" (create_ctf_fs_comp_params trace_dir) graph.

(* @src third_party_examples/libbabeltrace2_examples/read_trace_file.cpp 172-203 add_muxer_comp *)
Definition add_muxer_comp (graph : Z) : BT (Z * Z) :=
  '(plugin_find_status, plugin) ← bt (PluginFind "utils");
  if negb (plugin_find_status =? STATUS_OK) then
    _ ← put_ref Uninitialised; mret (STATUS_ERROR, 0)
  else
  comp_cls ← bt (BorrowClass plugin "muxer");
  match comp_cls with
  | None => _ ← put_ref (Pointer (Some (OPlugin plugin))); mret (STATUS_ERROR, 0)
  | Some comp_cls =>
      res ← bt (AddFilter graph comp_cls "muxer");
      _ ← put_ref (Pointer (Some (OPlugin plugin))); mret res
  end.

(* @src third_party_examples/libbabeltrace2_examples/read_trace_file.cpp 274-286 create_graph *)
(** The loop that connects the ports [i], [i + 1], ...; the number of ports is asked
    in every iteration, [fuel] bounds them.  [Some b]: whether all were connected. *)
Fixpoint connect_outputs (fuel : nat) (graph ctf_comp muxer_comp i : Z) : BT (option bool) :=
  match fuel with
  | O => mret None
  | S fuel =>
      n ← bt (OutputPortCount ctf_comp);
      if i <? n then
        status ← bt (ConnectPorts graph ctf_comp i muxer_comp i);
        if negb (status =? STATUS_OK) then mret (Some false)
        else connect_outputs fuel graph ctf_comp muxer_comp (i + 1)
      else mret (Some true)
  end.

(* @src third_party_examples/libbabeltrace2_examples/read_trace_file.cpp 298-302 create_graph *)
(** The labels [error] and [end]. *)
Definition graph_error (graph : option Z) : BT (option (option Z)) :=
  _ ← put_ref (Pointer (OGraph <$> graph)); mret (Some None).

(** [create_graph] of both files, with the function that adds the source. *)
Definition create_graph_with (fuel : nat) (add_source : Z → BT (Z * Z)) (source : string)
    : BT (option (option Z)) :=
  graph ← bt GraphCreate;
  match graph with
  | None => _ ← puts "Failed to create an empty trace processing graph."; graph_error None
  | Some g =>
      '(status, muxer_comp) ← add_muxer_comp g;
      if negb (status =? STATUS_OK) then
        _ ← puts "Failed to add component 'muxer'."; graph_error graph
      else
      '(status, relay_comp) ← add_relay_comp g;
      if negb (status =? STATUS_OK) then
        _ ← puts "Failed to add component 'relay'."; graph_error graph
      else
      '(status, ctf_comp) ← add_source g;
      if negb (status =? STATUS_OK) then
        _ ← bt (Print (txt "Failed to add component '" ++ txt source ++
                      txt "'. Returned status: " ++ to_text status ++ newline));
        graph_error graph
      else
      connected ← connect_outputs fuel g ctf_comp muxer_comp 0;
      match connected with
      | None => mret None
      | Some false => graph_error graph
      | Some true =>
          status ← bt (ConnectPorts g muxer_comp 0 relay_comp 0);
          if negb (status =? STATUS_OK) then graph_error graph else mret (Some graph)
      end
  end.

(* @src third_party_examples/libbabeltrace2_examples/read_trace_file.cpp 230-303 create_graph *)
(** [None] is running out of fuel, [Some None] the returned NULL. *)
Definition create_graph (fuel : nat) (trace_dir : text) : BT (option (option Z)) :=
  create_graph_with fuel (λ graph, add_ctf_fs_comp graph trace_dir) "ctf_fs".

(* @src third_party_examples/libbabeltrace2_examples/read_trace_file.cpp 311-323 handle_msg *)
Definition handle_msg (msg : Z) : BT unit :=
  event ← bt (MessageIsEvent msg);
  if negb event then mret tt else
  n ← bt (EventName msg);
  bt (Print (n ++ newline)).

(* @src third_party_examples/libbabeltrace2_examples/read_trace_file.cpp 352-362 run_graph *)
Fixpoint handle_msgs (handle : Z → BT unit) (msgs : list Z) : BT unit :=
  match msgs with
  | [] => mret tt
  | msg :: msgs =>
      _ ← handle msg;
      _ ← put_ref (Pointer (Some (OMsg msg)));
      handle_msgs handle msgs
  end.

(** [bt_graph_run_once]: the library stops with a status of its own, or it runs the callback
    and derives its status from that of the callback. *)
Definition run_once (rd : relay_data) : BT (Z * relay_data) :=
  stopped ← bt RunOnce;
  match stopped with
  | Some status => mret (status, rd)
  | None =>
      '(consumed, rd) ← relay_consume rd;
      status ← bt (RunOnceStatus consumed);
      mret (status, rd)
  end.

(* @src third_party_examples/libbabeltrace2_examples/read_trace_file.cpp 331-366 run_graph *)
(** [handle] is [handle_msg]; [None] is that the loop still runs after [fuel]
    iterations.  A failed [assert] aborts. *)
Fixpoint run_graph (handle : Z → BT unit) (fuel : nat) (rd : relay_data) : BT (option Z) :=
  match fuel with
  | O => mret None
  | S fuel =>
      '(status, rd) ← run_once rd;
      if status =? STATUS_AGAIN then Ret (Throw "assertion failed") else
      if negb (status =? STATUS_OK) then
        mret (Some (if status =? STATUS_END then 0 else -1))
      else
        _ ← handle_msgs handle rd;
        run_graph handle fuel rd
  end.

(** [main] of both files, with the functions they call; the argument has been checked. *)
Definition main_with (create : BT (option (option Z))) (handle : Z → BT unit) (fuel : nat)
    : BT (option Z) :=
  graph ← create;
  match graph with
  | None => mret None
  | Some None =>
      _ ← puts "No graph can be created. Exiting...";
      _ ← put_ref (Pointer None);
      mret (Some 1)
  | Some (Some g) =>
      r ← run_graph handle fuel [];
      match r with
      | None => mret None
      | Some r =>
          _ ← put_ref (Pointer (Some (OGraph g)));
          mret (Some (if r =? 0 then 0 else 1))
      end
  end.

(* @src third_party_examples/libbabeltrace2_examples/read_trace_file.cpp 372-395 main *)
(** [argv] without the program's name: [assert(argc == 2)]. *)
Definition main (ports fuel : nat) (argv : list text) : BT (option Z) :=
  match argv with
  | [trace_dir] => main_with (create_graph ports trace_dir) handle_msg fuel
  | _ => Ret (Throw "assertion failed")
  end.
End ReadTraceFile.

Module ReadLttngLive.
Import ReadTraceFile.

(* @src third_party_examples/libbabeltrace2_examples/read_lttng_live.cpp 10-19 CheckBtError *)
Definition CheckBtError (status : Z) : BT unit :=
  if status =? STATUS_OK then mret tt
  else if status =? STATUS_MEMORY_ERROR then Ret (Throw "std::bad_alloc")
  else Ret (Throw "std::terminate").

(* @src third_party_examples/libbabeltrace2_examples/read_lttng_live.cpp 36-63 relay_consume *)
(** The same text as in [read_trace_file.cpp]. *)
Definition live_relay_consume : relay_data → BT (Z * relay_data) := relay_consume.
(* @src third_party_examples/libbabeltrace2_examples/read_lttng_live.cpp 73-78 add_relay_comp *)
Definition live_add_relay_comp : Z → BT (Z * Z) := add_relay_comp.
(* @src third_party_examples/libbabeltrace2_examples/read_lttng_live.cpp 169-200 add_muxer_comp *)
Definition live_add_muxer_comp : Z → BT (Z * Z) := add_muxer_comp.

(* @src third_party_examples/libbabeltrace2_examples/read_lttng_live.cpp 86-106 create_ctf_lttng_live_comp_params *)
Definition create_ctf_lttng_live_comp_params (listening_url : text) : BT (option Z) :=
  url_array ← bt ArrayCreate;
  params ← bt MapCreate;
  match params with
  | None =>
      _ ← put_ref (Pointer None);
      _ ← put_ref (Pointer (OValue <$> url_array));
      mret None
  | Some p =>
      s ← bt (MapInsertEntry p "inputs" url_array);
      _ ← CheckBtError s;
      s ← bt (MapInsertString p "session-not-found-action" "continue");
      _ ← CheckBtError s;
      s ← bt (ArrayAppendString url_array listening_url);
      _ ← CheckBtError s;
      mret params
  end.

(* @src third_party_examples/libbabeltrace2_examples/read_lttng_live.cpp 116-159 add_ctf_lttng_live_comp *)
Definition add_ctf_lttng_live_comp (graph : Z) (listening_url : text) : BT (Z * Z) :=
  add_ctf_comp "lttng-live" "Failed to find component 'lttng-live' in 'ctf' plugin."
    "Failed to create ctf.lttng-live parameters"
    (create_ctf_lttng_live_comp_params listening_url) graph.

(* @src third_party_examples/libbabeltrace2_examples/read_lttng_live.cpp 227-301 create_graph *)
Definition live_create_graph (fuel : nat) (trace_dir : text) : BT (option (option Z)) :=
  create_graph_with fuel (λ graph, add_ctf_lttng_live_comp graph trace_dir) "ctf_lttng_live".

(* @src third_party_examples/libbabeltrace2_examples/read_lttng_live.cpp 322-338 handle_msg *)
(** The string members of the payload. *)
Fixpoint print_fields (fields : list field) : BT unit :=
  match fields with
  | [] => mret tt
  | (structFieldName, Some val) :: fields =>
      _ ← bt (Print (structFieldName ++ txt ": " ++ val ++ newline));
      print_fields fields
  | (_, None) :: fields => print_fields fields
  end.

(* @src third_party_examples/libbabeltrace2_examples/read_lttng_live.cpp 309-339 handle_msg *)
Definition live_handle_msg (msg : Z) : BT unit :=
  event ← bt (MessageIsEvent msg);
  if negb event then mret tt else
  n ← bt (EventName msg);
  _ ← bt (Print (txt "[" ++ n ++ txt "] "));
  fields ← bt (PayloadFields msg);
  print_fields fields.

(* @src third_party_examples/libbabeltrace2_examples/read_lttng_live.cpp 347-382 run_graph *)
Definition live_run_graph : nat → relay_data → BT (option Z) := run_graph live_handle_msg.

(* @src third_party_examples/libbabeltrace2_examples/read_lttng_live.cpp 388-411 main *)
Definition live_main (ports fuel : nat) (argv : list text) : BT (option Z) :=
  match argv with
  | [url] => main_with (live_create_graph ports url) live_handle_msg fuel
  | _ => Ret (Throw "assertion failed")
  end.
End ReadLttngLive.

(** ** Ownership of references *)

(** The references a call gives to the program, the reference it takes back. *)
Definition acq (e : sigT bt_ret) : list obj :=
  let 'existT c r := e in
  (match c return bt_ret c → list obj with
   | MapCreate | ArrayCreate => λ r, OValue <$> option_list r
   | PluginFind _ => λ r, if fst r =? STATUS_OK then [OPlugin (snd r)] else []
   | GraphCreate => λ r, OGraph <$> option_list r
   | IteratorNext => λ r, if fst r =? STATUS_OK then OMsg <$> snd r else []
   | _ => λ _, []
   end) r.
Definition rel (e : sigT bt_ret) : list obj :=
  match projT1 e with PutRef o => option_list o | _ => [] end.

Definition acquired (h : history bt_ret) : list obj := h ≫= acq.
Definition released (h : history bt_ret) : list obj := h ≫= rel.

(** The program holds the references [os] after [h], and at no time has it released
    a reference that it did not hold. *)
Definition holds (h : history bt_ret) (os : list obj) : Prop :=
  acquired h ≡ₚ released h ++ os ∧
  ∀ h1 h2, h = h1 ++ h2 → released h1 ⊆+ acquired h1.

Lemma holds_nil : holds [] [].
Proof. split; [done|]. intros h1 h2 Hh. symmetry in Hh. apply app_eq_nil in Hh as [-> _]. done. Qed.

Lemma holds_perm h os os' : os ≡ₚ os' → holds h os → holds h os'.
Proof. intros Hp [Ho Hs]. split; [by rewrite <- Hp|done]. Qed.

Lemma holds_snoc h os e os' :
  acquired h ++ acq e ≡ₚ (released h ++ rel e) ++ os' → holds h os → holds (h ++ [e]) os'.
Proof.
  intros Hp [Ho Hs].
  assert (acquired (h ++ [e]) = acquired h ++ acq e ∧ released (h ++ [e]) = released h ++ rel e)
    as [Ha Hr].
  { unfold acquired, released. rewrite !bind_app. simpl. by rewrite !app_nil_r. }
  split; [by rewrite Ha, Hr|].
  intros h1 h2 Hh. destruct (decide (h2 = [])) as [->|Hn].
  - rewrite app_nil_r in Hh. subst h1. rewrite Ha, Hr, Hp. by apply submseteq_inserts_r.
  - destruct (exists_last Hn) as (h3 & e' & ->). rewrite app_assoc in Hh.
    apply app_inj_tail in Hh as [Hh _]. by apply (Hs h1 h3).
Qed.

(** Calls in general, and giving back a reference. *)
Lemma holds_call h os c r :
  rel (existT c r) = [] → holds h os → holds (h ++ [existT c r]) (acq (existT c r) ++ os).
Proof.
  intros Hr Hh. apply holds_snoc with (2 := Hh). rewrite Hr, app_nil_r.
  destruct Hh as [-> _]. rewrite <- !app_assoc. f_equiv. apply Permutation_app_comm.
Qed.

Lemma holds_put h o os r : holds h (o :: os) → holds (h ++ [existT (PutRef (Some o)) r]) os.
Proof.
  intros Hh. apply holds_snoc with (2 := Hh). destruct Hh as [-> _]. simpl.
  rewrite app_nil_r, <- app_assoc. done.
Qed.

(** ** The specifications of the functions *)
Section specs.
Context (ports : Z).

(** What the documentation promises and the theorems assume: the plugins are found,
    the source has at most [ports] ports, the file's message iterator never asks to
    try again, and running the graph is successful exactly when it runs the sink and the
    sink is; otherwise it may have any other status. *)
Definition lib_ok (c : bt_call) : bt_ret c → Prop :=
  match c with
  | PluginFind _ => λ r, fst r = STATUS_OK
  | OutputPortCount _ => λ r, r ≤ ports
  | IteratorNext => λ r, fst r ∈ [STATUS_OK; STATUS_END; STATUS_ERROR; STATUS_MEMORY_ERROR]
  | RunOnce => λ r, r ≠ Some STATUS_OK
  | RunOnceStatus consumed => λ r, r = STATUS_OK ↔ consumed = STATUS_OK
  | _ => λ _, True
  end.

(** The program was aborted by an assertion, and has released nothing that it did not hold. *)
Definition aborted (e : string) (h : history bt_ret) : Prop :=
  e = "assertion failed"%string ∧ ∃ os, holds h os.

(** [p] returns normally, with a result and a history that satisfy [Q], or is aborted. *)
Definition btwp {A} (p : BT A) (Q : A → history bt_ret → Prop) (h : history bt_ret) : Prop :=
  always lib_ok p (λ o h', match o with Ok a => Q a h' | Throw e => aborted e h' | UB _ => False end) h.

Lemma btwp_bind {A B} (p : BT A) (f : A → BT B) Q h :
  btwp p (λ a, btwp (f a) Q) h → btwp (p ≫= f) Q h.
Proof.
  unfold btwp. intros Hp. apply always_bind. eapply always_mono; [|exact Hp].
  by intros [a| |] h'.
Qed.

Lemma btwp_ret {A} (a : A) Q h : Q a h → btwp (mret a) Q h.
Proof. done. Qed.

Lemma btwp_mono {A} (p : BT A) (Q Q' : A → history bt_ret → Prop) h :
  (∀ a h', Q a h' → Q' a h') → btwp p Q h → btwp p Q' h.
Proof. intros HQ. apply always_mono. intros [a| |] h'; auto. Qed.

Lemma btwp_call c Q h os :
  holds h os → (∀ r, rel (existT c r) = []) →
  (∀ r h', lib_ok c r → holds h' (acq (existT c r) ++ os) → Q r h') → btwp (bt c) Q h.
Proof. intros Hh Hr HQ r Hok. apply HQ; [done|]. by apply holds_call. Qed.

Lemma btwp_put o Q h os :
  holds h (option_list o ++ os) → (∀ h', holds h' os → Q tt h') → btwp (put_ref (Pointer o)) Q h.
Proof.
  intros Hh HQ [] _. apply HQ. destruct o as [o|]; [by apply holds_put|].
  by apply (holds_call h os (PutRef None) tt).
Qed.
End specs.

(** A call whose answer is [r], the references being [Hh'] afterwards. *)
Ltac bcall r h' Hok Hh' :=
  eapply btwp_call; [eassumption|done|]; intros r h' Hok Hh'; cbn [acq lib_ok app] in Hok, Hh'.
(** A call whose answer does not matter. *)
Ltac bskip := let r := fresh in let h' := fresh "h" in let Hok := fresh in let Hh := fresh "Hh" in
  bcall r h' Hok Hh.
Ltac bput := eapply btwp_put; [simpl; eassumption|]; let h' := fresh "h" in let Hh := fresh "Hh" in
  intros h' Hh.

Import ReadTraceFile.

Section reader.
Context (ports : Z).
Implicit Types (h : history bt_ret) (os : list obj).

Lemma params_spec dir h os :
  holds h os →
  btwp ports (create_ctf_fs_comp_params dir) (λ r h', holds h' (option_list (OValue <$> r) ++ os)) h.
Proof.
  intros Hh. unfold create_ctf_fs_comp_params. apply btwp_bind. bcall p h1 Hok Hh1.
  destruct p as [p|]; simpl in Hh1.
  - apply btwp_bind. bcall r h2 Hok2 Hh2. destruct r as [st inputs].
    destruct (negb (st =? STATUS_OK)).
    { apply btwp_bind. bput. by apply btwp_ret. }
    apply btwp_bind. bcall st2 h3 Hok3 Hh3. destruct (negb (st2 =? STATUS_OK)).
    { apply btwp_bind. bput. by apply btwp_ret. }
    by apply btwp_ret.
  - apply btwp_bind. bput. by apply btwp_ret.
Qed.

Lemma put_plugin_and_params_spec plugin params res h os :
  holds h (option_list (OValue <$> params) ++ OPlugin plugin :: os) →
  btwp ports (put_plugin_and_params (Pointer (Some (OPlugin plugin))) params res) (λ _ h', holds h' os) h.
Proof.
  intros Hh. unfold put_plugin_and_params. apply btwp_bind.
  apply (btwp_put ports _ _ h (option_list (OValue <$> params) ++ os)).
  { eapply holds_perm; [|exact Hh]. symmetry. simpl. apply Permutation_middle. }
  intros h1 Hh1. apply btwp_bind. bput. by apply btwp_ret.
Qed.

Lemma add_ctf_comp_spec cls e1 e2 create graph h os :
  (∀ h os, holds h os →
     btwp ports create (λ r h', holds h' (option_list (OValue <$> r) ++ os)) h) →
  holds h os →
  btwp ports (add_ctf_comp cls e1 e2 create graph) (λ _ h', holds h' os) h.
Proof.
  intros Hc Hh. unfold add_ctf_comp. apply btwp_bind. bcall r h1 Hok Hh1.
  destruct r as [st plugin]. simpl in Hok, Hh1. subst st. simpl in *.
  apply btwp_bind. bcall cl h2 Hok2 Hh2. destruct cl as [cl|].
  - apply btwp_bind. eapply btwp_mono; [|by apply Hc]. intros [p|] h3 Hh3; simpl in Hh3.
    + apply btwp_bind. bskip. by apply (put_plugin_and_params_spec plugin (Some p)).
    + apply btwp_bind. bskip. by apply (put_plugin_and_params_spec plugin None).
  - apply btwp_bind. bskip. by apply (put_plugin_and_params_spec plugin None).
Qed.

Lemma add_muxer_comp_spec graph h os :
  holds h os → btwp ports (add_muxer_comp graph) (λ _ h', holds h' os) h.
Proof.
  intros Hh. unfold add_muxer_comp. apply btwp_bind. bcall r h1 Hok Hh1.
  destruct r as [st plugin]. simpl in Hok, Hh1. subst st. simpl in *.
  apply btwp_bind. bcall cl h2 Hok2 Hh2. destruct cl as [cl|].
  - apply btwp_bind. bskip. apply btwp_bind.
    eapply (btwp_put ports (Some (OPlugin plugin))); [simpl; eassumption|]. intros. by apply btwp_ret.
  - apply btwp_bind.
    eapply (btwp_put ports (Some (OPlugin plugin))); [simpl; eassumption|]. intros. by apply btwp_ret.
Qed.

(** With one unit of fuel more than ports the loop always ends. *)
Lemma connect_outputs_spec fuel graph ctf muxer i h os :
  holds h os → 0 ≤ i → i ≤ Z.max 0 ports → Z.max 0 ports < i + Z.of_nat fuel →
  btwp ports (connect_outputs fuel graph ctf muxer i) (λ r h', r ≠ None ∧ holds h' os) h.
Proof.
  revert i h. induction fuel as [|fuel IH]; intros i h Hh Hi Hp Hf; [lia|].
  cbn [connect_outputs]. apply btwp_bind. bcall n h1 Hok Hh1.
  destruct (Z.ltb_spec i n) as [Hlt|Hge]; [|by apply btwp_ret].
  apply btwp_bind. bcall st h2 Hok2 Hh2. destruct (negb _); [by apply btwp_ret|].
  apply IH; [done|lia|lia|lia].
Qed.

Definition graph_result (os : list obj) (r : option (option Z)) (h' : history bt_ret) : Prop :=
  ∃ g, r = Some g ∧ holds h' (option_list (OGraph <$> g) ++ os).

Lemma graph_error_spec graph h os :
  holds h (option_list (OGraph <$> graph) ++ os) → btwp ports (graph_error graph) (graph_result os) h.
Proof.
  intros Hh. unfold graph_error. apply btwp_bind. bput. apply btwp_ret. by exists None.
Qed.

Lemma create_graph_with_spec fuel add source h os :
  (∀ g h os, holds h os → btwp ports (add g) (λ _ h', holds h' os) h) →
  Z.max 0 ports < Z.of_nat fuel → holds h os →
  btwp ports (create_graph_with fuel add source) (graph_result os) h.
Proof.
  intros Hadd Hf Hh. unfold create_graph_with. apply btwp_bind. bcall gr h1 Hok1 Hh1.
  destruct gr as [g|]; simpl in Hh1.
  2:{ apply btwp_bind. bskip. by apply (graph_error_spec None). }
  apply btwp_bind. eapply btwp_mono; [|by apply add_muxer_comp_spec]. intros [st muxer] h2 Hh2.
  destruct (negb (st =? STATUS_OK)).
  { apply btwp_bind. bskip. by apply (graph_error_spec (Some g)). }
  apply btwp_bind. bcall r h3 Hok3 Hh3. destruct r as [st2 relay].
  destruct (negb (st2 =? STATUS_OK)).
  { apply btwp_bind. bskip. by apply (graph_error_spec (Some g)). }
  apply btwp_bind. eapply btwp_mono; [|by apply Hadd]. intros [st3 ctf] h4 Hh4.
  destruct (negb (st3 =? STATUS_OK)).
  { apply btwp_bind. bskip. by apply (graph_error_spec (Some g)). }
  apply btwp_bind. eapply btwp_mono; [|apply connect_outputs_spec; [eassumption|lia..]].
  intros [[]|] h5 [Hn Hh5]; [| |done].
  - apply btwp_bind. bcall st6 h6 Hok6 Hh6. destruct (negb _).
    + by apply (graph_error_spec (Some g)).
    + apply btwp_ret. by exists (Some g).
  - by apply (graph_error_spec (Some g)).
Qed.

Lemma handle_msg_spec msg h os :
  holds h os → btwp ports (handle_msg msg) (λ _ h', holds h' os) h.
Proof.
  intros Hh. unfold handle_msg. apply btwp_bind. bcall b h1 Hok Hh1.
  destruct (negb b); [by apply btwp_ret|]. apply btwp_bind. bskip. by bskip.
Qed.

Section handler.
Context (handle : Z → BT unit).
Context (Hhandle : ∀ msg h os, holds h os → btwp ports (handle msg) (λ _ h', holds h' os) h).

Lemma handle_msgs_spec msgs h os :
  holds h ((OMsg <$> msgs) ++ os) → btwp ports (handle_msgs handle msgs) (λ _ h', holds h' os) h.
Proof.
  revert h. induction msgs as [|msg msgs IH]; intros h Hh; cbn [handle_msgs]; [by apply btwp_ret|].
  apply btwp_bind. eapply btwp_mono; [|by apply Hhandle]. intros [] h1 Hh1. cbv beta.
  apply btwp_bind. eapply (btwp_put ports (Some (OMsg msg))); [exact Hh1|]. intros h2 Hh2.
  by apply IH.
Qed.

Lemma run_graph_spec fuel rd h os :
  holds h os →
  btwp ports (run_graph handle fuel rd) (λ r h', r ∈ [None; Some 0; Some (-1)] ∧ holds h' os) h.
Proof.
  revert rd h. induction fuel as [|fuel IH]; intros rd h Hh; cbn [run_graph].
  { apply btwp_ret. split; [set_solver|done]. }
  assert (∀ status rd h, holds h os → status ≠ STATUS_OK →
    btwp ports (if status =? STATUS_AGAIN then Ret (Throw "assertion failed") else
      if negb (status =? STATUS_OK) then mret (Some (if status =? STATUS_END then 0 else -1))
      else _ ← handle_msgs handle rd; run_graph handle fuel rd)
      (λ r h', r ∈ [None; Some 0; Some (-1)] ∧ holds h' os) h) as Hstop.
  { intros status rd' h' Hh' Hst. destruct (status =? STATUS_AGAIN); [split; [done|by exists os]|].
    rewrite (proj2 (Z.eqb_neq status STATUS_OK)) by done. apply btwp_ret.
    split; [destruct (status =? STATUS_END); set_solver|done]. }
  apply btwp_bind. unfold run_once, relay_consume. apply btwp_bind.
  bcall r0 h0 Hok0 Hh0. destruct r0 as [status|]; [apply btwp_ret, Hstop; [done|congruence]|].
  apply btwp_bind, btwp_bind.
  bcall r h1 Hok1 Hh1. destruct r as [st msgs]. simpl in Hok1, Hh1.
  apply btwp_ret, btwp_bind. bcall st2 h2 Hok2 Hh2. apply btwp_ret. cbv beta iota.
  rewrite !elem_of_cons in Hok1. destruct Hok1 as [->|[->|[->|[->|Hok1]]]];
    [|apply Hstop; [done|by intros E%Hok2]..|by apply not_elem_of_nil in Hok1].
  rewrite (proj2 Hok2 eq_refl). simpl in Hh2. cbn [Z.eqb negb STATUS_OK STATUS_AGAIN].
  apply btwp_bind. eapply btwp_mono; [|by apply handle_msgs_spec].
  intros [] h3 Hh3. cbv beta. by apply IH.
Qed.

Lemma main_with_spec create fuel h :
  btwp ports create (graph_result []) h →
  btwp ports (main_with create handle fuel) (λ r h',
    match r with
    | Some ret => (ret = 0 ∨ ret = 1) ∧ holds h' []
    | None => ∃ g, holds h' [OGraph g]
    end) h.
Proof.
  intros Hc. unfold main_with. apply btwp_bind. eapply btwp_mono; [|exact Hc].
  intros r h1 (g & -> & Hh1). destruct g as [g|]; simpl in Hh1.
  - apply btwp_bind. eapply btwp_mono; [|by apply run_graph_spec].
    intros [r|] h2 [Hr Hh2]; [|apply btwp_ret; eauto].
    apply btwp_bind. eapply (btwp_put ports (Some (OGraph g))); [exact Hh2|]. intros h3 Hh3.
    apply btwp_ret. split; [|done]. destruct (r =? 0); auto.
  - apply btwp_bind. bskip. apply btwp_bind. eapply (btwp_put ports None _ _ []); [eassumption|].
    intros h3 Hh3. apply btwp_ret. auto.
Qed.
End handler.
End reader.

(** ** Properties *)

(** C18: reading a trace file, with any behaviour of the library in which the plugins are
    found, the source has at most [ports] ports, the message iterator has messages, is at the
    end or fails but never says "try again" (for the code then handles and releases the
    messages before a second time), and [bt_graph_run_once] is successful exactly when it
    runs the sink with success: at every moment the program has only released references it
    held, it never reaches undefined behaviour, and when it returns every reference that it
    was given has been released exactly once, with exit code 0 or 1; it is only aborted by
    the assertion that running the graph does not say "try again". *)
Theorem read_trace_file_references ports (env : environment bt_ret) dir fuel :
  (∀ h c, lib_ok (Z.of_nat ports) c (env h c)) →
  let '(res, h) := run env (main (S ports) fuel [dir]) [] in
  (∀ h1 h2, h = h1 ++ h2 → released h1 ⊆+ acquired h1) ∧
  match res with
  | Ok (Some ret) => (ret = 0 ∨ ret = 1) ∧ released h ≡ₚ acquired h
  | Ok None => ∃ g, acquired h ≡ₚ released h ++ [OGraph g]
  | Throw e => e = "assertion failed"%string
  | UB _ => False
  end.
Proof.
  intros Hok.
  assert (btwp (Z.of_nat ports) (create_graph (S ports) dir) (graph_result []) []) as Hc.
  { apply create_graph_with_spec; [|lia|apply holds_nil].
    intros g h os Hh. by apply add_ctf_comp_spec; [intros; apply params_spec|]. }
  pose proof (always_run (lib_ok (Z.of_nat ports)) env _ _ [] Hok
    (main_with_spec (Z.of_nat ports) handle_msg (handle_msg_spec (Z.of_nat ports)) _ fuel [] Hc)) as Hr.
  cbn [main]. destruct (run env _ []) as [res h]. simpl in Hr.
  destruct res as [[ret|]|e|]; [| | |done].
  - destruct Hr as (Hret & Ho & Hs). rewrite app_nil_r in Ho. by split_and!.
  - destruct Hr as (g & Ho & Hs). split; [done|]. by exists g.
  - by destruct Hr as (-> & os & _ & Hs).
Qed.

(** ** Library behaviours *)

(** A library that finds everything, with two batches of messages. *)
Definition ex_lib (plugins : bool) (next : list (Z * list Z)) : environment bt_ret := λ h c,
  match c with
  | MapCreate => Some 1 | ArrayCreate => Some 2 | BorrowClass _ _ => Some 3 | GraphCreate => Some 4
  | MapInsertEmptyArray _ _ => (0, Some 5)
  | PluginFind _ => if plugins then (0, 6) else (2, 0)
  | MapInsertEntry _ _ _ | MapInsertString _ _ _ | ArrayAppendString _ _ => 0
  | AddSource _ _ _ _ | AddFilter _ _ _ | AddSimpleSink _ _ => (0, 7)
  | OutputPortCount _ => 2
  | ConnectPorts _ _ _ _ _ => 0
  | IteratorNext =>
      nth (length (List.filter (λ e, match projT1 e with IteratorNext => true | _ => false end) h)) next
        (STATUS_END, [])
  | RunOnce => None
  | RunOnceStatus s => s
  | MessageIsEvent _ => true
  | EventName _ => txt "event"
  | PayloadFields _ => []
  | Print _ | PutRef _ => tt
  end.

(** If the [ctf] or [utils] plugin is not found, the program releases a plugin
    pointer that was never initialised: undefined behaviour. *)
Theorem plugin_not_found_UB ports fuel dir (env : environment bt_ret) :
  (∀ h name, fst (env h (PluginFind name)) ≠ STATUS_OK) → env [] GraphCreate ≠ None →
  fst (run env (main ports fuel [dir]) []) = UB "use of an uninitialised pointer".
Proof.
  intros Hp Hg. cbn [main]. unfold main_with, create_graph, create_graph_with.
  cbn [mbind BT_bind bt prog_bind run]. destruct (env [] GraphCreate) as [g|]; [|done].
  unfold add_muxer_comp. cbn [mbind BT_bind bt prog_bind run].
  destruct (env _ (PluginFind "utils")) as [st p] eqn:E. cbn [app] in E.
  specialize (Hp [existT GraphCreate (Some g)] "utils"%string). rewrite E in Hp. simpl in Hp.
  cbn [fst]. rewrite (proj2 (Z.eqb_neq st STATUS_OK)) by done. reflexivity.
Qed.

Import ReadLttngLive.

(** The live reader keeps a reference to the array of URLs for ever: with a
    library that does all it is asked, exactly this array is not released at the
    end. *)
Theorem lttng_live_leaks_array url :
  let '(res, h) := run (ex_lib true [(STATUS_OK, [10; 11]); (STATUS_OK, [12])]) (live_main 3 5 [url]) [] in
  res = Ok (Some 0) ∧ acquired h ≡ₚ released h ++ [OValue 2].
Proof.
  vm_compute run. split; [reflexivity|].
  apply (bool_decide_unpack _). vm_compute. exact I.
Qed.

(** When a live trace has no message at the moment, the message iterator says
    "try again"; [relay_consume] reports success for that, and the messages of the
    previous batch are handled and released a second time. *)
Theorem lttng_live_again_releases_twice url :
  let '(res, h) := run (ex_lib true [(STATUS_OK, [10]); (STATUS_AGAIN, [])]) (live_main 3 5 [url]) [] in
  res = Ok (Some 0) ∧
  List.filter (λ o, bool_decide (o = OMsg 10)) (acquired h) = [OMsg 10] ∧
  List.filter (λ o, bool_decide (o = OMsg 10)) (released h) = [OMsg 10; OMsg 10].
Proof. vm_compute. tauto. Qed.

(** ** Witnesses *)

Lemma read_trace_file_references_witness :
  let '(res, h) := run (ex_lib true [(STATUS_OK, [10; 11]); (STATUS_OK, [12])])
    (main 3 5 [txt "dir"]) [] in
  res = Ok (Some 0) ∧ released h ≡ₚ acquired h.
Proof.
  pose proof (read_trace_file_references 2 (ex_lib true [(STATUS_OK, [10; 11]); (STATUS_OK, [12])])
    (txt "dir") 5) as H.
  assert (fst (run (ex_lib true [(STATUS_OK, [10; 11]); (STATUS_OK, [12])]) (main 3 5 [txt "dir"]) [])
    = Ok (Some 0)) as Hf by (vm_compute; reflexivity).
  destruct (run _ (main 3 5 _) []) as [res h]. simpl in Hf. subst res. split; [done|].
  apply H. intros h' c. destruct c; try done.
  - simpl. destruct (length _) as [|[|[|]]]; simpl; set_solver.
Defined.

Lemma plugin_not_found_UB_witness :
  fst (run (ex_lib false []) (main 3 5 [txt "dir"]) []) = UB "use of an uninitialised pointer".
Proof. apply plugin_not_found_UB; done. Defined.
