(* ===== verification/UnixSocket.v ===== *)
(** The UNIX domain sockets of [src/utils/unix_domain_socket]: the classes of
    [unix_domain_socket.h] with the programs [client.cpp] and [server.cpp], and
    [socket_pair_example.cpp].

    Memory that a [char const*] points to is the text before the terminating null of
    its array; it may hold nulls itself, as in the path "\0hidden".

    The theorems: the socket address is built within its array and keeps a
    terminating null; the stream handler prints every chunk it reads and closes the
    descriptor exactly at the end of the stream; [send] throws only for an empty
    message, whatever [write] says; the two processes of the socket pair exchange
    their messages, and print an uninitialised buffer if the read fails. *)
From S2P Require Import Prelude Text Posix.
Local Open Scope Z_scope.

Definition nul : ascii := "000".

(** The part of a text before the first null. *)
Fixpoint until_nul (s : text) : text :=
  match s with
  | c :: s => if Ascii.eqb c nul then [] else c :: until_nul s
  | [] => []
  end.

(** The C string at offset [i] of an array; the array ends with a null after [mem]. *)
Definition cstring_at (mem : text) (i : nat) : outcome text :=
  if (length mem <? i)%nat then UB "read behind the end of a string" else Ok (until_nul (drop i mem)).

(** [strncpy(d, s, n)] for the [n] bytes of the destination. *)
Definition strncpy (s : text) (n : nat) : text := take n (s ++ replicate n nul).

(* @src utils/unix_domain_socket/unix_domain_socket.h 30-32 internal::throw_errno *)
Definition throw_errno {A} (s : string) : IO A :=
  e ← sys Strerror;
  io_throw (s +:+ String.string_of_list_ascii e).

(* @src utils/unix_domain_socket/unix_domain_socket.h 43-52 UnixDomainSocketClient::UnixDomainSocketClient *)
(** [addr.sun_path], an array of 108 bytes that was cleared before. *)
Definition sun_path (socket_path : text) : outcome text :=
  if bool_decide (head (socket_path ++ [nul]) = Some nul) then
    s ← cstring_at socket_path 1;
    Ok ([nul] ++ strncpy s 106 ++ [nul])
  else
    s ← cstring_at socket_path 0;
    Ok (strncpy s 107 ++ [nul]).

Definition io_outcome {A} (o : outcome A) : IO A := Ret o.

(* @src utils/unix_domain_socket/unix_domain_socket.h 37-60 UnixDomainSocketClient::UnixDomainSocketClient *)
(** The new object is its [file_descriptor_]. *)
Definition UnixDomainSocketClient (socket_path : text) : IO Z :=
  fd ← sys Socket;
  match fd with
  | None => throw_errno "socket error: "
  | Some fd =>
      addr ← io_outcome (sun_path socket_path);
      ok ← sys (Connect fd addr);
      if (ok : bool) then mret fd else throw_errno "connect error: "
  end.

(* @src utils/unix_domain_socket/unix_domain_socket.h 62-72 UnixDomainSocketClient::send *)
Definition send (file_descriptor_ : Z) (buf : text) : IO unit :=
  let n := Z.of_nat (length buf) in
  r ← sys (Write file_descriptor_ buf);
  if default (-1) r =? n then mret tt
  else if 0 <? n then eprint (txt "partial write")
  else throw_errno "write error: ".

(* @src utils/unix_domain_socket/unix_domain_socket.h 80-108 UnixDomainSocketServer::UnixDomainSocketServer *)
Definition UnixDomainSocketServer (socket_path : text) : IO Z :=
  fd ← sys Socket;
  match fd with
  | None => throw_errno "socket error: "
  | Some fd =>
      addr ← io_outcome (sun_path socket_path);
      _ ← (if bool_decide (head (socket_path ++ [nul]) = Some nul) then mret tt
           else sys (Unlink socket_path));
      ok ← sys (Bind fd addr);
      if negb ok then throw_errno "bind error: " else
      ok ← sys (Listen fd 5);
      if negb ok then throw_errno "listen error: " else mret fd
  end.

(* @src utils/unix_domain_socket/unix_domain_socket.h 110-126 UnixDomainSocketServer::accept *)
(** [fuel] bounds the connections; the result is the descriptors whose threads were
    started. *)
Fixpoint accept (fuel : nat) (file_descriptor_ : Z) (threads : list Z) : IO (list Z) :=
  match fuel with
  | O => mret threads
  | S fuel =>
      socket_descriptor ← sys (Accept file_descriptor_);
      match socket_descriptor with
      | None => throw_errno "accept error: "
      | Some fd =>
          _ ← print (txt "Connected." ++ newline);
          accept fuel file_descriptor_ (threads ++ [fd])
      end
  end.

(** [%.*s] stops at a null. *)
Definition received_line (data : text) : text :=
  txt "Received " ++ to_text (Z.of_nat (length data)) ++ txt " bytes: " ++ until_nul data ++ newline.

(* @src utils/unix_domain_socket/unix_domain_socket.h 131-143 UnixDomainSocketServer::readStream *)
(** [None]: the stream is still open after [fuel] reads. *)
Fixpoint readStream (fuel : nat) (socket_descriptor : Z) : IO (option unit) :=
  match fuel with
  | O => mret None
  | S fuel =>
      r ← sys (Read socket_descriptor 100);
      match r with
      | None => throw_errno "read error: "
      | Some [] =>
          _ ← sys (Close socket_descriptor);
          _ ← print (txt "Disconnected." ++ newline);
          mret (Some tt)
      | Some buf =>
          _ ← print (received_line buf);
          readStream fuel socket_descriptor
      end
  end.

(** "\0hidden", or the first argument. *)
Definition path_of (args : list text) : text := default (nul :: txt "hidden") (head args).

(* @src utils/unix_domain_socket/client.cpp 5-23 main *)
(** [args] are the arguments after the program's name. *)
Definition uds_client_main (fuel : nat) (args : list text) : IO (option unit) :=
  client ← UnixDomainSocketClient (path_of args);
  _ ← print (txt "Connected to server." ++ newline ++ txt "Type here and press enter:" ++ newline);
  forever fuel (λ _ : unit, msg ← sys Getline; _ ← send client (until_nul msg); mret (inl tt)) tt.

(* @src utils/unix_domain_socket/server.cpp 5-19 main *)
Definition uds_server_main (fuel : nat) (args : list text) : IO (list Z) :=
  server ← UnixDomainSocketServer (path_of args);
  accept fuel server [].

Module SocketPair.
(* @src utils/unix_domain_socket/socket_pair_example.cpp 8-8 DATA1 *)
Definition DATA1 : text := txt "In Xanadu, did Kublai Khan . . .".
(* @src utils/unix_domain_socket/socket_pair_example.cpp 9-9 DATA2 *)
Definition DATA2 : text := txt "A stately pleasure dome decree . . .".

(** [printf("%s", buf)] for an uninitialised [buf] into which [data] was read. *)
Definition print_buf (data : option text) : outcome text :=
  match data with
  | Some d => if bool_decide (nul ∈ d) then Ok (until_nul d) else UB "uninitialised memory is printed"
  | None => UB "uninitialised memory is printed"
  end.

(* @src utils/unix_domain_socket/socket_pair_example.cpp 32-43 main *)
Definition parent (sockets : Z * Z) : IO Z :=
  _ ← sys (Close (fst sockets));
  data ← sys (Read (snd sockets) 1024);
  _ ← (match data with None => perror "reading stream message" | Some _ => mret tt end);
  s ← io_outcome (print_buf data);
  _ ← print (txt "parent writes --> " ++ s ++ newline);
  w ← sys (Write (snd sockets) (DATA2 ++ [nul]));
  _ ← (match w with None => perror "writing stream message" | Some _ => mret tt end);
  _ ← sys (Close (snd sockets));
  mret 0.

(* @src utils/unix_domain_socket/socket_pair_example.cpp 45-55 main *)
Definition child (sockets : Z * Z) : IO Z :=
  _ ← sys (Close (snd sockets));
  w ← sys (Write (fst sockets) (DATA1 ++ [nul]));
  _ ← (match w with None => perror "writing stream message" | Some _ => mret tt end);
  data ← sys (Read (fst sockets) 1024);
  _ ← (match data with None => perror "reading stream message" | Some _ => mret tt end);
  s ← io_outcome (print_buf data);
  _ ← print (txt "child receives --> " ++ s ++ newline);
  _ ← sys (Close (fst sockets));
  mret 0.

(* @src utils/unix_domain_socket/socket_pair_example.cpp 18-56 main *)
(** [fork] answers 0 in the child. *)
Definition main : IO Z :=
  sockets ← sys Socketpair;
  match sockets with
  | None => _ ← perror "opening stream socket pair"; mret 1
  | Some sockets =>
      pid ← sys Fork;
      match pid with
      | None => _ ← perror "fork"; mret 1
      | Some pid => if pid =? 0 then child sockets else parent sockets
      end
  end.
End SocketPair.

(** ** The address *)

Lemma strncpy_length s n : length (strncpy s n) = n.
Proof. unfold strncpy. rewrite length_take, length_app, length_replicate. lia. Qed.

Lemma until_nul_pad s r : nul ∉ s → until_nul (s ++ nul :: r) = s.
Proof.
  intros Hs. induction s as [|c s IH]; [done|]. rewrite not_elem_of_cons in Hs. destruct Hs as [Hc Hs].
  simpl. destruct (Ascii.eqb_spec c nul) as [->|]; [done|]. by rewrite IH.
Qed.

Lemma strncpy_fits s n : (length s ≤ n)%nat → strncpy s n = s ++ replicate (n - length s) nul.
Proof.
  intros Hl. unfold strncpy. rewrite take_app_ge by lia. f_equal.
  rewrite take_replicate. f_equal. lia.
Qed.

Lemma until_nul_strncpy s n :
  nul ∉ s → (length s ≤ n)%nat → until_nul (strncpy s n ++ [nul]) = s.
Proof.
  intros Hs Hl. rewrite strncpy_fits by done. rewrite <- app_assoc.
  change [nul] with (replicate 1 nul). rewrite <- replicate_add.
  replace (n - length s + 1)%nat with (S (n - length s)) by lia. by apply until_nul_pad.
Qed.

Lemma until_nul_none s : nul ∉ s → until_nul s = s.
Proof.
  intros Hs. induction s as [|c s IH]; [done|]. rewrite not_elem_of_cons in Hs. destruct Hs as [Hc Hs].
  simpl. destruct (Ascii.eqb_spec c nul) as [->|]; [done|]. by rewrite IH.
Qed.

(** The address.  Whatever the path, all 108 bytes are set and the last is a
    null, and only an empty path reads outside its string; a path of at most 107
    bytes is in the address unchanged, and an abstract name of at most 106 bytes
    after the leading null. *)
Theorem sun_path_address p :
  (p = [] ↔ is_ok (sun_path p) = false) ∧
  (∀ a, sun_path p = Ok a → length a = 108%nat ∧ last a = Some nul) ∧
  (p ≠ [] → nul ∉ p → (length p ≤ 107)%nat →
     ∃ a, sun_path p = Ok a ∧ until_nul a = p) ∧
  (∀ n, p = nul :: n → nul ∉ n → (length n ≤ 106)%nat →
     ∃ a, sun_path p = Ok (nul :: a) ∧ until_nul a = n).
Proof.
  unfold sun_path, cstring_at. split_and!.
  - destruct p as [|c p]; simpl; [done|]. case_bool_decide; done.
  - intros a. case_bool_decide as Hh.
    + destruct (_ <? _)%nat; [done|]. intros [= <-]. cbn [app]. split.
      * simpl. rewrite length_app, strncpy_length. done.
      * rewrite app_comm_cons. by rewrite last_snoc.
    + destruct (_ <? _)%nat; [done|]. intros [= <-]. split.
      * rewrite length_app, strncpy_length. done.
      * by rewrite last_snoc.
  - intros Hp Hn Hl. destruct p as [|c p]; [done|]. rewrite bool_decide_eq_false_2.
    2:{ simpl. intros [= ->]. apply Hn. by left. }
    eexists. split; [reflexivity|]. cbn [drop]. rewrite (until_nul_none (c :: p)) by done.
    by apply until_nul_strncpy.
  - intros n -> Hn Hl. rewrite bool_decide_eq_true_2 by done.
    exists (strncpy n 106 ++ [nul]). split; [|by apply until_nul_strncpy].
    change (Ok ([nul] ++ strncpy (until_nul n) 106 ++ [nul]) = Ok (nul :: strncpy n 106 ++ [nul])).
    by rewrite (until_nul_none n).
Qed.

(** ** Sending *)

(** Any answers. *)
Abbreviation io_always p Q E := (iowp (λ _ _, True) p Q E).

(** [send] hands the whole message to one [write]; it throws exactly for an
    empty message whose [write] fails, so the failure to write anything else is
    reported as a partial write and not as an error. *)
Theorem send_errors env fd msg h :
  let w := env h (Write fd msg) in
  let r := fst (run env (send fd msg) h) in
  let h' := snd (run env (send fd msg) h) in
  written h' = written h ++ [(fd, msg)] ∧
  (is_ok r = false ↔ msg = [] ∧ default (-1) w ≠ 0) ∧
  (default (-1) w = Z.of_nat (length msg) → r = Ok tt ∧ h' = h ++ [existT (Write fd msg) w]).
Proof.
  intros w r h'. subst r h'. unfold send. cbn [mbind IO_bind sys prog_bind run].
  change (env h (Write fd msg)) with w.
  destruct (Z.eqb_spec (default (-1) w) (Z.of_nat (length msg))) as [He|He].
  - cbn [mret IO_ret run fst snd]. rewrite written_app. split_and!; [done| |done].
    split; [done|]. intros [-> Hw]. done.
  - destruct (Z.ltb_spec 0 (Z.of_nat (length msg))) as [Hl|Hl].
    + unfold eprint. cbn [sys run fst snd]. rewrite !written_app. split_and!.
      * by rewrite app_nil_r.
      * split; [done|]. by intros [-> ?].
      * congruence.
    + unfold throw_errno, io_throw. cbn [mbind IO_bind sys prog_bind run fst snd].
      rewrite !written_app. assert (msg = []) as -> by (destruct msg; [done|simpl in Hl; lia]).
      split_and!; [by rewrite app_nil_r| |congruence]. split; [|done]. done.
Qed.

(** ** The stream handler *)

(** The non-empty data a descriptor gave, and whether it was closed. *)
Definition chunk_of (fd : Z) (e : sigT sys_ret) : option text :=
  let 'existT c r := e in
  (match c return sys_ret c → option text with
   | Read fd' _ => λ r,
       match r with Some (x :: d) => if fd =? fd' then Some (x :: d) else None | _ => None end
   | _ => λ _, None
   end) r.
Definition chunks (fd : Z) (h : history sys_ret) : list text := omap (chunk_of fd) h.
Definition closed_count (fd : Z) (h : history sys_ret) : nat :=
  length (List.filter (λ c, match c with Close fd' => fd =? fd' | _ => false end) (calls h)).

Lemma chunks_app fd h1 h2 : chunks fd (h1 ++ h2) = chunks fd h1 ++ chunks fd h2.
Proof. apply omap_app. Qed.
Lemma closed_count_app fd h1 h2 :
  closed_count fd (h1 ++ h2) = (closed_count fd h1 + closed_count fd h2)%nat.
Proof. unfold closed_count, calls. by rewrite fmap_app, List.filter_app, length_app. Qed.

(** The relation between the histories before and after a part of [readStream]. *)
Definition stream_step (fd : Z) (h h' : history sys_ret) (data : list text) (tail : list text)
    (closed : nat) : Prop :=
  chunks fd h' = chunks fd h ++ data ∧
  stdout h' = stdout h ++ (received_line <$> data) ++ tail ∧
  closed_count fd h' = (closed_count fd h + closed)%nat.

Definition disconnected : text := txt "Disconnected." ++ newline.

Lemma readStream_spec fuel fd h :
  io_always (readStream fuel fd)
    (λ r h', ∃ data, match r with
       | Some _ => stream_step fd h h' data [disconnected] 1
       | None => stream_step fd h h' data [] 0 ∧ length data = fuel
       end)
    (λ _ h', ∃ data, stream_step fd h h' data [] 0) h.
Proof.
  revert h. induction fuel as [|fuel IH]; intros h; cbn [readStream].
  { apply iowp_ret. exists []. unfold stream_step. simpl. rewrite !app_nil_r, Nat.add_0_r. done. }
  apply iowp_bind, iowp_sys. intros r _. destruct r as [[|c d]|].
  - apply iowp_bind, iowp_sys. intros b _. apply iowp_bind, iowp_sys. intros [] _. apply iowp_ret.
    exists []. unfold stream_step. rewrite !chunks_app, !stdout_app, !closed_count_app.
    unfold closed_count at 2 3 4. simpl. rewrite Z.eqb_refl, !app_nil_r. simpl. split_and!; [done|done|lia].
  - apply iowp_bind, iowp_sys. intros [] _. eapply iowp_mono; [| |apply IH].
    + intros r h' [data Hd]. exists ((c :: d) :: data).
      assert (∀ tail n, stream_step fd ((h ++ [existT (Read fd 100) (Some (c :: d))]) ++
        [existT (Print (received_line (c :: d))) tt]) h' data tail n →
        stream_step fd h h' ((c :: d) :: data) tail n) as Hs.
      { intros tail n (H1 & H2 & H3). unfold stream_step. rewrite H1, H2, H3.
        rewrite !chunks_app, !stdout_app, !closed_count_app. unfold closed_count at 2 3. simpl.
        rewrite Z.eqb_refl, !app_nil_r, <- !app_assoc. split_and!; [done|done|lia]. }
      destruct r as [u|]; [by apply Hs|]. destruct Hd as [Hd Hl]. split; [by apply Hs|]. simpl; lia.
    + intros e h' [data (H1 & H2 & H3)]. exists ((c :: d) :: data). unfold stream_step.
      rewrite H1, H2, H3. rewrite !chunks_app, !stdout_app, !closed_count_app.
      unfold closed_count at 2 3. simpl.
      rewrite Z.eqb_refl, !app_nil_r, <- !app_assoc. split_and!; [done|done|lia].
  - apply iowp_bind, iowp_sys. intros e _. apply iowp_throw. exists [].
    unfold stream_step. rewrite !chunks_app, !stdout_app, !closed_count_app.
    unfold closed_count at 2 3. simpl. rewrite !app_nil_r. split_and!; [done|done|lia].
Qed.

(** The handler of a connection, for every behaviour of the peer: it prints one
    line per chunk of at most 100 bytes it reads, in order and nothing else; it
    closes the descriptor exactly once, when the stream ends, and says so; on a read
    error it throws and leaves the descriptor open. *)
Theorem readStream_prints_stream env fuel fd :
  let r := fst (run env (readStream fuel fd) []) in
  let h := snd (run env (readStream fuel fd) []) in
  match r with
  | Ok (Some _) =>
      stdout h = (received_line <$> chunks fd h) ++ [disconnected] ∧ closed_count fd h = 1%nat
  | Ok None =>
      stdout h = received_line <$> chunks fd h ∧ closed_count fd h = 0%nat ∧
      length (chunks fd h) = fuel
  | Throw _ => stdout h = received_line <$> chunks fd h ∧ closed_count fd h = 0%nat
  | UB _ => False
  end.
Proof.
  intros r h. pose proof (iowp_run (λ _ _, True) env _ _ _ [] ltac:(done) (readStream_spec fuel fd [])) as Hs.
  change (fst (run env _ [])) with r in Hs. change (snd (run env _ [])) with h in Hs. cbv beta in Hs.
  destruct r as [[u|]|e|w]; [| | |done].
  - destruct Hs as (data & H1 & H2 & H3). simpl in H1, H2, H3. rewrite H1, H2. done.
  - destruct Hs as (data & (H1 & H2 & H3) & Hl). simpl in H1, H2, H3. rewrite H1, H2, app_nil_r. done.
  - destruct Hs as (data & H1 & H2 & H3). simpl in H1, H2, H3. rewrite H1, H2, app_nil_r. done.
Qed.

(** ** The socket pair *)

Import SocketPair.

(** The other end of the pair: it has written [d], the process has the number [pid]. *)
Definition pair_env (pid : Z) (d : option text) : environment sys_ret := λ _ c,
  match c with
  | Socketpair => Some (3, 4)
  | Fork => Some pid
  | Read _ _ => d
  | Write _ d => Some (Z.of_nat (length d))
  | Connect _ _ | Bind _ _ | Listen _ _ | Setsockopt _ | Close _ | Ioctl _ | EpollAdd _ _ => true
  | Socket | Accept _ | EpollCreate => None
  | Getline | Strerror => []
  | Getaddrinfo _ _ => Some []
  | Getnameinfo => Some ([], [])
  | Sendto _ _ => None
  | Select _ | Poll _ => None
  | EpollWait _ _ => []
  | Fgets _ => None
  | Unlink _ | Print _ | Eprint _ => tt
  end.

(** What a process of the pair has written to it. *)
Definition sent (pid : Z) (d : option text) : option text :=
  option_map snd (head (written (snd (run (pair_env pid d) main [])))).

(** The two processes: the child reads what the parent writes and the parent
    what the child writes, and both print the other's text and return 0; a process
    whose read fails prints uninitialised memory. *)
Theorem socket_pair_exchange :
  let child_sends := sent 0 (Some (DATA2 ++ [nul])) in
  let parent_sends := sent 42 child_sends in
  let parent_run := run (pair_env 42 child_sends) main [] in
  let child_run := run (pair_env 0 parent_sends) main [] in
  sent 0 parent_sends = child_sends ∧
  fst parent_run = Ok 0 ∧ fst child_run = Ok 0 ∧
  stdout (snd parent_run) = [txt "parent writes --> In Xanadu, did Kublai Khan . . ." ++ newline] ∧
  stdout (snd child_run) = [txt "child receives --> A stately pleasure dome decree . . ." ++ newline] ∧
  fst (run (pair_env 42 None) main []) = UB "uninitialised memory is printed" ∧
  fst (run (pair_env 0 None) main []) = UB "uninitialised memory is printed".
Proof. vm_compute. tauto. Qed.
