(* ===== verification/TcpServer.v ===== *)
(** The TCP chat server [src/utils/tcp_socket/server.c].

    [server] is the state of its event loop: the descriptor set [master] and
    [max_socket].  The loops over the descriptors are written as in the source, the
    bound [max_socket] of the outer one being read again in every iteration because
    [accept] may raise it.

    The theorems: the event loop refines a chat room: what the server writes in any
    run is, event by event, the received data once to every other connected client;
    it stays within its descriptor set and buffers as long as less than 1024 bytes
    are received at a time, and a full buffer is written behind its end. *)
From S2P Require Import Prelude Text Posix UnixSocket.
Local Open Scope Z_scope.

(** [exit(1)] ends the program. *)
Definition exit_failure {A} : IO A := io_throw "exit(1)".
Definition fail_errno {A} (m : string) : IO A :=
  _ ← eprint (txt m ++ newline); exit_failure.

(** An [fd_set] holds descriptors below 1024. *)
Definition FD_SETSIZE : Z := 1024.
Definition FD_SET (fd : Z) (s : gset Z) : IO (gset Z) :=
  if (0 <=? fd) && (fd <? FD_SETSIZE) then mret ({[fd]} ∪ s) else undefined "FD_SET out of range".

Record server := mkServer { socket_listen : Z; master : gset Z; max_socket : Z }.

(* @src utils/tcp_socket/server.c 73-90 main *)
(** A new connection.  When [getnameinfo] fails, which is not looked at, the buffer for the
    address is printed as it is, uninitialised. *)
Definition handle_connection (st : server) : IO server :=
  socket_client ← sys (Accept (socket_listen st));
  match socket_client with
  | None => fail_errno "accept() failed."
  | Some c =>
      master ← FD_SET c (master st);
      let max_socket := if max_socket st <? c then c else max_socket st in
      name ← sys Getnameinfo;
      match name with
      | None => undefined "address_buffer is uninitialised"
      | Some (address_buffer, _) =>
          _ ← print (txt "New connection from: " ++ address_buffer ++ newline);
          mret (mkServer (socket_listen st) master max_socket)
      end
  end.

(* @src utils/tcp_socket/server.c 101-109 main *)
(** The inner loop, over the descriptors [js]. *)
Fixpoint broadcast (st : server) (i : Z) (data : text) (js : list Z) : IO unit :=
  match js with
  | [] => mret tt
  | j :: js =>
      _ ← (if bool_decide (j ∈ master st) then
             if (j =? socket_listen st) || (j =? i) then mret tt
             else _ ← sys (Write j data); mret tt
           else mret tt);
      broadcast st i data js
  end.

(* @src utils/tcp_socket/server.c 92-112 main *)
(** Data from a client: the buffer [read] has 1024 bytes. *)
Definition handle_data (i : Z) (st : server) : IO server :=
  r ← sys (Read i 1024);
  match r with
  | None | Some [] =>
      _ ← sys (Close i);
      mret (mkServer (socket_listen st) (master st ∖ {[i]}) (max_socket st))
  | Some data =>
      _ ← broadcast st i data (seqZ 1 (max_socket st));
      if Z.of_nat (length data) =? 1024 then undefined "read[1024] is written" else
      _ ← print (txt "Received: " ++ until_nul data ++ newline);
      mret st
  end.

(* @src utils/tcp_socket/server.c 70-115 main *)
(** The loop over the descriptors from [i]; [fuel] bounds its iterations: 1024 are
    enough for any [fd_set], and running out of it would be an error here. *)
Fixpoint handle_ready (fuel : nat) (reads : list Z) (i : Z) (st : server) : IO server :=
  if i <=? max_socket st then
    match fuel with
    | O => undefined "out of fuel"
    | S fuel =>
        st ← (if bool_decide (i ∈ reads) then
                if i =? socket_listen st then handle_connection st else handle_data i st
              else mret st);
        handle_ready fuel reads (i + 1) st
    end
  else mret st.

(* @src utils/tcp_socket/server.c 62-116 main *)
Definition serve (st : server) : IO (server + unit) :=
  reads ← sys (Select (elements (master st)));
  match reads with
  | None => fail_errno "select() failed."
  | Some reads => st ← handle_ready 1024 reads 1 st; mret (inl st)
  end.

(* @src utils/tcp_socket/server.c 13-61 main *)
(** [args] are the arguments after the program's name.  The result of [getaddrinfo] is not
    looked at: when it fails, [bind_address] is an uninitialised pointer, which is
    dereferenced for the call of [socket]. *)
Definition server_start (args : list text) : IO server :=
  match args with
  | hostname :: port :: _ =>
      _ ← print (txt "Configuring local address..." ++ newline);
      bind_address ← sys (Getaddrinfo hostname port);
      _ ← print (txt "Creating socket..." ++ newline);
      match bind_address with
      | None => undefined "bind_address is uninitialised"
      | Some bind_address =>
      socket_listen ← sys Socket;
      match socket_listen with
      | None => fail_errno "socket() failed."
      | Some l =>
          _ ← print (txt "Binding socket to local address..." ++ newline);
          ok ← sys (Setsockopt l);
          _ ← (if (ok : bool) then mret tt else eprint (txt "setsockopt() failed." ++ newline));
          ok ← sys (Bind l bind_address);
          if negb ok then fail_errno "bind() failed." else
          _ ← print (txt "Listening..." ++ newline);
          ok ← sys (Listen l 10);
          if negb ok then fail_errno "listen() failed." else
          master ← FD_SET l ∅;
          _ ← print (txt "Waiting for connections..." ++ newline);
          mret (mkServer l master l)
      end
      end
  | _ => _ ← eprint (txt "usage: tcp_server hostname port" ++ newline); exit_failure
  end.

(* @src utils/tcp_socket/server.c 13-119 main *)
(** [None]: the server still runs after [fuel] rounds of [select]. *)
Definition tcp_server_main (fuel : nat) (args : list text) : IO (option unit) :=
  st ← server_start args;
  forever fuel serve st.

(** ** The chat room *)

Inductive event := Connected (c : Z) | Data (i : Z) (d : text) | Gone (i : Z).

(** The clients and what an event makes the room say. *)
Definition room_step (clients : gset Z) (e : event) : gset Z * list (Z * text) :=
  match e with
  | Connected c => ({[c]} ∪ clients, [])
  | Gone i => (clients ∖ {[i]}, [])
  | Data i d =>
      (clients, (λ j, (j, d)) <$> filter (λ j, j ∈ clients ∧ j ≠ i) (seqZ 1 1023))
  end.

Fixpoint room_run (clients : gset Z) (es : list event) : gset Z * list (Z * text) :=
  match es with
  | [] => (clients, [])
  | e :: es =>
      let '(clients, ws) := room_step clients e in
      let '(clients, ws') := room_run clients es in
      (clients, ws ++ ws')
  end.

(** The events of a run of the server. *)
Definition event_of (e : sigT sys_ret) : list event :=
  let 'existT c r := e in
  (match c return sys_ret c → list event with
   | Accept _ => λ r, match r with Some fd => [Connected fd] | None => [] end
   | Read i _ => λ r, match r with Some (x :: d) => [Data i (x :: d)] | _ => [Gone i] end
   | _ => λ _, []
   end) r.
Definition events (h : history sys_ret) : list event := h ≫= event_of.

Lemma room_run_app clients es es' :
  room_run clients (es ++ es') =
    let '(c, ws) := room_run clients es in
    let '(c', ws') := room_run c es' in (c', ws ++ ws').
Proof.
  revert clients. induction es as [|e es IH]; intros clients; simpl.
  - by destruct (room_run clients es').
  - destruct (room_step clients e) as [c1 w1]. rewrite IH.
    destruct (room_run c1 es) as [c2 w2]. destruct (room_run c2 es') as [c3 w3].
    by rewrite app_assoc.
Qed.

Lemma events_snoc h e : events (h ++ [e]) = events h ++ event_of e.
Proof. unfold events. rewrite bind_app. cbn [mbind list_bind]. by rewrite app_nil_r. Qed.

(** ** The invariant *)

(** Answers of the system: descriptors fit in an [fd_set] and are new, [recv] gives
    less than a full buffer, and the addresses of the server and of its clients can be
    resolved. *)
Definition net_ok (c : sys_call) : sys_ret c → Prop :=
  match c with
  | Socket => λ r, from_option (λ fd, 1 ≤ fd < FD_SETSIZE) True r
  | Accept l => λ r, from_option (λ fd, 1 ≤ fd < FD_SETSIZE ∧ fd ≠ l) True r
  | Read _ size => λ r, from_option (λ d, Z.of_nat (length d) < size) True r
  | c => resolves c
  end.

(** The server's set is the room's clients and the listener; what it has written is
    what the room says. *)
Record chat_inv (st : server) (h : history sys_ret) : Prop := {
  inv_listen : socket_listen st ∈ master st;
  inv_max : max_socket st < FD_SETSIZE;
  inv_range : ∀ fd, fd ∈ master st → 1 ≤ fd ≤ max_socket st;
  inv_room : room_run ∅ (events h) = (master st ∖ {[socket_listen st]}, written h) }.

(** A call that is no event and writes nothing. *)
Lemma chat_inv_quiet st h c (r : sys_ret c) :
  event_of (existT c r) = [] → written [existT c r] = [] →
  chat_inv st h → chat_inv st (h ++ [existT c r]).
Proof.
  intros He Hw [Hl Hm Hr Hroom]. split; [done..|].
  by rewrite events_snoc, He, written_app, Hw, !app_nil_r.
Qed.

(** The only way out is [exit(1)]. *)
Definition only_exit : string → history sys_ret → Prop := λ e _, e = "exit(1)"%string.

Ltac quiet := repeat (apply chat_inv_quiet; [done|done|]); done.

Lemma handle_connection_inv st h :
  chat_inv st h → iowp net_ok (handle_connection st) (λ st' h',
    chat_inv st' h' ∧ socket_listen st' = socket_listen st) only_exit h.
Proof.
  intros [Hl Hm Hr Hroom]. unfold handle_connection, fail_errno, exit_failure.
  apply iowp_bind, iowp_sys. intros [c|] Hok; simpl in Hok.
  2:{ apply iowp_bind, iowp_sys. intros [] _. by apply iowp_throw. }
  unfold FD_SET. rewrite (proj2 (andb_true_iff _ _)) by (rewrite Z.leb_le, Z.ltb_lt; lia).
  apply iowp_bind, iowp_ret, iowp_bind, iowp_sys. intros r [[a s] ->].
  apply iowp_bind, iowp_sys. intros [] _. apply iowp_ret. cbn [master socket_listen].
  split; [|done]. do 2 (apply chat_inv_quiet; [done|done|]). split; cbn [master socket_listen max_socket].
  - set_solver.
  - destruct (Z.ltb_spec (max_socket st) c); lia.
  - intros fd Hfd. apply elem_of_union in Hfd as [Hfd|Hfd].
    + apply elem_of_singleton in Hfd as ->. destruct (Z.ltb_spec (max_socket st) c); lia.
    + specialize (Hr fd Hfd). destruct (Z.ltb_spec (max_socket st) c); lia.
  - rewrite events_snoc, room_run_app, Hroom, written_app. cbn. f_equal.
    apply set_eq. set_solver by lia.
Qed.

(** The inner loop writes to the clients among [js]. *)
Lemma broadcast_inv st i d js h :
  iowp net_ok (broadcast st i d js) (λ _ h',
    events h' = events h ∧
    written h' = written h ++ ((λ j, (j, d)) <$>
      filter (λ j, j ∈ master st ∖ {[socket_listen st]} ∧ j ≠ i) js)) only_exit h.
Proof.
  revert h. induction js as [|j js IH]; intros h; cbn [broadcast].
  { apply iowp_ret. by rewrite filter_nil, app_nil_r. }
  apply iowp_bind.
  assert (iowp net_ok (if bool_decide (j ∈ master st) then
             if (j =? socket_listen st) || (j =? i) then mret tt
             else _ ← sys (Write j d); mret tt else mret tt)
    (λ _ h', events h' = events h ∧ written h' = written h ++
       (if decide (j ∈ master st ∖ {[socket_listen st]} ∧ j ≠ i) then [(j, d)] else []))
    only_exit h) as Hj.
  { case_bool_decide as Hm.
    - destruct (Z.eqb_spec j (socket_listen st)) as [->|Hl]; simpl.
      { apply iowp_ret. rewrite decide_False by set_solver. by rewrite app_nil_r. }
      destruct (Z.eqb_spec j i) as [->|Hi].
      { apply iowp_ret. rewrite decide_False by set_solver. by rewrite app_nil_r. }
      apply iowp_bind, iowp_sys. intros w _. apply iowp_ret.
      rewrite decide_True by set_solver. by rewrite events_snoc, app_nil_r, written_app.
    - apply iowp_ret. rewrite decide_False by set_solver. by rewrite app_nil_r. }
  eapply iowp_mono; [|done|exact Hj]. intros [] h1 [He1 Hw1]. cbv beta.
  eapply iowp_mono; [|done|apply IH]. intros [] h2 [He2 Hw2]. rewrite He2, He1, Hw2, Hw1.
  split; [done|]. rewrite filter_cons. rewrite <- app_assoc. f_equal.
  destruct (decide _); done.
Qed.

(** No client has a number above [max_socket]. *)
Lemma filter_range (P : Z → Prop) `{∀ z, Decision (P z)} m n :
  0 ≤ m ≤ n → (∀ j, P j → j ≤ m) → filter P (seqZ 1 n) = filter P (seqZ 1 m).
Proof.
  intros Hmn HP. replace n with (m + (n - m)) by lia. rewrite seqZ_app by lia.
  rewrite filter_app. assert (filter P (seqZ (1 + m) (n - m)) = []) as ->; [|by rewrite app_nil_r].
  apply elem_of_nil_inv. intros j [Hj Hin]%list_elem_of_filter.
  apply elem_of_seqZ in Hin. specialize (HP j Hj). lia.
Qed.

Lemma handle_data_inv i st h :
  i ≠ socket_listen st → chat_inv st h →
  iowp net_ok (handle_data i st) (λ st' h',
    chat_inv st' h' ∧ socket_listen st' = socket_listen st) only_exit h.
Proof.
  intros Hi [Hl Hm Hr Hroom]. unfold handle_data.
  apply iowp_bind, iowp_sys. intros r Hok.
  assert (event_of (existT (Read i 1024) r) = [Gone i] →
    iowp net_ok (_ ← sys (Close i);
      mret (mkServer (socket_listen st) (master st ∖ {[i]}) (max_socket st)))
    (λ st' h', chat_inv st' h' ∧ socket_listen st' = socket_listen st) only_exit
    (h ++ [existT (Read i 1024) r])) as Hgone.
  { intros He. apply iowp_bind, iowp_sys. intros b _. apply iowp_ret. split; [|done].
    apply chat_inv_quiet; [done|done|]. split; cbn [master socket_listen max_socket].
    - set_solver.
    - done.
    - intros fd Hfd. apply Hr. set_solver.
    - rewrite events_snoc, room_run_app, Hroom, written_app, He. cbn. f_equal.
      apply set_eq. set_solver. }
  destruct r as [[|x d]|]; [by apply Hgone| |by apply Hgone]. clear Hgone.
  apply iowp_bind. eapply iowp_mono; [|done|apply broadcast_inv].
  intros [] h1 [He Hw]. cbv beta. cbn [net_ok from_option] in Hok.
  rewrite (proj2 (Z.eqb_neq _ _)) by lia.
  apply iowp_bind, iowp_sys. intros [] _. apply iowp_ret. split; [|done].
  apply chat_inv_quiet; [done|done|]. split; [done..|].
  rewrite He, Hw, events_snoc, room_run_app, Hroom, written_app. cbn [event_of room_run room_step].
  rewrite !app_nil_r. do 2 f_equal.
  rewrite (filter_range _ (max_socket st) 1023); [done| |].
  - pose proof (Hr _ Hl). unfold FD_SETSIZE in *. lia.
  - intros j [Hj _]. apply Hr. set_solver.
Qed.

Lemma handle_ready_inv fuel reads i st h :
  FD_SETSIZE ≤ i + Z.of_nat fuel → chat_inv st h →
  iowp net_ok (handle_ready fuel reads i st) chat_inv only_exit h.
Proof.
  revert i st h. induction fuel as [|fuel IH]; intros i st h Hf Hinv; cbn [handle_ready];
    (destruct (Z.leb_spec i (max_socket st)) as [Hle|Hle]; [|by apply iowp_ret]).
  { pose proof (inv_max _ _ Hinv). unfold FD_SETSIZE in *. lia. }
  apply iowp_bind. case_bool_decide; [|apply iowp_ret, IH; [lia|done]].
  destruct (Z.eqb_spec i (socket_listen st)) as [He|He].
  - eapply iowp_mono; [|done|by apply handle_connection_inv]. intros st' h' [Hi' _].
    apply IH; [lia|done].
  - eapply iowp_mono; [|done|by apply handle_data_inv]. intros st' h' [Hi' _].
    apply IH; [lia|done].
Qed.

(** A call of the start-up: nothing happens in the room. *)
Definition before (h : history sys_ret) : Prop := events h = [] ∧ written h = [].

Lemma before_call h c (r : sys_ret c) :
  event_of (existT c r) = [] → written [existT c r] = [] → before h → before (h ++ [existT c r]).
Proof.
  intros He Hw [Hbe Hbw]. split.
  - by rewrite events_snoc, Hbe, He.
  - by rewrite written_app, Hbw, Hw.
Qed.

Lemma server_start_inv args h :
  before h → iowp net_ok (server_start args) chat_inv only_exit h.
Proof.
  intros Hb. unfold server_start, fail_errno, exit_failure.
  destruct args as [|host [|port args]];
    try (apply iowp_bind, iowp_sys; intros [] _; by apply iowp_throw).
  apply iowp_bind, iowp_sys. intros [] _. apply iowp_bind, iowp_sys. intros r [addr ->].
  apply iowp_bind, iowp_sys. intros [] _. apply iowp_bind, iowp_sys. intros [l|] Hok; simpl in Hok.
  2:{ apply iowp_bind, iowp_sys. intros [] _. by apply iowp_throw. }
  apply iowp_bind, iowp_sys. intros [] _. apply iowp_bind, iowp_sys. intros ok _.
  apply iowp_bind.
  set (h1 := ((((((h ++ _) ++ _) ++ _) ++ _) ++ _) ++ _)).
  assert (before h1) as Hb1 by (repeat (apply before_call; [done|done|]); done). clearbody h1.
  assert (∀ h2, before h2 → iowp net_ok (
    ok ← sys (Bind l addr);
    if negb ok then _ ← eprint (txt "bind() failed." ++ newline); io_throw "exit(1)" else
    _ ← print (txt "Listening..." ++ newline);
    ok ← sys (Listen l 10);
    if negb ok then _ ← eprint (txt "listen() failed." ++ newline); io_throw "exit(1)" else
    master ← FD_SET l ∅;
    _ ← print (txt "Waiting for connections..." ++ newline);
    mret (mkServer l master l)) chat_inv only_exit h2) as Hend.
  { intros h2 Hb2. apply iowp_bind, iowp_sys. intros [] _; simpl.
    2:{ apply iowp_bind, iowp_sys. intros [] _. by apply iowp_throw. }
    apply iowp_bind, iowp_sys. intros [] _. apply iowp_bind, iowp_sys. intros [] _; simpl.
    2:{ apply iowp_bind, iowp_sys. intros [] _. by apply iowp_throw. }
    unfold FD_SET. rewrite (proj2 (andb_true_iff _ _)) by (rewrite Z.leb_le, Z.ltb_lt; lia).
    apply iowp_bind, iowp_ret, iowp_bind, iowp_sys. intros [] _. apply iowp_ret.
    do 4 (apply chat_inv_quiet; [done|done|]).
    destruct Hb2 as [He Hw]. split; cbn [master socket_listen max_socket]; [set_solver|lia|set_solver by lia|].
    rewrite He, Hw. simpl. f_equal. apply set_eq. set_solver. }
  destruct ok.
  - apply iowp_ret. by apply Hend.
  - apply iowp_sys. intros [] _. apply Hend. by apply before_call.
Qed.

Lemma serve_forever_inv fuel st h :
  chat_inv st h → iowp net_ok (forever fuel serve st) (λ r h', r = None ∧ ∃ st', chat_inv st' h') only_exit h.
Proof.
  revert st h. induction fuel as [|fuel IH]; intros st h Hinv; cbn [forever].
  { apply iowp_ret. eauto. }
  apply iowp_bind. unfold serve at 1, fail_errno, exit_failure. apply iowp_bind, iowp_sys.
  intros [reads|] _.
  2:{ apply iowp_bind, iowp_sys. intros [] _. by apply iowp_throw. }
  apply iowp_bind. eapply iowp_mono; [|done|apply handle_ready_inv].
  - intros st' h' Hi'. apply iowp_ret. by apply IH.
  - unfold FD_SETSIZE. lia.
  - apply chat_inv_quiet; done.
Qed.

(** ** Properties *)

(** C3: the server refines the chat room.  In every run, for every behaviour of
    clients and network in which the addresses can be resolved ([getaddrinfo] and
    [getnameinfo] succeed, which the program does not look at), descriptors are new and fit
    the sets and less than 1024 bytes arrive at a time: there is no undefined behaviour, the
    server only ends by [exit(1)] (or by a signal, such as [SIGPIPE], which is not
    modelled), and what it has written is what the room says for the connections, messages
    and disconnections of the run: every message, once, to every other connected client. *)
Theorem tcp_server_refines_room (env : environment sys_ret) fuel args :
  (∀ h c, net_ok c (env h c)) →
  let '(r, h) := run env (tcp_server_main fuel args) [] in
  match r with
  | Ok res => res = None ∧ ∃ clients, room_run ∅ (events h) = (clients, written h)
  | Throw e => e = "exit(1)"%string
  | UB _ => False
  end.
Proof.
  intros Hok. assert (iowp net_ok (tcp_server_main fuel args)
    (λ res h, res = None ∧ ∃ st, chat_inv st h) only_exit []) as Hm.
  { unfold tcp_server_main. apply iowp_bind. eapply iowp_mono; [|done|by apply server_start_inv].
    intros st h Hi. by apply serve_forever_inv. }
  pose proof (iowp_run net_ok env _ _ _ [] Hok Hm) as Hr.
  destruct (run env (tcp_server_main fuel args) []) as [[res|e|w] h]; simpl in *; [|done|done].
  destruct Hr as [-> [st Hi]]. split; [done|]. eexists. apply Hi.
Qed.

(** When the address of the server cannot be resolved, an uninitialised pointer is
    dereferenced; when the address of a client cannot be, uninitialised memory is printed. *)
Theorem tcp_server_unresolved_UB (env : environment sys_ret) hostname port args fuel :
  ((∀ h, env h (Getaddrinfo hostname port) = None) →
   fst (run env (tcp_server_main fuel (hostname :: port :: args)) []) = UB "bind_address is uninitialised") ∧
  ∀ st h c, env h (Accept (socket_listen st)) = Some c → 0 ≤ c < FD_SETSIZE →
    (∀ h, env h Getnameinfo = None) →
    fst (run env (handle_connection st) h) = UB "address_buffer is uninitialised".
Proof.
  split.
  - intros Hr. unfold tcp_server_main, server_start. rewrite run_io.
    rewrite run_io. cbn [sys print run]. rewrite run_io. cbn [sys run]. rewrite Hr.
    rewrite run_io. by cbn [sys print run].
  - intros st h c Ha Hc Hn. unfold handle_connection. rewrite run_io. cbn [sys run]. rewrite Ha.
    unfold FD_SET. rewrite (proj2 (andb_true_iff _ _)) by (rewrite Z.leb_le, Z.ltb_lt; lia).
    rewrite run_io. cbn [mret IO_ret run]. cbv zeta. rewrite run_io. cbn [sys run]. by rewrite Hn.
Qed.

(** A message that fills the buffer: when 1024 bytes are received at once, the
    terminating null is written behind the end of the array. *)
Theorem tcp_server_full_buffer_UB (env : environment sys_ret) i st h d :
  env h (Read i 1024) = Some d → length d = 1024%nat →
  fst (run env (handle_data i st) h) = UB "read[1024] is written".
Proof.
  intros Hr Hl. unfold handle_data. rewrite run_io. cbn [sys run]. rewrite Hr.
  destruct d as [|x d]; [done|]. rewrite run_io.
  assert (∀ js h, fst (run env (broadcast st i (x :: d) js) h) = Ok tt) as Hb.
  { intros js. induction js as [|j js IH]; intros h'; [done|]. cbn [broadcast]. rewrite run_io.
    case_bool_decide; [|apply IH]. destruct (_ || _); [apply IH|]. rewrite run_io. apply IH. }
  specialize (Hb (seqZ 1 (max_socket st)) (h ++ [existT (Read i 1024) (Some (x :: d))])).
  destruct (run env (broadcast _ _ _ _) _) as [r h']. simpl in Hb. subst r.
  by rewrite Hl.
Qed.

(** ** Witnesses *)

(** Two clients connect, then the first says hi. *)
Definition ex_net (room : Z) (d : text) : environment sys_ret := λ h c,
  let count (f : sys_call → bool) := length (List.filter f (calls h)) in
  match c with
  | Socket => Some 3
  | Accept l => if l =? 3 then Some (4 + Z.of_nat (count (λ c, match c with Accept _ => true | _ => false end)) mod 2)
                else None
  | Select _ =>
      match count (λ c, match c with Select _ => true | _ => false end) with
      | 0%nat | 1%nat => Some [3]
      | _ => Some [4]
      end
  | Read _ n => if Z.of_nat (length d) + room <=? n then Some d else None
  | c => pair_env 0 None h c
  end.

Lemma tcp_server_refines_room_witness :
  ∃ h clients,
    run (ex_net 1 (txt "hi")) (tcp_server_main 3 [txt "localhost"; txt "80"]) [] = (Ok None, h) ∧
    room_run ∅ (events h) = (clients, [(5, txt "hi")]).
Proof.
  pose proof (tcp_server_refines_room (ex_net 1 (txt "hi")) 3 [txt "localhost"; txt "80"]) as H.
  assert (written (snd (run (ex_net 1 (txt "hi")) (tcp_server_main 3 [txt "localhost"; txt "80"]) []))
    = [(5, txt "hi")]) as Hw by (vm_compute; reflexivity).
  assert (fst (run (ex_net 1 (txt "hi")) (tcp_server_main 3 [txt "localhost"; txt "80"]) [])
    = Ok None) as Hf by (vm_compute; reflexivity).
  destruct (run _ (tcp_server_main 3 _) []) as [r h]. simpl in Hw, Hf. subst r.
  destruct H as (_ & cl & Hr).
  - intros h' c. destruct c; try done; try (by eexists); simpl.
    + destruct (Z.eqb_spec fd 3) as [->|]; [|done]. simpl. unfold FD_SETSIZE.
      match goal with |- context [?a mod 2] => pose proof (Z.mod_pos_bound a 2 ltac:(lia)) end. lia.
    + destruct (Z.leb_spec (Z.of_nat 2 + 1) size); simpl; [lia|done].
  - exists h, cl. by rewrite Hr, Hw.
Defined.

Lemma tcp_server_full_buffer_UB_witness :
  fst (run (ex_net 0 (replicate 1024 "x"%char)) (handle_data 4 (mkServer 3 {[3; 4]} 4)) []) =
    UB "read[1024] is written".
Proof.
  apply (tcp_server_full_buffer_UB _ _ _ _ (replicate 1024 "x"%char)); [done|].
  apply length_replicate.
Defined.
