(* ===== verification/TcpClient.v ===== *)
(** The TCP clients [src/utils/tcp_socket/client.c] and [client.cpp].

    [PlainClient] is the C program.  [TCPSocketClient] is the class of the C++ program:
    its fields are the record [client], the receive thread is the program
    [receive_message], and the flag [connected_] both threads write is also modelled
    as a two-thread transition system.

    The theorems: both clients send what is typed, line by line; the C client relays
    until one side ends and then closes its socket; the class terminates the program
    when it is destroyed without ever having connected, and can believe for ever that
    it is connected after the peer closed. *)
From S2P Require Import Prelude Text Posix UnixSocket.
Local Open Scope Z_scope.

(** The lines typed, from the history. *)
Definition line_of (e : sigT sys_ret) : list text :=
  let 'existT c r := e in
  (match c return sys_ret c → list text with
   | Fgets _ => λ r, match r with Some l => [until_nul l] | None => [] end
   | _ => λ _, []
   end) r.
Definition typed (h : history sys_ret) : list text := h ≫= line_of.

Lemma typed_snoc h e : typed (h ++ [e]) = typed h ++ line_of e.
Proof. unfold typed. rewrite bind_app. cbn [mbind list_bind]. by rewrite app_nil_r. Qed.

Module PlainClient.

(* @src utils/tcp_socket/client.c 78-86 main *)
(** The second half of a round of [select]: a line from the standard input. *)
Definition handle_input (socket_peer : Z) (reads : list Z) : IO (unit + option Z) :=
  if bool_decide (0 ∈ reads) then
    r ← sys (Fgets 4096);
    match r with
    | None => mret (inr None)
    | Some read =>
        let read := until_nul read in
        _ ← print (txt "Sending: " ++ read);
        bytes_sent ← sys (Write socket_peer read);
        _ ← print (txt "Sent " ++ to_text (default (-1) bytes_sent) ++ txt " bytes." ++ newline);
        mret (inl tt)
    end
  else mret (inl tt).

(* @src utils/tcp_socket/client.c 52-87 main *)
(** One round of [select]; the right side leaves the loop: [None] with [break],
    [Some] with a return code. *)
Definition round (socket_peer : Z) : IO (unit + option Z) :=
  ready ← sys (Select [socket_peer; 0]);
  match ready with
  | None =>
      _ ← eprint (txt "select() failed. (" ++ to_text socket_peer ++ txt ")" ++ newline);
      mret (inr (Some 1))
  | Some reads =>
      open ← (if bool_decide (socket_peer ∈ reads) then
                r ← sys (Read socket_peer 4096);
                match r with
                | None | Some [] =>
                    _ ← print (txt "Connection closed by peer." ++ newline); mret false
                | Some data => _ ← print (txt "Received: " ++ until_nul data); mret true
                end
              else mret true);
      if negb open then mret (inr None) else
      handle_input socket_peer reads
  end.

(* @src utils/tcp_socket/client.c 12-93 main *)
(** [None]: still running after [fuel] rounds.  The results of [getaddrinfo] and
    [getnameinfo] are not looked at: when they fail, an uninitialised pointer is
    dereferenced, or an uninitialised buffer is printed. *)
Definition main (fuel : nat) (args : list text) : IO (option Z) :=
  match args with
  | hostname :: port :: _ =>
      _ ← print (txt "Configuring remote address..." ++ newline);
      peer_address ← sys (Getaddrinfo hostname port);
      _ ← print (txt "Rmote address is: ");
      match peer_address with
      | None => undefined "peer_address is uninitialised"
      | Some peer_address =>
      name ← sys Getnameinfo;
      match name with
      | None => undefined "address_buffer is uninitialised"
      | Some (address_buffer, service_buffer) =>
      _ ← print (address_buffer ++ txt " " ++ service_buffer ++ newline);
      _ ← print (txt "Creating socket..." ++ newline);
      socket_peer ← sys Socket;
      match socket_peer with
      | None => _ ← eprint (txt "socket() failed. (-1)" ++ newline); mret (Some 1)
      | Some socket_peer =>
          _ ← print (txt "Connecting..." ++ newline);
          ok ← sys (Connect socket_peer peer_address);
          if negb ok then
            _ ← eprint (txt "connect() failed. (" ++ to_text socket_peer ++ txt ")" ++ newline);
            mret (Some 1)
          else
          _ ← print (txt "Connected." ++ newline);
          _ ← print (txt "To send data, enter text followed by Enter." ++ newline);
          r ← forever fuel (λ _ : unit, round socket_peer) tt;
          match r with
          | None => mret None
          | Some (Some code) => mret (Some code)
          | Some None =>
              _ ← print (txt "Closing socket..." ++ newline);
              _ ← sys (Close socket_peer);
              _ ← print (txt "Finished." ++ newline);
              mret (Some 0)
          end
      end
      end
      end
  | _ => _ ← eprint (txt "usage: tcp_client hostname port" ++ newline); mret (Some 1)
  end.
End PlainClient.

Module TCPSocketClient.

(* @src utils/tcp_socket/client.cpp 111-117 TCPSocketClient *)
(** [addr_info_] is the address; [joinable] is whether [receive_thread_] has a
    thread to join. *)
Record client := mkClient {
  socket_peer_ : Z; addr_info_ : text; joinable : bool; running_ : bool; connected_ : bool }.

(* @src utils/tcp_socket/client.cpp 48-68 TCPSocketClient::connect *)
Definition connect (c : client) : IO (bool * client) :=
  _ ← print (txt "Creating socket..." ++ newline);
  s ← sys Socket;
  let c := mkClient (default (-1) s) (addr_info_ c) (joinable c) (running_ c) (connected_ c) in
  match s with
  | None =>
      _ ← eprint (txt "socket() failed. (-1)" ++ newline); mret (false, c)
  | Some s =>
      _ ← print (txt "Connecting..." ++ newline);
      ok ← sys (Connect s (addr_info_ c));
      if negb ok then
        e ← sys Strerror;
        _ ← eprint (txt "Failed. (" ++ e ++ txt ")" ++ newline); mret (false, c)
      else
      (* the old receive thread is joined, a new one started *)
      mret (true, mkClient s (addr_info_ c) true (running_ c) true)
  end.

(* @src utils/tcp_socket/client.cpp 15-37 TCPSocketClient::TCPSocketClient *)
(** The results of [getaddrinfo], [getnameinfo] and [connect] are not looked at. *)
Definition construct (hostname : text) (port : Z) : IO client :=
  _ ← print (txt "Configuring remote address..." ++ newline);
  peer_address ← sys (Getaddrinfo hostname (to_text port));
  match peer_address with
  | None => undefined "peer_address is uninitialised"
  | Some peer_address =>
      _ ← print (txt "Rmote address is: ");
      name ← sys Getnameinfo;
      match name with
      | None => undefined "address_buffer is uninitialised"
      | Some (address_buffer, service_buffer) =>
          _ ← print (address_buffer ++ txt " " ++ service_buffer ++ newline);
          '(_, c) ← connect (mkClient 0 peer_address false true false);
          mret c
      end
  end.

(* @src utils/tcp_socket/client.cpp 39-46 TCPSocketClient::~TCPSocketClient *)
(** [join] of a thread object without thread throws, and a destructor must not. *)
Definition destroy (c : client) : IO unit :=
  _ ← print (txt "Closing receive thread..." ++ newline);
  if negb (joinable c) then io_throw "std::terminate" else
  _ ← print (txt "Closing socket..." ++ newline);
  _ ← sys (Close (socket_peer_ c));
  print (txt "Finished." ++ newline).

(* @src utils/tcp_socket/client.cpp 70-78 TCPSocketClient::send_message *)
Definition send_message (c : client) (message : text) : IO client :=
  '(ok, c) ← (if connected_ c then mret (true, c) else connect c);
  if negb ok then mret c else
  bytes_sent ← sys (Write (socket_peer_ c) message);
  _ ← print (txt "Sent " ++ to_text (default (-1) bytes_sent) ++ txt " bytes." ++ newline);
  mret c.

(* @src utils/tcp_socket/client.cpp 80-109 TCPSocketClient::receive_message *)
(** [running i]: the value of [running_] the [i]-th test sees.  The result is whether
    [connected_] was cleared, [None] that the loop still runs. *)
Fixpoint receive_message (fuel : nat) (running : nat → bool) (i : nat) (socket_peer_ : Z)
    (on_message_received_ : text → IO unit) : IO (option bool) :=
  match fuel with
  | O => mret None
  | S fuel =>
      if negb (running i) then mret (Some false) else
      ready ← sys (Select [socket_peer_; 0]);
      match ready with
      | None =>
          _ ← eprint (txt "select() failed. (" ++ to_text socket_peer_ ++ txt ")" ++ newline);
          mret (Some false)
      | Some reads =>
          if bool_decide (socket_peer_ ∈ reads) then
            r ← sys (Read socket_peer_ 4096);
            match r with
            | None | Some [] =>
                _ ← print (txt "Connection closed by peer." ++ newline);
                mret (Some true)
            | Some data =>
                _ ← print (txt "Received: " ++ until_nul data);
                _ ← on_message_received_ data;
                receive_message fuel running (S i) socket_peer_ on_message_received_
            end
          else receive_message fuel running (S i) socket_peer_ on_message_received_
      end
  end.

(* @src utils/tcp_socket/client.cpp 135-143 main *)
(** The loop of [main]; at the end of the input [message] is an array that was never
    written.  [None]: still running. *)
Fixpoint input_loop (fuel : nat) (c : client) : IO (option client) :=
  match fuel with
  | O => mret None
  | S fuel =>
      _ ← print (txt "Enter a message: ");
      message ← sys (Fgets 4096);
      match message with
      | None => undefined "uninitialised array is compared"
      | Some message =>
          let message := until_nul message in
          if bool_decide (message = txt "exit" ++ newline) then mret (Some c) else
          c ← send_message c message;
          input_loop fuel c
      end
  end.

(* @src utils/tcp_socket/client.cpp 122-146 main *)
(** [port] is [atoi(argv[2])] as [uint16_t]. *)
Definition main (fuel : nat) (args : list text) (port : Z) : IO (option Z) :=
  match args with
  | hostname :: _ :: _ =>
      client ← construct hostname (uwrap 16 port);
      c ← input_loop fuel client;
      match c with
      | None => mret None
      | Some c => _ ← destroy c; mret (Some 0)
      end
  | _ => _ ← eprint (txt "usage: tcp_client hostname port" ++ newline); mret (Some 1)
  end.

(* @src utils/tcp_socket/client.cpp 65-67 TCPSocketClient::connect *)
(** The two threads after [connect]: the main thread has started the receive thread
    and is about to set [connected_]; the receive thread may see the peer close. *)
Record threads := mkThreads { flag : bool; main_set : bool; receiver_done : bool }.
Inductive thread_move := MainSetsConnected | PeerCloses.
Definition thread_step (m : thread_move) (t : threads) : option threads :=
  match m with
  | MainSetsConnected => if main_set t then None else Some (mkThreads true true (receiver_done t))
  | PeerCloses => if receiver_done t then None else Some (mkThreads false (main_set t) true)
  end.
End TCPSocketClient.

(** ** The C client *)

Import PlainClient.

(** What the client has sent is what was typed; its socket was closed [n] times. *)
Definition relayed (peer : Z) (n : nat) (h : history sys_ret) : Prop :=
  written h = ((λ l, (peer, l)) <$> typed h) ∧ closed_count peer h = n.

Lemma relayed_quiet peer n h c (r : sys_ret c) :
  line_of (existT c r) = [] → written [existT c r] = [] → closed_count peer [existT c r] = 0%nat →
  relayed peer n h → relayed peer n (h ++ [existT c r]).
Proof.
  unfold relayed. intros Hl Hw Hc [Hh Hn].
  by rewrite typed_snoc, written_app, closed_count_app, Hl, Hw, Hc, !app_nil_r, Nat.add_0_r.
Qed.

Definition no_error : string → history sys_ret → Prop := λ _ _, False.

(** Step over a call that is neither input nor output to the peer. *)
Lemma relayed_step {A} peer n c (f : sys_ret c → IO A) Q h :
  relayed peer n h →
  (∀ r, line_of (existT c r) = []) → (∀ r : sys_ret c, written [existT c r] = []) →
  (∀ r : sys_ret c, closed_count peer [existT c r] = 0%nat) →
  (∀ r h', relayed peer n h' → iowp resolves (f r) Q no_error h') →
  iowp resolves (sys c ≫= f) Q no_error h.
Proof.
  intros Hh Hl Hw Hc Hf. apply iowp_bind, iowp_sys. intros r _. by apply Hf, relayed_quiet.
Qed.

Ltac rstep := eapply relayed_step; [eassumption|done|done|done|].

Lemma round_relays peer h :
  relayed peer 0 h → iowp resolves (round peer) (λ r h',
    relayed peer 0 h' ∧ ∀ code, r = inr (Some code) → code = 1) no_error h.
Proof.
  intros Hh. unfold round. rstep. intros [reads|] h1 Hh1.
  2:{ rstep. intros [] h2 Hh2. apply iowp_ret. split; [done|]. by intros code [= <-]. }
  apply iowp_bind.
  assert (∀ h2, relayed peer 0 h2 →
    iowp resolves (handle_input peer reads) (λ r h',
      relayed peer 0 h' ∧ ∀ code, r = inr (Some code) → code = 1) no_error h2) as Hin.
  { intros h2 Hh2. unfold handle_input. case_bool_decide; [|by apply iowp_ret].
    apply iowp_bind, iowp_sys. intros [l|] _.
    2:{ apply iowp_ret. split; [by apply relayed_quiet|done]. }
    apply iowp_bind, iowp_sys. intros [] _. apply iowp_bind, iowp_sys. intros w _.
    apply iowp_bind, iowp_sys. intros [] _. apply iowp_ret. split; [|done]. destruct Hh2 as [Hw Hc].
    unfold relayed. rewrite !typed_snoc, !written_app, !closed_count_app, Hw, Hc.
    cbn. rewrite !app_nil_r, fmap_app. done. }
  case_bool_decide; [|apply iowp_ret; by apply Hin].
  rstep. intros [[|x d]|] h2 Hh2; rstep; intros [] h3 Hh3; apply iowp_ret;
    first [by apply Hin | by apply iowp_ret].
Qed.

Lemma rounds_relay fuel peer h :
  relayed peer 0 h →
  iowp resolves (forever fuel (λ _ : unit, round peer) tt) (λ r h',
    relayed peer 0 h' ∧ ∀ code, r = Some (Some code) → code = 1) no_error h.
Proof.
  revert h. induction fuel as [|fuel IH]; intros h Hh; cbn [forever]; [by apply iowp_ret|].
  apply iowp_bind. eapply iowp_mono; [|done|by apply round_relays].
  intros [[]|r] h' [Hh' Hc]; [by apply IH|]. apply iowp_ret. split; [done|].
  intros code [= ->]. by apply Hc.
Qed.

(** The C client, for every behaviour of system, peer and user in which the peer's address
    can be resolved: it sends to its peer exactly the lines typed, in order, one [send] each;
    if it returns 0 it has closed its socket once. *)
Theorem tcp_client_relays (env : environment sys_ret) fuel args :
  (∀ h c, resolves c (env h c)) →
  let '(r, h) := run env (main fuel args) [] in
  ∃ peer, written h = ((λ l, (peer, l)) <$> typed h) ∧
    match r with
    | Ok (Some 0) => closed_count peer h = 1%nat
    | Ok (Some code) => code = 1 ∧ closed_count peer h = 0%nat
    | Ok None => closed_count peer h = 0%nat
    | _ => False
    end.
Proof.
  assert (iowp resolves (main fuel args) (λ r h, ∃ peer,
    relayed peer (if bool_decide (r = Some 0) then 1 else 0) h ∧ r ∈ [None; Some 0; Some 1]) no_error []) as Hm.
  { assert (∀ p, relayed p 0 []) as Hp by done.
    unfold main. destruct args as [|host [|port args]];
      try (pose proof (Hp 0) as Hp0; rstep; intros [] h Hh; apply iowp_ret; exists 0; split; [done|set_solver]).
    apply iowp_bind, iowp_sys. intros [] _. apply iowp_bind, iowp_sys. intros r [addr ->].
    apply iowp_bind, iowp_sys. intros [] _. apply iowp_bind, iowp_sys. intros r [[a b] ->].
    apply iowp_bind, iowp_sys. intros [] _. apply iowp_bind, iowp_sys. intros [] _.
    apply iowp_bind, iowp_sys. intros s _.
    set (h1 := (((((([] ++ _) ++ _) ++ _) ++ _) ++ _) ++ _) ++ _).
    assert (∀ p, relayed p 0 h1) as Hh1 by (intros p; repeat (apply relayed_quiet; [done..|]); done).
    clearbody h1. destruct s as [s|].
    2:{ specialize (Hh1 0). rstep. intros [] h Hh. apply iowp_ret. exists 0. split; [done|set_solver]. }
    specialize (Hh1 s). rstep. intros [] h2 Hh2. rstep. intros ok h3 Hh3. destruct ok; simpl.
    2:{ rstep. intros [] h4 Hh4. apply iowp_ret. exists s. split; [done|set_solver]. }
    rstep. intros [] h4 Hh4. rstep. intros [] h5 Hh5. apply iowp_bind.
    eapply iowp_mono; [|done|by apply rounds_relay]. intros r h6 [Hh6 Hcode].
    destruct r as [[code|]|].
    - apply iowp_ret. exists s. rewrite (Hcode code eq_refl). split; [done|set_solver].
    - rstep. intros [] h7 Hh7. apply iowp_bind, iowp_sys. intros b' _. apply iowp_bind, iowp_sys.
      intros [] _. apply iowp_ret. exists s. split; [|set_solver]. destruct Hh7 as [Hw Hc].
      unfold relayed. rewrite !typed_snoc, !written_app, !closed_count_app, Hw, Hc.
      unfold closed_count. simpl. rewrite Z.eqb_refl, !app_nil_r. done.
    - apply iowp_ret. exists s. split; [done|set_solver]. }
  intros Hres. pose proof (iowp_run resolves env _ _ _ [] Hres Hm) as Hr.
  destruct (run env (main fuel args) []) as [[r| |] h]; simpl in Hr; [|done|done].
  destruct Hr as (peer & [Hw Hc] & Hin). exists peer. split; [done|].
  rewrite !elem_of_cons in Hin. destruct Hin as [->|[->|[->|Hin]]]; [done|done|done|].
  by apply not_elem_of_nil in Hin.
Qed.

(** ** The class *)

Import TCPSocketClient.

(** No connection can be made; there is always more input. *)
Definition unreachable (c : sys_call) : sys_ret c → Prop :=
  match c with
  | Connect _ _ => λ r, r = false
  | Fgets _ => λ r, r ≠ None
  | c => resolves c
  end.

Lemma connect_fails c E h :
  iowp unreachable (connect c) (λ r _, fst r = false ∧ joinable (snd r) = joinable c ∧
    connected_ (snd r) = connected_ c) E h.
Proof.
  unfold connect. apply iowp_bind, iowp_sys. intros [] _. apply iowp_bind, iowp_sys. intros [s|] _.
  - apply iowp_bind, iowp_sys. intros [] _. apply iowp_bind, iowp_sys. intros ok Hok. simpl in Hok.
    subst ok. simpl. apply iowp_bind, iowp_sys. intros e _. apply iowp_bind, iowp_sys. intros [] _.
    by apply iowp_ret.
  - apply iowp_bind, iowp_sys. intros [] _. by apply iowp_ret.
Qed.

Lemma input_loop_unconnected fuel c E h :
  joinable c = false → connected_ c = false →
  iowp unreachable (input_loop fuel c) (λ r _, ∀ c', r = Some c' → joinable c' = false) E h.
Proof.
  revert c h. induction fuel as [|fuel IH]; intros c h Hj Hc; cbn [input_loop]; [by apply iowp_ret|].
  apply iowp_bind, iowp_sys. intros [] _. apply iowp_bind, iowp_sys. intros [l|] Hl; [|done].
  cbv zeta. case_bool_decide; [apply iowp_ret; by intros c' [= <-]|].
  apply iowp_bind. unfold send_message. rewrite Hc. apply iowp_bind.
  eapply iowp_mono; [|done|apply connect_fails]. intros [ok c'] h' (Hok & Hj' & Hc').
  simpl in *. subst ok. simpl. apply iowp_ret. apply IH; congruence.
Qed.

(** A client whose peer's address is known, but that never could connect: as long as there is input it can only be
    left by [exit], and then its destructor terminates the program instead of
    closing the socket. *)
Theorem unconnected_client_terminates (env : environment sys_ret) fuel host port args n :
  (∀ h s a, env h (Connect s a) = false) → (∀ h k, env h (Fgets k) ≠ None) →
  (∀ h c, resolves c (env h c)) →
  let r := fst (run env (TCPSocketClient.main fuel (host :: port :: args) n) []) in
  r = Ok None ∨ r = Throw "std::terminate".
Proof.
  intros Hcon Hget Hres.
  assert (iowp unreachable (TCPSocketClient.main fuel (host :: port :: args) n)
    (λ r _, r = None) (λ e _, e = "std::terminate"%string) []) as Hm.
  { unfold TCPSocketClient.main, construct. apply iowp_bind.
    apply iowp_bind, iowp_sys. intros [] _. apply iowp_bind, iowp_sys. intros r [addr ->].
    apply iowp_bind, iowp_sys. intros [] _. apply iowp_bind, iowp_sys. intros r [[a b] ->].
    apply iowp_bind, iowp_sys. intros [] _. apply iowp_bind.
    eapply iowp_mono; [|intros ? ? He; exact He|apply connect_fails]. intros [ok c] h (_ & Hj & Hc). cbn [fst snd joinable connected_] in Hj, Hc.
    apply iowp_ret. apply iowp_bind. eapply iowp_mono; [|intros ? ? He; exact He|by apply input_loop_unconnected].
    intros [c'|] h' Hc'; [|by apply iowp_ret]. specialize (Hc' c' eq_refl).
    apply iowp_bind. unfold destroy. rewrite Hc'. apply iowp_bind. apply iowp_sys. intros [] _.
    by apply iowp_throw. }
  assert (∀ h c, unreachable c (env h c)) as Hok.
  { intros h c. pose proof (Hres h c). destruct c; try done; simpl; [apply Hcon|apply Hget]. }
  pose proof (iowp_run unreachable env _ _ _ [] Hok Hm) as Hr. cbv zeta.
  destruct (run env _ []) as [[r|e|w] h]; simpl in *; [left|right|done]; congruence.
Qed.

(** The flag [connected_]: if the peer closes before the main thread has set the
    flag, the flag is true while the receive thread has ended, and no later step of
    the two threads corrects it, so [send_message] never reconnects; in the other
    order the flag is right. *)
Theorem missed_disconnect :
  exec_all thread_step [PeerCloses; MainSetsConnected] (mkThreads false false false) =
    Some (mkThreads true true true) ∧
  (∀ m, thread_step m (mkThreads true true true) = None) ∧
  exec_all thread_step [MainSetsConnected; PeerCloses] (mkThreads false false false) =
    Some (mkThreads false true true) ∧
  ∀ (env : environment sys_ret) c msg h, connected_ c = true →
    calls (snd (run env (send_message c msg) h)) =
      calls h ++ [Write (socket_peer_ c) msg;
        Print (txt "Sent " ++ to_text (default (-1) (env h (Write (socket_peer_ c) msg))) ++
               txt " bytes." ++ newline)].
Proof.
  split_and!; [done|by intros []|done|]. intros env c msg h Hc.
  unfold send_message. rewrite Hc. rewrite run_io. cbn [mret IO_ret run negb].
  rewrite run_io. cbn [sys run]. rewrite run_io. unfold print. cbn [sys run mret IO_ret snd].
  unfold calls. rewrite !fmap_app. cbn. by rewrite <- app_assoc.
Qed.

(** ** Witnesses *)

Definition ex_keyboard : environment sys_ret := λ h c,
  match c with
  | Socket => Some 3
  | Connect _ _ => false
  | Fgets _ => Some (txt "exit" ++ newline)
  | c => pair_env 0 None h c
  end.

Lemma unconnected_client_terminates_witness :
  fst (run ex_keyboard (TCPSocketClient.main 2 [txt "host"; txt "80"] 80) []) =
    Throw "std::terminate".
Proof.
  destruct (unconnected_client_terminates ex_keyboard 2 (txt "host") (txt "80") [] 80) as [H|H];
    [done|done|by intros h c; destruct c; try done; eexists| |exact H].
  exfalso. vm_compute in H. discriminate.
Defined.
