(* ===== verification/Udp.v ===== *)
(** The UDP programs of [src/utils/udp_socket]: the message layout of [data.h], the
    sender [client.cpp], the receiver [server.cpp] and [client_and_server.cpp].

    A [Data] object is its 28 bytes (the struct is packed; little-endian machine):
    the message type at offset 0, the version at 4, the identifier's 15 bytes at 6.

    The theorems: what the client sends is what the server decodes; an identifier of
    15 characters passes the length check and is written behind its array; the
    combined program reports what it sent, whatever it received. *)
From S2P Require Import Prelude Text Posix UnixSocket.
Local Open Scope Z_scope.

(* @src utils/udp_socket/data.h 5-5 MessageType *)
Inductive MessageType := MSG_START | MSG_STOP | MSG_DATA.
Definition message_code (t : MessageType) : Z :=
  match t with MSG_START => 0 | MSG_STOP => 1 | MSG_DATA => 2 end.

(** Little-endian numbers. *)
Fixpoint le (n : nat) (z : Z) : text :=
  match n with O => [] | S n => chr (z mod 256) :: le n (z / 256) end.
Fixpoint of_le (s : text) : Z :=
  match s with [] => 0 | c :: s => code c + 256 * of_le s end.

(* @src utils/udp_socket/data.h 12-25 Data *)
(** The layout: sizes and offsets of [connect] in the packed struct; the union is as
    large as [payload]. *)
Definition identifier_size : nat := 15.
Definition version_offset : nat := 4.
Definition identifier_offset : nat := 6.
Definition data_size : nat := 28.

(** Overwriting bytes of an object. *)
Definition store_at (off : nat) (bytes obj : text) : text :=
  take off obj ++ bytes ++ drop (off + length bytes) obj.

Definition set_message_type (t : MessageType) (d : text) : text := store_at 0 (le 4 (message_code t)) d.
Definition set_version (v : Z) (d : text) : text := store_at version_offset (le 2 v) d.

(** [strcpy(d.connect.identifier, s)] *)
Definition set_identifier (s : text) (d : text) : outcome text :=
  if (identifier_size <? length s + 1)%nat then UB "strcpy writes behind the array"
  else Ok (store_at identifier_offset (s ++ [nul]) d).

Definition get_version (d : text) : Z := of_le (take 2 (drop version_offset d)).

(** [std::string(d.connect.identifier)]: up to the next null in memory. *)
Definition get_identifier (d : text) : outcome text :=
  if bool_decide (nul ∈ drop identifier_offset d) then Ok (until_nul (drop identifier_offset d))
  else UB "string without end".

Definition io_lift {A} (o : outcome A) : IO A := Ret o.

Module Client.
(* @src utils/udp_socket/client.cpp 17-47 main *)
(** [d] are the bytes of the uninitialised object. *)
Definition main (d : text) : IO Z :=
  d ← io_lift (set_identifier (txt "file_name") (set_version 7 d));
  sockfd ← sys Socket;
  match sockfd with
  | None => _ ← perror "socket creation failed"; mret 1
  | Some sockfd =>
      _ ← sys (Sendto sockfd d);
      _ ← print (txt "message sent." ++ newline);
      _ ← sys (Close sockfd);
      mret 0
  end.
End Client.

Module Server.
Definition buf_size : Z := 0x0ffff.

(** The three lines about a datagram in [buf]; [shown] is what the last two show. *)
Definition report (buf shown : text) : IO unit :=
  _ ← print (txt "Received " ++ to_text buf_size ++ txt " bytes: " ++ until_nul buf ++ newline);
  id ← io_lift (get_identifier shown);
  _ ← print (txt "data.identifier = " ++ id ++ txt " " ++ newline);
  print (txt "data.version = " ++ to_text (get_version shown) ++ txt " " ++ newline).

(* @src utils/udp_socket/server.cpp 49-59 main *)
(** One iteration: the datagram overwrites the beginning of the buffer. *)
Definition receive (sockfd : Z) (buf : text) : IO (text + unit) :=
  n ← sys (Read sockfd buf_size);
  match n with
  | None => mret (inl buf)
  | Some d => let buf := store_at 0 d buf in _ ← report buf buf; mret (inl buf)
  end.

(* @src utils/udp_socket/server.cpp 17-61 main *)
Definition main (fuel : nat) (buf : text) : IO (option Z) :=
  sockfd ← sys Socket;
  match sockfd with
  | None => _ ← perror "socket creation failed"; mret (Some 1)
  | Some sockfd =>
      ok ← sys (Bind sockfd (txt "0.0.0.0:8080"));
      if negb ok then _ ← perror "bind failed"; mret (Some 1) else
      r ← forever fuel (receive sockfd) buf;
      mret ((λ _ : unit, 0) <$> r)
  end.
End Server.

Module ClientAndServer.
(* @src utils/udp_socket/client_and_server.cpp 56-68 main *)
(** Filling in the message: [Some] message, or [None] if the identifier is refused. *)
Definition make_message (identifier : text) : outcome (option text) :=
  let data := set_message_type MSG_START (replicate data_size nul) in
  if (identifier_size <? length identifier)%nat then Ok None
  else d ← set_identifier identifier (set_version 2 data); Ok (Some d).

(* @src utils/udp_socket/client_and_server.cpp 17-94 main *)
(** [receive_buffer] are the bytes of the uninitialised buffer.  The last two lines
    it prints are read from [data], the message sent. *)
Definition main (receive_buffer : text) : IO Z :=
  recv_socket_fd ← sys Socket;
  match recv_socket_fd with
  | None =>
      e ← sys Strerror;
      _ ← eprint (txt "Error opening UDP socket: " ++ e ++ newline); mret 1
  | Some recv_socket_fd =>
      ok ← sys (Bind recv_socket_fd (txt "localhost:1234"));
      if negb ok then _ ← eprint (txt "Failed to bind" ++ newline); mret 1 else
      send_socket_fd ← sys Socket;
      let fd := default (-1) send_socket_fd in
      message ← io_lift (make_message (txt "test_file_name"));
      match message with
      | None => _ ← eprint (txt "identifier too long" ++ newline); _ ← sys (Close fd); mret 1
      | Some data =>
          _ ← eprint (txt "Send data with version " ++ to_text 2 ++ newline);
          result ← sys (Sendto fd data);
          _ ← (match result with None => eprint (txt "Failed to send" ++ newline) | _ => mret tt end);
          n ← sys (Read recv_socket_fd Server.buf_size);
          _ ← (match n with
               | None => mret tt
               | Some d => Server.report (store_at 0 d receive_buffer) data
               end);
          _ ← sys (Close fd);
          mret 0
      end
  end.
End ClientAndServer.

(** ** Lemmas *)

Lemma le_length n z : length (le n z) = n.
Proof. revert z. induction n as [|n IH]; intros z; simpl; [done|by rewrite IH]. Qed.

Lemma of_le_le n z : 0 ≤ z < 256 ^ Z.of_nat n → of_le (le n z) = z.
Proof.
  revert z. induction n as [|n IH]; intros z Hz; [simpl in *; lia|]. cbn [le of_le].
  rewrite Nat2Z.inj_succ, Z.pow_succ_r in Hz by lia.
  pose proof (Z.mod_pos_bound z 256 ltac:(lia)). rewrite code_chr by done.
  rewrite IH by (split; [apply Z.div_pos|apply Z.div_lt_upper_bound]; lia).
  pose proof (Z.div_mod z 256). lia.
Qed.

Lemma store_at_length off b o : (off + length b ≤ length o)%nat → length (store_at off b o) = length o.
Proof. intros. unfold store_at. rewrite !length_app, length_take, length_drop. lia. Qed.

Lemma drop_store_at off b o :
  (off ≤ length o)%nat → drop off (store_at off b o) = b ++ drop (off + length b) o.
Proof. intros. unfold store_at. rewrite drop_app_length'; [done|]. rewrite length_take. lia. Qed.

Lemma take_store_at n off b o : (n ≤ off)%nat → (off ≤ length o)%nat → take n (store_at off b o) = take n o.
Proof.
  intros. unfold store_at. rewrite take_app_le by (rewrite length_take; lia).
  rewrite take_take. f_equal. lia.
Qed.

Lemma until_nul_app_nul s r : nul ∉ s → until_nul (s ++ nul :: r) = s.
Proof. apply until_nul_pad. Qed.

(** The fields of a message that was filled in. *)
Lemma message_fields v id d :
  length d = data_size → 0 ≤ v < 2 ^ 16 → nul ∉ id → (length id < identifier_size)%nat →
  ∃ m, set_identifier id (set_version v d) = Ok m ∧ length m = data_size ∧
    ∀ rest, get_identifier (m ++ rest) = Ok id ∧ get_version (m ++ rest) = v.
Proof.
  intros Hd Hv Hn Hl. unfold set_identifier, identifier_size in *.
  rewrite (proj2 (Nat.ltb_ge _ _)) by lia. eexists. split; [done|].
  assert (length (set_version v d) = data_size) as Hs.
  { unfold set_version. rewrite store_at_length; [done|]. rewrite le_length, Hd.
    unfold version_offset, data_size. lia. }
  assert (length (id ++ [nul]) = S (length id)) as Hi by (rewrite length_app; simpl; lia).
  assert (length (store_at identifier_offset (id ++ [nul]) (set_version v d)) = data_size) as Hm.
  { rewrite store_at_length; [done|]. rewrite Hi, Hs. unfold identifier_offset, data_size. lia. }
  split; [done|]. intros rest. split.
  - unfold get_identifier. rewrite drop_app_le by (rewrite Hm; unfold identifier_offset, data_size; lia).
    rewrite drop_store_at by (rewrite Hs; unfold identifier_offset, data_size; lia).
    rewrite <- !app_assoc. simpl. rewrite bool_decide_eq_true_2 by set_solver.
    by rewrite until_nul_app_nul.
  - unfold get_version. rewrite drop_app_le by (rewrite Hm; unfold version_offset, data_size; lia).
    rewrite take_app_le by (rewrite length_drop, Hm; unfold version_offset, data_size; lia).
    rewrite take_drop_commute, take_store_at
      by (rewrite ?Hs; unfold version_offset, identifier_offset, data_size; lia).
    rewrite <- take_drop_commute. unfold set_version.
    rewrite drop_store_at by (rewrite Hd; unfold version_offset, data_size; lia).
    rewrite take_app_length' by (symmetry; apply le_length). apply of_le_le. simpl. lia.
Qed.

Lemma store_at_0 (b o : text) : store_at 0 b o = b ++ drop (length b) o.
Proof. done. Qed.

(** ** Properties *)

(** For every version and every identifier without null that fits, whatever the
    rest of the sender's object and of the receiver's buffer holds: from the message
    the sender fills in, the receiver reads back this version and identifier. *)
Theorem udp_message_roundtrip v id garbage buf :
  length garbage = data_size → 0 ≤ v < 2 ^ 16 → nul ∉ id → (length id ≤ 14)%nat →
  ∃ m, set_identifier id (set_version v garbage) = Ok m ∧ length m = data_size ∧
    get_identifier (store_at 0 m buf) = Ok id ∧ get_version (store_at 0 m buf) = v.
Proof.
  intros Hg Hv Hn Hl.
  destruct (message_fields v id garbage) as (m & Hm & Hlen & Hf);
    [done|done|done|unfold identifier_size; lia|].
  exists m. rewrite store_at_0. split_and!; [done|done|apply Hf|apply Hf].
Qed.

(** The length check of the combined program accepts one character too many: up
    to 14 characters are written within the array, more than 15 are refused, and
    exactly 15 are accepted and written behind it. *)
Theorem udp_identifier_check id :
  match ClientAndServer.make_message id with
  | Ok (Some m) => (length id ≤ 14)%nat ∧ length m = data_size
  | Ok None => (16 ≤ length id)%nat
  | UB _ => length id = 15%nat
  | Throw _ => False
  end.
Proof.
  unfold ClientAndServer.make_message, set_identifier, identifier_size.
  destruct (Nat.ltb_spec 15 (length id)); [lia|].
  destruct (Nat.ltb_spec 15 (length id + 1)); cbn [mbind outcome_bind]; [lia|]. split; [lia|].
  assert (length (set_message_type MSG_START (replicate data_size nul)) = data_size) as H1 by done.
  assert (length (set_version 2 (set_message_type MSG_START (replicate data_size nul))) = data_size)
    as H2 by done.
  rewrite store_at_length; [done|]. rewrite H2, length_app.
  unfold identifier_offset, data_size; simpl; lia.
Qed.

(** The combined program shows what it sent: whatever datagram it receives, the
    identifier and the version it prints are the constants of its own message, and
    the number of bytes it prints is the size of its buffer. *)
Theorem client_and_server_shows_sent (env : environment sys_ret) buf :
  let '(r, h) := run env (ClientAndServer.main buf) [] in
  r = Ok 1 ∨
  (r = Ok 0 ∧ (stdout h = [] ∨ ∃ received,
     stdout h =
       [txt "Received 65535 bytes: " ++ received ++ newline;
        txt "data.identifier = test_file_name " ++ newline;
        txt "data.version = 2 " ++ newline])).
Proof.
  assert (io_always (ClientAndServer.main buf) (λ r h, r = 1 ∨
    (r = 0 ∧ (stdout h = [] ∨ ∃ received, stdout h =
       [txt "Received 65535 bytes: " ++ received ++ newline;
        txt "data.identifier = test_file_name " ++ newline;
        txt "data.version = 2 " ++ newline]))) (λ _ _, False) []) as Hm.
  { unfold ClientAndServer.main. apply iowp_bind, iowp_sys. intros [fd|] _.
    2:{ apply iowp_bind, iowp_sys. intros e _. apply iowp_bind, iowp_sys. intros [] _.
        apply iowp_ret. by left. }
    apply iowp_bind, iowp_sys. intros ok _. destruct ok; cbn [negb].
    2:{ apply iowp_bind, iowp_sys. intros [] _. apply iowp_ret. by left. }
    apply iowp_bind, iowp_sys. intros fd2 _. apply iowp_bind.
    destruct (ClientAndServer.make_message (txt "test_file_name")) as [m| |] eqn:Em; [|done|done].
    apply iowp_ret. destruct m as [m|]; [|done].
    apply iowp_bind, iowp_sys. intros [] _. apply iowp_bind, iowp_sys. intros w _.
    assert (get_identifier m = Ok (txt "test_file_name") ∧ get_version m = 2) as [Hid Hv].
    { vm_compute in Em. injection Em as <-. done. }
    clear Em. apply iowp_bind.
    eapply (iowp_mono _ _ (λ _ h, stdout h = [])); [|intros ? ? He; exact He|].
    2:{ destruct w; [by apply iowp_ret|]. apply iowp_sys. by intros [] _. }
    intros [] h Hh. apply iowp_bind, iowp_sys. intros d _. apply iowp_bind. destruct d as [d|].
    - unfold Server.report. apply iowp_bind, iowp_sys. intros [] _. apply iowp_bind. rewrite Hid.
      apply iowp_ret. apply iowp_bind, iowp_sys. intros [] _. apply iowp_sys. intros [] _.
      apply iowp_bind, iowp_sys. intros b _. apply iowp_ret. right. split; [done|]. right.
      exists (until_nul (store_at 0 d buf)). rewrite !stdout_app, Hh, Hv. done.
    - apply iowp_ret. apply iowp_bind, iowp_sys. intros b _. apply iowp_ret. right. split; [done|].
      left. by rewrite !stdout_app, Hh. }
  pose proof (iowp_run (λ _ _, True) env _ _ _ [] ltac:(done) Hm) as Hr.
  destruct (run env _ []) as [[r| |] h]; simpl in Hr; [|done|done].
  destruct Hr as [->|[-> Hr]]; [by left|right; by split].
Qed.

(** ** Witness *)

Lemma udp_message_roundtrip_witness :
  ∃ m, set_identifier (txt "file_name") (set_version 7 (replicate 28 "x"%char)) = Ok m ∧
    get_identifier (store_at 0 m (replicate 100 "y"%char)) = Ok (txt "file_name") ∧
    get_version (store_at 0 m (replicate 100 "y"%char)) = 7.
Proof.
  destruct (udp_message_roundtrip 7 (txt "file_name") (replicate 28 "x"%char) (replicate 100 "y"%char))
    as (m & Hm & _ & Hi & Hv); [done|lia|by apply (bool_decide_unpack _); vm_compute|simpl; lia|].
  by exists m.
Defined.
