(* ===== verification/CanPoll.v ===== *)
(** Three programs around [read]: the CAN dump [src/utils/can/candump.cpp], and
    [epoll_input.cpp] and [watch_std_io.cpp] of [src/cpp_practices/poll_examples/src].

    The theorems: the dump prints every frame with at most eight data bytes as it is
    on the bus, and needs an interface name of at most 15 characters; the epoll
    reader stops exactly at an input that begins with "stop", and a read that fills
    its buffer (or fails) makes it write outside. *)
From S2P Require Import Prelude Text Posix UnixSocket Udp.
Local Open Scope Z_scope.

Module Candump.

(** A [can_frame] is 16 bytes: the identifier, the length, padding, eight data bytes. *)
Definition frame_size : Z := 16.
Definition can_id (frame : text) : Z := of_le (take 4 frame).
Definition can_dlc (frame : text) : Z := of_le (take 1 (drop 4 frame)).
Definition can_data (frame : text) (i : nat) : outcome Z :=
  if (i <? 8)%nat then Ok (of_le (take 1 (drop (8 + i) frame))) else UB "data[8] is read".

Definition hex_digit (d : Z) : ascii := if d <? 10 then chr (48 + d) else chr (55 + d).
Fixpoint hex_digits (fuel : nat) (n : Z) : text :=
  match fuel with
  | O => []
  | S fuel => if n <? 16 then [hex_digit n] else hex_digits fuel (n / 16) ++ [hex_digit (n mod 16)]
  end.
(** [%0wX] of an unsigned number of at most 32 bits *)
Definition hex (w : nat) (n : Z) : text :=
  let s := hex_digits 8 n in replicate (w - length s) "0"%char ++ s.

(** The texts of the data bytes [i..i+n-1]. *)
Fixpoint data_text (frame : text) (i n : nat) : outcome text :=
  match n with
  | O => Ok []
  | S n =>
      b ← can_data frame i;
      t ← data_text frame (S i) n;
      Ok (txt " " ++ hex 2 b ++ t)
  end.

(* @src utils/can/candump.cpp 53-58 main *)
(** The line of a frame. *)
Definition frame_line (frame : text) : outcome text :=
  t ← data_text frame 0 (Z.to_nat (can_dlc frame));
  Ok (txt "CAN ID: 0x" ++ hex 3 (can_id frame) ++ txt " DLC: " ++ to_text (can_dlc frame) ++
      txt " Data:" ++ t ++ newline).

(* @src utils/can/candump.cpp 45-59 main *)
(** One iteration; the frame keeps its bytes where the read did not write. *)
Definition receive (s : Z) (frame : text) : IO (text + Z) :=
  r ← sys (Read s frame_size);
  match r with
  | None => _ ← perror "Read"; mret (inr 1)
  | Some d =>
      let frame := store_at 0 d frame in
      line ← io_lift (frame_line frame);
      _ ← print line;
      mret (inl frame)
  end.

(* @src utils/can/candump.cpp 10-63 main *)
(** [frame] are the bytes of the uninitialised frame; [ifr_name] has 16 bytes. *)
Definition main (fuel : nat) (argv : list text) (frame : text) : IO (option Z) :=
  match argv with
  | [_; can_interface_name] =>
      s ← sys Socket;
      match s with
      | None => _ ← perror "Socket"; mret (Some 1)
      | Some s =>
          if (16 <? length can_interface_name + 1)%nat then undefined "strcpy writes behind ifr_name" else
          _ ← sys (Ioctl s);
          ok ← sys (Bind s can_interface_name);
          if negb ok then _ ← perror "Bind"; mret (Some 1) else
          _ ← print (txt "Listening on can0..." ++ newline);
          forever fuel (receive s) frame
      end
  | _ => _ ← eprint (txt "Usage: " ++ default [] (head argv) ++ txt " <can_interface_name>" ++ newline);
         mret (Some 1)
  end.

(** The frame of an identifier and its data, as the kernel delivers it. *)
Definition make_frame (id : Z) (data : list Z) : text :=
  le 4 id ++ le 1 (Z.of_nat (length data)) ++ replicate 3 nul ++
  (data ≫= le 1) ++ replicate (8 - length data) nul.

Lemma data_bytes_length (data : list Z) : length (data ≫= le 1) = length data.
Proof. induction data as [|b data IH]; [done|]. cbn [mbind list_bind]. rewrite length_app, IH. done. Qed.

Lemma make_frame_length id data : (length data ≤ 8)%nat → length (make_frame id data) = 16%nat.
Proof.
  intros. unfold make_frame. rewrite !length_app, !le_length, data_bytes_length, !length_replicate. lia.
Qed.

Lemma data_text_of (pre : text) (data : list Z) (post : text) i :
  Forall (λ b, 0 ≤ b < 256) data → (i + length data ≤ 8)%nat → length pre = (8 + i)%nat →
  data_text (pre ++ (data ≫= le 1) ++ post) i (length data) =
    Ok (data ≫= λ b, txt " " ++ hex 2 b).
Proof.
  intros Hd. revert pre i. induction Hd as [|b data Hb Hd IH]; intros pre i Hi Hp; [done|].
  cbn [length data_text]. unfold can_data at 1. rewrite (proj2 (Nat.ltb_lt _ _)) by (simpl in Hi; lia).
  cbn [mbind outcome_bind list_bind]. rewrite <- app_assoc.
  rewrite drop_app_length' by (simpl; lia).
  assert (of_le (take 1 (le 1 b ++ (data ≫= le 1) ++ post)) = b) as ->.
  { rewrite take_app_length' by (symmetry; apply le_length). apply of_le_le. simpl. lia. }
  rewrite app_assoc. rewrite IH; [|simpl in Hi; lia|rewrite length_app, le_length, Hp; lia].
  cbn [mbind outcome_bind]. by rewrite <- !app_assoc.
Qed.

(** A frame with an identifier of 32 bits and at most eight data bytes is printed
    with its identifier, length and bytes. *)
Theorem candump_frame_line id data rest :
  0 ≤ id < 2 ^ 32 → (length data ≤ 8)%nat → Forall (λ b, 0 ≤ b < 256) data →
  frame_line (store_at 0 (make_frame id data) rest) =
    Ok (txt "CAN ID: 0x" ++ hex 3 id ++ txt " DLC: " ++ to_text (Z.of_nat (length data)) ++
        txt " Data:" ++ (data ≫= λ b, txt " " ++ hex 2 b) ++ newline).
Proof.
  intros Hid Hl Hd. rewrite store_at_0. unfold make_frame. rewrite <- !app_assoc.
  set (post := replicate (8 - length data) nul ++ _).
  unfold frame_line, can_dlc, can_id.
  assert (of_le (take 4 (le 4 id ++ le 1 (Z.of_nat (length data)) ++ replicate 3 nul ++
    (data ≫= le 1) ++ post)) = id) as ->.
  { rewrite take_app_length' by (symmetry; apply le_length). apply of_le_le. simpl. lia. }
  assert (of_le (take 1 (drop 4 (le 4 id ++ le 1 (Z.of_nat (length data)) ++ replicate 3 nul ++
    (data ≫= le 1) ++ post))) = Z.of_nat (length data)) as ->.
  { rewrite drop_app_length' by (symmetry; apply le_length).
    rewrite take_app_length' by (symmetry; apply le_length). apply of_le_le. simpl. lia. }
  rewrite Nat2Z.id.
  pose proof (data_text_of (le 4 id ++ le 1 (Z.of_nat (length data)) ++ replicate 3 nul) data post 0 Hd)
    as Ht. rewrite <- !app_assoc in Ht.
  rewrite Ht; [done|lia|]. by rewrite !length_app, !le_length.
Qed.

Lemma candump_frame_line_witness :
  frame_line (store_at 0 (make_frame 0x123 [0xDE; 0xAD]) []) =
    Ok (txt "CAN ID: 0x123 DLC: 2 Data: DE AD" ++ newline).
Proof.
  rewrite candump_frame_line; [done|lia|simpl; lia|]. repeat constructor; lia.
Defined.
End Candump.

Module EpollInput.

(* @src cpp_practices/poll_examples/src/epoll_input.cpp 7-7 kReadBufferSize *)
Definition kReadBufferSize : Z := 10.
(* @src cpp_practices/poll_examples/src/epoll_input.cpp 8-8 kMaxEvents *)
Definition kMaxEvents : Z := 5.

(* @src cpp_practices/poll_examples/src/epoll_input.cpp 37-46 main *)
(** The loop over the ready descriptors; the result is [running]. *)
Fixpoint handle_events (events : list Z) (running : bool) : IO bool :=
  match events with
  | [] => mret running
  | fd :: events =>
      _ ← print (txt "Reading file descriptor '" ++ to_text fd ++ txt "' -- ");
      r ← sys (Read fd kReadBufferSize);
      match r with
      | None => undefined "read_buffer[-1] is written"
      | Some d =>
          _ ← print (to_text (Z.of_nat (length d)) ++ txt " bytes read." ++ newline);
          if Z.of_nat (length d) =? kReadBufferSize then undefined "read_buffer[10] is written" else
          let s := until_nul d in
          _ ← print (txt "Read '" ++ s ++ txt "'" ++ newline);
          let running := if is_prefix (txt "stop" ++ newline) s then false else running in
          handle_events events running
      end
  end.

(* @src cpp_practices/poll_examples/src/epoll_input.cpp 29-47 main *)
Definition poll_once (epoll_fd : Z) (_ : unit) : IO (unit + unit) :=
  _ ← print (newline ++ txt "Polling for input..." ++ newline);
  events ← sys (EpollWait epoll_fd kMaxEvents);
  _ ← (match events with
       | [] => print (txt "Timeout." ++ newline)
       | _ => print (to_text (Z.of_nat (length events)) ++ txt " ready events" ++ newline)
       end);
  running ← handle_events events true;
  mret (if (running : bool) then inl tt else inr tt).

(* @src cpp_practices/poll_examples/src/epoll_input.cpp 6-54 main *)
Definition main (fuel : nat) : IO (option Z) :=
  epoll_fd ← sys EpollCreate;
  match epoll_fd with
  | None => _ ← eprint (txt "Failed to create epoll file descriptor" ++ newline); mret (Some 1)
  | Some epoll_fd =>
      ok ← sys (EpollAdd epoll_fd 0);
      if negb ok then
        _ ← eprint (txt "Failed to add file descriptor to epoll" ++ newline);
        _ ← sys (Close epoll_fd);
        mret (Some 1)
      else
      r ← forever fuel (poll_once epoll_fd) tt;
      match r with
      | None => mret None
      | Some _ =>
          ok ← sys (Close epoll_fd);
          if negb ok then
            _ ← eprint (txt "Failed to close epoll file descriptor" ++ newline); mret (Some 1)
          else mret (Some 0)
      end
  end.

(** The inputs read in a history. *)
Definition input_of (e : sigT sys_ret) : list text :=
  let 'existT c r := e in
  (match c return sys_ret c → list text with
   | Read _ _ => λ r, match r with Some d => [until_nul d] | None => [] end
   | _ => λ _, []
   end) r.
Definition inputs (h : history sys_ret) : list text := h ≫= input_of.

Lemma inputs_snoc h e : inputs (h ++ [e]) = inputs h ++ input_of e.
Proof. unfold inputs. rewrite bind_app. cbn [mbind list_bind]. by rewrite app_nil_r. Qed.

Definition says_stop (s : text) : bool := is_prefix (txt "stop" ++ newline) s.

(** Every read delivers less than a full buffer. *)
Definition short_reads (c : sys_call) : sys_ret c → Prop :=
  match c with
  | Read _ size => λ r, size = kReadBufferSize → ∃ d, r = Some d ∧ Z.of_nat (length d) < kReadBufferSize
  | _ => λ _, True
  end.

Definition no_throw : string → history sys_ret → Prop := λ _ _, False.

Lemma handle_events_spec events running h :
  iowp short_reads (handle_events events running) (λ r h', ∃ l,
    inputs h' = inputs h ++ l ∧ r = running && negb (existsb says_stop l)) no_throw h.
Proof.
  revert running h. induction events as [|fd events IH]; intros running h; cbn [handle_events].
  { apply iowp_ret. exists []. by rewrite app_nil_r, andb_true_r. }
  apply iowp_bind, iowp_sys. intros [] _. apply iowp_bind, iowp_sys. intros r Hr.
  destruct (Hr eq_refl) as (d & -> & Hd).
  apply iowp_bind, iowp_sys. intros [] _. rewrite (proj2 (Z.eqb_neq _ _)) by lia.
  apply iowp_bind, iowp_sys. intros [] _. cbv zeta. eapply iowp_mono; [|done|apply IH].
  intros r h' (l & Hl & ->). exists (until_nul d :: l). split.
  - rewrite Hl, !inputs_snoc. cbn [input_of]. by rewrite !app_nil_r, <- app_assoc.
  - unfold says_stop. cbn [existsb]. by destruct (is_prefix _ _), running.
Qed.

Lemma poll_forever_spec fuel epfd h :
  iowp short_reads (forever fuel (poll_once epfd) tt) (λ r h', ∃ l,
    inputs h' = inputs h ++ l ∧ (r = None ↔ existsb says_stop l = false)) no_throw h.
Proof.
  revert h. induction fuel as [|fuel IH]; intros h; cbn [forever].
  { apply iowp_ret. exists []. by rewrite app_nil_r. }
  apply iowp_bind. unfold poll_once at 1. apply iowp_bind, iowp_sys. intros [] _.
  apply iowp_bind, iowp_sys. intros events _. apply iowp_bind.
  eapply (iowp_mono _ _ (λ _ h', inputs h' = inputs h)); [|intros ? ? He; exact He|].
  2:{ destruct events; apply iowp_sys; intros [] _; rewrite !inputs_snoc; by rewrite !app_nil_r. }
  intros [] h1 H1. apply iowp_bind. eapply iowp_mono; [|done|apply handle_events_spec].
  intros r h2 (l & H2 & ->). apply iowp_ret. simpl. destruct (existsb says_stop l) eqn:El; simpl.
  - apply iowp_ret. exists l. rewrite H2, H1. split; [done|]. by rewrite El.
  - eapply iowp_mono; [|done|apply IH]. intros r h3 (l' & H3 & Hr). exists (l ++ l').
    rewrite H3, H2, H1, <- app_assoc. split; [done|]. by rewrite existsb_app, El.
Qed.

(** If every read leaves room in the buffer, the program never has undefined
    behaviour and leaves its loop exactly when an input beginning with "stop" and a
    newline was read. *)
Theorem epoll_stops_on_stop (env : environment sys_ret) fuel epfd :
  (∀ h c, short_reads c (env h c)) →
  let '(r, h) := run env (forever fuel (poll_once epfd) tt) [] in
  is_ok r = true ∧ (r = Ok None ↔ existsb says_stop (inputs h) = false).
Proof.
  intros Hok.
  pose proof (iowp_run short_reads env _ _ _ [] Hok (poll_forever_spec fuel epfd [])) as Hr.
  destruct (run env _ []) as [[r| |] h]; simpl in Hr; [|done|done].
  destruct Hr as (l & -> & Hr). split; [done|]. rewrite <- Hr. split; [by intros [= ->]|by intros ->].
Qed.

(** An input of ten bytes or more, or a read error, makes the program write
    outside of its buffer. *)
Theorem epoll_full_read_UB (env : environment sys_ret) fd events running h :
  let h1 := h ++ [existT (Print (txt "Reading file descriptor '" ++ to_text fd ++ txt "' -- ")) tt] in
  match env h1 (Read fd 10) with
  | None => fst (run env (handle_events (fd :: events) running) h) = UB "read_buffer[-1] is written"
  | Some d => length d = 10%nat →
      fst (run env (handle_events (fd :: events) running) h) = UB "read_buffer[10] is written"
  end.
Proof.
  intros h1. cbn [handle_events]. rewrite run_io. unfold print. cbn [sys run].
  assert (∀ u : unit, existT (P := sys_ret) (Print (txt "Reading file descriptor '" ++ to_text fd ++ txt "' -- ")) u =
    existT (Print (txt "Reading file descriptor '" ++ to_text fd ++ txt "' -- ")) tt) as Hu by (by intros []).
  rewrite Hu. fold h1. rewrite run_io. cbn [sys run].
  change (env h1 (Read fd kReadBufferSize)) with (env h1 (Read fd 10)).
  destruct (env h1 (Read fd 10)) as [d|]; [|done]. intros Hd.
  rewrite run_io. cbn [sys run]. by rewrite Hd.
Qed.

(** ** Witness *)
Definition ex_input : environment sys_ret := λ h c,
  match c with
  | Read _ _ => Some (txt "stop" ++ newline)
  | EpollWait _ _ => [0]
  | c => pair_env 0 None h c
  end.

Lemma epoll_stops_on_stop_witness :
  ∃ h, run ex_input (forever 3 (poll_once 4) tt) [] = (Ok (Some tt), h) ∧
    existsb says_stop (inputs h) = true.
Proof.
  pose proof (epoll_stops_on_stop ex_input 3 4) as H.
  assert (fst (run ex_input (forever 3 (poll_once 4) tt) []) = Ok (Some tt)) as Hf by (vm_compute; reflexivity).
  destruct (run ex_input _ []) as [r h]. simpl in Hf. subst r. exists h. split; [done|].
  destruct H as [_ H].
  - intros h' c. destruct c; try done. simpl. intros _. by eexists.
  - destruct (existsb says_stop (inputs h)); [done|]. discriminate (proj2 H eq_refl).
Defined.
End EpollInput.

Module WatchStdIo.

(* @src cpp_practices/poll_examples/src/watch_std_io.cpp 7-38 main *)
(** [POLLIN] is 1, [POLLOUT] 4; both entries watch descriptor 0.  The answer of
    [poll] are the returned events of the entries, [Some [0; 0]] on a timeout.
    [%.10s] reads ten characters unless there is a null before. *)
Definition main : IO Z :=
  ret ← sys (Poll [(0, 1); (0, 4)]);
  match ret with
  | None => _ ← perror "poll"; mret 1
  | Some revents =>
      let r0 := nth 0 revents 0 in
      let r1 := nth 1 revents 0 in
      if (r0 =? 0) && (r1 =? 0) then _ ← print (txt "5 seconds elapsed." ++ newline); mret 0 else
      _ ← (if negb (Z.land r1 4 =? 0) then print (txt "stdout is writable" ++ newline) else mret tt);
      _ ← (if negb (Z.land r0 1 =? 0) then
             r ← sys (Read 0 10);
             let d := default [] r in
             if (length d =? 10)%nat || bool_decide (nul ∈ d) then
               print (txt "stdin is readable. The first 10 chars are: " ++ until_nul d ++ newline)
             else undefined "uninitialised memory is printed"
           else mret tt);
      mret 0
  end.
End WatchStdIo.
