(* ===== verification/Delegate.v ===== *)
(** The class template [delegate<R(A...)>] of
    [src/cpp_practices/tricks/include/delegate.h] and its example program.

    A [world] is the delegates of a program, by name, and the heap of functor stores
    the shared pointers [store_] manage.  The control block of a store knows its
    owners (the use count is their number) and the deleter it was made with; the
    memory of a store holds a functor of some type.  Members that a constructor does
    not initialise are [None].

    A call of a functor may change it ([operator()] need not be const, a lambda may be
    mutable), and the change is seen by all delegates that share its store.  Functions,
    methods and functors also read and change the rest of the program, the environment;
    they do not use the delegates themselves.

    The theorems: a delegate is a variable that refers to what was bound to it last: a
    copy refers to the same functor object, a new binding of one delegate leaves the
    others alone, and functors that calls do not change give every delegate a value of its
    own; the well-formedness of the heap is kept by every operation; and three cases of
    undefined behaviour: assigning a functor to a default constructed delegate or after a
    reset, and destroying a delegate whose store was reused for a functor of another
    type. *)
From S2P Require Import Prelude.
Local Open Scope nat_scope.

(** ** What can be bound *)
Section delegate.
(** [Env] is the environment: what functions and methods read and change besides their
    argument. *)
Context {fn object method A R Env : Type}.
Context (call_fn : fn → A → Env → R * Env) (call_method : object → method → A → Env → R * Env).
(** The types of functors, by number, their sizes and what the call of a functor of a type
    with some captured values does: the new captured values, and the result. *)
Context (closure_size : nat → nat) (call_closure : nat → nat → A → Env → nat * (R * Env)) (pair_size : nat).

(* @src cpp_practices/tricks/include/delegate.h 142-146 delegate::member_pair *)
(** A functor is an object with a call operator, or a pair of an object and a method. *)
Inductive functor := Closure (type captured : nat) | MemberPair (o : object) (m : method).

(* @src cpp_practices/tricks/include/delegate.h 239-250 delegate::is_member_pair *)
Inductive ftype := ClosureType (type : nat) | PairType.
Definition type_of (f : functor) : ftype :=
  match f with Closure t _ => ClosureType t | MemberPair _ _ => PairType end.
Definition size_of (t : ftype) : nat :=
  match t with ClosureType t => closure_size t | PairType => pair_size end.

#[global] Instance ftype_eq_dec : EqDecision ftype.
Proof. solve_decision. Defined.

(* @src cpp_practices/tricks/include/delegate.h 252-263 delegate::functor_stub *)
(** The two overloads of [functor_stub] for the functor at [object_ptr]: the functor after
    the call, and the result. *)
Definition call_functor (f : functor) (a : A) (e : Env) : functor * (R * Env) :=
  match f with
  | Closure t c => let '(c', r) := call_closure t c a e in (Closure t c', r)
  | MemberPair o m => (f, call_method o m a e)
  end.

(* @src cpp_practices/tricks/include/delegate.h 224-237 delegate::function_stub *)
(** The stubs: [function_stub<f>], [method_stub<C, m>] (and [const_method_stub]),
    [functor_stub<T>]. *)
Inductive delegate_stub := FunctionStub (f : fn) | MethodStub (m : method) | FunctorStub (t : ftype).

(** [object_ptr_]: null, an object of the program, or the memory of a store. *)
Inductive pointer := Null | ToObject (o : object) | ToStore (l : nat).

(* @src cpp_practices/tricks/include/delegate.h 204-210 delegate *)
(** The fields; [None] for [object_ptr_], [deleter_] and [store_size_] is that they
    are not initialised. *)
Record delegate := mkDelegate {
  object_ptr_ : option pointer; stub_ptr_ : option delegate_stub; deleter_ : option ftype;
  store_ : option nat; store_size_ : option nat }.

(** The memory and the control block of a store. *)
Record block := mkBlock { content : option functor; made_for : ftype; owners : gset nat }.

Record world := mkWorld { delegates : gmap nat delegate; heap : gmap nat block }.

(** ** Shared pointers *)

Definition use_count (w : world) (s : option nat) : nat :=
  match s with
  | Some l => match heap w !! l with Some b => size (owners b) | None => 0 end
  | None => 0
  end.

(* @src cpp_practices/tricks/include/delegate.h 212-217 delegate::functor_deleter *)
(** The delegate [d] gives up its share of [s]; the last owner runs the deleter, which
    destroys an object of the type the store was made for. *)
Definition release (d : nat) (s : option nat) (h : gmap nat block) : outcome (gmap nat block) :=
  match s with
  | None => Ok h
  | Some l =>
      match h !! l with
      | None => UB "dangling shared pointer"
      | Some b =>
          let os := owners b ∖ {[d]} in
          if bool_decide (os = ∅) then
            match content b with
            | Some f => if bool_decide (type_of f = made_for b) then Ok (delete l h)
                        else UB "destructor of another type"
            | None => UB "destructor of nothing"
            end
          else Ok (<[l := mkBlock (content b) (made_for b) os]> h)
      end
  end.

(** Copying a shared pointer: [d] becomes an owner. *)
Definition share (d : nat) (s : option nat) (h : gmap nat block) : gmap nat block :=
  match s with
  | None => h
  | Some l =>
      match h !! l with
      | Some b => <[l := mkBlock (content b) (made_for b) ({[d]} ∪ owners b)]> h
      | None => h
      end
  end.

Definition fresh_store (h : gmap nat block) : nat := fresh (dom h : gset nat).

(** ** Construction *)

(* @src cpp_practices/tricks/include/delegate.h 19-25 delegate::delegate *)
Definition default_delegate : delegate := mkDelegate None None None None None.

(* @src cpp_practices/tricks/include/delegate.h 16-16 delegate::delegate *)
(** The private constructor: [deleter_] and [store_size_] stay uninitialised. *)
Definition bound (o : pointer) (m : delegate_stub) : delegate := mkDelegate (Some o) (Some m) None None None.

(* @src cpp_practices/tricks/include/delegate.h 110-113 delegate::from *)
Definition from_function (f : fn) : delegate := bound Null (FunctionStub f).
(* @src cpp_practices/tricks/include/delegate.h 115-133 delegate::from *)
Definition from_method (o : object) (m : method) : delegate := bound (ToObject o) (MethodStub m).

(* @src cpp_practices/tricks/include/delegate.h 27-31 delegate::delegate *)
(** The explicit constructors remember an object only. *)
Definition of_object (o : object) : delegate := mkDelegate (Some (ToObject o)) None None None None.

(** A new delegate named [d], which is not in use. *)
Definition construct (d : nat) (x : delegate) (w : world) : world :=
  mkWorld (<[d := x]> (delegates w)) (heap w).

(* @src cpp_practices/tricks/include/delegate.h 53-69 delegate::delegate *)
Definition construct_functor (d : nat) (f : functor) (w : world) : world :=
  let l := fresh_store (heap w) in
  let t := type_of f in
  mkWorld
    (<[d := mkDelegate (Some (ToStore l)) (Some (FunctorStub t)) (Some t) (Some l) (Some (size_of t))]>
       (delegates w))
    (<[l := mkBlock (Some f) t {[d]}]> (heap w)).

(* @src cpp_practices/tricks/include/delegate.h 33-51 delegate::delegate *)
(** The constructors with an object and a method move the delegate that [from] makes of
    a member pair into the new one. *)
Definition construct_method (d : nat) (o : object) (m : method) (w : world) : world :=
  construct_functor d (MemberPair o m) w.

(* @src cpp_practices/tricks/include/delegate.h 21-21 delegate::delegate *)
Definition construct_copy (d src : nat) (w : world) : outcome world :=
  match delegates w !! src with
  | Some x => Ok (mkWorld (<[d := x]> (delegates w)) (share d (store_ x) (heap w)))
  | None => UB "no such delegate"
  end.

(** ** Assignment *)

(* @src cpp_practices/tricks/include/delegate.h 71-71 delegate::operator= *)
(** Copy assignment: the new store is shared before the old one is given up. *)
Definition assign_copy (d src : nat) (w : world) : outcome world :=
  match delegates w !! d, delegates w !! src with
  | Some x, Some y =>
      if bool_decide (d = src) then Ok w else
      if bool_decide (store_ x = store_ y) then Ok (mkWorld (<[d := y]> (delegates w)) (heap w)) else
      h ← release d (store_ x) (share d (store_ y) (heap w));
      Ok (mkWorld (<[d := y]> (delegates w)) h)
  | _, _ => UB "no such delegate"
  end.

(* @src cpp_practices/tricks/include/delegate.h 75-83 delegate::operator= *)
(** Assigning a method binds it to the object of [object_ptr_]: the member pair of
    [from] is made in a store of its own, which is moved into the delegate. *)
Definition assign_method (d : nat) (m : method) (w : world) : outcome world :=
  match delegates w !! d with
  | None => UB "no such delegate"
  | Some x =>
      match object_ptr_ x with
      | Some (ToObject o) =>
          let l := fresh_store (heap w) in
          h ← release d (store_ x) (<[l := mkBlock (Some (MemberPair o m)) PairType {[d]}]> (heap w));
          Ok (mkWorld (<[d := mkDelegate (Some (ToStore l)) (Some (FunctorStub PairType))
                                (Some PairType) (Some l) (Some pair_size)]> (delegates w)) h)
      | Some (ToStore _) => UB "not an object of the class"
      | Some Null => UB "method of a null object"
      | None => UB "object_ptr_ is not initialised"
      end
  end.

(* @src cpp_practices/tricks/include/delegate.h 85-108 delegate::operator= *)
Definition assign_functor (d : nat) (f : functor) (w : world) : outcome world :=
  match delegates w !! d with
  | None => UB "no such delegate"
  | Some x =>
      let t := type_of f in
      let set l sz := mkDelegate (Some (ToStore l)) (Some (FunctorStub t)) (Some t) (Some l) (Some sz) in
      match store_size_ x with
      | None => UB "store_size_ is not initialised"
      | Some sz =>
          if (sz <? size_of t) || (1 <? use_count w (store_ x)) then
            let l := fresh_store (heap w) in
            h ← release d (store_ x) (<[l := mkBlock (Some f) t {[d]}]> (heap w));
            Ok (mkWorld (<[d := set l (size_of t)]> (delegates w)) h)
          else
            match store_ x, deleter_ x with
            | Some l, Some told =>
                match heap w !! l with
                | Some b =>
                    if bool_decide (type_of <$> content b = Some told) then
                      Ok (mkWorld (<[d := set l sz]> (delegates w))
                            (<[l := mkBlock (Some f) (made_for b) (owners b)]> (heap w)))
                    else UB "destructor of another type"
                | None => UB "dangling shared pointer"
                end
            | _, _ => UB "destructor of nothing"
            end
      end
  end.

(* @src cpp_practices/tricks/include/delegate.h 168-171 delegate::reset *)
Definition reset (d : nat) (w : world) : outcome world :=
  match delegates w !! d with
  | None => UB "no such delegate"
  | Some x =>
      h ← release d (store_ x) (heap w);
      Ok (mkWorld (<[d := mkDelegate (object_ptr_ x) None (deleter_ x) None (store_size_ x)]>
                    (delegates w)) h)
  end.

(* @src cpp_practices/tricks/include/delegate.h 173-173 delegate::reset_stub *)
Definition reset_stub (d : nat) (w : world) : outcome world :=
  match delegates w !! d with
  | None => UB "no such delegate"
  | Some x =>
      Ok (mkWorld (<[d := mkDelegate (object_ptr_ x) None (deleter_ x) (store_ x) (store_size_ x)]>
                    (delegates w)) (heap w))
  end.

(** The destructor of a delegate. *)
Definition destroy (d : nat) (w : world) : outcome world :=
  match delegates w !! d with
  | None => UB "no such delegate"
  | Some x =>
      h ← release d (store_ x) (heap w);
      Ok (mkWorld (delete d (delegates w)) h)
  end.

(* @src cpp_practices/tricks/include/delegate.h 188-192 delegate::operator bool *)
Definition operator_bool (x : delegate) : bool :=
  match stub_ptr_ x with Some _ => true | None => false end.

(* @src cpp_practices/tricks/include/delegate.h 194-197 delegate::operator() *)
(** The functor at [object_ptr_] is called where it is, in the store. *)
Definition invoke (w : world) (d : nat) (a : A) (e : Env) : outcome (R * Env * world) :=
  match delegates w !! d with
  | None => UB "no such delegate"
  | Some x =>
      match stub_ptr_ x, object_ptr_ x with
      | None, _ => UB "call of a null pointer"
      | Some (FunctionStub f), _ => Ok (call_fn f a e, w)
      | Some (MethodStub m), Some (ToObject o) => Ok (call_method o m a e, w)
      | Some (FunctorStub t), Some (ToStore l) =>
          match heap w !! l with
          | Some (mkBlock (Some f) t' os) =>
              if bool_decide (type_of f = t) then
                let '(f', r) := call_functor f a e in
                Ok (r, mkWorld (delegates w) (<[l := mkBlock (Some f') t' os]> (heap w)))
              else UB "functor of another type"
          | _ => UB "dangling object pointer"
          end
      | _, _ => UB "wrong object pointer"
      end
  end.

(** ** What delegates are bound to *)

Inductive callable := CFunction (f : fn) | CMethod (o : object) (m : method) | CFunctor (f : functor).

(** The operations of a program on its delegates. *)
Inductive op :=
| New (d : nat) | NewFunction (d : nat) (f : fn) | NewMethod (d : nat) (o : object) (m : method)
| NewObject (d : nat) (o : object) | NewMember (d : nat) (o : object) (m : method)
| NewFunctor (d : nat) (f : functor) | NewCopy (d src : nat)
| AssignCopy (d src : nat) | AssignFunctor (d : nat) (f : functor) | AssignMethod (d : nat) (m : method)
| Reset (d : nat) | ResetStub (d : nat) | Destroy (d : nat).

Definition exec_op (o : op) (w : world) : outcome world :=
  let unused d (k : outcome world) : outcome world :=
    match delegates w !! d with None => k | Some _ => UB "name in use" end in
  match o with
  | New d => unused d (Ok (construct d default_delegate w))
  | NewFunction d f => unused d (Ok (construct d (from_function f) w))
  | NewMethod d o m => unused d (Ok (construct d (from_method o m) w))
  | NewObject d o => unused d (Ok (construct d (of_object o) w))
  | NewMember d o m => unused d (Ok (construct_method d o m w))
  | NewFunctor d f => unused d (Ok (construct_functor d f w))
  | NewCopy d src => unused d (construct_copy d src w)
  | AssignCopy d src => assign_copy d src w
  | AssignFunctor d f => assign_functor d f w
  | AssignMethod d m => assign_method d m w
  | Reset d => reset d w
  | ResetStub d => reset_stub d w
  | Destroy d => destroy d w
  end.

(** What an operation does to the object that a delegate remembers, for a method assigned
    later, and to the value it is bound to. *)
Definition view_op (o : op) (v : gmap nat (option object * option callable)) :
    gmap nat (option object * option callable) :=
  match o with
  | New d => <[d := (None, None)]> v
  | NewObject d o => <[d := (Some o, None)]> v
  | NewFunction d f => <[d := (None, Some (CFunction f))]> v
  | NewMethod d o m => <[d := (Some o, Some (CMethod o m))]> v
  | NewMember d o m => <[d := (None, Some (CFunctor (MemberPair o m)))]> v
  | NewFunctor d f | AssignFunctor d f => <[d := (None, Some (CFunctor f))]> v
  | NewCopy d src | AssignCopy d src => <[d := default (None, None) (v !! src)]> v
  | AssignMethod d m =>
      match v !! d with
      | Some (Some o, _) => <[d := (None, Some (CFunctor (MemberPair o m)))]> v
      | _ => v
      end
  | Reset d | ResetStub d => <[d := (v !! d ≫= fst, None)]> v
  | Destroy d => delete d v
  end.

(** ** Well-formed worlds *)

(** What a delegate with these fields is bound to. *)
Definition target_of (h : gmap nat block) (x : delegate) : option callable :=
  match stub_ptr_ x, object_ptr_ x with
  | Some (FunctionStub f), _ => Some (CFunction f)
  | Some (MethodStub m), Some (ToObject o) => Some (CMethod o m)
  | Some (FunctorStub _), Some (ToStore l) =>
      match h !! l with Some b => CFunctor <$> content b | None => None end
  | _, _ => None
  end.

Definition object_of (x : delegate) : option object :=
  match object_ptr_ x with Some (ToObject o) => Some o | _ => None end.

Definition view_of (h : gmap nat block) (x : delegate) : option object * option callable :=
  (object_of x, target_of h x).

Definition views (w : world) : gmap nat (option object * option callable) := view_of (heap w) <$> delegates w.

(** The fields of the delegate [d] fit together and to the heap. *)
Definition good (h : gmap nat block) (d : nat) (x : delegate) : Prop :=
  (∀ l, store_ x = Some l →
     ∃ b f, h !! l = Some b ∧ content b = Some f ∧ d ∈ owners b ∧ deleter_ x = Some (type_of f)) ∧
  match stub_ptr_ x with
  | None | Some (FunctionStub _) => True
  | Some (MethodStub _) => ∃ o, object_ptr_ x = Some (ToObject o)
  | Some (FunctorStub t) => ∃ l b f, store_ x = Some l ∧ object_ptr_ x = Some (ToStore l) ∧
      h !! l = Some b ∧ content b = Some f ∧ type_of f = t
  end.

(** Every owner of a store is a delegate that points to it, and there is one. *)
Definition owned (ds : gmap nat delegate) (h : gmap nat block) : Prop :=
  ∀ l b, h !! l = Some b →
    owners b ≠ ∅ ∧ ∀ d, d ∈ owners b → ∃ x, ds !! d = Some x ∧ store_ x = Some l.

Definition wf (w : world) : Prop :=
  (∀ d x, delegates w !! d = Some x → good (heap w) d x) ∧ owned (delegates w) (heap w).

(** A change of the heap made for the delegate [d]: stores that others own keep their
    functor and their other owners. *)
Definition keeps (d : nat) (h h' : gmap nat block) : Prop :=
  ∀ d' l b, d' ≠ d → h !! l = Some b → d' ∈ owners b →
    ∃ b', h' !! l = Some b' ∧ content b' = content b ∧ d' ∈ owners b'.

Lemma good_keeps d h h' d' x :
  keeps d h h' → d' ≠ d → good h d' x → good h' d' x ∧ view_of h' x = view_of h x.
Proof.
  intros Hk Hd [Hs Hst]. split; [split|].
  - intros l Hl. destruct (Hs l Hl) as (b & f & Hb & Hc & Ho & Hdel).
    destruct (Hk d' l b Hd Hb Ho) as (b' & Hb' & Hc' & Ho'). exists b', f. by rewrite Hc', Hc.
  - destruct (stub_ptr_ x) as [[| |t]|]; [done|done| |done].
    destruct Hst as (l & b & f & Hl & Hp & Hb & Hc & Ht).
    destruct (Hs l Hl) as (b1 & f1 & Hb1 & Hc1 & Ho & _).
    assert (b1 = b) as -> by congruence. destruct (Hk d' l b Hd Hb Ho) as (b' & Hb' & Hc' & Ho'). exists l, b', f. by rewrite Hc', Hc.
  - unfold view_of, target_of. f_equal. destruct (stub_ptr_ x) as [[| |t]|]; [done|done| |done].
    destruct Hst as (l & b & f & Hl & -> & Hb & Hc & Ht).
    destruct (Hs l Hl) as (b1 & f1 & Hb1 & Hc1 & Ho & _).
    assert (b1 = b) as -> by congruence. destruct (Hk d' l b Hd Hb Ho) as (b' & Hb' & Hc' & Ho'). by rewrite Hb', Hb, Hc'.
Qed.

Lemma keeps_refl d h : keeps d h h.
Proof. intros d' l b Hd Hl Ho. by exists b. Qed.

Lemma keeps_trans d h1 h2 h3 : keeps d h1 h2 → keeps d h2 h3 → keeps d h1 h3.
Proof.
  intros H12 H23 d' l b Hd Hl Ho. destruct (H12 d' l b Hd Hl Ho) as (b2 & Hb2 & Hc2 & Ho2).
  destruct (H23 d' l b2 Hd Hb2 Ho2) as (b3 & Hb3 & Hc3 & Ho3). exists b3. by rewrite Hc3, Hc2.
Qed.

Lemma share_keeps d s h : keeps d h (share d s h).
Proof.
  intros d' l b Hd Hl Ho. destruct s as [l0|]; simpl; [|by exists b].
  destruct (h !! l0) as [b0|] eqn:E; [|by exists b]. destruct (decide (l = l0)) as [->|Hn].
  - simplify_eq. rewrite lookup_insert_eq. eexists. split; [done|]. simpl. set_solver.
  - rewrite lookup_insert_ne by done. by exists b.
Qed.

Lemma fresh_keeps d h b0 : keeps d h (<[fresh_store h := b0]> h).
Proof.
  intros d' l b Hd Hl Ho. exists b. split; [|done]. rewrite lookup_insert_ne; [done|].
  intros <-. apply (is_fresh (dom h : gset nat)). by apply elem_of_dom_2 in Hl.
Qed.

Lemma fresh_store_None (h : gmap nat block) : h !! fresh_store h = None.
Proof. apply not_elem_of_dom, (is_fresh (dom h : gset nat)). Qed.

Lemma release_keeps d s h h' : release d s h = Ok h' → keeps d h h'.
Proof.
  unfold release. destruct s as [l0|]; [|intros [= <-]; apply keeps_refl].
  destruct (h !! l0) as [b0|] eqn:E; [|done]. intros Hr d' l b Hd Hl Ho.
  case_bool_decide as Hos.
  - destruct (content b0) as [f|]; [|done]. case_bool_decide; [|done]. simplify_eq.
    exists b. split; [|done]. rewrite lookup_delete_ne; [done|]. intros ->. simplify_eq. set_solver.
  - simplify_eq. destruct (decide (l = l0)) as [->|Hn].
    + simplify_eq. rewrite lookup_insert_eq. eexists. split; [done|]. simpl. set_solver.
    + rewrite lookup_insert_ne by done. by exists b.
Qed.

(** After [d] gave up its share, it owns nothing of it. *)
Lemma release_owned d s ds ds' h h' :
  release d s h = Ok h' →
  (∀ l b, h !! l = Some b → owners b ≠ ∅ ∧
     ∀ d', d' ∈ owners b → (d' = d ∧ s = Some l) ∨ ∃ x, ds' !! d' = Some x ∧ store_ x = Some l) →
  (∀ x l, ds' !! d = Some x → store_ x = Some l → s ≠ Some l) →
  ds = ds' → owned ds h'.
Proof.
  unfold release. intros Hr Hh Hd -> l b Hl. destruct s as [l0|].
  2:{ simplify_eq. destruct (Hh l b Hl) as [Hn Ho]. split; [done|]. intros d' Hd'.
      by destruct (Ho d' Hd') as [[_ ?]|?]. }
  destruct (h !! l0) as [b0|] eqn:E; [|done]. case_bool_decide as Hos.
  - destruct (content b0); [|done]. case_bool_decide; [|done]. simplify_eq.
    apply lookup_delete_Some in Hl as [Hne Hl]. destruct (Hh l b Hl) as [Hn Ho]. split; [done|].
    intros d' Hd'. destruct (Ho d' Hd') as [[_ ?]|?]; [congruence|done].
  - simplify_eq. apply lookup_insert_Some in Hl as [[<- <-]|[Hne Hl]]; simpl.
    + split; [done|]. intros d' [Hd' Hne]%elem_of_difference. destruct (Hh l0 b0 E) as [_ Ho].
      destruct (Ho d' Hd') as [[-> _]|?]; [set_solver|done].
    + destruct (Hh l b Hl) as [Hn Ho]. split; [done|].
      intros d' Hd'. destruct (Ho d' Hd') as [[_ ?]|?]; [congruence|done].
Qed.

(** ** Every operation keeps well-formedness and does what its specification says *)

Lemma update_wf w d y h' :
  wf w → keeps d (heap w) h' → good h' d y → owned (<[d := y]> (delegates w)) h' →
  let w' := mkWorld (<[d := y]> (delegates w)) h' in
  wf w' ∧ views w' = <[d := view_of h' y]> (views w).
Proof.
  intros [Hg Ho] Hk Hy Ho' w'. split; [split; [|done]|].
  - intros d' x Hx. simpl in Hx. destruct (decide (d' = d)) as [->|Hn].
    + apply lookup_insert_Some in Hx as [[_ <-]|[? _]]; done.
    + apply lookup_insert_Some in Hx as [[<- _]|[_ Hx]]; [done|].
      apply (good_keeps d (heap w)); auto.
  - apply map_eq. intros d'. unfold views. simpl. destruct (decide (d' = d)) as [->|Hn].
    + by rewrite lookup_fmap, !lookup_insert_eq.
    + rewrite lookup_fmap, !lookup_insert_ne, lookup_fmap by done.
      destruct (delegates w !! d') as [x|] eqn:E; [|done]. simpl. f_equal.
      apply (good_keeps d (heap w) h' d' x); auto.
Qed.

Lemma destroy_wf w d h' :
  wf w → keeps d (heap w) h' → owned (delete d (delegates w)) h' →
  let w' := mkWorld (delete d (delegates w)) h' in
  wf w' ∧ views w' = delete d (views w).
Proof.
  intros [Hg Ho] Hk Ho' w'. split; [split; [|done]|].
  - intros d' x Hx. simpl in Hx. apply lookup_delete_Some in Hx as [Hn Hx]. apply (good_keeps d (heap w)); auto.
  - apply map_eq. intros d'. unfold views. simpl. destruct (decide (d' = d)) as [->|Hn].
    + by rewrite lookup_fmap, !lookup_delete_eq.
    + rewrite lookup_fmap, !lookup_delete_ne, lookup_fmap by done.
      destruct (delegates w !! d') as [x|] eqn:E; [|done]. simpl. f_equal.
      apply (good_keeps d (heap w) h' d' x); auto.
Qed.

(** The owners of the stores when the delegate [d], which owned [store_ x], becomes [y]. *)
Lemma owned_update d x y ds h :
  ds !! d = Some x → owned ds h → ∀ l b, h !! l = Some b → owners b ≠ ∅ ∧
    ∀ d', d' ∈ owners b → (d' = d ∧ store_ x = Some l) ∨
      ∃ z, <[d := y]> ds !! d' = Some z ∧ store_ z = Some l.
Proof.
  intros Hx Ho l b Hl. destruct (Ho l b Hl) as [Hn Hd]. split; [done|]. intros d' Hd'.
  destruct (Hd d' Hd') as (z & Hz & Hs). destruct (decide (d' = d)) as [->|Hne].
  - left. by simplify_eq.
  - right. exists z. by rewrite lookup_insert_ne.
Qed.

Lemma release_other d s h h' l : release d s h = Ok h' → s ≠ Some l → h' !! l = h !! l.
Proof.
  unfold release. destruct s as [l0|]; [|by intros [= <-]]. intros Hr Hl.
  destruct (h !! l0) as [b0|]; [|done]. case_bool_decide.
  - destruct (content b0); [|done]. case_bool_decide; [|done]. simplify_eq.
    rewrite lookup_delete_ne; congruence.
  - simplify_eq. rewrite lookup_insert_ne; congruence.
Qed.

Lemma store_not_fresh w d x :
  wf w → delegates w !! d = Some x → store_ x ≠ Some (fresh_store (heap w)).
Proof.
  intros [Hg _] Hx Hs. destruct (Hg d x Hx) as [Hst _]. destruct (Hst _ Hs) as (b & _ & Hb & _).
  by rewrite fresh_store_None in Hb.
Qed.

(** A delegate with a functor in a store of its own. *)
Definition holding (l sz : nat) (f : functor) : delegate :=
  mkDelegate (Some (ToStore l)) (Some (FunctorStub (type_of f))) (Some (type_of f)) (Some l) (Some sz).

Lemma holding_good h d l sz f b :
  h !! l = Some b → content b = Some f → d ∈ owners b →
  good h d (holding l sz f) ∧ view_of h (holding l sz f) = (None, Some (CFunctor f)).
Proof.
  intros Hl Hc Ho. split; [split|].
  - intros l' [= <-]. by exists b, f.
  - by exists l, b, f.
  - unfold view_of, target_of. simpl. by rewrite Hl, Hc.
Qed.

(** Binding [d] to a functor in a new store, its share of the old store given up. *)
Lemma new_store_wf w d x sz f h' :
  let l := fresh_store (heap w) in
  wf w → delegates w !! d = Some x →
  release d (store_ x) (<[l := mkBlock (Some f) (type_of f) {[d]}]> (heap w)) = Ok h' →
  let w' := mkWorld (<[d := holding l sz f]> (delegates w)) h' in
  wf w' ∧ views w' = <[d := (None, Some (CFunctor f))]> (views w).
Proof.
  intros l Hwf Hx Hr w'. assert (store_ x ≠ Some l) as Hne by by eapply store_not_fresh.
  assert (h' !! l = Some (mkBlock (Some f) (type_of f) {[d]})) as Hl.
  { by rewrite (release_other _ _ _ _ _ Hr Hne), lookup_insert_eq. }
  destruct (holding_good h' d l sz f _ Hl) as [Hgood Hview]; [done|set_solver|].
  rewrite <- Hview. apply update_wf; [done| |done|].
  - eapply keeps_trans; [apply fresh_keeps|by eapply release_keeps].
  - eapply release_owned; [done| | |done].
    + intros l' b [[<- <-]|[Hn Hb]]%lookup_insert_Some; simpl.
      * split; [set_solver|]. intros d' ->%elem_of_singleton. right. eexists.
        by rewrite lookup_insert_eq.
      * by apply (owned_update d x _ (delegates w) (heap w) Hx (proj2 Hwf)).
    + intros z l'. rewrite lookup_insert_eq. intros [= <-] [= <-]. done.
Qed.

(** A delegate that was not there owns nothing yet. *)
Lemma owned_new d y ds h : ds !! d = None → owned ds h → owned (<[d := y]> ds) h.
Proof.
  intros Hd Ho l b Hl. destruct (Ho l b Hl) as [Hn Hown]. split; [done|]. intros d' Hd'.
  destruct (Hown d' Hd') as (z & Hz & Hs). exists z. rewrite lookup_insert_ne; [done|congruence].
Qed.

Lemma construct_wf w d y :
  wf w → delegates w !! d = None → good (heap w) d y →
  wf (construct d y w) ∧ views (construct d y w) = <[d := view_of (heap w) y]> (views w).
Proof.
  intros Hwf Hd Hy. apply (update_wf w d y (heap w)); [done|apply keeps_refl|done|].
  apply owned_new; [done|apply Hwf].
Qed.

Lemma construct_functor_wf w d f :
  wf w → delegates w !! d = None →
  wf (construct_functor d f w) ∧ views (construct_functor d f w) = <[d := (None, Some (CFunctor f))]> (views w).
Proof.
  intros Hwf Hd. unfold construct_functor. cbn zeta.
  set (l := fresh_store (heap w)). set (h' := <[l := _]> (heap w)).
  assert (h' !! l = Some (mkBlock (Some f) (type_of f) {[d]})) as Hl by apply lookup_insert_eq.
  destruct (holding_good h' d l (size_of (type_of f)) f _ Hl) as [Hgood Hview]; [done|set_solver|].
  rewrite <- Hview. apply (update_wf w d (holding l _ f) h'); [done|apply fresh_keeps|done|].
  intros l' b [[<- <-]|[Hn Hb]]%lookup_insert_Some; simpl.
  - split; [set_solver|]. intros d' ->%elem_of_singleton. eexists. by rewrite lookup_insert_eq.
  - revert l' b Hn Hb. intros l' b _. apply owned_new; [done|apply Hwf].
Qed.

Lemma share_lookup d s h l :
  share d s h !! l =
    if decide (s = Some l) then (λ b, mkBlock (content b) (made_for b) ({[d]} ∪ owners b)) <$> h !! l
    else h !! l.
Proof.
  destruct s as [l0|]; cbn [share]; [|by destruct (decide (None = Some l))].
  destruct (decide (Some l0 = Some l)) as [[= ->]|Hn].
  - destruct (h !! l) eqn:E; simpl; [by rewrite lookup_insert_eq|done].
  - destruct (h !! l0); [|done]. rewrite lookup_insert_ne; congruence.
Qed.

(** A copy of a delegate fits to the heap in which it is an owner too. *)
Lemma good_copy d src x h h' :
  good h src x →
  (∀ l b, store_ x = Some l → h !! l = Some b →
     ∃ b', h' !! l = Some b' ∧ content b' = content b ∧ d ∈ owners b') →
  good h' d x ∧ view_of h' x = view_of h x.
Proof.
  intros [Hs Hst] Hh. split; [split|].
  - intros l Hl. destruct (Hs l Hl) as (b & f & Hb & Hc & _ & Hdel).
    destruct (Hh l b Hl Hb) as (b' & Hb' & Hc' & Hd). exists b', f. by rewrite Hc', Hc.
  - destruct (stub_ptr_ x) as [[| |t]|]; [done|done| |done].
    destruct Hst as (l & b & f & Hl & Hp & Hb & Hc & Ht).
    destruct (Hh l b Hl Hb) as (b' & Hb' & Hc' & _). exists l, b', f. by rewrite Hc', Hc.
  - unfold view_of, target_of. f_equal. destruct (stub_ptr_ x) as [[| |t]|]; [done|done| |done].
    destruct Hst as (l & b & f & Hl & -> & Hb & Hc & Ht).
    destruct (Hh l b Hl Hb) as (b' & Hb' & Hc' & _). by rewrite Hb', Hb, Hc'.
Qed.

Lemma share_good d src x h : good h src x → good (share d (store_ x) h) d x ∧
  view_of (share d (store_ x) h) x = view_of h x.
Proof.
  intros Hg. apply (good_copy d src x h); [done|]. intros l b Hl Hb.
  rewrite share_lookup, decide_True, Hb by done. simpl. eexists. split; [done|]. simpl. set_solver.
Qed.

(** The owners after [d] became an owner of [store_ y]. *)
Lemma share_owners (P : nat → nat → Prop) d s h l b :
  (∀ l b, h !! l = Some b → owners b ≠ ∅ ∧ ∀ d', d' ∈ owners b → P l d') →
  (∀ l, s = Some l → P l d) →
  share d s h !! l = Some b → owners b ≠ ∅ ∧ ∀ d', d' ∈ owners b → P l d'.
Proof.
  intros Hh Hs. rewrite share_lookup. destruct (decide (s = Some l)) as [->|Hn]; [|by apply Hh].
  destruct (h !! l) as [b0|] eqn:E; [|done]. intros [= <-]. simpl. split; [set_solver|].
  intros d' [->%elem_of_singleton|Hd']%elem_of_union; [by apply Hs|by apply (Hh l b0)].
Qed.

Lemma views_lookup w d x : delegates w !! d = Some x → views w !! d = Some (view_of (heap w) x).
Proof. intros Hx. unfold views. by rewrite lookup_fmap, Hx. Qed.

Lemma construct_copy_wf w w' d src :
  wf w → delegates w !! d = None → construct_copy d src w = Ok w' →
  wf w' ∧ views w' = <[d := default (None, None) (views w !! src)]> (views w).
Proof.
  intros Hwf Hd. unfold construct_copy. destruct (delegates w !! src) as [x|] eqn:Hx; [|done].
  intros [= <-]. rewrite (views_lookup w src x Hx). simpl.
  destruct (share_good d src x (heap w)) as [Hgood <-]; [by apply Hwf|].
  apply update_wf; [done|apply share_keeps|done|]. intros l b.
  apply (share_owners (λ l d', ∃ z, <[d := x]> (delegates w) !! d' = Some z ∧ store_ z = Some l)).
  - apply owned_new; [done|apply Hwf].
  - intros l' Hl'. exists x. by rewrite lookup_insert_eq.
Qed.

Lemma assign_copy_wf w w' d src :
  wf w → assign_copy d src w = Ok w' →
  wf w' ∧ views w' = <[d := default (None, None) (views w !! src)]> (views w).
Proof.
  intros Hwf. unfold assign_copy. destruct (delegates w !! d) as [x|] eqn:Hx; [|done].
  destruct (delegates w !! src) as [y|] eqn:Hy; [|done]. rewrite (views_lookup w src y Hy). simpl.
  case_bool_decide as Hds.
  { intros [= <-]. subst src. split; [done|]. simplify_eq. symmetry. apply insert_id. by apply views_lookup. }
  case_bool_decide as Hst.
  - intros [= <-]. destruct (good_copy d src y (heap w) (heap w)) as [Hgood Hview].
    + by apply Hwf.
    + intros l b Hl Hb. exists b. rewrite <- Hst in Hl. destruct Hwf as [Hg _].
      destruct (Hg d x Hx) as [Hs _]. destruct (Hs l Hl) as (b1 & f & Hb1 & _ & Ho & _).
      by simplify_eq.
    + apply update_wf; [done|apply keeps_refl|done|]. intros l b Hl.
      destruct (owned_update d x y (delegates w) (heap w) Hx (proj2 Hwf) l b Hl) as [Hn Ho].
      split; [done|]. intros d' Hd'. destruct (Ho d' Hd') as [[-> Hs]|?]; [|done].
      exists y. rewrite lookup_insert_eq. by rewrite <- Hst.
  - destruct (release d (store_ x) _) as [h| |] eqn:Hr; [|done|done]. intros [= <-].
    destruct (good_copy d src y (heap w) h) as [Hgood <-]; [by apply Hwf| |].
    + intros l b Hl Hb. rewrite (release_other _ _ _ _ _ Hr) by congruence.
      rewrite share_lookup, decide_True, Hb by done. simpl. eexists. split; [done|]. simpl. set_solver.
    + apply update_wf; [done| |done|].
      * eapply keeps_trans; [apply share_keeps|by eapply release_keeps].
      * eapply release_owned; [done| | |done].
        -- intros l b. apply (share_owners (λ l d', (d' = d ∧ store_ x = Some l) ∨
             ∃ z, <[d := y]> (delegates w) !! d' = Some z ∧ store_ z = Some l)).
           ++ by apply owned_update; [|apply Hwf].
           ++ intros l' Hl'. right. exists y. by rewrite lookup_insert_eq.
        -- intros z l. rewrite lookup_insert_eq. intros [= <-]. congruence.
Qed.

(** [d] gives up its store and is bound to nothing. *)
Lemma reset_wf w w' d : wf w → reset d w = Ok w' → wf w' ∧ views w' = <[d := (views w !! d ≫= fst, None)]> (views w).
Proof.
  intros Hwf. unfold reset. destruct (delegates w !! d) as [x|] eqn:Hx; [|done].
  destruct (release d (store_ x) _) as [h| |] eqn:Hr; [|done|done]. intros [= <-].
  rewrite (views_lookup w d x Hx).
  apply (update_wf w d (mkDelegate (object_ptr_ x) None (deleter_ x) None (store_size_ x)) h);
    [done|by eapply release_keeps|done|].
  eapply release_owned; [done|by apply owned_update; [|apply Hwf]| |done].
  intros z l. rewrite lookup_insert_eq. by intros [= <-].
Qed.

Lemma reset_stub_wf w w' d : wf w → reset_stub d w = Ok w' → wf w' ∧ views w' = <[d := (views w !! d ≫= fst, None)]> (views w).
Proof.
  intros Hwf. unfold reset_stub. destruct (delegates w !! d) as [x|] eqn:Hx; [|done]. intros [= <-].
  rewrite (views_lookup w d x Hx).
  apply (update_wf w d (mkDelegate (object_ptr_ x) None (deleter_ x) (store_ x) (store_size_ x)) (heap w));
    [done|apply keeps_refl| |].
  - split; [|done]. exact (proj1 (proj1 Hwf d x Hx)).
  - intros l b Hl. destruct (owned_update d x (mkDelegate (object_ptr_ x) None (deleter_ x) (store_ x) (store_size_ x))
      (delegates w) (heap w) Hx (proj2 Hwf) l b Hl) as [Hn Ho].
    split; [done|]. intros d' Hd'. destruct (Ho d' Hd') as [[-> Hs]|?]; [|done].
    eexists. by rewrite lookup_insert_eq.
Qed.

Lemma destroy_op_wf w w' d : wf w → destroy d w = Ok w' → wf w' ∧ views w' = delete d (views w).
Proof.
  intros Hwf. unfold destroy. destruct (delegates w !! d) as [x|] eqn:Hx; [|done].
  destruct (release d (store_ x) _) as [h| |] eqn:Hr; [|done|done]. intros [= <-].
  apply destroy_wf; [done|by eapply release_keeps|].
  eapply release_owned; [done| | |done].
  - intros l b Hl. destruct (proj2 Hwf l b Hl) as [Hn Ho]. split; [done|]. intros d' Hd'.
    destruct (Ho d' Hd') as (z & Hz & Hs). destruct (decide (d' = d)) as [->|Hne].
    + left. by simplify_eq.
    + right. exists z. by rewrite lookup_delete_ne.
  - intros z l. by rewrite lookup_delete_eq.
Qed.

(** The functor is made in the memory of the store that [d] alone owns. *)
Lemma reuse_wf w d x l b sz f :
  let h' := <[l := mkBlock (Some f) (made_for b) (owners b)]> (heap w) in
  let w' := mkWorld (<[d := holding l sz f]> (delegates w)) h' in
  wf w → delegates w !! d = Some x → store_ x = Some l → heap w !! l = Some b →
  size (owners b) ≤ 1 →
  wf w' ∧ views w' = <[d := (None, Some (CFunctor f))]> (views w).
Proof.
  intros h' w' Hwf Hx Hs Hb Hsize.
  destruct (proj1 (proj1 Hwf d x Hx) l Hs) as (b1 & f1 & Hb1 & _ & Ho & _). simplify_eq.
  assert (owners b = {[d]}) as Hown.
  { apply set_eq. intros d'. rewrite elem_of_singleton. split; [|by intros ->]. intros Hd'.
    assert (size (owners b) ≠ 0) by (apply size_non_empty_iff; set_solver).
    apply (size_singleton_inv (owners b)); [lia|done|done]. }
  assert (h' !! l = Some (mkBlock (Some f) (made_for b) (owners b))) as Hl by apply lookup_insert_eq.
  destruct (holding_good h' d l sz f _ Hl) as [Hgood Hview]; [done|done|].
  rewrite <- Hview. apply update_wf; [done| |done|].
  - intros d' l' b' Hd Hl' Ho'. destruct (decide (l' = l)) as [->|Hn].
    + simplify_eq. rewrite Hown in Ho'. set_solver.
    + exists b'. unfold h'. by rewrite lookup_insert_ne.
  - intros l' b' [[<- <-]|[Hn Hb']]%lookup_insert_Some; simpl.
    + split; [set_solver|]. intros d' Hd'. rewrite Hown in Hd'. apply elem_of_singleton in Hd' as ->.
      eexists. by rewrite lookup_insert_eq.
    + destruct (owned_update d x (holding l sz f) _ _ Hx (proj2 Hwf) l' b' Hb') as [Hne Hd].
      split; [done|]. intros d' Hd'. destruct (Hd d' Hd') as [[_ ?]|?]; [congruence|done].
Qed.

Lemma assign_functor_wf w w' d f :
  wf w → assign_functor d f w = Ok w' → wf w' ∧ views w' = <[d := (None, Some (CFunctor f))]> (views w).
Proof.
  intros Hwf. unfold assign_functor. destruct (delegates w !! d) as [x|] eqn:Hx; [|done].
  destruct (store_size_ x) as [sz|]; [|done]. destruct (_ || _) eqn:Hc.
  - destruct (release _ _ _) as [h| |] eqn:Hr; [|done|done]. intros [= <-].
    by apply (new_store_wf w d x (size_of (type_of f)) f h).
  - apply orb_false_iff in Hc as [_ Hc]. apply Nat.ltb_ge in Hc.
    destruct (store_ x) as [l|] eqn:Hs; [|done]. destruct (deleter_ x) as [told|]; [|done].
    simpl in Hc. destruct (heap w !! l) as [b|] eqn:Hb; [|done]. case_bool_decide; [|done].
    intros [= <-]. by apply (reuse_wf w d x l b sz f).
Qed.

Lemma assign_method_wf w w' d m :
  wf w → assign_method d m w = Ok w' → wf w' ∧ views w' = view_op (AssignMethod d m) (views w).
Proof.
  intros Hwf. unfold assign_method. destruct (delegates w !! d) as [x|] eqn:Hx; [|done].
  cbn [view_op]. rewrite (views_lookup w d x Hx). unfold view_of, object_of.
  destruct (object_ptr_ x) as [[|o|]|]; [done| |done|done].
  destruct (release _ _ _) as [h| |] eqn:Hr; [|done|done]. intros [= <-].
  by apply (new_store_wf w d x pair_size (MemberPair o m) h).
Qed.

Lemma exec_op_wf o w w' : wf w → exec_op o w = Ok w' → wf w' ∧ views w' = view_op o (views w).
Proof.
  intros Hwf. destruct o as [d|d f|d o m|d o|d o m|d f|d src|d src|d f|d m|d|d|d]; cbn [exec_op view_op];
    try (destruct (delegates w !! d) eqn:Hd; [done|]; try intros [= <-]).
  - by apply (construct_wf w d default_delegate).
  - by apply (construct_wf w d (from_function f)).
  - apply (construct_wf w d (from_method o m)); [done|done|]. split; [done|by exists o].
  - by apply (construct_wf w d (of_object o)).
  - by apply construct_functor_wf.
  - by apply construct_functor_wf.
  - by apply construct_copy_wf.
  - by apply assign_copy_wf.
  - by apply assign_functor_wf.
  - by apply assign_method_wf.
  - by apply reset_wf.
  - by apply reset_stub_wf.
  - by apply destroy_op_wf.
Qed.

(** ** When the operations are defined *)

(** Every store holds a functor of the type it was made for. *)
Definition tidy (h : gmap nat block) : Prop :=
  ∀ l b, h !! l = Some b → ∃ f, content b = Some f ∧ type_of f = made_for b.

Lemma release_tidy d s h :
  tidy h → (∀ l, s = Some l → is_Some (h !! l)) → ∃ h', release d s h = Ok h' ∧ tidy h'.
Proof.
  intros Ht Hs. unfold release. destruct s as [l|]; [|by exists h].
  destruct (Hs l eq_refl) as [b Hb]. rewrite Hb. destruct (Ht l b Hb) as (f & Hf & Hm).
  case_bool_decide.
  - rewrite Hf, bool_decide_true by done. eexists. split; [done|].
    intros l' b' [_ Hb']%lookup_delete_Some. by apply (Ht l').
  - eexists. split; [done|]. intros l' b' [[_ <-]|[_ Hb']]%lookup_insert_Some; [by exists f|by apply (Ht l')].
Qed.

Lemma insert_tidy h l f os : tidy h → tidy (<[l := mkBlock (Some f) (type_of f) os]> h).
Proof. intros Ht l' b' [[_ <-]|[_ Hb']]%lookup_insert_Some; [by exists f|by apply (Ht l')]. Qed.

Lemma share_tidy d s h : tidy h → tidy (share d s h).
Proof.
  intros Ht l b. rewrite share_lookup. destruct (decide _); [|apply Ht].
  destruct (h !! l) as [b0|] eqn:E; [|done]. intros [= <-]. exact (Ht l b0 E).
Qed.

(** An assignment of a functor is careful when the delegate has a store and the functor
    goes to a new one, or has the type of the one it replaces. *)
Definition careful_assign (w : world) (d : nat) (f : functor) : bool :=
  match delegates w !! d with
  | Some x =>
      match store_ x, store_size_ x, deleter_ x with
      | Some l, Some sz, Some told =>
          (sz <? size_of (type_of f)) || (1 <? use_count w (store_ x)) || bool_decide (told = type_of f)
      | _, _, _ => false
      end
  | None => false
  end.

Definition careful (w : world) (o : op) : bool :=
  match o with
  | New d | NewFunction d _ | NewMethod d _ _ | NewObject d _ | NewMember d _ _ | NewFunctor d _ =>
      bool_decide (delegates w !! d = None)
  | NewCopy d src => bool_decide (delegates w !! d = None) && bool_decide (is_Some (delegates w !! src))
  | AssignCopy d src =>
      bool_decide (is_Some (delegates w !! d)) && bool_decide (is_Some (delegates w !! src))
  | AssignFunctor d f => careful_assign w d f
  | AssignMethod d _ => match delegates w !! d with
                        | Some x => bool_decide (is_Some (object_of x))
                        | None => false
                        end
  | Reset d | ResetStub d | Destroy d => bool_decide (is_Some (delegates w !! d))
  end.

Lemma store_is_Some w d x l :
  wf w → delegates w !! d = Some x → store_ x = Some l → is_Some (heap w !! l).
Proof. intros [Hg _] Hx Hl. destruct (proj1 (Hg d x Hx) l Hl) as (b & _ & Hb & _). by exists b. Qed.

Lemma release_insert_tidy w d x f os :
  wf w → tidy (heap w) → delegates w !! d = Some x →
  ∃ h, release d (store_ x) (<[fresh_store (heap w) := mkBlock (Some f) (type_of f) os]> (heap w)) = Ok h ∧
       tidy h.
Proof.
  intros Hwf Ht Hx. apply release_tidy; [by apply insert_tidy|]. intros l Hl.
  apply lookup_insert_is_Some'. right. by eapply store_is_Some.
Qed.

Lemma assign_functor_defined w d f :
  wf w → tidy (heap w) → careful_assign w d f = true →
  ∃ w', assign_functor d f w = Ok w' ∧ tidy (heap w').
Proof.
  intros Hwf Ht. unfold careful_assign, assign_functor. destruct (delegates w !! d) as [x|] eqn:Hx; [|done].
  destruct (store_ x) as [l|] eqn:Hs; [|done]. destruct (store_size_ x) as [sz|]; [|done].
  destruct (deleter_ x) as [told|] eqn:Hdel; [|done].
  destruct (_ || (1 <? _)) eqn:Hc; cbn [orb].
  - intros _. destruct (release_insert_tidy w d x f {[d]} Hwf Ht Hx) as (h & Hr & Hh).
    rewrite Hs in Hr. cbn zeta. rewrite Hr. eexists. split; [done|done].
  - intros ->%bool_decide_eq_true.
    destruct (proj1 (proj1 Hwf d x Hx) l Hs) as (b & g & Hb & Hg & _ & Ht').
    rewrite Hb, Hg, bool_decide_true by (simpl; congruence). eexists. split; [done|].
    destruct (Ht l b Hb) as (g' & Hg' & Hm). simpl.
    replace (made_for b) with (type_of f) by congruence. by apply insert_tidy.
Qed.

Lemma careful_defined o w :
  wf w → tidy (heap w) → careful w o = true → ∃ w', exec_op o w = Ok w' ∧ tidy (heap w').
Proof.
  intros Hwf Ht. destruct o as [d|d f|d o m|d o|d o m|d f|d src|d src|d f|d m|d|d|d]; cbn [careful exec_op].
  1-4: intros ->%bool_decide_eq_true; by eexists.
  1-2: intros ->%bool_decide_eq_true; eexists; split; [done|]; by apply insert_tidy.
  - intros [->%bool_decide_eq_true [x Hx]%bool_decide_eq_true]%andb_prop. unfold construct_copy.
    rewrite Hx. eexists. split; [done|]. by apply share_tidy.
  - intros [[x Hx]%bool_decide_eq_true [y Hy]%bool_decide_eq_true]%andb_prop. unfold assign_copy.
    rewrite Hx, Hy. case_bool_decide; [by eexists|]. case_bool_decide; [by eexists|].
    destruct (release_tidy d (store_ x) (share d (store_ y) (heap w))) as (h & -> & Hh).
    + by apply share_tidy.
    + intros l Hl. rewrite share_lookup. destruct (store_is_Some w d x l Hwf Hx Hl) as [b ->].
      by destruct (decide _).
    + by eexists.
  - by apply assign_functor_defined.
  - unfold assign_method. destruct (delegates w !! d) as [x|] eqn:Hx; [|done]. unfold object_of.
    destruct (object_ptr_ x) as [[|o|]|]; try done. intros _.
    destruct (release_insert_tidy w d x (MemberPair o m) {[d]} Hwf Ht Hx) as (h & Hr & Hh).
    simpl in Hr. cbn zeta. rewrite Hr. by eexists.
  - intros [x Hx]%bool_decide_eq_true. unfold reset. rewrite Hx.
    destruct (release_tidy d (store_ x) (heap w) Ht) as (h & -> & Hh); [|by eexists].
    intros l. by apply (store_is_Some w d x l).
  - intros [x Hx]%bool_decide_eq_true. unfold reset_stub. rewrite Hx. by eexists.
  - intros [x Hx]%bool_decide_eq_true. unfold destroy. rewrite Hx.
    destruct (release_tidy d (store_ x) (heap w) Ht) as (h & -> & Hh); [|by eexists].
    intros l. by apply (store_is_Some w d x l).
Qed.

(** ** Programs *)

(** A step of a program is an operation or a call. *)
Inductive step := Do (o : op) | Call (d : nat) (a : A).

(** The results of the calls, the environment and the world after a step. *)
Definition exec_step (s : step) (w : world) (e : Env) : outcome (list R * Env * world) :=
  match s with
  | Do o => w' ← exec_op o w; Ok ([], e, w')
  | Call d a => x ← invoke w d a e; let '(r, e', w') := x in Ok ([r], e', w')
  end.

Fixpoint exec_steps (ss : list step) (w : world) (e : Env) : outcome (list R * Env * world) :=
  match ss with
  | [] => Ok ([], e, w)
  | s :: ss =>
      x ← exec_step s w e; let '(rs, e, w) := x in
      x ← exec_steps ss w e; let '(rs', e, w) := x in Ok (rs ++ rs', e, w)
  end.

Definition empty_world : world := mkWorld ∅ ∅.

(** Programs without calls. *)
Fixpoint exec_ops (os : list op) (w : world) : outcome world :=
  match os with [] => Ok w | o :: os => w' ← exec_op o w; exec_ops os w' end.

Lemma exec_ops_wf os w w' : wf w → exec_ops os w = Ok w' → wf w'.
Proof.
  revert w. induction os as [|o os IH]; intros w Hwf; cbn [exec_ops]; [by intros [= <-]|].
  destruct (exec_op o w) as [w1| |] eqn:E; [|done|done]. apply IH. by eapply exec_op_wf.
Qed.

(** *** The specification: a delegate is a variable that refers to what it is bound to

    Functor objects are cells, which are never reused; a variable refers to a function, to
    a method of an object, or to a cell. *)

Inductive target := TFunction (f : fn) | TMethod (o : object) (m : method) | TCell (k : nat).

Record vars := mkVars { variables : gmap nat (option object * option target); cells : list functor }.

Definition empty_vars : vars := mkVars ∅ [].

Definition set_var (d : nat) (x : option object * option target) (v : vars) : vars :=
  mkVars (<[d := x]> (variables v)) (cells v).

(** A functor is bound by making a cell for it. *)
Definition bind_functor (d : nat) (f : functor) (v : vars) : vars :=
  mkVars (<[d := (None, Some (TCell (length (cells v))))]> (variables v)) (cells v ++ [f]).

Definition spec_op (o : op) (v : vars) : vars :=
  match o with
  | New d => set_var d (None, None) v
  | NewObject d o => set_var d (Some o, None) v
  | NewFunction d f => set_var d (None, Some (TFunction f)) v
  | NewMethod d o m => set_var d (Some o, Some (TMethod o m)) v
  | NewMember d o m => bind_functor d (MemberPair o m) v
  | NewFunctor d f | AssignFunctor d f => bind_functor d f v
  | NewCopy d src | AssignCopy d src => set_var d (default (None, None) (variables v !! src)) v
  | AssignMethod d m =>
      match variables v !! d with
      | Some (Some o, _) => bind_functor d (MemberPair o m) v
      | _ => v
      end
  | Reset d | ResetStub d => set_var d (variables v !! d ≫= fst, None) v
  | Destroy d => mkVars (delete d (variables v)) (cells v)
  end.

Definition spec_call (v : vars) (d : nat) (a : A) (e : Env) : outcome (R * Env * vars) :=
  match variables v !! d with
  | None => UB "no such delegate"
  | Some (_, None) => UB "call of a null pointer"
  | Some (_, Some (TFunction f)) => Ok (call_fn f a e, v)
  | Some (_, Some (TMethod o m)) => Ok (call_method o m a e, v)
  | Some (_, Some (TCell k)) =>
      match cells v !! k with
      | Some f => let '(f', r) := call_functor f a e in Ok (r, mkVars (variables v) (<[k := f']> (cells v)))
      | None => UB "no such cell"
      end
  end.

Definition spec_step (s : step) (v : vars) (e : Env) : outcome (list R * Env * vars) :=
  match s with
  | Do o => Ok ([], e, spec_op o v)
  | Call d a => x ← spec_call v d a e; let '(r, e', v') := x in Ok ([r], e', v')
  end.

Fixpoint spec_steps (ss : list step) (v : vars) (e : Env) : outcome (list R * Env * vars) :=
  match ss with
  | [] => Ok ([], e, v)
  | s :: ss =>
      x ← spec_step s v e; let '(rs, e, v) := x in
      x ← spec_steps ss v e; let '(rs', e, v) := x in Ok (rs ++ rs', e, v)
  end.

(** *** The relation of worlds and variables *)

(** The value that a variable refers to. *)
Definition resolve_target (cs : list functor) (t : target) : option callable :=
  match t with
  | TFunction f => Some (CFunction f)
  | TMethod o m => Some (CMethod o m)
  | TCell k => CFunctor <$> cs !! k
  end.
Definition resolve_var (cs : list functor) (x : option object * option target) : option object * option callable :=
  (fst x, snd x ≫= resolve_target cs).
Definition resolve (v : vars) : gmap nat (option object * option callable) :=
  resolve_var (cells v) <$> variables v.

Definition cell_of (v : vars) (d : nat) : option nat :=
  match variables v !! d with Some (_, Some (TCell k)) => Some k | _ => None end.
Definition ptr (w : world) (d : nat) : option (option pointer) := object_ptr_ <$> delegates w !! d.

Definition in_range (v : vars) : Prop := ∀ d k, cell_of v d = Some k → k < length (cells v).

(** Two variables refer to the same cell when the delegates point to the same store. *)
Definition shares (w : world) (v : vars) : Prop :=
  ∀ d1 d2 k1 k2, cell_of v d1 = Some k1 → cell_of v d2 = Some k2 → k1 = k2 ↔ ptr w d1 = ptr w d2.

Definition related (w : world) (v : vars) : Prop :=
  wf w ∧ views w = resolve v ∧ in_range v ∧ shares w v.

Lemma cell_lookup v d k : cell_of v d = Some k ↔ ∃ o, variables v !! d = Some (o, Some (TCell k)).
Proof.
  unfold cell_of. split; [|by intros (o & ->)].
  destruct (variables v !! d) as [[o [[| |k']|]]|]; try done. intros [= ->]. by exists o.
Qed.

Lemma cell_resolve v d k f : cell_of v d = Some k → cells v !! k = Some f →
  ∃ o, resolve v !! d = Some (o, Some (CFunctor f)).
Proof.
  intros [o Ho]%cell_lookup Hf. exists o. unfold resolve, resolve_var. rewrite lookup_fmap, Ho. simpl.
  by rewrite Hf.
Qed.

(** A delegate that a functor is bound to owns the store that it points to. *)
Lemma view_functor w d o f :
  wf w → views w !! d = Some (o, Some (CFunctor f)) →
  ∃ x l b, delegates w !! d = Some x ∧ stub_ptr_ x = Some (FunctorStub (type_of f)) ∧
    object_ptr_ x = Some (ToStore l) ∧ heap w !! l = Some b ∧ content b = Some f ∧ d ∈ owners b.
Proof.
  intros [Hg _]. unfold views. rewrite lookup_fmap. destruct (delegates w !! d) as [x|] eqn:Hx; [|done].
  simpl. intros [= _ Ht]. unfold target_of in Ht. destruct (Hg d x Hx) as [Hs Hst].
  destruct (stub_ptr_ x) as [[| |t]|] eqn:E; [done|by destruct (object_ptr_ x) as [[]|]| |done].
  destruct Hst as (l & b & g & Hl & Hp & Hb & Hc & <-). rewrite Hp, Hb, Hc in Ht. simplify_eq/=.
  destruct (Hs l Hl) as (b' & f' & Hb' & _ & Ho & _). simplify_eq. by exists x, l, b.
Qed.

Lemma view_unbound w d x : wf w → delegates w !! d = Some x → snd (view_of (heap w) x) = None → stub_ptr_ x = None.
Proof.
  intros [Hg _] Hx. destruct (Hg d x Hx) as [_ Hst]. unfold view_of, target_of. simpl.
  destruct (stub_ptr_ x) as [[| |t]|]; [done| | |done].
  - destruct Hst as [o ->]. done.
  - by destruct Hst as (l & b & f & _ & -> & -> & -> & _).
Qed.

(** The result and the effect of a call depend on the view. *)
Lemma invoke_view w d a e :
  wf w → (x ← invoke w d a e; Ok (fst x)) =
    match views w !! d with
    | Some (_, Some (CFunction f)) => Ok (call_fn f a e)
    | Some (_, Some (CMethod o m)) => Ok (call_method o m a e)
    | Some (_, Some (CFunctor f)) => Ok (snd (call_functor f a e))
    | Some (_, None) => UB "call of a null pointer"
    | None => UB "no such delegate"
    end.
Proof.
  intros [Hg _]. unfold invoke, views. rewrite lookup_fmap.
  destruct (delegates w !! d) as [x|] eqn:Hx; [|done]. simpl. unfold target_of.
  destruct (Hg d x Hx) as [_ Hst]. destruct (stub_ptr_ x) as [[f|m|t]|]; [done| | |done].
  - by destruct Hst as [o ->].
  - destruct Hst as (l & b & f & _ & -> & Hb & Hc & Ht). rewrite Hb. destruct b as [c mf os]. simpl in Hc.
    rewrite Hc. simpl. rewrite bool_decide_true by done. by destruct (call_functor f a e).
Qed.

(** *** The operations keep the relation *)

Lemma resolve_app v cs : in_range v → resolve_var (cells v ++ cs) <$> variables v = resolve v.
Proof.
  intros Hr. unfold resolve. apply map_fmap_ext. intros d [o t] Hd. unfold resolve_var. simpl. f_equal.
  destruct t as [[| |k]|]; [done|done| |done]. simpl. rewrite lookup_app_l; [done|].
  apply (Hr d). apply cell_lookup. by exists o.
Qed.

Lemma resolve_set d x v : resolve (set_var d x v) = <[d := resolve_var (cells v) x]> (resolve v).
Proof. unfold resolve, set_var. simpl. by rewrite fmap_insert. Qed.

Lemma resolve_bind d f v :
  in_range v → resolve (bind_functor d f v) = <[d := (None, Some (CFunctor f))]> (resolve v).
Proof.
  intros Hr. unfold resolve at 1, bind_functor. simpl. rewrite fmap_insert, resolve_app by done. f_equal.
  unfold resolve_var. simpl. by rewrite list_lookup_middle.
Qed.

Lemma resolve_op o v : in_range v → resolve (spec_op o v) = view_op o (resolve v).
Proof.
  intros Hr. assert (∀ d, resolve v !! d = resolve_var (cells v) <$> variables v !! d) as Hd.
  { intros d. unfold resolve. by rewrite lookup_fmap. }
  destruct o as [d|d f|d o m|d o|d o m|d f|d src|d src|d f|d m|d|d|d]; cbn [spec_op view_op];
    rewrite ?resolve_set, ?resolve_bind by done; try done.
  1-2: rewrite Hd; by destruct (variables v !! src) as [[]|].
  - rewrite Hd. destruct (variables v !! d) as [[[o|] t]|]; [by rewrite resolve_bind|done|done].
  - rewrite Hd. by destruct (variables v !! d) as [[]|].
  - rewrite Hd. by destruct (variables v !! d) as [[]|].
  - unfold resolve. simpl. by rewrite fmap_delete.
Qed.

Lemma range_set d x v : in_range v → (∀ o k, x = (o, Some (TCell k)) → k < length (cells v)) →
  in_range (set_var d x v).
Proof.
  intros Hr Hx d' k [o Ho]%cell_lookup. simpl in Ho.
  apply lookup_insert_Some in Ho as [[_ Hk]|[_ Hk]]; [by eapply Hx|].
  apply (Hr d'), cell_lookup. by exists o.
Qed.

Lemma range_bind d f v : in_range v → in_range (bind_functor d f v).
Proof.
  intros Hr d' k [o Ho]%cell_lookup. simpl in Ho |- *. rewrite length_app. simpl.
  apply lookup_insert_Some in Ho as [[_ [= _ <-]]|[_ Hk]]; [lia|].
  assert (k < length (cells v)); [|lia]. apply (Hr d'), cell_lookup. by exists o.
Qed.

Lemma range_op o v : in_range v → in_range (spec_op o v).
Proof.
  intros Hr. assert (∀ d src, in_range (set_var d (default (None, None) (variables v !! src)) v)) as Hcopy.
  { intros d src. apply range_set; [done|]. intros o' k. destruct (variables v !! src) as [[o1 t]|] eqn:E; [|done].
    simpl. intros [= -> ->]. apply (Hr src), cell_lookup. by exists o'. }
  destruct o as [d|d f|d o m|d o|d o m|d f|d src|d src|d f|d m|d|d|d]; cbn [spec_op];
    try (by apply range_bind); try (by apply range_set); try apply Hcopy.
  - destruct (variables v !! d) as [[[o|] t]|]; [by apply range_bind|done|done].
  - intros d' k [o Ho]%cell_lookup. simpl in Ho. apply lookup_delete_Some in Ho as [_ Ho].
    apply (Hr d'), cell_lookup. by exists o.
Qed.

(** One delegate changed. *)
Lemma shares_update w w' v v' d :
  shares w v →
  (∀ d', d' ≠ d → cell_of v' d' = cell_of v d' ∧ ptr w' d' = ptr w d') →
  (∀ k d' k', cell_of v' d = Some k → d' ≠ d → cell_of v d' = Some k' → k = k' ↔ ptr w' d = ptr w d') →
  shares w' v'.
Proof.
  intros Hs Hf Hd d1 d2 k1 k2 H1 H2.
  destruct (decide (d1 = d)) as [->|N1], (decide (d2 = d)) as [->|N2].
  - split; [done|congruence].
  - destruct (Hf d2 N2) as [E ->]. rewrite E in H2. by eapply Hd.
  - destruct (Hf d1 N1) as [E ->]. rewrite E in H1. pose proof (Hd k2 d1 k1 H2 N1 H1) as Hk.
    split; intros Heq; symmetry; apply Hk; by symmetry.
  - destruct (Hf d1 N1) as [E1 ->], (Hf d2 N2) as [E2 ->]. rewrite E1 in H1. rewrite E2 in H2. by apply Hs.
Qed.

Definition dest (o : op) : nat :=
  match o with
  | New d | NewFunction d _ | NewMethod d _ _ | NewObject d _ | NewMember d _ _ | NewFunctor d _
  | NewCopy d _ | AssignCopy d _ | AssignFunctor d _ | AssignMethod d _ | Reset d | ResetStub d
  | Destroy d => d
  end.

(** The operations change one delegate. *)
Lemma exec_op_frame o w w' d' : exec_op o w = Ok w' → d' ≠ dest o → ptr w' d' = ptr w d'.
Proof.
  intros E Hd. unfold ptr. f_equal.
  destruct o as [d|d f|d o m|d o|d o m|d f|d src|d src|d f|d m|d|d|d]; cbn [exec_op dest] in *;
    unfold construct, construct_method, construct_functor, construct_copy, assign_copy, assign_functor,
      assign_method, reset, reset_stub, destroy in E; cbn zeta in E;
    repeat match type of E with
    | (_ ← ?o; _) = _ => destruct o; cbn [mbind outcome_bind] in E; try done
    | match ?x with _ => _ end = _ => destruct x eqn:?; try done
    end; simplify_eq; simpl; try done; try (by rewrite lookup_insert_ne); by rewrite lookup_delete_ne.
Qed.

Lemma spec_op_frame o v d' : d' ≠ dest o → cell_of (spec_op o v) d' = cell_of v d'.
Proof.
  intros Hd. unfold cell_of.
  destruct o as [d|d f|d o m|d o|d o m|d f|d src|d src|d f|d m|d|d|d]; cbn [spec_op dest] in *;
    try (simpl; by rewrite lookup_insert_ne).
  - destruct (variables v !! d) as [[[o|] t]|]; [simpl; by rewrite lookup_insert_ne|done|done].
  - simpl. by rewrite lookup_delete_ne.
Qed.

(** [d] points to a store that it alone owns. *)
Definition sole (w : world) (d : nat) : Prop :=
  ∃ l b, ptr w d = Some (Some (ToStore l)) ∧ heap w !! l = Some b ∧ owners b = {[d]}.

Lemma owners_sole w d x l b :
  wf w → delegates w !! d = Some x → store_ x = Some l → heap w !! l = Some b →
  size (owners b) ≤ 1 → owners b = {[d]}.
Proof.
  intros Hwf Hx Hs Hb Hsize. destruct (proj1 (proj1 Hwf d x Hx) l Hs) as (b1 & f1 & Hb1 & _ & Ho & _).
  simplify_eq. apply set_eq. intros d'. rewrite elem_of_singleton. split; [|by intros ->]. intros Hd'.
  apply (size_singleton_inv (owners b)); [|done|done].
  assert (size (owners b) ≠ 0) by (apply size_non_empty_iff; set_solver). lia.
Qed.

Lemma new_store_sole w d x f h y :
  wf w → delegates w !! d = Some x → object_ptr_ y = Some (ToStore (fresh_store (heap w))) →
  release d (store_ x) (<[fresh_store (heap w) := mkBlock (Some f) (type_of f) {[d]}]> (heap w)) = Ok h →
  sole (mkWorld (<[d := y]> (delegates w)) h) d.
Proof.
  intros Hwf Hx Hy Hr. exists (fresh_store (heap w)), (mkBlock (Some f) (type_of f) {[d]}).
  unfold ptr. simpl. rewrite lookup_insert_eq. simpl. rewrite Hy. split; [done|]. split; [|done].
  rewrite (release_other _ _ _ _ _ Hr); [by rewrite lookup_insert_eq|]. by eapply store_not_fresh.
Qed.

Lemma construct_functor_sole w d f : sole (construct_functor d f w) d.
Proof.
  unfold construct_functor, sole, ptr. simpl. do 2 eexists. rewrite !lookup_insert_eq. done.
Qed.

Lemma assign_functor_sole w w' d f : wf w → assign_functor d f w = Ok w' → sole w' d.
Proof.
  intros Hwf. unfold assign_functor. destruct (delegates w !! d) as [x|] eqn:Hx; [|done].
  destruct (store_size_ x) as [sz|]; [|done]. destruct (_ || _) eqn:Hc.
  - destruct (release _ _ _) as [h| |] eqn:Hr; [|done|done]. intros [= <-]. by eapply new_store_sole.
  - apply orb_false_iff in Hc as [_ Hc]. apply Nat.ltb_ge in Hc.
    destruct (store_ x) as [l|] eqn:Hs; [|done]. destruct (deleter_ x) as [told|]; [|done].
    simpl in Hc. destruct (heap w !! l) as [b|] eqn:Hb; [|done]. case_bool_decide; [|done].
    intros [= <-]. exists l. unfold ptr. simpl. rewrite !lookup_insert_eq. eexists. split; [done|]. split; [done|].
    simpl. by apply (owners_sole w d x l b).
Qed.

Lemma assign_method_sole w w' d m : wf w → assign_method d m w = Ok w' → sole w' d.
Proof.
  intros Hwf. unfold assign_method. destruct (delegates w !! d) as [x|] eqn:Hx; [|done].
  destruct (object_ptr_ x) as [[|o|]|]; [done| |done|done].
  destruct (release _ _ _) as [h| |] eqn:Hr; [|done|done]. intros [= <-].
  by eapply (new_store_sole w d x (MemberPair o m)).
Qed.

(** A store that [d] alone owns is not the one of another delegate's functor. *)
Lemma sole_unshared w' v' d d' k k' :
  wf w' → views w' = resolve v' → in_range v' → sole w' d → d' ≠ d →
  cell_of v' d = Some k → cell_of v' d' = Some k' → ptr w' d ≠ ptr w' d'.
Proof.
  intros Hwf Hv Hr (l & b & Hp & Hb & Ho) Hd Hk Hk' Heq.
  destruct (lookup_lt_is_Some_2 _ _ (Hr d' k' Hk')) as [f Hf].
  destruct (cell_resolve v' d' k' f Hk' Hf) as [o Hview]. rewrite <- Hv in Hview.
  destruct (view_functor w' d' o f Hwf Hview) as (x & l' & b' & Hx & _ & Hl' & Hb' & _ & Hin).
  rewrite Hp in Heq. unfold ptr in Heq. rewrite Hx in Heq. simpl in Heq. rewrite Hl' in Heq.
  simplify_eq. rewrite Ho in Hin. set_solver.
Qed.

Lemma shares_copy w w' v v' d src :
  shares w v →
  (∀ d', d' ≠ d → cell_of v' d' = cell_of v d' ∧ ptr w' d' = ptr w d') →
  cell_of v' d = cell_of v src → ptr w' d = ptr w src → shares w' v'.
Proof.
  intros Hs Hf Hc Hp. apply (shares_update w w' v v' d); [done|done|]. intros k d' k' Hk _ Hk'.
  rewrite Hp. apply Hs; [by rewrite <- Hc|done].
Qed.

Lemma copy_cell d src v :
  cell_of (set_var d (default (None, None) (variables v !! src)) v) d = cell_of v src.
Proof. unfold cell_of. simpl. rewrite lookup_insert_eq. by destruct (variables v !! src) as [[]|]. Qed.

Lemma copy_ptr w w' d src :
  exec_op (AssignCopy d src) w = Ok w' ∨ exec_op (NewCopy d src) w = Ok w' → ptr w' d = ptr w src.
Proof.
  unfold ptr. cbn [exec_op]. intros [E|E]; f_equal.
  - unfold assign_copy in E. destruct (delegates w !! d) as [x|]; [|done].
    destruct (delegates w !! src) as [y|] eqn:Hy; [|done]. repeat case_bool_decide; simplify_eq; [done| |].
    + simpl. by rewrite lookup_insert_eq.
    + destruct (release d _ _); simplify_eq/=. by rewrite lookup_insert_eq.
  - destruct (delegates w !! d); [done|]. unfold construct_copy in E.
    destruct (delegates w !! src) as [y|] eqn:Hy; simplify_eq/=. by rewrite lookup_insert_eq.
Qed.

(** What an operation leaves in its delegate: no functor, one in a store of its own, or
    what is in another delegate. *)
Lemma exec_op_dest o w w' v :
  related w v → exec_op o w = Ok w' →
  cell_of (spec_op o v) (dest o) = None ∨
  (sole w' (dest o) ∧ cell_of (spec_op o v) (dest o) = Some (length (cells v))) ∨
  ∃ src, cell_of (spec_op o v) (dest o) = cell_of v src ∧ ptr w' (dest o) = ptr w src.
Proof.
  intros (Hwf & Hv & _ & _) E.
  assert (∀ d x, (∀ k, snd x ≠ Some (TCell k)) → cell_of (set_var d x v) d = None) as Hset.
  { intros d [o' t] Ht. unfold cell_of. simpl. rewrite lookup_insert_eq. destruct t as [[| |k]|]; try done.
    by destruct (Ht k). }
  assert (∀ d f, cell_of (bind_functor d f v) d = Some (length (cells v))) as Hbind.
  { intros d f. unfold cell_of. simpl. by rewrite lookup_insert_eq. }
  destruct o as [d|d f|d o m|d o|d o m|d f|d src|d src|d f|d m|d|d|d]; cbn [spec_op dest];
    try (left; by apply Hset).
  - right. left. cbn [exec_op] in E. destruct (delegates w !! d); simplify_eq. split; [apply construct_functor_sole|done].
  - right. left. cbn [exec_op] in E. destruct (delegates w !! d); simplify_eq. split; [apply construct_functor_sole|done].
  - right. right. exists src. split; [apply copy_cell|]. apply copy_ptr. by right.
  - right. right. exists src. split; [apply copy_cell|]. apply copy_ptr. by left.
  - right. left. split; [by eapply assign_functor_sole|done].
  - right. left. split; [by eapply assign_method_sole|]. cbn [exec_op] in E. unfold assign_method in E.
    destruct (delegates w !! d) as [x|] eqn:Hx; [|done]. pose proof (views_lookup w d x Hx) as Hd.
    rewrite Hv in Hd. unfold resolve, resolve_var, view_of, object_of in Hd. rewrite lookup_fmap in Hd.
    destruct (object_ptr_ x) as [[|o|]|]; [done| |done|done].
    destruct (variables v !! d) as [[o' t]|]; simplify_eq/=. done.
  - left. unfold cell_of. simpl. by rewrite lookup_delete_eq.
Qed.

Lemma related_op o w w' v : related w v → exec_op o w = Ok w' → related w' (spec_op o v).
Proof.
  intros Hrel E. pose proof Hrel as (Hwf & Hv & Hr & Hs). destruct (exec_op_wf o w w' Hwf E) as [Hwf' Hv'].
  rewrite Hv, <- resolve_op in Hv' by done. pose proof (range_op o v Hr) as Hr'.
  do 3 (split; [done|]).
  assert (∀ d', d' ≠ dest o → cell_of (spec_op o v) d' = cell_of v d' ∧ ptr w' d' = ptr w d') as Hf.
  { intros d' Hd. split; [by apply spec_op_frame|by apply (exec_op_frame o w w')]. }
  destruct (exec_op_dest o w w' v Hrel E) as [Hn|[[Hsole Hk]|(src & Hc & Hp)]].
  - apply (shares_update w w' v _ (dest o)); [done|done|]. intros k d' k' Hk. by rewrite Hn in Hk.
  - apply (shares_update w w' v _ (dest o)); [done|done|]. intros k d' k' Hk1 Hd Hk'.
    rewrite Hk in Hk1. simplify_eq. destruct (Hf d' Hd) as [Hc' <-]. split.
    + intros <-. pose proof (Hr d' _ Hk'). lia.
    + intros Heq. exfalso. eapply (sole_unshared w' (spec_op o v)); try done. by rewrite Hc'.
  - by apply (shares_copy w w' v _ (dest o) src).
Qed.

(** *** Calls keep the relation *)

Lemma call_functor_type f a e : type_of (fst (call_functor f a e)) = type_of f.
Proof. destruct f as [t c|o m]; [|done]. simpl. by destruct (call_closure t c a e). Qed.

(** The functor of a store is replaced by one of its type. *)
Definition set_content (l : nat) (f : functor) (w : world) : world :=
  mkWorld (delegates w)
    (alter (λ b, mkBlock (Some f) (made_for b) (owners b)) l (heap w)).

Lemma set_content_wf w l b f f' :
  wf w → heap w !! l = Some b → content b = Some f → type_of f' = type_of f → wf (set_content l f' w).
Proof.
  intros [Hg Ho] Hb Hc Ht.
  assert (∀ l' b' g, heap w !! l' = Some b' → content b' = Some g → ∃ b'' g', heap (set_content l f' w) !! l' = Some b'' ∧
    content b'' = Some g' ∧ type_of g' = type_of g ∧ owners b'' = owners b') as Hh.
  { intros l' b' g Hb' Hg'. simpl. destruct (decide (l' = l)) as [->|Hn].
    - rewrite lookup_alter_eq, Hb'. simplify_eq/=. by do 2 eexists.
    - rewrite lookup_alter_ne by done. by exists b', g. }
  split.
  - intros d x Hx. destruct (Hg d x Hx) as [Hs Hst]. split.
    + intros l' Hl'. destruct (Hs l' Hl') as (b' & g & Hb' & Hg' & Hin & Hdel).
      destruct (Hh l' b' g Hb' Hg') as (b'' & g' & Hb'' & Hg'' & Ht' & Ho'). exists b'', g'.
      rewrite Ho', Ht'. done.
    + destruct (stub_ptr_ x) as [[| |t]|]; [done|done| |done].
      destruct Hst as (l' & b' & g & Hl' & Hp & Hb' & Hg' & Htg).
      destruct (Hh l' b' g Hb' Hg') as (b'' & g' & Hb'' & Hg'' & Ht' & _). exists l', b'', g'. by rewrite Ht'.
  - intros l' b'. simpl. destruct (decide (l' = l)) as [->|Hn].
    + rewrite lookup_alter_eq, Hb. simpl. intros [= <-]. simpl. by apply Ho.
    + rewrite lookup_alter_ne by done. apply Ho.
Qed.

Lemma invoke_set_content w d a e x l b f :
  delegates w !! d = Some x → stub_ptr_ x = Some (FunctorStub (type_of f)) →
  object_ptr_ x = Some (ToStore l) → heap w !! l = Some b → content b = Some f →
  invoke w d a e = Ok (snd (call_functor f a e), set_content l (fst (call_functor f a e)) w).
Proof.
  intros Hx Hst Hp Hb Hc. unfold invoke. rewrite Hx, Hst, Hp, Hb. destruct b as [c t os]. simpl in Hc. subst c.
  rewrite bool_decide_true by done. destruct (call_functor f a e) as [f' r]. simpl. unfold set_content.
  do 3 f_equal. apply map_eq. intros l'. destruct (decide (l' = l)) as [->|Hn].
  - by rewrite lookup_insert_eq, lookup_alter_eq, Hb.
  - by rewrite lookup_insert_ne, lookup_alter_ne.
Qed.

(** [x] has a functor in the store [l]. *)
Definition at_store (l : nat) (x : delegate) : bool :=
  match object_ptr_ x, stub_ptr_ x with
  | Some (ToStore l'), Some (FunctorStub _) => bool_decide (l' = l)
  | _, _ => false
  end.

Lemma at_store_spec l x :
  at_store l x = true ↔ object_ptr_ x = Some (ToStore l) ∧ ∃ t, stub_ptr_ x = Some (FunctorStub t).
Proof.
  unfold at_store. split.
  - destruct (object_ptr_ x) as [[| |l']|], (stub_ptr_ x) as [[]|]; try done.
    intros ->%bool_decide_eq_true. split; [done|by eexists].
  - intros [-> [t ->]]. by apply bool_decide_eq_true.
Qed.

(** The views of the delegates that point to the store change. *)
Lemma set_content_view w l f d x :
  delegates w !! d = Some x → is_Some (heap w !! l) →
  views (set_content l f w) !! d =
    if at_store l x then Some (object_of x, Some (CFunctor f)) else views w !! d.
Proof.
  intros Hx [b Hb]. unfold views. rewrite !lookup_fmap. simpl. rewrite Hx. simpl. unfold view_of, target_of.
  destruct (at_store l x) eqn:Hat.
  { apply at_store_spec in Hat as [-> [t ->]]. by rewrite lookup_alter_eq, Hb. }
  do 2 f_equal. unfold at_store in Hat.
  destruct (stub_ptr_ x) as [[| |t]|]; [done|done| |done]. destruct (object_ptr_ x) as [[| |l']|]; try done.
  rewrite lookup_alter_ne; [done|]. intros ->. by rewrite bool_decide_true in Hat.
Qed.

Lemma related_set_content w v d x l b f f' k :
  related w v → delegates w !! d = Some x → stub_ptr_ x = Some (FunctorStub (type_of f)) →
  object_ptr_ x = Some (ToStore l) → heap w !! l = Some b → content b = Some f →
  type_of f' = type_of f → cell_of v d = Some k →
  related (set_content l f' w) (mkVars (variables v) (<[k := f']> (cells v))).
Proof.
  intros (Hwf & Hv & Hr & Hs) Hx Hst Hp Hb Hc Ht Hk. split; [by apply (set_content_wf w l b f)|].
  split; [|split; [|exact Hs]].
  2:{ intros d' k' Hk'. simpl. rewrite length_insert. by apply (Hr d'). }
  apply map_eq. intros d'. unfold resolve at 1. rewrite lookup_fmap. cbn [cells variables].
  destruct (delegates w !! d') as [x'|] eqn:Hx'.
  2:{ assert (views w !! d' = None) as Hn by (unfold views; by rewrite lookup_fmap, Hx').
      assert (views (set_content l f' w) !! d' = None) as -> by (unfold views; rewrite lookup_fmap; simpl; by rewrite Hx').
      rewrite Hv in Hn. unfold resolve in Hn. rewrite lookup_fmap in Hn. by destruct (variables v !! d'). }
  rewrite (set_content_view w l f' d' x') by done.
  pose proof (views_lookup w d' x' Hx') as Hview. rewrite Hv in Hview |- *. unfold resolve in Hview |- *.
  rewrite lookup_fmap in Hview |- *. destruct (variables v !! d') as [[o' t']|] eqn:Hd'; [|done].
  unfold resolve_var in Hview |- *. simpl in Hview |- *.
  destruct (at_store l x') eqn:Hat.
  - apply at_store_spec in Hat as [Hp' [t Hst']]. unfold view_of, target_of in Hview. rewrite Hst', Hp', Hb, Hc in Hview. simpl in Hview.
    destruct t' as [[| |k']|]; simplify_eq/=.
    destruct (Hs d d' k k' Hk) as [_ <-]; [apply cell_lookup; by eexists| |].
    + rewrite list_lookup_insert_eq by by apply (Hr d). done.
    + unfold ptr. rewrite Hx, Hx'. simpl. congruence.
  - destruct t' as [[| |k']|]; [done|done| |done]. simpl in *. rewrite list_lookup_insert_ne; [done|].
    intros <-. enough (at_store l x' = true) by congruence. apply at_store_spec. assert (cell_of v d' = Some k) as Hk' by (apply cell_lookup; by eexists).
    pose proof (proj1 (Hs d d' k k Hk Hk') eq_refl) as Hpp. unfold ptr in Hpp. rewrite Hx, Hx' in Hpp.
    simpl in Hpp. split; [congruence|]. unfold view_of, target_of in Hview.
    destruct (lookup_lt_is_Some_2 _ _ (Hr d k Hk)) as [g Hg]. rewrite Hg in Hview. simplify_eq.
    destruct (stub_ptr_ x') as [[| |t]|]; [done|by destruct (object_ptr_ x') as [[]|]|by eexists|done].
Qed.

(** A call of a delegate is the call of its variable. *)
Lemma related_call w v d a e :
  related w v →
  (∃ s, invoke w d a e = UB s ∧ spec_call v d a e = UB s) ∨
  ∃ r w' v', invoke w d a e = Ok (r, w') ∧ spec_call v d a e = Ok (r, v') ∧ related w' v'.
Proof.
  intros Hrel. pose proof Hrel as (Hwf & Hv & Hr & Hs). unfold spec_call.
  assert (views w !! d = resolve_var (cells v) <$> variables v !! d) as Hd by (rewrite Hv; unfold resolve; by rewrite lookup_fmap).
  destruct (delegates w !! d) as [x|] eqn:Hx.
  2:{ left. unfold invoke. rewrite Hx. unfold views in Hd. rewrite lookup_fmap, Hx in Hd.
      destruct (variables v !! d); [done|]. by eexists. }
  rewrite (views_lookup w d x Hx) in Hd. destruct (variables v !! d) as [[o t]|] eqn:Hvd; [|done].
  simpl in Hd. destruct t as [t|].
  2:{ left. exists "call of a null pointer". split; [|done]. unfold invoke. rewrite Hx.
      rewrite (view_unbound w d x Hwf Hx); [done|]. assert (view_of (heap w) x = resolve_var (cells v) (o, None)) as -> by congruence. done. }
  right. destruct t as [f|o' m|k].
  - exists (call_fn f a e), w, v. split; [|done]. unfold invoke. rewrite Hx. unfold view_of, target_of, resolve_var in Hd.
    simpl in Hd. pose proof (proj2 (proj1 Hwf d x Hx)) as Hst. destruct (stub_ptr_ x) as [[g|m|t]|]; [by simplify_eq| | |done].
    + destruct Hst as [o' Ho]. by rewrite Ho in Hd.
    + destruct Hst as (l & b & g & _ & Hp & Hb & Hc & _). by rewrite Hp, Hb, Hc in Hd.
  - exists (call_method o' m a e), w, v. split; [|done]. unfold invoke. rewrite Hx. unfold view_of, target_of, resolve_var in Hd.
    simpl in Hd. pose proof (proj2 (proj1 Hwf d x Hx)) as Hst. destruct (stub_ptr_ x) as [[g|m'|t]|]; [done| | |done].
    + destruct Hst as [o2 Ho]. rewrite Ho in Hd |- *. by simplify_eq.
    + destruct Hst as (l & b & g & _ & Hp & Hb & Hc & _). by rewrite Hp, Hb, Hc in Hd.
  - assert (cell_of v d = Some k) as Hk by (apply cell_lookup; by eexists).
    destruct (lookup_lt_is_Some_2 _ _ (Hr d k Hk)) as [f Hf]. rewrite Hf.
    destruct (view_functor w d o f Hwf) as (x' & l & b & Hx' & Hst & Hp & Hb & Hc & _).
    { rewrite (views_lookup w d x Hx), Hd. unfold resolve_var. simpl. by rewrite Hf. }
    simplify_eq. rewrite (invoke_set_content w d a e x l b f) by done.
    destruct (call_functor f a e) as [f' r] eqn:Ec. simpl. exists r, (set_content l f' w). eexists.
    split; [done|]. split; [done|]. apply (related_set_content w v d x l b f f' k); try done.
    pose proof (call_functor_type f a e) as Ht. by rewrite Ec in Ht.
Qed.

Lemma related_step s w v e rs e' w' :
  related w v → exec_step s w e = Ok (rs, e', w') →
  ∃ v', spec_step s v e = Ok (rs, e', v') ∧ related w' v'.
Proof.
  intros Hrel. destruct s as [o|d a]; cbn [exec_step spec_step].
  - destruct (exec_op o w) as [w1| |] eqn:E; [|done|done]. cbn [mbind outcome_bind]. intros [= <- <- <-].
    eexists. split; [done|]. by eapply related_op.
  - destruct (related_call w v d a e Hrel) as [(u & -> & ->)|([r e1] & w1 & v1 & -> & -> & Hrel')]; [done|].
    cbn [mbind outcome_bind]. intros [= <- <- <-]. by eexists.
Qed.

Lemma related_steps ss w v e rs e' w' :
  related w v → exec_steps ss w e = Ok (rs, e', w') →
  ∃ v', spec_steps ss v e = Ok (rs, e', v') ∧ related w' v'.
Proof.
  revert w v e rs e' w'. induction ss as [|s ss IH]; intros w v e rs e' w' Hrel; cbn [exec_steps spec_steps].
  { intros [= <- <- <-]. by eexists. }
  destruct (exec_step s w e) as [[[rs1 e1] w1]| |] eqn:E1; [|done|done]. cbn [mbind outcome_bind].
  destruct (related_step s w v e rs1 e1 w1 Hrel E1) as (v1 & -> & Hrel1). cbn [mbind outcome_bind].
  destruct (exec_steps ss w1 e1) as [[[rs2 e2] w2]| |] eqn:E2; [|done|done]. cbn [mbind outcome_bind].
  intros [= <- <- <-]. destruct (IH w1 v1 e1 rs2 e2 w2 Hrel1 E2) as (v2 & -> & Hrel2). by eexists.
Qed.

(** *** When programs are defined *)

(** Every step of the program is careful where it is executed; a delegate that is called is
    bound to something. *)
Definition careful_step (s : step) (w : world) : bool :=
  match s with
  | Do o => careful w o
  | Call d _ => match delegates w !! d with Some x => operator_bool x | None => false end
  end.
Fixpoint careful_steps (ss : list step) (w : world) (e : Env) : bool :=
  match ss with
  | [] => true
  | s :: ss =>
      careful_step s w &&
      match exec_step s w e with Ok (_, e', w') => careful_steps ss w' e' | _ => true end
  end.

Lemma careful_call_defined w d a e :
  wf w → tidy (heap w) → careful_step (Call d a) w = true →
  ∃ r w', invoke w d a e = Ok (r, w') ∧ tidy (heap w').
Proof.
  intros [Hg _] Ht. simpl. destruct (delegates w !! d) as [x|] eqn:Hx; [|done].
  unfold operator_bool. destruct (Hg d x Hx) as [_ Hst].
  destruct (stub_ptr_ x) as [[f|m|t]|] eqn:Es; [| | |done]; intros _.
  - unfold invoke. rewrite Hx, Es. by do 2 eexists.
  - destruct Hst as [o Ho]. unfold invoke. rewrite Hx, Es, Ho. by do 2 eexists.
  - destruct Hst as (l & b & f & _ & Hp & Hb & Hc & Hf).
    rewrite (invoke_set_content w d a e x l b f) by (done || congruence). do 2 eexists. split; [done|].
    intros l' b'. simpl. destruct (decide (l' = l)) as [->|Hn].
    + rewrite lookup_alter_eq, Hb. simpl. intros [= <-]. simpl. eexists. split; [done|].
      rewrite call_functor_type. destruct (Ht l b Hb) as (f1 & Hf1 & <-). congruence.
    + rewrite lookup_alter_ne by done. apply Ht.
Qed.

Lemma careful_steps_defined ss w v e :
  related w v → tidy (heap w) → careful_steps ss w e = true → ∃ r, exec_steps ss w e = Ok r.
Proof.
  revert w v e. induction ss as [|s ss IH]; intros w v e Hrel Ht; cbn [exec_steps careful_steps]; [by eexists|].
  intros [Hc Hss]%andb_prop. pose proof Hrel as (Hwf & _).
  assert (∃ rs e' w', exec_step s w e = Ok (rs, e', w') ∧ tidy (heap w')) as (rs & e' & w' & E & Ht').
  { destruct s as [o|d a]; cbn [exec_step].
    - destruct (careful_defined o w Hwf Ht Hc) as (w' & -> & Ht'). by do 3 eexists.
    - destruct (careful_call_defined w d a e Hwf Ht Hc) as ([r e'] & w' & -> & Ht'). by do 3 eexists. }
  destruct (related_step s w v e rs e' w' Hrel E) as (v' & _ & Hrel'). rewrite E in Hss |- *.
  destruct (IH w' v' e' Hrel' Ht' Hss) as ([[rs2 e2] w2] & E2). cbn [mbind outcome_bind]. rewrite E2. by eexists.
Qed.

(** Functors that calls do not change. *)
Lemma unchanged_calls ss w v e rs e' w' :
  (∀ t c a e, fst (call_closure t c a e) = c) →
  related w v → exec_steps ss w e = Ok (rs, e', w') →
  views w' = foldl (λ u s, match s with Do o => view_op o u | Call _ _ => u end) (views w) ss.
Proof.
  intros Hpure. revert w v e rs e' w'. induction ss as [|s ss IH]; intros w v e rs e' w' Hrel; cbn [exec_steps foldl].
  { by intros [= _ _ <-]. }
  destruct (exec_step s w e) as [[[rs1 e1] w1]| |] eqn:E1; [|done|done]. cbn [mbind outcome_bind].
  destruct (related_step s w v e rs1 e1 w1 Hrel E1) as (v1 & Ev & Hrel1).
  destruct (exec_steps ss w1 e1) as [[[rs2 e2] w2]| |] eqn:E2; [|done|done]. cbn [mbind outcome_bind].
  intros [= <- <- <-]. rewrite (IH w1 v1 e1 rs2 e2 w2 Hrel1 E2). f_equal.
  destruct s as [o|d a]; cbn [exec_step spec_step] in E1, Ev.
  - destruct (exec_op o w) as [w3| |] eqn:E3; [|done|done]. cbn [mbind outcome_bind] in E1. simplify_eq.
    by apply (exec_op_wf o w w1); [apply Hrel|].
  - destruct Hrel as (_ & -> & _), Hrel1 as (_ & -> & _). unfold spec_call in Ev.
    destruct (variables v !! d) as [[o [[f|o' m|k]|]]|]; try done.
    + cbn [mbind outcome_bind] in Ev. destruct (call_fn f a e). by simplify_eq.
    + cbn [mbind outcome_bind] in Ev. destruct (call_method o' m a e). by simplify_eq.
    + destruct (cells v !! k) as [f|] eqn:Hk; [|done].
      assert (fst (call_functor f a e) = f) as Hf.
      { destruct f as [t c|o' m]; [|done]. simpl. pose proof (Hpure t c a e) as Hc. by destruct (call_closure t c a e); simplify_eq/=. }
      destruct (call_functor f a e) as [f' [r' e3]]. simpl in Hf. subst f'. cbn [mbind outcome_bind] in Ev.
      simplify_eq. unfold resolve. simpl. by rewrite list_insert_id.
Qed.

Lemma empty_wf : wf empty_world.
Proof.
  split; [intros d x Hx|intros l b Hl]; simpl in *.
  - by apply lookup_empty_Some in Hx.
  - by apply lookup_empty_Some in Hl.
Qed.

Lemma empty_related : related empty_world empty_vars.
Proof.
  assert (∀ d, cell_of empty_vars d = None) as Hn by (intros d; unfold cell_of; simpl; by rewrite lookup_empty).
  split; [apply empty_wf|]. split; [|split].
  - unfold views, resolve. simpl. by rewrite !fmap_empty.
  - intros d k Hk. by rewrite Hn in Hk.
  - intros d1 d2 k1 k2 Hk. by rewrite Hn in Hk.
Qed.
End delegate.

Section delegate_claims.
Context {fn object method A R Env : Type}.
Context (call_fn : fn → A → Env → R * Env) (call_method : object → method → A → Env → R * Env).
Context (closure_size : nat → nat) (call_closure : nat → nat → A → Env → nat * (R * Env)) (pair_size : nat).
Implicit Types ss : list (@step fn object method A).
Implicit Types os : list (@op fn object method).
Abbreviation exec_program := (exec_steps call_fn call_method closure_size call_closure pair_size).

(** C6: a program that makes, copies, assigns, resets, calls and destroys delegates treats
    each of them as a variable that refers to what was bound to it last: a function, a
    method of an object, or a functor object, which a copy refers to as well and which calls
    may change.  Whenever the program has no undefined behaviour, its calls have the results
    and the effects that the calls of the variables have, each delegate is bound to what its
    variable refers to, although functors are made again in the memory of others, and a
    further call gives what the variable gives; calling a delegate that is bound to nothing
    calls a null pointer.  When calls do not change functors, each delegate is a variable
    with a value of its own: what the others do does not matter.  The program has no
    undefined behaviour when names are used properly, delegates are bound when they are
    called, and a functor is only assigned to a delegate that has a store, and replaces one
    of the same type unless it goes to a store of its own.  (What is called does not use the
    delegates itself.) *)
Theorem delegate_refines_variable ss e :
  (∀ rs e' w, exec_program ss empty_world e = Ok (rs, e', w) →
     ∃ v, spec_steps call_fn call_method call_closure ss empty_vars e = Ok (rs, e', v) ∧ views w = resolve v ∧
     (∀ d a, (x ← invoke call_fn call_method call_closure w d a e'; Ok (fst x)) =
             (x ← spec_call call_fn call_method call_closure v d a e'; Ok (fst x))) ∧
     ((∀ t c a e, fst (call_closure t c a e) = c) →
      views w = foldl (λ u s, match s with Do o => view_op o u | Call _ _ => u end) ∅ ss)) ∧
  (careful_steps call_fn call_method closure_size call_closure pair_size ss empty_world e = true →
     ∃ r, exec_program ss empty_world e = Ok r).
Proof.
  split.
  - intros rs e' w Hw. pose proof (@empty_related fn object method) as Hrel0.
    destruct (related_steps _ _ _ _ _ ss _ _ e rs e' w Hrel0 Hw) as (v & Hv & Hrel).
    exists v. split; [done|]. split; [apply Hrel|]. split.
    + intros d a.
      destruct (related_call call_fn call_method call_closure w v d a e' Hrel)
        as [(s & -> & ->)|(r & w' & v' & -> & -> & _)]; done.
    + intros Hpure. rewrite (unchanged_calls _ _ _ _ _ ss _ _ e rs e' w Hpure Hrel0 Hw).
      unfold views. simpl. by rewrite fmap_empty.
  - apply (careful_steps_defined _ _ _ _ _ ss empty_world empty_vars); [apply empty_related|].
    intros l b Hl. simpl in Hl. by apply lookup_empty_Some in Hl.
Qed.

(** Three uses of delegates that the class accepts have undefined behaviour: to assign
    a functor to a default constructed delegate reads the uninitialised [store_size_]; to
    assign one that is no larger than the last to a delegate that was [reset] destroys and
    constructs at a null pointer; and when a functor of another type was made in the
    memory of the last one, destroying the delegate runs the destructor of the old type. *)
Theorem delegate_assign_UB (d : nat) (f g : @functor object method) :
  size_of closure_size pair_size (type_of g) ≤ size_of closure_size pair_size (type_of f) →
  type_of g ≠ type_of f →
  let exec os := exec_ops closure_size pair_size os (@empty_world fn object method) in
  exec [New d; AssignFunctor d f] = UB "store_size_ is not initialised" ∧
  exec [NewFunctor d f; Reset d; AssignFunctor d g] = UB "destructor of nothing" ∧
  exec [NewFunctor d f; AssignFunctor d g; Destroy d] = UB "destructor of another type".
Proof.
  intros Hsize Htype exec. unfold exec.
  assert (∀ o os w, exec_ops closure_size pair_size (o :: os) w =
    (w' ← exec_op closure_size pair_size o w; exec_ops closure_size pair_size os w')) as Hcons by done.
  rewrite !Hcons.
  change (exec_op closure_size pair_size (NewFunctor d f) empty_world)
    with (Ok (construct_functor closure_size pair_size d f (@empty_world fn object method))).
  change (exec_op closure_size pair_size (New d) empty_world)
    with (Ok (construct d default_delegate (@empty_world fn object method))).
  unfold construct, construct_functor. cbn [mbind outcome_bind exec_op].
  set (l := fresh_store _). split; [|split].
  - rewrite Hcons. cbn [exec_op]. unfold assign_functor. cbn [delegates]. by rewrite lookup_insert_eq.
  - rewrite Hcons. cbn [exec_op]. unfold reset. cbn [delegates heap]. rewrite lookup_insert_eq. cbn [store_ release]. rewrite lookup_insert_eq. cbn [content owners made_for].
    rewrite bool_decide_true by set_solver. rewrite bool_decide_true by done. cbn [mbind outcome_bind].
    rewrite Hcons. cbn [exec_op]. unfold assign_functor. cbn [delegates]. rewrite lookup_insert_eq. cbn [store_size_ store_ use_count].
    by rewrite (proj2 (Nat.ltb_ge _ _) Hsize).
  - rewrite Hcons. cbn [exec_op]. unfold assign_functor. cbn [delegates]. rewrite lookup_insert_eq. cbn [store_size_ store_ use_count heap].
    rewrite (proj2 (Nat.ltb_ge _ _) Hsize). rewrite !lookup_insert_eq. cbn [owners content deleter_].
    rewrite size_singleton. cbn [orb Nat.ltb Nat.leb]. rewrite bool_decide_true by done. cbn [mbind outcome_bind].
    rewrite Hcons. cbn [exec_op]. unfold destroy. cbn [delegates heap]. rewrite lookup_insert_eq. cbn [store_ release].
    rewrite lookup_insert_eq. cbn [content owners made_for].
    rewrite bool_decide_true by set_solver. by rewrite bool_decide_false.
Qed.
End delegate_claims.

(** ** The example program *)
Module Example_.
Local Open Scope string_scope.

(* @src cpp_practices/tricks/src/delegate_example.cpp 5-11 foo *)
(** The function and the method print their argument. *)
Definition call_foo (_ : unit) (a : nat) (out : list (string * nat)) : unit * list (string * nat) :=
  (tt, (out ++ [("function got: ", a)])%list).
Definition call_A_foo (_ : unit) (_ : unit) (a : nat) (out : list (string * nat)) :
    unit * list (string * nat) := (tt, (out ++ [("method got: ", a)])%list).
(** The only functor type is the pointer to a function; its value is the function. *)
Definition call_pointer (_ captured : nat) (a : nat) (out : list (string * nat)) :
    nat * (unit * list (string * nat)) := (captured, call_foo tt a out).

(* @src cpp_practices/tricks/src/delegate_example.cpp 13-24 main *)
(** The delegates [d1] to [d4]: they are made, called, and destroyed at the end in the
    reverse order. *)
Definition main_steps : list (@step unit unit unit nat) :=
  [Do (NewFunction 1 tt); Do (NewMethod 2 tt tt); Do (NewFunctor 3 (Closure 0 0)); Do (NewMember 4 tt tt);
   Call 1 1; Call 2 2; Call 3 3; Call 4 4; Do (Destroy 4); Do (Destroy 3); Do (Destroy 2); Do (Destroy 1)].

(** A functor with a mutable counter: a call returns the new count. *)
Definition call_counter (_ captured : nat) (_ : nat) (out : list (string * nat)) :
    nat * (nat * list (string * nat)) := (S captured, (S captured, out)).

(** A copy shares the counter, until a functor is assigned to it. *)
Definition counter_steps : list (@step unit unit unit nat) :=
  [Do (NewFunctor 1 (Closure 0 0)); Do (NewCopy 2 1); Call 1 0; Call 2 0; Do (AssignFunctor 2 (Closure 0 10));
   Call 2 0; Call 1 0; Do (AssignCopy 1 2); Call 1 0; Call 2 0; Do (Destroy 1); Call 2 0].

(** A function and a method that return their argument. *)
Definition echo (_ : unit) (a : nat) (out : list (string * nat)) : nat * list (string * nat) := (a, out).
Definition echo_method (_ _ : unit) (a : nat) (out : list (string * nat)) : nat * list (string * nat) := (a, out).

Lemma delegate_refines_variable_witness :
  (∃ r, exec_steps call_foo call_A_foo (λ _, 8) call_pointer 24 main_steps empty_world [] = Ok r ∧
     fst r = ([tt; tt; tt; tt],
              [("function got: ", 1); ("method got: ", 2); ("function got: ", 3); ("method got: ", 4)])) ∧
  ∃ w v,
    exec_steps echo echo_method (λ _, 8) call_counter 24 counter_steps empty_world [] =
      Ok ([1; 2; 11; 3; 12; 13; 14], [], w) ∧
    spec_steps echo echo_method call_counter counter_steps empty_vars [] =
      Ok ([1; 2; 11; 3; 12; 13; 14], [], v).
Proof.
  split.
  - destruct (delegate_refines_variable call_foo call_A_foo (λ _, 8) call_pointer 24 main_steps []) as [_ Hd].
    destruct Hd as [r Hr]; [vm_compute; reflexivity|]. exists r. split; [exact Hr|].
    vm_compute in Hr. injection Hr as <-. reflexivity.
  - assert (∃ w, exec_steps echo echo_method (λ _, 8) call_counter 24 counter_steps empty_world [] =
      Ok ([1; 2; 11; 3; 12; 13; 14], [], w)) as [w Hw] by (eexists; vm_compute; reflexivity).
    destruct (delegate_refines_variable echo echo_method (λ _, 8) call_counter 24 counter_steps []) as [Hd _].
    destruct (Hd _ _ _ Hw) as (v & Hv & _). exists w, v. split; [exact Hw|exact Hv].
Defined.

Lemma delegate_assign_UB_witness :
  exec_ops (λ t, t) 24 [NewFunctor 0 (Closure 8 1); AssignFunctor 0 (Closure 4 2); Destroy 0]
    (@empty_world unit unit unit) = UB "destructor of another type".
Proof.
  apply (delegate_assign_UB (λ t, t) 24 0 (Closure 8 1) (Closure 4 2)); [simpl; lia|discriminate].
Defined.
End Example_.
