(* ===== verification/DelegateMove.v ===== *)
(** The remaining operations of the class template of
    [src/cpp_practices/tricks/include/delegate.h]: moves, [swap], the comparisons and the
    hash.

    Moving a delegate moves its shared pointer and copies its other fields, which are plain
    pointers: the delegate that was moved from keeps a pointer to a store that it does not
    own any more.  It is therefore not well-formed until it is assigned to, and the theorems
    are about [swap], which leaves no such delegate behind.

    The theorems: [swap] exchanges what two delegates are bound to, also when they share a
    store; the comparisons are a total order, and equal delegates have equal hashes. *)
From S2P Require Import Prelude Delegate.
Local Open Scope nat_scope.

Section move.
Context {fn object method : Type}.
Abbreviation delegate := (@delegate fn object method).
Abbreviation world := (@world fn object method).
Abbreviation block := (@block object method).
Implicit Types (w : world) (h : gmap nat block) (x y : delegate).

(** Moving a shared pointer from [src] to [d], which owns nothing then. *)
Definition transfer (src d : nat) (s : option nat) h : gmap nat block :=
  match s with
  | None => h
  | Some l =>
      match h !! l with
      | Some b => <[l := mkBlock (content b) (made_for b) ({[d]} ∪ (owners b ∖ {[src]}))]> h
      | None => h
      end
  end.

(** What is left of a delegate that was moved from. *)
Definition moved_from x : delegate := mkDelegate (object_ptr_ x) (stub_ptr_ x) (deleter_ x) None (store_size_ x).

(* @src cpp_practices/tricks/include/delegate.h 23-23 delegate::delegate *)
Definition construct_move (d src : nat) w : outcome world :=
  match delegates w !! src with
  | Some x => Ok (mkWorld (<[d := x]> (<[src := moved_from x]> (delegates w))) (transfer src d (store_ x) (heap w)))
  | None => UB "no such delegate"
  end.

(* @src cpp_practices/tricks/include/delegate.h 73-73 delegate::operator= *)
(** A shared pointer moved to itself keeps its store; one that shares the store of the other
    keeps its own share. *)
Definition assign_move (d src : nat) w : outcome world :=
  match delegates w !! d, delegates w !! src with
  | Some x, Some y =>
      if bool_decide (d = src) then Ok w else
      let ds := <[d := y]> (<[src := moved_from y]> (delegates w)) in
      if bool_decide (store_ x = store_ y) then Ok (mkWorld ds (transfer src d (store_ y) (heap w))) else
      h ← release d (store_ x) (transfer src d (store_ y) (heap w));
      Ok (mkWorld ds h)
  | _, _ => UB "no such delegate"
  end.

(* @src cpp_practices/tricks/include/delegate.h 175-175 delegate::swap *)
(** [std::swap]: a temporary is made by a move, and destroyed at the end. *)
Definition swap (a b : nat) w : outcome world :=
  let t := fresh (dom (delegates w) : gset nat) in
  w ← construct_move t a w;
  w ← assign_move a b w;
  w ← assign_move b t w;
  destroy t w.

(** ** What a swap does *)

Lemma transfer_lookup src d s h l :
  transfer src d s h !! l =
  if bool_decide (s = Some l)
  then (λ b, mkBlock (content b) (made_for b) ({[d]} ∪ (owners b ∖ {[src]}))) <$> h !! l
  else h !! l.
Proof.
  unfold transfer. destruct s as [l0|]; [|by rewrite bool_decide_false].
  destruct (decide (l0 = l)) as [->|Hn].
  - rewrite bool_decide_true by done. destruct (h !! l) as [b|] eqn:E; [by rewrite lookup_insert_eq|by rewrite E].
  - rewrite bool_decide_false by congruence. destruct (h !! l0); [by rewrite lookup_insert_ne|done].
Qed.

(** The owners of a store are the delegates that hold it. *)
Lemma wf_owners w l b d :
  wf w → heap w !! l = Some b → d ∈ owners b ↔ ∃ x, delegates w !! d = Some x ∧ store_ x = Some l.
Proof.
  intros [Hg Ho] Hb. split.
  - intros Hd. by apply (Ho l b Hb).
  - intros (x & Hx & Hs). destruct (proj1 (Hg d x Hx) l Hs) as (b' & f & Hb' & _ & Hd & _). congruence.
Qed.

(** The delegates and the heap after a swap of two different delegates. *)
Definition swapped_heap (a b t : nat) x y h : gmap nat block :=
  transfer t b (store_ x) (transfer b a (store_ y) (transfer a t (store_ x) h)).

(** Moving to a delegate without a store. *)
Lemma assign_move_empty d src w x y :
  d ≠ src → delegates w !! d = Some x → delegates w !! src = Some y → store_ x = None →
  assign_move d src w =
  Ok (mkWorld (<[d := y]> (<[src := moved_from y]> (delegates w))) (transfer src d (store_ y) (heap w))).
Proof.
  intros Hn Hd Hs Hx. unfold assign_move. rewrite Hd, Hs, Hx, bool_decide_false by done. by case_bool_decide.
Qed.

Lemma swap_result a b w x y :
  a ≠ b → delegates w !! a = Some x → delegates w !! b = Some y →
  let t := fresh (dom (delegates w) : gset nat) in
  delegates w !! t = None ∧ t ≠ a ∧ t ≠ b ∧
  swap a b w = Ok (mkWorld (<[a := y]> (<[b := x]> (delegates w))) (swapped_heap a b t x y (heap w))).
Proof.
  intros Hab Ha Hb t.
  assert (delegates w !! t = None) as Ht by apply not_elem_of_dom, (is_fresh (dom (delegates w) : gset nat)).
  assert (t ≠ a) by congruence. assert (t ≠ b) by congruence. do 3 (split; [done|]).
  unfold swap. fold t. unfold construct_move. rewrite Ha. cbn [mbind outcome_bind].
  rewrite (assign_move_empty a b _ (moved_from x) y); cbn [delegates heap mbind outcome_bind]; [|done|..|done].
  2:{ by rewrite lookup_insert_ne, lookup_insert_eq. }
  2:{ by rewrite !lookup_insert_ne. }
  rewrite (assign_move_empty b t _ (moved_from y) x); cbn [delegates heap mbind outcome_bind]; [|done|..|done].
  2:{ by rewrite lookup_insert_ne, lookup_insert_eq. }
  2:{ by rewrite (lookup_insert_ne _ a t), (lookup_insert_ne _ b t), lookup_insert_eq. }
  unfold destroy. cbn [delegates heap]. rewrite (lookup_insert_ne _ b t), lookup_insert_eq by done.
  cbn [store_ moved_from release mbind outcome_bind]. do 2 f_equal. apply map_eq. intros d.
  destruct (decide (d = t)) as [->|]; [by rewrite lookup_delete_eq, !lookup_insert_ne|].
  rewrite lookup_delete_ne by done. destruct (decide (d = a)) as [->|]; [|destruct (decide (d = b)) as [->|]].
  - by rewrite (lookup_insert_ne _ b a), (lookup_insert_ne _ t a), !lookup_insert_eq.
  - by rewrite (lookup_insert_ne _ a b), !lookup_insert_eq.
  - by rewrite !lookup_insert_ne.
Qed.

Lemma swapped_heap_lookup a b t x y h l bl :
  a ≠ b → t ≠ a → t ≠ b → h !! l = Some bl → t ∉ owners bl →
  (a ∈ owners bl ↔ store_ x = Some l) → (b ∈ owners bl ↔ store_ y = Some l) →
  ∃ bl', swapped_heap a b t x y h !! l = Some bl' ∧ content bl' = content bl ∧
    ∀ d, d ∈ owners bl' ↔ (d = a ∧ store_ y = Some l) ∨ (d = b ∧ store_ x = Some l) ∨ (d ≠ a ∧ d ≠ b ∧ d ∈ owners bl).
Proof.
  intros Hab Hta Htb Hl Ht Ha Hb. unfold swapped_heap. rewrite !transfer_lookup, Hl.
  repeat case_bool_decide; (eexists; split; [done|]; split; [done|]); intros d; cbn [owners];
    repeat rewrite ?elem_of_union, ?elem_of_difference, ?elem_of_singleton;
    destruct (decide (d = a)), (decide (d = b)), (decide (d = t)); subst; tauto.
Qed.

Lemma swapped_heap_None a b t x y h l : h !! l = None → swapped_heap a b t x y h !! l = None.
Proof. intros Hl. unfold swapped_heap. rewrite !transfer_lookup, Hl. by repeat case_bool_decide. Qed.

(** Fields that fit to one heap fit to another with the same contents. *)
Lemma good_transport h h' d d' x :
  (∀ l bl, store_ x = Some l → h !! l = Some bl → ∃ bl', h' !! l = Some bl' ∧ content bl' = content bl ∧ d' ∈ owners bl') →
  good h d x → good h' d' x ∧ view_of h' x = view_of h x.
Proof.
  intros Hh [Hs Hst]. split; [split|].
  - intros l Hl. destruct (Hs l Hl) as (bl & f & Hb & Hc & _ & Hd). destruct (Hh l bl Hl Hb) as (bl' & Hb' & Hc' & Ho).
    exists bl', f. by rewrite Hc', Hc.
  - destruct (stub_ptr_ x) as [[| |t]|]; [done|done| |done].
    destruct Hst as (l & bl & f & Hl & Hp & Hb & Hc & Ht). destruct (Hh l bl Hl Hb) as (bl' & Hb' & Hc' & _).
    exists l, bl', f. by rewrite Hc', Hc.
  - unfold view_of, target_of. f_equal. destruct (stub_ptr_ x) as [[| |t]|]; [done|done| |done].
    destruct Hst as (l & bl & f & Hl & -> & Hb & Hc & Ht). destruct (Hh l bl Hl Hb) as (bl' & Hb' & Hc' & _).
    by rewrite Hb', Hb, Hc'.
Qed.

(** The swap keeps well-formedness and exchanges the views. *)
Lemma swap_wf a b w x y :
  wf w → a ≠ b → delegates w !! a = Some x → delegates w !! b = Some y →
  ∃ w', swap a b w = Ok w' ∧ wf w' ∧
    delegates w' = <[a := y]> (<[b := x]> (delegates w)) ∧
    views w' = <[a := view_of (heap w) y]> (<[b := view_of (heap w) x]> (views w)).
Proof.
  intros Hwf Hab Ha Hb. destruct (swap_result a b w x y Hab Ha Hb) as (Ht & Hta & Htb & ->).
  set (t := fresh _) in *. set (h' := swapped_heap a b t x y (heap w)).
  assert (∀ l bl, heap w !! l = Some bl → ∃ bl', h' !! l = Some bl' ∧ content bl' = content bl ∧
    ∀ d, d ∈ owners bl' ↔ (d = a ∧ store_ y = Some l) ∨ (d = b ∧ store_ x = Some l) ∨ (d ≠ a ∧ d ≠ b ∧ d ∈ owners bl)) as Hh.
  { intros l bl Hl. pose proof (λ d, wf_owners w l bl d Hwf Hl) as Hown.
    apply swapped_heap_lookup; [done|done|done|done|..]; rewrite Hown.
    - intros (z & Hz & _). congruence.
    - split; [intros (z & Hz & Hs); congruence|by exists x].
    - split; [intros (z & Hz & Hs); congruence|by exists y]. }
  assert (∀ d z, <[a := y]> (<[b := x]> (delegates w)) !! d = Some z →
    good h' d z ∧ view_of h' z = view_of (heap w) z) as Hgood.
  { intros d z Hz. apply lookup_insert_Some in Hz as [[<- <-]|[Hda Hz]];
      [|apply lookup_insert_Some in Hz as [[<- <-]|[Hdb Hz]]].
    - apply (good_transport (heap w) h' b a y); [|by apply (proj1 Hwf)]. intros l bl Hs Hl.
      destruct (Hh l bl Hl) as (bl' & Hl' & Hc & Ho). exists bl'. split; [done|]. split; [done|]. apply Ho. by left.
    - apply (good_transport (heap w) h' a b x); [|by apply (proj1 Hwf)]. intros l bl Hs Hl.
      destruct (Hh l bl Hl) as (bl' & Hl' & Hc & Ho). exists bl'. split; [done|]. split; [done|]. apply Ho. by right; left.
    - apply (good_transport (heap w) h' d d z); [|by apply (proj1 Hwf)]. intros l bl Hs Hl.
      destruct (Hh l bl Hl) as (bl' & Hl' & Hc & Ho). exists bl'. split; [done|]. split; [done|]. apply Ho.
      right. right. split; [done|]. split; [done|]. apply (wf_owners w l bl d Hwf Hl). by exists z. }
  eexists. split; [done|]. split; [split|split; [done|]].
  - intros d z Hz. by apply Hgood.
  - intros l bl' Hl'. cbn [delegates heap] in *. destruct (heap w !! l) as [bl|] eqn:Hl.
    2:{ unfold h' in Hl'. rewrite swapped_heap_None in Hl' by done. done. }
    destruct (Hh l bl Hl) as (bl2 & Hl2 & _ & Ho). assert (bl2 = bl') as -> by congruence. split.
    + destruct (proj2 Hwf l bl Hl) as [Hne _]. apply set_choose_L in Hne as [d Hd]. intros Hemp.
      pose proof (proj1 (wf_owners w l bl d Hwf Hl) Hd) as (z & Hz & Hs).
      assert (∃ d', d' ∈ owners bl') as [d' Hd']; [|by rewrite Hemp in Hd'; apply elem_of_empty in Hd'].
      destruct (decide (d = a)) as [->|]; [|destruct (decide (d = b)) as [->|]].
      * exists b. apply Ho. right. left. split; [done|congruence].
      * exists a. apply Ho. left. split; [done|congruence].
      * exists d. apply Ho. auto.
    + intros d Hd. apply Ho in Hd as [[-> Hs]|[[-> Hs]|(Hda & Hdb & Hd)]].
      * exists y. by rewrite lookup_insert_eq.
      * exists x. by rewrite lookup_insert_ne, lookup_insert_eq.
      * rewrite !lookup_insert_ne by done. by apply (wf_owners w l bl d Hwf Hl).
  - unfold views. cbn [delegates heap]. rewrite <- !fmap_insert. apply map_fmap_ext. intros d z Hz.
    by apply (Hgood d z).
Qed.

(** ** Comparisons *)

(** The addresses of objects and stores and of the stubs; a null pointer has the least. *)
Context (address : @pointer object → Z) (stub_address : option (@delegate_stub fn method) → Z).

(* @src cpp_practices/tricks/include/delegate.h 177-179 delegate::operator== *)
(** Reading [object_ptr_] before it is initialised is undefined. *)
Definition operator_eq x y : outcome bool :=
  match object_ptr_ x, object_ptr_ y with
  | Some p, Some q =>
      Ok ((address p =? address q)%Z && (stub_address (stub_ptr_ x) =? stub_address (stub_ptr_ y))%Z)
  | _, _ => UB "object_ptr_ is not initialised"
  end.

(* @src cpp_practices/tricks/include/delegate.h 181-181 delegate::operator!= *)
Definition operator_ne x y : outcome bool := b ← operator_eq x y; Ok (negb b).

(* @src cpp_practices/tricks/include/delegate.h 183-186 delegate::operator< *)
Definition operator_lt x y : outcome bool :=
  match object_ptr_ x, object_ptr_ y with
  | Some p, Some q =>
      Ok ((address p <? address q)%Z ||
          ((address p =? address q)%Z && (stub_address (stub_ptr_ x) <? stub_address (stub_ptr_ y))%Z))
  | _, _ => UB "object_ptr_ is not initialised"
  end.

(* @src cpp_practices/tricks/include/delegate.h 266-276 std::hash *)
(** With the hashes of the pointers as arguments, in 64-bit arithmetic. *)
Definition hash (hash_ptr hash_stub : Z → Z) x : outcome Z :=
  match object_ptr_ x with
  | Some p =>
      let seed := hash_ptr (address p) in
      Ok (uwrap 64 (hash_stub (stub_address (stub_ptr_ x)) + 0x9e3779b9 +
                    uwrap 64 (Z.shiftl seed 6) + Z.shiftr seed 2))
  | None => UB "object_ptr_ is not initialised"
  end.

(** Delegates whose object pointer is initialised. *)
Definition initialised x : Prop := is_Some (object_ptr_ x).

Lemma comparisons_total x y :
  initialised x → initialised y →
  ∃ lt eq gt, operator_lt x y = Ok lt ∧ operator_eq x y = Ok eq ∧ operator_lt y x = Ok gt ∧
    (lt = true ∧ eq = false ∧ gt = false ∨ lt = false ∧ eq = true ∧ gt = false ∨ lt = false ∧ eq = false ∧ gt = true).
Proof.
  intros [p Hp] [q Hq]. unfold operator_lt, operator_eq. rewrite Hp, Hq. do 3 eexists. do 3 (split; [done|]).
  destruct (Z.ltb_spec (address p) (address q)), (Z.eqb_spec (address p) (address q)),
    (Z.ltb_spec (address q) (address p)), (Z.eqb_spec (address q) (address p)),
    (Z.ltb_spec (stub_address (stub_ptr_ x)) (stub_address (stub_ptr_ y))),
    (Z.eqb_spec (stub_address (stub_ptr_ x)) (stub_address (stub_ptr_ y))),
    (Z.ltb_spec (stub_address (stub_ptr_ y)) (stub_address (stub_ptr_ x))); cbn; try lia; auto.
Qed.

Lemma operator_lt_trans x y z :
  operator_lt x y = Ok true → operator_lt y z = Ok true → operator_lt x z = Ok true.
Proof.
  unfold operator_lt. destruct (object_ptr_ x) as [p|], (object_ptr_ y) as [q|], (object_ptr_ z) as [r|]; try done.
  intros [= Hxy] [= Hyz]. f_equal.
  apply orb_true_iff in Hxy as [Hxy%Z.ltb_lt|[Hxy%Z.eqb_eq Sxy%Z.ltb_lt]%andb_true_iff],
    Hyz as [Hyz%Z.ltb_lt|[Hyz%Z.eqb_eq Syz%Z.ltb_lt]%andb_true_iff]; apply orb_true_iff.
  1-3: left; apply Z.ltb_lt; lia.
  right. apply andb_true_iff. split; [apply Z.eqb_eq|apply Z.ltb_lt]; lia.
Qed.

Lemma equal_hashes hash_ptr hash_stub x y :
  operator_eq x y = Ok true → hash hash_ptr hash_stub x = hash hash_ptr hash_stub y.
Proof.
  unfold operator_eq, hash. destruct (object_ptr_ x) as [p|], (object_ptr_ y) as [q|]; try done.
  intros [= [->%Z.eqb_eq ->%Z.eqb_eq]%andb_true_iff]. done.
Qed.
End move.

(** Functions that return their argument, and functors that add it to what they captured. *)
Definition add_fn (_ : unit) (n : nat) (e : unit) : nat * unit := (n, e).
Definition add_method (_ _ : unit) (n : nat) (e : unit) : nat * unit := (n, e).
Definition add_closure (_ captured n : nat) (e : unit) : nat * (nat * unit) := (captured, (captured + n, e)).

(** A delegate that was moved from still reaches the functor it was bound to, until the
    delegate that has it now is destroyed. *)
Example moved_from_dangles :
  let w0 := construct_functor (λ _, 8) 24 0 (Closure 0 7) (@empty_world unit unit unit) in
  let call w d := x ← invoke add_fn add_method add_closure w d 1 (); Ok (fst (fst x)) in
  ∃ w1 w2, construct_move 1 0 w0 = Ok w1 ∧ call w1 1 = Ok 8 ∧ call w1 0 = Ok 8 ∧
    destroy 1 w1 = Ok w2 ∧ call w2 0 = UB "dangling object pointer".
Proof. vm_compute. do 2 eexists. repeat split. Qed.

Section claims.
Context {fn object method A R Env : Type}.
Context (call_fn : fn → A → Env → R * Env) (call_method : object → method → A → Env → R * Env).
Context (call_closure : nat → nat → A → Env → nat * (R * Env)).
Implicit Types (w : @world fn object method).

(** Swapping two delegates of a well-formed program state, which may share a store, is
    defined, keeps the state well-formed and exchanges what they are bound to: each call
    has the result and the effect that the call of the other had, and other delegates are not affected. *)
Theorem delegate_swap_exchanges (a b : nat) w :
  wf w → a ≠ b → is_Some (delegates w !! a) → is_Some (delegates w !! b) →
  ∃ w', swap a b w = Ok w' ∧ wf w' ∧
    ∀ d arg e, (x ← invoke call_fn call_method call_closure w' d arg e; Ok (fst x)) =
      (x ← invoke call_fn call_method call_closure w
             (if decide (d = a) then b else if decide (d = b) then a else d) arg e; Ok (fst x)).
Proof.
  intros Hwf Hab [x Hx] [y Hy]. destruct (swap_wf a b w x y Hwf Hab Hx Hy) as (w' & E & Hwf' & _ & Hv).
  exists w'. split; [done|]. split; [done|]. intros d arg e. rewrite !invoke_view, Hv by done.
  destruct (decide (d = a)) as [->|]; [|destruct (decide (d = b)) as [->|]].
  - by rewrite lookup_insert_eq, (views_lookup w b y).
  - by rewrite lookup_insert_ne, lookup_insert_eq, (views_lookup w a x).
  - by rewrite !lookup_insert_ne.
Qed.
End claims.

(** Two delegates that share a functor after a copy, and a third one. *)
Definition shared_world : outcome (@world unit unit unit) :=
  exec_ops (λ _, 8) 24 [NewFunctor 0 (Closure 0 7); NewCopy 1 0; NewFunctor 2 (Closure 1 9)] empty_world.

Lemma delegate_swap_exchanges_witness :
  ∃ w w', shared_world = Ok w ∧ swap 1 2 w = Ok w' ∧ wf w' ∧
    (x ← invoke add_fn add_method add_closure w' 1 1 (); Ok (fst x)) = Ok (10, ()).
Proof.
  assert (∃ w, shared_world = Ok w ∧ is_Some (delegates w !! 1) ∧ is_Some (delegates w !! 2) ∧
    (x ← invoke add_fn add_method add_closure w 2 1 (); Ok (fst x)) = Ok (10, ())) as (w & Hw & H1 & H2 & Hi)
    by (vm_compute; eexists; repeat split; eauto).
  assert (wf w) as Hwf by (eapply (exec_ops_wf (λ _, 8) add_closure 24); [apply empty_wf|exact Hw]).
  destruct (delegate_swap_exchanges add_fn add_method add_closure 1 2 w Hwf
    ltac:(lia) H1 H2) as (w' & E & Hwf' & Hinv).
  exists w, w'. split; [exact Hw|]. split; [exact E|]. split; [exact Hwf'|].
  exact (eq_trans (Hinv 1 1 ()) Hi).
Defined.
