(* ===== verification/ExprTemplates.v ===== *)
(** The expression templates of [src/cpp_practices/expression_templates/]: the class
    templates [SArray], [Scaler], [BinaryOperator] and [Array], and the program.

    An [SArray] owns storage for its elements; a cell that was allocated and not written
    holds no value.  The [Rep] of an array expression is the tree of the types the
    operators build: its leaves are references to [SArray] objects of the program (held
    by name, so that the array assigned to may occur in the expression) and copies of
    [Scaler]s, each of which refers to a number: one of its own, or an element of an array.
    The trees are used in the full expression that builds them, as in the program, so that
    every object they refer to is alive.

    The theorems: the assignment of an expression, which evaluates it element by element
    while it overwrites the left side, gives what evaluating whole vectors gives, also
    when the left side occurs in the expression as an array, but not when a number of the
    expression is an element of it ([scaler_overwritten]); and what the size checks accept. *)
From S2P Require Import Prelude Text Float.
Local Open Scope nat_scope.

(** [assert]: a failure ends the program; nothing in this code handles it. *)
Definition assert (b : bool) : outcome unit := if b then Ok tt else Throw "assertion failed".

(** [for (idx = from; idx < from + count; idx++)] *)
Fixpoint for_range {S : Type} (from count : nat) (body : nat → S → outcome S) (s : S) : outcome S :=
  match count with
  | 0 => Ok s
  | S count => s' ← body from s; for_range (Datatypes.S from) count body s'
  end.

(** A loop that keeps an invariant in which every iteration returns. *)
Lemma for_range_ind {S} (P : nat → S → Prop) body from count s :
  P from s →
  (∀ i s, from ≤ i < from + count → P i s → ∃ s', body i s = Ok s' ∧ P (Datatypes.S i) s') →
  ∃ s', for_range from count body s = Ok s' ∧ P (from + count) s'.
Proof.
  revert from s. induction count as [|count IH]; intros from s Hs Hb; cbn [for_range].
  - exists s. by rewrite Nat.add_0_r.
  - destruct (Hb from s) as (s1 & -> & Hs1); [lia|done|]. cbn [mbind outcome_bind].
    replace (from + Datatypes.S count) with (Datatypes.S from + count) by lia.
    apply IH; [done|]. intros i s2 Hi. apply Hb. lia.
Qed.

Section arrays.
Context {T : Type} (zero : T) (eqb : T → T → bool).
Implicit Types (x y i n : nat).

(** The storage of an array, and the arrays of the program by name. *)
Abbreviation storage := (list (option T)).
Abbreviation arrays := (gmap nat storage).

(* @src cpp_practices/expression_templates/include/sarray.h 31-33 SArray::operator[] *)
Definition sarray_at (σ : arrays) x i : outcome T :=
  match σ !! x with
  | None => UB "no such array"
  | Some s => match s !! i with
              | Some (Some v) => Ok v
              | Some None => UB "indeterminate value"
              | None => UB "index out of range"
              end
  end.

Definition sarray_set x i (v : T) (σ : arrays) : outcome arrays :=
  match σ !! x with
  | None => UB "no such array"
  | Some s => if i <? length s then Ok (<[x := <[i := Some v]> s]> σ) else UB "index out of range"
  end.

(* @src cpp_practices/expression_templates/include/sarray.h 28-29 SArray::size *)
Definition sarray_size (σ : arrays) x : outcome nat :=
  match σ !! x with None => UB "no such array" | Some s => Ok (length s) end.

(* @src cpp_practices/expression_templates/include/sarray.h 36-41 SArray::init *)
Definition sarray_init x (σ : arrays) : outcome arrays :=
  n ← sarray_size σ x; for_range 0 n (λ idx σ, sarray_set x idx zero σ) σ.

(* @src cpp_practices/expression_templates/include/sarray.h 9-10 SArray::SArray *)
Definition sarray_new x (s : nat) (σ : arrays) : outcome arrays :=
  sarray_init x (<[x := replicate s None]> σ).

(* @src cpp_practices/expression_templates/include/sarray.h 42-48 SArray::copy *)
Definition sarray_copy x (orig : nat) (σ : arrays) : outcome arrays :=
  n ← sarray_size σ x; m ← sarray_size σ orig; _ ← assert (n =? m);
  for_range 0 n (λ idx σ, v ← sarray_at σ orig idx; sarray_set x idx v σ) σ.

(* @src cpp_practices/expression_templates/include/sarray.h 12-15 SArray::SArray *)
Definition sarray_copy_construct x (orig : nat) (σ : arrays) : outcome arrays :=
  n ← sarray_size σ orig; sarray_copy x orig (<[x := replicate n None]> σ).

(* @src cpp_practices/expression_templates/include/sarray.h 20-26 SArray::operator= *)
Definition sarray_assign x (orig : nat) (σ : arrays) : outcome arrays :=
  if orig =? x then Ok σ else sarray_copy x orig σ.

(* @src cpp_practices/expression_templates/include/sarray.h 17-18 SArray::~SArray *)
Definition sarray_delete x (σ : arrays) : arrays := delete x σ.

(** ** Expressions *)

(* @src cpp_practices/expression_templates/include/scaler.h 14-15 Scaler::scaler_ *)
(** What [scaler_] refers to: an object that nothing else changes (a literal, say), or an
    element of an array, as in [x[0] * y]. *)
Inductive scaler_ref := Constant (v : T) | Element (x i : nat).

(* @src cpp_practices/expression_templates/include/operators.h 20-27 BinaryOperator *)
(** The representations: [SArray], [Scaler] and [BinaryOperator] with its function. *)
Inductive Rep := Storage (x : nat) | Scaler (scaler_ : scaler_ref) | BinaryOperator (f : T → T → T) (op1_ op2_ : Rep).

(* @src cpp_practices/expression_templates/include/scaler.h 4-11 Scaler *)
(** A [Scaler] is an array of the same number at any index, read when it is asked for; its
    size is zero. *)
Definition scaler_at (σ : arrays) (scaler_ : scaler_ref) (_ : nat) : outcome T :=
  match scaler_ with Constant v => Ok v | Element x i => sarray_at σ x i end.
Definition scaler_size : nat := 0.

(* @src cpp_practices/expression_templates/include/operators.h 28-28 BinaryOperator::operator[] *)
Fixpoint rep_at (σ : arrays) (r : Rep) i : outcome T :=
  match r with
  | Storage x => sarray_at σ x i
  | Scaler v => scaler_at σ v i
  | BinaryOperator f op1_ op2_ => a ← rep_at σ op1_ i; b ← rep_at σ op2_ i; Ok (f a b)
  end.

(* @src cpp_practices/expression_templates/include/operators.h 29-32 BinaryOperator::size *)
(** The condition of the assertion is [op1_.size() == 0 || op2_.size() || ...]: any size
    of the right operand but zero makes it true. *)
Fixpoint rep_size (σ : arrays) (r : Rep) : outcome nat :=
  match r with
  | Storage x => sarray_size σ x
  | Scaler _ => Ok scaler_size
  | BinaryOperator _ op1_ op2_ =>
      n1 ← rep_size σ op1_; n2 ← rep_size σ op2_;
      _ ← assert ((n1 =? 0) || negb (n2 =? 0) || (n1 =? n2));
      Ok (if n1 =? 0 then n2 else n1)
  end.

(** ** The class [Array] *)

(* @src cpp_practices/expression_templates/include/array.h 54-57 Array::operator[] *)
Definition array_at (σ : arrays) (r : Rep) i : outcome T :=
  n ← rep_size σ r; _ ← assert (i <? n); rep_at σ r i.

(* @src cpp_practices/expression_templates/include/array.h 59-62 Array::operator[] *)
Definition array_set x i (v : T) (σ : arrays) : outcome arrays :=
  n ← sarray_size σ x; _ ← assert (i <? n); sarray_set x i v σ.

(* @src cpp_practices/expression_templates/include/array.h 14-14 Array::Array *)
Definition array_new x (size : nat) (σ : arrays) : outcome arrays := sarray_new x size σ.

(* @src cpp_practices/expression_templates/include/array.h 18-22 Array::Array *)
Definition array_of_list x (values : list T) (σ : arrays) : outcome arrays :=
  σ ← sarray_new x (length values) σ;
  for_range 0 (length values)
    (λ idx σ, match values !! idx with
              | Some v => sarray_set x idx v σ
              | None => UB "past the end of the list"
              end) σ.

(* @src cpp_practices/expression_templates/include/array.h 24-32 Array::operator= *)
Definition array_assign x (rhs : nat) (σ : arrays) : outcome arrays :=
  n ← sarray_size σ x; m ← sarray_size σ rhs; _ ← assert (n =? m);
  if x =? rhs then Ok σ else sarray_assign x rhs σ.

(* @src cpp_practices/expression_templates/include/array.h 34-41 Array::operator= *)
Definition array_assign_expr x (rhs : Rep) (σ : arrays) : outcome arrays :=
  n ← sarray_size σ x; m ← rep_size σ rhs; _ ← assert (n =? m);
  for_range 0 n (λ idx σ, v ← array_at σ rhs idx; sarray_set x idx v σ) σ.

(* @src cpp_practices/expression_templates/include/array.h 43-52 Array::operator== *)
Fixpoint equal_from (σ : arrays) (lhs rhs : Rep) (idx count : nat) : outcome bool :=
  match count with
  | 0 => Ok true
  | S count =>
      a ← rep_at σ lhs idx; b ← array_at σ rhs idx;
      if negb (eqb a b) then Ok false else equal_from σ lhs rhs (S idx) count
  end.
Definition array_equal (σ : arrays) (lhs rhs : Rep) : outcome bool :=
  n ← rep_size σ lhs; m ← rep_size σ rhs; _ ← assert (n =? m); equal_from σ lhs rhs 0 n.

(* @src cpp_practices/expression_templates/include/operators.h 51-59 operator+ *)
(** The operators of two arrays, for the function of [Add] or of [Mul]. *)
Definition operator_arrays (f : T → T → T) (lhs rhs : Rep) : Rep := BinaryOperator f lhs rhs.

(* @src cpp_practices/expression_templates/include/operators.h 41-49 operator* *)
(** The operators of a number and an array. *)
Definition operator_scaler (f : T → T → T) (lhs : scaler_ref) (rhs : Rep) : Rep :=
  BinaryOperator f (Scaler lhs) rhs.

(** ** The specification: vectors *)

Definition number_value (ρ : nat → list T) (a : scaler_ref) : option T :=
  match a with Constant v => Some v | Element x i => ρ x !! i end.

(** The value of an expression whose arrays have [n] elements, [ρ] their values. *)
Fixpoint denote (n : nat) (ρ : nat → list T) (r : Rep) : list T :=
  match r with
  | Storage x => ρ x
  | Scaler a => match number_value ρ a with Some v => replicate n v | None => [] end
  | BinaryOperator f a b => zip_with f (denote n ρ a) (denote n ρ b)
  end.

Fixpoint names (r : Rep) : list nat :=
  match r with Storage x => [x] | Scaler _ => [] | BinaryOperator _ a b => names a ++ names b end.

Fixpoint numbers (r : Rep) : list scaler_ref :=
  match r with Storage _ => [] | Scaler a => [a] | BinaryOperator _ a b => numbers a ++ numbers b end.

(** No number of an expression is an element of [x], but the last of [n]. *)
Definition apart x n (r : Rep) : Prop := ∀ i, Element x i ∈ numbers r → S i = n.

(** What the operators build: numbers are left operands only. *)
Fixpoint built (r : Rep) : bool :=
  match r with
  | Storage _ => true
  | Scaler _ => false
  | BinaryOperator _ (Scaler _) b => built b
  | BinaryOperator _ a b => built a && built b
  end.

(** The arrays of an expression are there, written, and have [n] elements; the elements it
    uses as numbers are there. *)
Definition conforms n (ρ : nat → list T) (σ : arrays) (r : Rep) : Prop :=
  (∀ y, y ∈ names r → σ !! y = Some (Some <$> ρ y) ∧ length (ρ y) = n) ∧
  (∀ y i, Element y i ∈ numbers r → σ !! y = Some (Some <$> ρ y) ∧ i < length (ρ y)).

Lemma conforms_binary n ρ σ f a b :
  conforms n ρ σ (BinaryOperator f a b) → conforms n ρ σ a ∧ conforms n ρ σ b.
Proof.
  intros [H1 H2]. split; (split; [intros y Hy; apply H1|intros y i Hy; apply H2]); apply elem_of_app; auto.
Qed.

Lemma denote_length n ρ σ r : conforms n ρ σ r → length (denote n ρ r) = n.
Proof.
  induction r as [x|v|f a IHa b IHb]; intros Hc; cbn [denote].
  - by apply Hc, list_elem_of_here.
  - destruct v as [v|y i]; cbn [number_value]; [apply length_replicate|].
    destruct Hc as [_ Hc]. destruct (Hc y i) as [_ Hi]; [apply list_elem_of_here|].
    destruct (lookup_lt_is_Some_2 _ _ Hi) as [v ->]. apply length_replicate.
  - apply conforms_binary in Hc as [Ha Hb]. rewrite length_zip_with, IHa, IHb; [lia|done|done].
Qed.

(** The element [i] of an expression only needs the elements [i] of its arrays, and its
    numbers. *)
Lemma rep_at_denote n ρ σ r i :
  i < n →
  (∀ y, y ∈ names r → length (ρ y) = n ∧ ∃ s, σ !! y = Some s ∧ s !! i = (Some <$> ρ y) !! i) →
  (∀ y j, Element y j ∈ numbers r → j < length (ρ y) ∧ ∃ s, σ !! y = Some s ∧ s !! j = (Some <$> ρ y) !! j) →
  ∃ v, rep_at σ r i = Ok v ∧ denote n ρ r !! i = Some v.
Proof.
  intros Hi. induction r as [x|v|f a IHa b IHb]; intros Hc Hk; cbn [denote rep_at].
  - destruct (Hc x) as (Hn & s & Hs & Hsi); [apply list_elem_of_here|]. unfold sarray_at. rewrite Hs, Hsi.
    destruct (lookup_lt_is_Some_2 (ρ x) i) as [v Hv]; [lia|].
    exists v. by rewrite list_lookup_fmap, Hv.
  - destruct v as [v|y j]; cbn [number_value scaler_at]; [exists v; by rewrite lookup_replicate_2|].
    destruct (Hk y j) as (Hj & s & Hs & Hsj); [apply list_elem_of_here|]. unfold sarray_at. rewrite Hs, Hsj.
    destruct (lookup_lt_is_Some_2 _ _ Hj) as [v Hv]. exists v.
    by rewrite list_lookup_fmap, Hv, lookup_replicate_2.
  - destruct IHa as (va & -> & Ha);
      [intros y Hy; apply Hc, elem_of_app; auto|intros y j Hy; apply Hk, elem_of_app; auto|].
    destruct IHb as (vb & -> & Hb);
      [intros y Hy; apply Hc, elem_of_app; auto|intros y j Hy; apply Hk, elem_of_app; auto|].
    exists (f va vb). split; [done|]. by rewrite lookup_zip_with, Ha, Hb.
Qed.

#[global] Instance is_scaler_dec r : Decision (∃ v, r = Scaler v).
Proof. destruct r as [|v|]; [right|left; by exists v|right]; by intros [? ?]. Defined.

Lemma rep_size_built n σ r :
  built r = true → (∀ y, y ∈ names r → ∃ s, σ !! y = Some s ∧ length s = n) → rep_size σ r = Ok n.
Proof.
  induction r as [x|v|f a IHa b IHb]; [|done|]; intros Hb Hc; cbn [rep_size].
  - destruct (Hc x) as (s & Hs & <-); [apply list_elem_of_here|]. unfold sarray_size. by rewrite Hs.
  - assert (built b = true) as Hbb by (destruct a; simpl in Hb; by destr_bool).
    rewrite (IHb Hbb) by (intros y Hy; apply Hc, elem_of_app; auto).
    destruct (decide (∃ v, a = Scaler v)) as [[v ->]|Hs]; [done|].
    rewrite IHa; [cbn [mbind outcome_bind]; destruct n; reflexivity| |
      intros y Hy; apply Hc, elem_of_app; auto].
    destruct a as [x|v|g a1 a2]; [done|by destruct Hs; exists v|by apply andb_prop in Hb as [? _]].
Qed.

(** The state of the assignment after [k] iterations. *)
Definition partly x (k : nat) (old new : list T) (σ : arrays) : arrays :=
  <[x := Some <$> take k new ++ drop k old]> σ.

Lemma partly_lookup x k old new σ ρ y i :
  length new = length old → k ≤ i ∨ y ≠ x →
  σ !! x = Some (Some <$> old) → ρ x = old → σ !! y = Some (Some <$> ρ y) →
  ∃ s, partly x k old new σ !! y = Some s ∧ length s = length (ρ y) ∧ s !! i = (Some <$> ρ y) !! i.
Proof.
  intros Hlen Hi Hx Hρ Hy. unfold partly. destruct (decide (y = x)) as [->|Hne].
  - destruct Hi as [Hi|]; [|done]. rewrite lookup_insert_eq. eexists. split; [done|]. rewrite Hρ. split.
    + rewrite length_fmap, length_app, length_take, length_drop. lia.
    + rewrite !list_lookup_fmap. f_equal. destruct (decide (k ≤ length new)).
      * rewrite lookup_app_r by (rewrite length_take; lia). rewrite length_take, lookup_drop.
        f_equal. lia.
      * rewrite !lookup_ge_None_2; [done|lia|rewrite length_app, length_take, length_drop; lia].
  - rewrite lookup_insert_ne by done. exists (Some <$> ρ y). by rewrite length_fmap.
Qed.

(** Writing the next of [values] to a storage whose first [k] cells have been written. *)
Lemma write_next x k (s : storage) (values : list T) v (σ : arrays) :
  length s = length values → values !! k = Some v →
  sarray_set x k v (<[x := (Some <$> take k values) ++ drop k s]> σ) =
  Ok (<[x := (Some <$> take (S k) values) ++ drop (S k) s]> σ).
Proof.
  intros Hs Hv. assert (k < length values) as Hk by by apply lookup_lt_Some in Hv.
  unfold sarray_set. rewrite lookup_insert_eq.
  rewrite (proj2 (Nat.ltb_lt _ _)) by (rewrite length_app, length_fmap, length_take, length_drop; lia).
  rewrite insert_insert_eq. do 2 f_equal.
  rewrite insert_app_r_alt by (rewrite length_fmap, length_take; lia).
  rewrite length_fmap, length_take, Nat.min_l, Nat.sub_diag by lia.
  rewrite (take_S_r _ _ v), fmap_app, <- app_assoc by done. f_equal.
  destruct (lookup_lt_is_Some_2 s k) as [c Hc]; [lia|]. by rewrite (drop_S s c k Hc).
Qed.

Lemma partly_step x k old new σ v :
  length new = length old → new !! k = Some v →
  sarray_set x k v (partly x k old new σ) = Ok (partly x (S k) old new σ).
Proof.
  intros Hlen Hv. unfold partly. rewrite !fmap_app, !fmap_drop.
  apply write_next; [by rewrite length_fmap|done].
Qed.

(** The loop of the assignment, for an expression whose size is [n] throughout and whose
    first [k] elements can be read. *)
Lemma assign_iterations n k (ρ : nat → list T) σ x r new :
  k ≤ n → length new = n → length (ρ x) = n → σ !! x = Some (Some <$> ρ x) →
  (∀ i, rep_size (partly x i (ρ x) new σ) r = Ok n) →
  (∀ i, i < k → ∃ v, rep_at (partly x i (ρ x) new σ) r i = Ok v ∧ new !! i = Some v) →
  for_range 0 k (λ idx σ, v ← array_at σ r idx; sarray_set x idx v σ) σ = Ok (partly x k (ρ x) new σ).
Proof.
  intros Hkn Hnew Hn Hx Hsize Hat.
  assert (partly x 0 (ρ x) new σ = σ) as Hstart by (unfold partly; by rewrite take_0, drop_0, insert_id).
  destruct (for_range_ind (λ i σ', σ' = partly x i (ρ x) new σ)
    (λ idx σ, v ← array_at σ r idx; sarray_set x idx v σ) 0 k σ) as (σ' & -> & ->); [done| |done].
  intros i ? Hi ->. unfold array_at. rewrite Hsize. cbn [mbind outcome_bind].
  rewrite (proj2 (Nat.ltb_lt i n)) by lia. cbn [assert].
  destruct (Hat i) as (v & -> & Hv); [lia|]. eexists. split; [|done]. apply partly_step; [lia|done].
Qed.

Lemma assign_loop n (ρ : nat → list T) σ x r new :
  length new = n → length (ρ x) = n → σ !! x = Some (Some <$> ρ x) →
  (∀ i, rep_size (partly x i (ρ x) new σ) r = Ok n) →
  (∀ i, i < n → ∃ v, rep_at (partly x i (ρ x) new σ) r i = Ok v ∧ new !! i = Some v) →
  array_assign_expr x r σ = Ok (<[x := Some <$> new]> σ).
Proof.
  intros Hnew Hn Hx Hsize Hat.
  assert (partly x 0 (ρ x) new σ = σ) as Hstart by (unfold partly; by rewrite take_0, drop_0, insert_id).
  unfold array_assign_expr. unfold sarray_size. rewrite Hx, length_fmap, Hn.
  specialize (Hsize 0) as Hs0. rewrite Hstart in Hs0. rewrite Hs0. cbn [mbind outcome_bind].
  rewrite Nat.eqb_refl. cbn [assert]. rewrite (assign_iterations n n ρ σ x r new); try done.
  unfold partly. by rewrite take_ge, drop_ge, app_nil_r by lia.
Qed.

Lemma array_assign_expr_denote n ρ σ x r :
  built r = true → conforms n ρ σ r → apart x n r → σ !! x = Some (Some <$> ρ x) → length (ρ x) = n →
  array_assign_expr x r σ = Ok (<[x := Some <$> denote n ρ r]> σ).
Proof.
  intros Hbuilt Hc Hap Hx Hn. set (new := denote n ρ r).
  assert (length new = n) as Hnew by by eapply denote_length.
  destruct Hc as [Hc Hk]. apply (assign_loop n ρ); [done|done|done| |].
  - intros i. apply rep_size_built; [done|]. intros y Hy. destruct (Hc y Hy) as [Hσ Hy'].
    destruct (partly_lookup x i (ρ x) new σ ρ y i) as (s & Hs & Hl & _); [lia|by left|done|done|done|].
    exists s. split; [done|lia].
  - intros i Hi. apply rep_at_denote; [lia| |].
    + intros y Hy. destruct (Hc y Hy) as [Hσ Hy']. split; [done|].
      destruct (partly_lookup x i (ρ x) new σ ρ y i) as (s & Hs & _ & Hl); [lia|by left|done|done|done|].
      by exists s.
    + intros y j Hy. destruct (Hk y j Hy) as [Hσ Hj]. split; [done|].
      destruct (partly_lookup x i (ρ x) new σ ρ y j) as (s & Hs & _ & Hl); [lia| |done|done|done|by exists s].
      destruct (decide (y = x)) as [->|]; [left|by right]. specialize (Hap j Hy). lia.
Qed.

(** A loop that goes wrong after [k] iterations. *)
Lemma for_range_stops {S} (body : nat → S → outcome S) from k count s s' w :
  k < count → for_range from k body s = Ok s' → body (from + k) s' = UB w →
  for_range from count body s = UB w.
Proof.
  revert from count s. induction k as [|k IH]; intros from count s Hk Hr Hb;
    destruct count as [|count]; try lia; cbn [for_range] in *.
  - injection Hr as ->. rewrite Nat.add_0_r in Hb. by rewrite Hb.
  - destruct (body from s) as [s1| |]; [|done|done]. apply (IH _ _ s1); [lia|done|].
    by rewrite <- Hb, Nat.add_succ_r.
Qed.

(** Two arrays read at the index [i] in the course of the assignment. *)
Lemma operator_arrays_at ρ σ x new f a b i va :
  length new = length (ρ x) →
  σ !! x = Some (Some <$> ρ x) → σ !! a = Some (Some <$> ρ a) → σ !! b = Some (Some <$> ρ b) →
  ρ a !! i = Some va →
  rep_at (partly x i (ρ x) new σ) (operator_arrays f (Storage a) (Storage b)) i =
  match ρ b !! i with Some vb => Ok (f va vb) | None => UB "index out of range" end.
Proof.
  intros Hn Hx Ha Hb Hva. cbn [rep_at operator_arrays]. unfold sarray_at.
  destruct (partly_lookup x i (ρ x) new σ ρ a i) as (sa & -> & _ & ->); [done|by left|done..|].
  destruct (partly_lookup x i (ρ x) new σ ρ b i) as (sb & -> & _ & ->); [done|by left|done..|].
  rewrite !list_lookup_fmap, Hva. by destruct (ρ b !! i).
Qed.

Lemma operator_arrays_size ρ σ x new f a b i :
  length new = length (ρ x) →
  σ !! x = Some (Some <$> ρ x) → σ !! a = Some (Some <$> ρ a) → σ !! b = Some (Some <$> ρ b) →
  rep_size (partly x i (ρ x) new σ) (operator_arrays f (Storage a) (Storage b)) =
  if (0 <? length (ρ a)) && (length (ρ b) =? 0) then Throw "assertion failed"
  else Ok (if length (ρ a) =? 0 then length (ρ b) else length (ρ a)).
Proof.
  intros Hn Hx Ha Hb. cbn [rep_size operator_arrays]. unfold sarray_size.
  destruct (partly_lookup x i (ρ x) new σ ρ a i) as (sa & -> & -> & _); [done|by left|done..|].
  destruct (partly_lookup x i (ρ x) new σ ρ b i) as (sb & -> & -> & _); [done|by left|done..|].
  by destruct (length (ρ a)), (length (ρ b)).
Qed.

(** [x = a + b] goes on while [b] has elements. *)
Definition mixed (f : T → T → T) (ρ : nat → list T) x a b : list T :=
  zip_with f (ρ a) (ρ b) ++ drop (length (ρ b)) (ρ x).

Lemma mixed_length f ρ x a b : length (ρ a) = length (ρ x) → length (mixed f ρ x a b) = length (ρ x).
Proof. intros Hn. unfold mixed. rewrite length_app, length_zip_with, length_drop. lia. Qed.

Lemma mixed_at f ρ σ x a b i :
  σ !! x = Some (Some <$> ρ x) → σ !! a = Some (Some <$> ρ a) → σ !! b = Some (Some <$> ρ b) →
  length (ρ a) = length (ρ x) → i < length (ρ a) → i < length (ρ b) →
  ∃ v, rep_at (partly x i (ρ x) (mixed f ρ x a b) σ) (operator_arrays f (Storage a) (Storage b)) i = Ok v ∧
       mixed f ρ x a b !! i = Some v.
Proof.
  intros Hx Ha Hb Hn Hia Hib. destruct (lookup_lt_is_Some_2 (ρ a) i Hia) as [va Hva].
  destruct (lookup_lt_is_Some_2 (ρ b) i Hib) as [vb Hvb]. exists (f va vb). split.
  - rewrite (operator_arrays_at ρ σ x _ f a b i va), Hvb; [done|by apply mixed_length|done..].
  - unfold mixed. rewrite lookup_app_l by (rewrite length_zip_with; lia).
    by rewrite lookup_zip_with, Hva, Hvb.
Qed.

Lemma longer_operand f ρ σ x a b :
  σ !! x = Some (Some <$> ρ x) → σ !! a = Some (Some <$> ρ a) → σ !! b = Some (Some <$> ρ b) →
  length (ρ a) = length (ρ x) → length (ρ a) ≤ length (ρ b) → (length (ρ a) = 0 → length (ρ b) = 0) →
  array_assign_expr x (operator_arrays f (Storage a) (Storage b)) σ =
  Ok (<[x := Some <$> zip_with f (ρ a) (ρ b)]> σ).
Proof.
  intros Hx Ha Hb Hn Hle H0.
  replace (zip_with f (ρ a) (ρ b)) with (mixed f ρ x a b)
    by (unfold mixed; rewrite drop_ge, app_nil_r; [done|lia]).
  apply (assign_loop (length (ρ a)) ρ); [by rewrite mixed_length|done|done| |].
  - intros i. rewrite operator_arrays_size by (done || by apply mixed_length).
    destruct (length (ρ a)) as [|n]; [by rewrite H0|]. destruct (length (ρ b)); [lia|done].
  - intros i Hi. apply mixed_at; try done. lia.
Qed.

Lemma shorter_operand f ρ σ x a b :
  σ !! x = Some (Some <$> ρ x) → σ !! a = Some (Some <$> ρ a) → σ !! b = Some (Some <$> ρ b) →
  length (ρ a) = length (ρ x) → 0 < length (ρ b) < length (ρ a) →
  array_assign_expr x (operator_arrays f (Storage a) (Storage b)) σ = UB "index out of range".
Proof.
  intros Hx Ha Hb Hn Hlt. set (new := mixed f ρ x a b).
  assert (∀ i, rep_size (partly x i (ρ x) new σ) (operator_arrays f (Storage a) (Storage b)) =
    Ok (length (ρ a))) as Hsize.
  { intros i. rewrite operator_arrays_size by (done || by apply mixed_length).
    destruct (length (ρ a)); [lia|]. destruct (length (ρ b)); [lia|done]. }
  assert (partly x 0 (ρ x) new σ = σ) as Hstart by (unfold partly; by rewrite take_0, drop_0, insert_id).
  unfold array_assign_expr, sarray_size. specialize (Hsize 0) as Hs0. rewrite Hstart in Hs0.
  rewrite Hx, Hs0, length_fmap, <- Hn. cbn [mbind outcome_bind]. rewrite Nat.eqb_refl. cbn [assert].
  apply (for_range_stops _ 0 (length (ρ b)) _ σ (partly x (length (ρ b)) (ρ x) new σ)); [lia| |].
  - apply (assign_iterations (length (ρ a)) (length (ρ b)) ρ); [lia|by unfold new; rewrite mixed_length|done|done|done|].
    intros i Hi. apply mixed_at; try done. lia.
  - cbn [Nat.add]. unfold array_at. rewrite Hsize. cbn [mbind outcome_bind].
    rewrite (proj2 (Nat.ltb_lt (length (ρ b)) _)) by lia. cbn [assert].
    destruct (lookup_lt_is_Some_2 (ρ a) (length (ρ b))) as [va Hva]; [lia|].
    rewrite (operator_arrays_at ρ σ x new f a b _ va) by (done || by apply mixed_length).
    by rewrite (lookup_ge_None_2 (ρ b)).
Qed.

(** ** The other operations *)

Lemma write_all_values x (s : storage) (values : list T) (σ : arrays) body :
  length s = length values →
  (∀ i v σ, values !! i = Some v → body i σ = sarray_set x i v σ) →
  for_range 0 (length values) body (<[x := s]> σ) = Ok (<[x := Some <$> values]> σ).
Proof.
  intros Hs Hbody.
  destruct (for_range_ind (λ i σ', σ' = <[x := (Some <$> take i values) ++ drop i s]> σ) body 0
    (length values) (<[x := s]> σ)) as (σ' & -> & ->).
  - by rewrite drop_0.
  - intros i ? Hi ->. destruct (lookup_lt_is_Some_2 values i) as [v Hv]; [lia|].
    rewrite (Hbody i v) by done. eexists. split; [by apply write_next|done].
  - cbn [Nat.add]. rewrite take_ge, drop_ge, app_nil_r by lia. done.
Qed.

Lemma sarray_new_zeros x n σ : sarray_new x n σ = Ok (<[x := Some <$> replicate n zero]> σ).
Proof.
  unfold sarray_new, sarray_init, sarray_size. rewrite lookup_insert_eq. cbn [mbind outcome_bind].
  rewrite length_replicate. pose proof (write_all_values x (replicate n None) (replicate n zero) σ
    (λ idx σ, sarray_set x idx zero σ)) as Hw. rewrite !length_replicate in Hw. apply Hw; [done|].
  by intros i v σ' [-> _]%lookup_replicate.
Qed.

Lemma array_of_list_values x values σ : array_of_list x values σ = Ok (<[x := Some <$> values]> σ).
Proof.
  unfold array_of_list. rewrite sarray_new_zeros. cbn [mbind outcome_bind].
  apply write_all_values; [by rewrite length_fmap, length_replicate|]. by intros i v σ' ->.
Qed.

Lemma sarray_copy_values x orig s (values : list T) σ :
  x ≠ orig → σ !! x = Some s → σ !! orig = Some (Some <$> values) → length s = length values →
  sarray_copy x orig σ = Ok (<[x := Some <$> values]> σ).
Proof.
  intros Hne Hx Ho Hs. unfold sarray_copy, sarray_size. rewrite Hx, Ho, length_fmap, Hs.
  cbn [mbind outcome_bind]. rewrite Nat.eqb_refl. cbn [assert].
  (* the loop reads [orig], which it does not change *)
  destruct (for_range_ind (λ i σ', σ' = <[x := (Some <$> take i values) ++ drop i s]> σ)
    (λ idx σ, v ← sarray_at σ orig idx; sarray_set x idx v σ) 0 (length values) σ) as (σ' & -> & ->).
  - by rewrite drop_0, insert_id.
  - intros i ? Hi ->. destruct (lookup_lt_is_Some_2 values i) as [v Hv]; [lia|].
    unfold sarray_at. rewrite lookup_insert_ne, Ho, list_lookup_fmap, Hv by done. cbn [mbind outcome_bind fmap option_fmap option_map].
    eexists. split; [by apply write_next|done].
  - cbn [Nat.add]. rewrite take_ge, drop_ge, app_nil_r by lia. done.
Qed.
End arrays.

Section array_claims.
Context {T : Type}.
Implicit Types (σ : gmap nat (list (option T))) (ρ : nat → list T).

(** C33: Assigning an expression to an array, [x = e], leaves in [x] the value of [e] on
    whole vectors, computed from the arrays as they were before the assignment, although
    the code computes one element at a time and writes it to [x] before it computes the
    next, and [x] may occur in [e]; nothing else is changed and no check fails.  This holds
    for every expression the operators build of arrays that are written and as long as [x],
    and of numbers that are constants or elements of written arrays, if none of the numbers
    is an element of [x] other than the last: the expression holds a reference to it, and
    reads its new value once the loop has written it ([scaler_overwritten]). *)
Theorem expression_assignment (n x : nat) ρ σ (e : @Rep T) :
  built e = true → conforms n ρ σ e → apart x n e → σ !! x = Some (Some <$> ρ x) → length (ρ x) = n →
  array_assign_expr x e σ = Ok (<[x := Some <$> denote n ρ e]> σ).
Proof. apply array_assign_expr_denote. Qed.

(** The size checks of [x = a + b] (or of another operator), for [a] as long as [x]:
    equal sizes pass, and so does a right operand that is longer, the rest of which is
    ignored; an assertion fails when one of the operands is empty; a right operand that is
    shorter and not empty passes the check and is read past its end. *)
Theorem expression_size_check (f : T → T → T) (x a b : nat) ρ σ :
  σ !! x = Some (Some <$> ρ x) → σ !! a = Some (Some <$> ρ a) → σ !! b = Some (Some <$> ρ b) →
  length (ρ a) = length (ρ x) →
  array_assign_expr x (operator_arrays f (Storage a) (Storage b)) σ =
    let n := length (ρ a) in let m := length (ρ b) in
    if (n =? m) || (0 <? n) && (n <? m) then Ok (<[x := Some <$> zip_with f (ρ a) (ρ b)]> σ)
    else if (n =? 0) || (m =? 0) then Throw "assertion failed"
    else UB "index out of range".
Proof.
  intros Hx Ha Hb Hn. cbn zeta.
  destruct (Nat.eqb_spec (length (ρ a)) (length (ρ b))); [apply longer_operand; done || lia|].
  destruct (Nat.ltb_spec 0 (length (ρ a))), (Nat.ltb_spec (length (ρ a)) (length (ρ b))); cbn [orb andb].
  { apply longer_operand; done || lia. }
  all: destruct (Nat.eqb_spec (length (ρ a)) 0); [|destruct (Nat.eqb_spec (length (ρ b)) 0)];
    try lia; cbn [orb]; try (apply (shorter_operand f ρ); done || lia).
  all: unfold array_assign_expr, sarray_size, operator_arrays; cbn [rep_size]; unfold sarray_size;
    rewrite Hx, Ha, Hb, !length_fmap; cbn [mbind outcome_bind]; rewrite <- Hn.
  all: destruct (length (ρ a)), (length (ρ b)); done || lia.
Qed.
End array_claims.

(** ** The program *)

(** The comparison of two [double]s. *)
Definition deqb (a b : double) : bool := SpecFloat.SFeqb a b.

(* @src cpp_practices/expression_templates/src/expression_templates.cpp 5-19 main *)
(** The arrays [x] and [y] of [main] are 0 and 1; the result is the standard output. *)
Definition expression_main : outcome text :=
  let x := 0 in let y := 1 in
  σ ← array_new (double_of_Z 0) x 5 ∅;
  σ ← array_new (double_of_Z 0) y 5 σ;
  n ← sarray_size σ y;
  σ ← for_range 0 n (λ i σ,
        σ ← array_set x i (double_of_Z (Z.of_nat i)) σ; array_set y i (double_of_Z (Z.of_nat i)) σ) σ;
  σ ← array_assign_expr x
        (operator_arrays dadd (operator_scaler dmul (Constant (decimal 12 10)) (Storage x))
                              (operator_arrays dmul (Storage x) (Storage y))) σ;
  n ← sarray_size σ x;
  for_range 0 n (λ i out,
    v ← array_at σ (Storage x) i;
    Ok (out ++ txt "x " ++ to_text (Z.of_nat i) ++ txt "= " ++ show_float v ++ txt nl)) [].

Example expression_main_prints :
  expression_main = Ok (txt "x 0= 0" ++ txt nl ++ txt "x 1= 2.2" ++ txt nl ++ txt "x 2= 6.4" ++ txt nl ++
                        txt "x 3= 12.6" ++ txt nl ++ txt "x 4= 20.8" ++ txt nl).
Proof. vm_compute. reflexivity. Qed.

(** [x = 3 * x + x * (y[0] * y)] for the integer vectors [x = (1, 2, 3)] and [y = (4, 5, 6)]. *)
Definition example_values (x : nat) : list Z := match x with 0 => [1; 2; 3]%Z | _ => [4; 5; 6]%Z end.
Definition example_arrays : gmap nat (list (option Z)) :=
  {[0 := Some <$> example_values 0; 1 := Some <$> example_values 1]}.
Definition example_expression : Rep :=
  operator_arrays Z.add (operator_scaler Z.mul (Constant 3%Z) (Storage 0))
    (operator_arrays Z.mul (Storage 0) (operator_scaler Z.mul (Element 1 0) (Storage 1))).

Lemma expression_assignment_witness :
  array_assign_expr 0 example_expression example_arrays =
  Ok {[0 := [Some 19%Z; Some 46%Z; Some 81%Z]; 1 := [Some 4%Z; Some 5%Z; Some 6%Z]]}.
Proof.
  rewrite (expression_assignment 3 0 example_values example_arrays example_expression).
  - vm_compute. reflexivity.
  - reflexivity.
  - split.
    + intros y Hy. cbn in Hy. rewrite !elem_of_cons, elem_of_nil in Hy.
      destruct Hy as [->|[->|[->|[]]]]; split; reflexivity.
    + intros y i Hy. cbn in Hy. rewrite !elem_of_cons, elem_of_nil in Hy.
      destruct Hy as [[=]|[[= -> ->]|[]]]; split; [reflexivity|cbn; lia].
  - intros i Hi. cbn in Hi. rewrite !elem_of_cons, elem_of_nil in Hi. destruct Hi as [[=]|[[=]|[]]].
  - reflexivity.
  - reflexivity.
Defined.

(** [x = x[0] * x] of (2, 3): the second element is computed with the new [x[0]], 4. *)
Example scaler_overwritten :
  array_assign_expr 0 (operator_scaler Z.mul (Element 0 0) (Storage 0)) {[0 := [Some 2%Z; Some 3%Z]]} =
  Ok {[0 := [Some 4%Z; Some 12%Z]]}.
Proof. reflexivity. Qed.

Lemma expression_size_check_witness :
  array_assign_expr 0 (operator_arrays Z.add (Storage 0) (Storage 1))
    {[0 := [Some 1%Z; Some 2%Z; Some 3%Z]; 1 := [Some 4%Z; Some 5%Z]]} = UB "index out of range".
Proof.
  rewrite (expression_size_check Z.add 0 0 1 (λ x, match x with 0 => [1; 2; 3]%Z | _ => [4; 5]%Z end));
    reflexivity.
Defined.
