(* ===== verification/Box2dSettings.v ===== *)
(** The settings of the Box2D test bed: [src/third_party_examples/box2d_example/]
    [include/draw/settings.h] (the struct and its defaults) and [src/settings.cpp]
    (saving them to the file [settings.ini] and loading them).

    A [disk] holds the content of the file, whether it can be opened for writing, and
    counts the streams and buffers the functions leave open and allocated.  The JSON
    parser [sajson] is not part of the repository: its [parse] is an argument of [Load],
    which gives the root value of the document; what the round trip uses of it is that it
    reads JSON objects ([reads_json]).

    The theorems: what is loaded after a save is seven of the twenty fields that the file
    holds; which names of fields are recognised; what is leaked on which path. *)
From S2P Require Import Prelude Text Float Json.
Local Open Scope Z_scope.

(* @src third_party_examples/box2d_example/include/draw/settings.h 56-77 Settings *)
Record Settings := mkSettings {
  m_testIndex : Z;
  m_windowWidth : Z;
  m_windowHeight : Z;
  m_hertz : float;
  m_velocityIterations : Z;
  m_positionIterations : Z;
  m_drawShapes : bool;
  m_drawJoints : bool;
  m_drawAABBs : bool;
  m_drawContactPoints : bool;
  m_drawContactNormals : bool;
  m_drawContactImpulse : bool;
  m_drawFrictionImpulse : bool;
  m_drawCOMs : bool;
  m_drawStats : bool;
  m_drawProfile : bool;
  m_enableWarmStarting : bool;
  m_enableContinuous : bool;
  m_enableSubStepping : bool;
  m_enableSleep : bool;
  m_pause : bool;
  m_singleStep : bool }.

(* @src third_party_examples/box2d_example/include/draw/settings.h 25-51 Settings::Reset *)
Definition Reset : Settings := {|
  m_testIndex := 0;
  m_windowWidth := 1600;
  m_windowHeight := 900;
  m_hertz := float_of_Z 60;
  m_velocityIterations := 8;
  m_positionIterations := 3;
  m_drawShapes := true;
  m_drawJoints := true;
  m_drawAABBs := false;
  m_drawContactPoints := false;
  m_drawContactNormals := false;
  m_drawContactImpulse := false;
  m_drawFrictionImpulse := false;
  m_drawCOMs := false;
  m_drawStats := false;
  m_drawProfile := false;
  m_enableWarmStarting := true;
  m_enableContinuous := true;
  m_enableSubStepping := false;
  m_enableSleep := true;
  m_pause := false;
  m_singleStep := false |}.

(** ** The disk *)
Record disk := mkDisk { file : option text; writable : bool; open_streams : Z; buffers : Z }.

Definition opened (k : Z) (w : disk) : disk := mkDisk (file w) (writable w) (open_streams w + k) (buffers w).
Definition allocated (k : Z) (w : disk) : disk := mkDisk (file w) (writable w) (open_streams w) (buffers w + k).

(** ** Saving *)

Definition show_bool (b : bool) : text := if b then txt "true" else txt "false".

(* @src third_party_examples/box2d_example/src/settings.cpp 56-75 Settings::Save *)
(** The fields that are saved, with the text of their values. *)
Definition saved_texts (s : Settings) : list (text * text) := [
  (txt "testIndex", to_text (m_testIndex s));
  (txt "windowWidth", to_text (m_windowWidth s));
  (txt "windowHeight", to_text (m_windowHeight s));
  (txt "hertz", show_g 9 (m_hertz s));
  (txt "velocityIterations", to_text (m_velocityIterations s));
  (txt "positionIterations", to_text (m_positionIterations s));
  (txt "drawShapes", show_bool (m_drawShapes s));
  (txt "drawJoints", show_bool (m_drawJoints s));
  (txt "drawAABBs", show_bool (m_drawAABBs s));
  (txt "drawContactPoints", show_bool (m_drawContactPoints s));
  (txt "drawContactNormals", show_bool (m_drawContactNormals s));
  (txt "drawContactImpulse", show_bool (m_drawContactImpulse s));
  (txt "drawFrictionImpulse", show_bool (m_drawFrictionImpulse s));
  (txt "drawCOMs", show_bool (m_drawCOMs s));
  (txt "drawStats", show_bool (m_drawStats s));
  (txt "drawProfile", show_bool (m_drawProfile s));
  (txt "enableWarmStarting", show_bool (m_enableWarmStarting s));
  (txt "enableContinuous", show_bool (m_enableContinuous s));
  (txt "enableSubStepping", show_bool (m_enableSubStepping s));
  (txt "enableSleep", show_bool (m_enableSleep s))].

Definition field_line (kv : text * text) : text :=
  txt "  " ++ [dquote] ++ kv.1 ++ [dquote] ++ txt ": " ++ kv.2.

(** The lines of the fields, with a comma after all but the last. *)
Fixpoint field_lines (kvs : list (text * text)) : text :=
  match kvs with
  | [] => []
  | [kv] => field_line kv ++ txt nl
  | kv :: kvs => field_line kv ++ txt "," ++ txt nl ++ field_lines kvs
  end.

Definition saved_text (s : Settings) : text :=
  txt "{" ++ txt nl ++ field_lines (saved_texts s) ++ txt "}" ++ txt nl.

(* @src third_party_examples/box2d_example/src/settings.cpp 53-78 Settings::Save *)
Definition Save (s : Settings) (w : disk) : outcome disk :=
  if writable w then Ok (mkDisk (Some (saved_text s)) (writable w) (open_streams w) (buffers w))
  else UB "fprintf to a null stream".

(** ** Loading *)

(* @src third_party_examples/box2d_example/src/settings.cpp 30-51 sReadFile *)
(** The data that were read, if the function returns true.  The size of the file is
    converted to [int]. *)
Definition sReadFile (w : disk) : outcome (option text * disk) :=
  match file w with
  | None => Ok (None, w)
  | Some content =>
      let w := opened 1 w in
      let size := swrap 32 (Z.of_nat (length content)) in
      if size =? 0 then Ok (None, w)
      else if size <? 0 then UB "buffer of a negative size"
      else Ok (Some (take (Z.to_nat size) content), opened (-1) (allocated 1 w))
  end.

(** The values and documents that [sajson] gives. *)
Inductive value := TYPE_INTEGER (z : Z) | TYPE_DOUBLE (d : double) | TYPE_TRUE | TYPE_FALSE | TYPE_OTHER.
Inductive root := ObjectRoot (fields : list (text * value)) | ArrayRoot (length : nat).

(** [strncmp(name.data(), key, name.length()) == 0]: both are compared up to the length of
    the name, or to the zero that ends [key]. *)
Fixpoint strncmp_eq (name key : text) : bool :=
  match name, key with
  | [], _ => true
  | c :: name, [] => bool_decide (c = zero)
  | c :: name, d :: key => bool_decide (c = d) && strncmp_eq name key
  end.

Definition set_testIndex (v : Z) (s : Settings) : Settings :=
  mkSettings v (m_windowWidth s) (m_windowHeight s) (m_hertz s) (m_velocityIterations s) (m_positionIterations s) (m_drawShapes s)
    (m_drawJoints s) (m_drawAABBs s) (m_drawContactPoints s) (m_drawContactNormals s) (m_drawContactImpulse s) (m_drawFrictionImpulse s) (m_drawCOMs s) (m_drawStats s) (m_drawProfile s) (m_enableWarmStarting s) (m_enableContinuous s) (m_enableSubStepping s) (m_enableSleep s) (m_pause s) (m_singleStep s).
Definition set_windowWidth (v : Z) (s : Settings) : Settings :=
  mkSettings (m_testIndex s) v (m_windowHeight s) (m_hertz s) (m_velocityIterations s) (m_positionIterations s) (m_drawShapes s)
    (m_drawJoints s) (m_drawAABBs s) (m_drawContactPoints s) (m_drawContactNormals s) (m_drawContactImpulse s) (m_drawFrictionImpulse s) (m_drawCOMs s) (m_drawStats s) (m_drawProfile s) (m_enableWarmStarting s) (m_enableContinuous s) (m_enableSubStepping s) (m_enableSleep s) (m_pause s) (m_singleStep s).
Definition set_windowHeight (v : Z) (s : Settings) : Settings :=
  mkSettings (m_testIndex s) (m_windowWidth s) v (m_hertz s) (m_velocityIterations s) (m_positionIterations s) (m_drawShapes s)
    (m_drawJoints s) (m_drawAABBs s) (m_drawContactPoints s) (m_drawContactNormals s) (m_drawContactImpulse s) (m_drawFrictionImpulse s) (m_drawCOMs s) (m_drawStats s) (m_drawProfile s) (m_enableWarmStarting s) (m_enableContinuous s) (m_enableSubStepping s) (m_enableSleep s) (m_pause s) (m_singleStep s).
Definition set_hertz (v : float) (s : Settings) : Settings :=
  mkSettings (m_testIndex s) (m_windowWidth s) (m_windowHeight s) v (m_velocityIterations s) (m_positionIterations s) (m_drawShapes s)
    (m_drawJoints s) (m_drawAABBs s) (m_drawContactPoints s) (m_drawContactNormals s) (m_drawContactImpulse s) (m_drawFrictionImpulse s) (m_drawCOMs s) (m_drawStats s) (m_drawProfile s) (m_enableWarmStarting s) (m_enableContinuous s) (m_enableSubStepping s) (m_enableSleep s) (m_pause s) (m_singleStep s).
Definition set_velocityIterations (v : Z) (s : Settings) : Settings :=
  mkSettings (m_testIndex s) (m_windowWidth s) (m_windowHeight s) (m_hertz s) v (m_positionIterations s) (m_drawShapes s)
    (m_drawJoints s) (m_drawAABBs s) (m_drawContactPoints s) (m_drawContactNormals s) (m_drawContactImpulse s) (m_drawFrictionImpulse s) (m_drawCOMs s) (m_drawStats s) (m_drawProfile s) (m_enableWarmStarting s) (m_enableContinuous s) (m_enableSubStepping s) (m_enableSleep s) (m_pause s) (m_singleStep s).
Definition set_positionIterations (v : Z) (s : Settings) : Settings :=
  mkSettings (m_testIndex s) (m_windowWidth s) (m_windowHeight s) (m_hertz s) (m_velocityIterations s) v (m_drawShapes s)
    (m_drawJoints s) (m_drawAABBs s) (m_drawContactPoints s) (m_drawContactNormals s) (m_drawContactImpulse s) (m_drawFrictionImpulse s) (m_drawCOMs s) (m_drawStats s) (m_drawProfile s) (m_enableWarmStarting s) (m_enableContinuous s) (m_enableSubStepping s) (m_enableSleep s) (m_pause s) (m_singleStep s).
Definition set_drawShapes (v : bool) (s : Settings) : Settings :=
  mkSettings (m_testIndex s) (m_windowWidth s) (m_windowHeight s) (m_hertz s) (m_velocityIterations s) (m_positionIterations s) v
    (m_drawJoints s) (m_drawAABBs s) (m_drawContactPoints s) (m_drawContactNormals s) (m_drawContactImpulse s) (m_drawFrictionImpulse s) (m_drawCOMs s) (m_drawStats s) (m_drawProfile s) (m_enableWarmStarting s) (m_enableContinuous s) (m_enableSubStepping s) (m_enableSleep s) (m_pause s) (m_singleStep s).

(** What the tests of the type make of a value. *)
Definition with_integer (set : Z → Settings → Settings) (v : value) (s : Settings) : Settings :=
  match v with TYPE_INTEGER z => set z s | _ => s end.
Definition with_number (set : float → Settings → Settings) (v : value) (s : Settings) : Settings :=
  match v with
  | TYPE_DOUBLE d => set (to_float d) s
  | TYPE_INTEGER z => set (to_float (double_of_Z z)) s
  | _ => s
  end.
Definition with_bool (set : bool → Settings → Settings) (v : value) (s : Settings) : Settings :=
  match v with TYPE_FALSE => set false s | TYPE_TRUE => set true s | _ => s end.

(* @src third_party_examples/box2d_example/src/settings.cpp 96-151 Settings::Load *)
(** The body of the loop, for the field with this name and value. *)
Definition load_field (s : Settings) (kv : text * value) : Settings :=
  let '(fieldName, fieldValue) := kv in
  if strncmp_eq fieldName (txt "testIndex") then with_integer set_testIndex fieldValue s
  else if strncmp_eq fieldName (txt "windowWidth") then with_integer set_windowWidth fieldValue s
  else if strncmp_eq fieldName (txt "windowHeight") then with_integer set_windowHeight fieldValue s
  else if strncmp_eq fieldName (txt "hertz") then with_number set_hertz fieldValue s
  else if strncmp_eq fieldName (txt "velocityIterations") then with_integer set_velocityIterations fieldValue s
  else if strncmp_eq fieldName (txt "positionIterations") then with_integer set_positionIterations fieldValue s
  else if strncmp_eq fieldName (txt "drawShapes") then with_bool set_drawShapes fieldValue s
  else s.

Section load.
Context (parse : text → option root).

(* @src third_party_examples/box2d_example/src/settings.cpp 80-154 Settings::Load *)
Definition Load (s : Settings) (w : disk) : outcome (Settings * disk) :=
  '(data, w) ← sReadFile w;
  match data with
  | None => Ok (s, w)
  | Some data =>
      match parse data with
      | None => Ok (s, w)
      | Some (ObjectRoot fields) => Ok (foldl load_field s fields, allocated (-1) w)
      | Some (ArrayRoot 0) => Ok (s, allocated (-1) w)
      | Some (ArrayRoot _) => UB "key of an array"
      end
  end.

(** ** The path a load takes *)

Lemma opened_closed w : opened (-1) (allocated 1 (opened 1 w)) = allocated 1 w.
Proof. destruct w. unfold opened, allocated. cbn. f_equal. lia. Qed.

Lemma allocated_freed w : allocated (-1) (allocated 1 w) = w.
Proof. destruct w. unfold allocated. cbn. f_equal. lia. Qed.

Lemma sReadFile_small w content :
  file w = Some content → Z.of_nat (length content) < 2 ^ 31 →
  sReadFile w = if bool_decide (content = []) then Ok (None, opened 1 w)
                else Ok (Some content, opened (-1) (allocated 1 (opened 1 w))).
Proof.
  intros Hw Hl. unfold sReadFile. rewrite Hw, swrap_small by lia.
  destruct content as [|c content]; [done|]. rewrite bool_decide_false by done. cbn zeta.
  rewrite (proj2 (Z.eqb_neq _ _)) by (simpl; lia). rewrite (proj2 (Z.ltb_ge _ _)) by lia.
  by rewrite Nat2Z.id, firstn_all.
Qed.
End load.

(** ** Reading back what was saved *)

(** The value that JSON gives a scalar, with [number] for numbers. *)
Definition json_value (number : text → value) (t : text) : value :=
  if bool_decide (t = txt "true") then TYPE_TRUE
  else if bool_decide (t = txt "false") then TYPE_FALSE else number t.

(** A JSON parser: of the text of an object with distinct names it gives the members, in some
    order, and numbers that are printed [int]s it reads as these. *)
Definition reads_json (parse : text → option root) (number : text → value) : Prop :=
  (∀ kvs t, json_object kvs t → NoDup kvs.*1 →
     ∃ fields, parse t = Some (ObjectRoot fields) ∧
       fields ≡ₚ ((λ kv, (kv.1, json_value number kv.2)) <$> kvs)) ∧
  (∀ z, - 2 ^ 31 ≤ z < 2 ^ 31 → number (to_text z) = TYPE_INTEGER z).

(** The settings as the types of the fields have them. *)
Definition well_typed (s : Settings) : Prop :=
  Forall (λ z, - 2 ^ 31 ≤ z < 2 ^ 31)
    [m_testIndex s; m_windowWidth s; m_windowHeight s; m_velocityIterations s; m_positionIterations s].

(** What [Save] writes is an object, the members of which are the fields it saves. *)
Lemma field_lines_members kvs w :
  kvs ≠ [] → blank w → (∀ kv, kv ∈ kvs → json_name kv.1 ∧ json_scalar kv.2) →
  json_members kvs (w ++ field_lines kvs).
Proof.
  assert (blank (txt nl)) as Hnl by by repeat constructor.
  assert (∀ w d kv, blank w → blank d → json_name kv.1 ∧ json_scalar kv.2 → json_member kv (w ++ field_line kv ++ d)) as Hone.
  { intros w' d kv Hw Hd [Hn Hs]. exists (w' ++ txt "  "), [], (txt " "), d. split_and!; try done.
    - unfold field_line. by rewrite <- !app_assoc.
    - apply Forall_app. split; [done|by repeat constructor].
    - constructor.
    - by repeat constructor. }
  revert w. induction kvs as [|kv kvs IH]; intros w Hne Hw Hall; [done|]. cbn [json_members field_lines].
  assert (json_name kv.1 ∧ json_scalar kv.2) as Hkv by apply Hall, list_elem_of_here.
  destruct kvs as [|kv' kvs]; [by apply Hone|].
  exists (w ++ field_line kv ++ []), (txt nl ++ field_lines (kv' :: kvs)). split_and!.
  - by rewrite app_nil_r, <- !app_assoc.
  - apply Hone; [done|constructor|done].
  - apply IH; [done|done|]. intros x Hx. by apply Hall, list_elem_of_further.
Qed.

Lemma show_bool_scalar b : json_scalar (show_bool b).
Proof. destruct b; [by left|by right; left]. Qed.

Lemma show_int_scalar z : - 2 ^ 31 ≤ z < 2 ^ 31 → json_scalar (to_text z).
Proof. intros Hz. right; right. apply to_text_number. lia. Qed.

Lemma saved_text_object s :
  well_typed s → finite_float (m_hertz s) → json_object (saved_texts s) (saved_text s).
Proof.
  intros Hs Hh. exists [], (txt nl ++ field_lines (saved_texts s)), (txt nl). split_and!.
  - unfold saved_text. by rewrite <- !app_assoc.
  - constructor.
  - by repeat constructor.
  - apply field_lines_members; [done|by repeat constructor|].
    unfold well_typed in Hs. rewrite !Forall_cons in Hs. destruct Hs as (H1 & H2 & H3 & H4 & H5 & _).
    apply Forall_forall. unfold saved_texts.
    repeat (apply Forall_cons; split; [split; [vm_compute; reflexivity|cbn [snd]; try apply show_bool_scalar]|]);
      try (by apply show_int_scalar); [|apply Forall_nil_2]. right; right. by apply show_g_number.
Qed.

Definition value_of_bool (b : bool) : value := if b then TYPE_TRUE else TYPE_FALSE.

(** The fields of the saved document; [number] is how the parser reads the text of
    [m_hertz]. *)
Definition saved_fields (number : text → value) (s : Settings) : list (text * value) := [
  (txt "testIndex", TYPE_INTEGER (m_testIndex s));
  (txt "windowWidth", TYPE_INTEGER (m_windowWidth s));
  (txt "windowHeight", TYPE_INTEGER (m_windowHeight s));
  (txt "hertz", number (show_g 9 (m_hertz s)));
  (txt "velocityIterations", TYPE_INTEGER (m_velocityIterations s));
  (txt "positionIterations", TYPE_INTEGER (m_positionIterations s));
  (txt "drawShapes", value_of_bool (m_drawShapes s));
  (txt "drawJoints", value_of_bool (m_drawJoints s));
  (txt "drawAABBs", value_of_bool (m_drawAABBs s));
  (txt "drawContactPoints", value_of_bool (m_drawContactPoints s));
  (txt "drawContactNormals", value_of_bool (m_drawContactNormals s));
  (txt "drawContactImpulse", value_of_bool (m_drawContactImpulse s));
  (txt "drawFrictionImpulse", value_of_bool (m_drawFrictionImpulse s));
  (txt "drawCOMs", value_of_bool (m_drawCOMs s));
  (txt "drawStats", value_of_bool (m_drawStats s));
  (txt "drawProfile", value_of_bool (m_drawProfile s));
  (txt "enableWarmStarting", value_of_bool (m_enableWarmStarting s));
  (txt "enableContinuous", value_of_bool (m_enableContinuous s));
  (txt "enableSubStepping", value_of_bool (m_enableSubStepping s));
  (txt "enableSleep", value_of_bool (m_enableSleep s))].

(** [s] with the fields that [Load] knows taken from [saved]. *)
Definition restored (number : text → value) (saved s : Settings) : Settings :=
  let hertz := match number (show_g 9 (m_hertz saved)) with
               | TYPE_DOUBLE d => to_float d
               | TYPE_INTEGER z => to_float (double_of_Z z)
               | _ => m_hertz s
               end in
  set_testIndex (m_testIndex saved) (set_windowWidth (m_windowWidth saved)
    (set_windowHeight (m_windowHeight saved) (set_hertz hertz
      (set_velocityIterations (m_velocityIterations saved)
        (set_positionIterations (m_positionIterations saved)
          (set_drawShapes (m_drawShapes saved) s)))))).

(** A fold of commuting updates does not depend on the order. *)
Lemma foldl_perm {S E} (f : S → E → S) (l l' : list E) s :
  l ≡ₚ l' → (∀ a b s, a ∈ l → b ∈ l → f (f s a) b = f (f s b) a) → foldl f s l = foldl f s l'.
Proof.
  intros Hp. revert s. induction Hp as [|x l l' Hp IH|x y l|l l' l'' Hp IH Hp' IH']; intros s Hc; cbn [foldl].
  - done.
  - apply IH. intros a b s' Ha Hb. apply Hc; by apply elem_of_cons; right.
  - f_equal. apply Hc; rewrite !elem_of_cons; auto.
  - rewrite IH by done. apply IH'. intros a b s' Ha Hb. apply Hc; by rewrite Hp.
Qed.

(** The names that [Load] compares a field name with. *)
Definition keys : list text :=
  [txt "testIndex"; txt "windowWidth"; txt "windowHeight"; txt "hertz"; txt "velocityIterations";
   txt "positionIterations"; txt "drawShapes"].

Lemma load_unknown s name v : forallb (λ k, negb (strncmp_eq name k)) keys = true → load_field s (name, v) = s.
Proof.
  unfold keys. cbn [forallb]. rewrite !andb_true_iff, !negb_true_iff.
  intros (E1 & E2 & E3 & E4 & E5 & E6 & E7 & _). unfold load_field. by rewrite E1, E2, E3, E4, E5, E6, E7.
Qed.

(** Evaluates the comparisons of given names. *)
Ltac compare_names :=
  unfold load_field;
  repeat match goal with
  | |- context [strncmp_eq ?a ?b] =>
      let r := eval vm_compute in (strncmp_eq a b) in
      replace (strncmp_eq a b) with r by (vm_compute; reflexivity)
  end; cbn beta iota.

Lemma load_testIndex s v : load_field s (txt "testIndex", v) = with_integer set_testIndex v s.
Proof. compare_names. reflexivity. Qed.
Lemma load_windowWidth s v : load_field s (txt "windowWidth", v) = with_integer set_windowWidth v s.
Proof. compare_names. reflexivity. Qed.
Lemma load_windowHeight s v : load_field s (txt "windowHeight", v) = with_integer set_windowHeight v s.
Proof. compare_names. reflexivity. Qed.
Lemma load_hertz s v : load_field s (txt "hertz", v) = with_number set_hertz v s.
Proof. compare_names. reflexivity. Qed.
Lemma load_velocityIterations s v :
  load_field s (txt "velocityIterations", v) = with_integer set_velocityIterations v s.
Proof. compare_names. reflexivity. Qed.
Lemma load_positionIterations s v :
  load_field s (txt "positionIterations", v) = with_integer set_positionIterations v s.
Proof. compare_names. reflexivity. Qed.
Lemma load_drawShapes s v : load_field s (txt "drawShapes", v) = with_bool set_drawShapes v s.
Proof. compare_names. reflexivity. Qed.

(** The seven updates of a load of saved fields. *)
Definition updates (number : text → value) (saved : Settings) : list (Settings → Settings) :=
  [set_testIndex (m_testIndex saved); set_windowWidth (m_windowWidth saved);
   set_windowHeight (m_windowHeight saved); with_number set_hertz (number (show_g 9 (m_hertz saved)));
   set_velocityIterations (m_velocityIterations saved); set_positionIterations (m_positionIterations saved);
   set_drawShapes (m_drawShapes saved)].

Ltac each_in H := repeat (apply elem_of_cons in H as [->|H]); [..|by apply elem_of_nil in H].

Lemma updates_commute number saved u v s :
  u ∈ updates number saved → v ∈ updates number saved → v (u s) = u (v s).
Proof.
  intros Hu Hv. unfold updates in Hu. each_in Hu; unfold updates in Hv; each_in Hv;
    unfold with_number; try destruct (number _); reflexivity.
Qed.

Lemma saved_field_effect number saved e :
  e ∈ saved_fields number saved →
  (∀ s, load_field s e = s) ∨ ∃ u, u ∈ updates number saved ∧ ∀ s, load_field s e = u s.
Proof.
  intros He. unfold saved_fields in He. each_in He;
    try (left; intros s; apply load_unknown; vm_compute; reflexivity); right.
  - eexists. split; [apply (list_elem_of_lookup_2 _ 0); reflexivity|]. intros s. apply load_testIndex.
  - eexists. split; [apply (list_elem_of_lookup_2 _ 1); reflexivity|]. intros s. apply load_windowWidth.
  - eexists. split; [apply (list_elem_of_lookup_2 _ 2); reflexivity|]. intros s. apply load_windowHeight.
  - eexists. split; [apply (list_elem_of_lookup_2 _ 3); reflexivity|]. intros s. apply load_hertz.
  - eexists. split; [apply (list_elem_of_lookup_2 _ 4); reflexivity|]. intros s. apply load_velocityIterations.
  - eexists. split; [apply (list_elem_of_lookup_2 _ 5); reflexivity|]. intros s. apply load_positionIterations.
  - eexists. split; [apply (list_elem_of_lookup_2 _ 6); reflexivity|]. intros s. rewrite load_drawShapes.
    by destruct (m_drawShapes saved).
Qed.

Lemma load_saved_fields number saved s fields :
  fields ≡ₚ saved_fields number saved → foldl load_field s fields = restored number saved s.
Proof.
  intros Hp. rewrite (foldl_perm _ _ _ _ Hp).
  - unfold saved_fields. cbn [foldl]. rewrite load_testIndex, load_windowWidth, load_windowHeight, load_hertz,
      load_velocityIterations, load_positionIterations, load_drawShapes.
    rewrite !load_unknown by (vm_compute; reflexivity).
    unfold restored, with_number. by destruct (number _), (m_drawShapes saved).
  - intros a b s' Ha Hb. rewrite Hp in Ha, Hb.
    destruct (saved_field_effect _ _ _ Ha) as [Ea|(u & Hu & Eu)].
    + by rewrite !Ea.
    + destruct (saved_field_effect _ _ _ Hb) as [Eb|(v & Hv & Ev)]; [by rewrite !Eb|].
      rewrite !Eu, !Ev. by eapply updates_commute.
Qed.

Lemma strncmp_prefix name key : is_prefix name key = true → strncmp_eq name key = true.
Proof.
  revert key. induction name as [|c name IH]; intros [|d key]; try done; cbn [is_prefix strncmp_eq].
  intros [Hc Hp]%andb_prop. rewrite IH by done. apply Ascii.eqb_eq in Hc as ->. by rewrite bool_decide_true.
Qed.

Lemma strncmp_only_prefix name key :
  Forall (λ c, c ≠ zero) name → is_prefix name key = false → strncmp_eq name key = false.
Proof.
  revert key. induction name as [|c name IH]; intros [|d key]; try done; cbn [is_prefix strncmp_eq];
    intros [Hc Hn]%Forall_cons.
  - intros _. by apply bool_decide_false.
  - destruct (Ascii.eqb_spec c d) as [->|Hne]; cbn [andb].
    + intros Hp. by rewrite IH, andb_false_r.
    + intros _. by rewrite bool_decide_false.
Qed.

Lemma json_value_bool number b : json_value number (show_bool b) = value_of_bool b.
Proof. by destruct b. Qed.

Lemma json_value_int parse number z :
  reads_json parse number → - 2 ^ 31 ≤ z < 2 ^ 31 → json_value number (to_text z) = TYPE_INTEGER z.
Proof.
  intros [_ Hn] Hz. unfold json_value. rewrite !bool_decide_false; [by apply Hn| |].
  all: intros E; assert ("e"%char ∈ to_text z) as Hin by (rewrite E; vm_compute; set_solver);
    by destruct (to_text_chars z _ Hin).
Qed.

Lemma json_value_number number t : json_number t → json_value number t = number t.
Proof.
  intros Ht. unfold json_value. rewrite !bool_decide_false; [done| |]; intros ->.
  all: destruct Ht as (sg & u & E & Hsg & i & f & e & -> & Hi & _); destruct Hsg as [->| ->]; try done;
    destruct Hi as [->|(c & ds & -> & Hc & _)]; try done; by injection E as <-.
Qed.

(** The values of the saved members. *)
Lemma saved_members_fields parse number s :
  reads_json parse number → well_typed s → finite_float (m_hertz s) →
  (λ kv, (kv.1, json_value number kv.2)) <$> saved_texts s = saved_fields number s.
Proof.
  intros Hr Hs Hh. unfold well_typed in Hs. rewrite !Forall_cons in Hs. destruct Hs as (H1 & H2 & H3 & H4 & H5 & _).
  unfold saved_texts, saved_fields. cbn [fmap list_fmap fst snd].
  rewrite !json_value_bool, !(json_value_int parse) by done. by rewrite json_value_number by by apply show_g_number.
Qed.

(** C36: For any JSON parser (one that gives the members of an object, in whatever order, and
    reads printed [int]s as these): loading the file that a save has written brings back the
    test index, the size of the window, the frequency as the parser reads its nine digits, the
    two iteration counts and whether shapes are drawn; the thirteen other fields of the file
    are ignored and keep their values.  The stream and the buffer are given back.  The settings
    saved have a frequency that is finite, the file can be opened for writing, and its text is
    shorter than 2 GiB. *)
Theorem settings_roundtrip (parse : text → option root) (number : text → value) (saved s : Settings) (w : disk) :
  reads_json parse number → well_typed saved → finite_float (m_hertz saved) →
  writable w = true → Z.of_nat (length (saved_text saved)) < 2 ^ 31 →
  ∃ w', Save saved w = Ok w' ∧ file w' = Some (saved_text saved) ∧
        Load parse s w' = Ok (restored number saved s, w').
Proof.
  intros Hr Hs Hh Hw Hl. unfold Save. rewrite Hw. eexists. split; [done|]. split; [done|].
  unfold Load. rewrite (sReadFile_small _ (saved_text saved)) by done.
  rewrite bool_decide_false by done. cbn [mbind outcome_bind].
  destruct (proj1 Hr _ _ (saved_text_object saved Hs Hh)) as (fields & -> & Hf).
  { apply (bool_decide_unpack _). vm_compute. exact I. }
  rewrite (saved_members_fields parse) in Hf by done. rewrite (load_saved_fields number saved) by done.
  by rewrite opened_closed, allocated_freed.
Qed.

(** What loading does on every path, for a file of less than 2 GiB: without a file
    nothing happens; an empty file leaves a stream open; a document that is not valid
    leaves the buffer allocated; the fields of an object are taken in their order; the
    root of the document may be an empty array, and an array with elements is accessed as
    an object. *)
Theorem settings_load_paths (parse : text → option root) (s : Settings) (w : disk) :
  (∀ content, file w = Some content → Z.of_nat (length content) < 2 ^ 31) →
  Load parse s w =
    match file w with
    | None => Ok (s, w)
    | Some [] => Ok (s, opened 1 w)
    | Some content =>
        match parse content with
        | None => Ok (s, allocated 1 w)
        | Some (ObjectRoot fields) => Ok (foldl load_field s fields, w)
        | Some (ArrayRoot 0) => Ok (s, w)
        | Some (ArrayRoot _) => UB "key of an array"
        end
    end.
Proof.
  intros Hsize. unfold Load. destruct (file w) as [content|] eqn:Hw; [|by unfold sReadFile; rewrite Hw].
  rewrite (sReadFile_small w content) by auto. destruct content as [|c content]; [done|].
  rewrite bool_decide_false by done. cbn [mbind outcome_bind].
  rewrite opened_closed, allocated_freed.
  destruct (parse _) as [[fields|[|n]]|]; done.
Qed.

(** A field is compared with the known names up to the length of its own name: any
    prefix of [testIndex], the empty name included, sets the test index; a name without a
    zero character that is a prefix of no known name is ignored. *)
Theorem settings_field_names (s : Settings) (name : text) :
  (is_prefix name (txt "testIndex") = true →
     ∀ z, load_field s (name, TYPE_INTEGER z) = set_testIndex z s) ∧
  (Forall (λ c, c ≠ zero) name → Forall (λ k, is_prefix name k = false) keys →
     ∀ v, load_field s (name, v) = s).
Proof.
  split.
  - intros Hp z. unfold load_field. by rewrite strncmp_prefix.
  - intros Hn Hk v. apply load_unknown, forallb_forall. intros k Hin.
    rewrite strncmp_only_prefix; [done|done|]. rewrite Forall_forall in Hk.
    by apply Hk, list_elem_of_In.
Qed.

(** ** A parser, and examples *)

Definition example_number (t : text) : value :=
  match stol t with
  | Ok z => if bool_decide (to_text z = t) && (- 2 ^ 31 <=? z) && (z <? 2 ^ 31) then TYPE_INTEGER z else TYPE_OTHER
  | _ => TYPE_OTHER
  end.

Definition example_parse (t : text) : option root :=
  kvs ← read_object t; Some (ObjectRoot ((λ kv, (kv.1, json_value example_number kv.2)) <$> kvs)).

Lemma example_reads_json : reads_json example_parse example_number.
Proof.
  split.
  - intros kvs t Ht _. unfold example_parse. rewrite (read_object_members kvs t Ht). by eexists.
  - intros z Hz. unfold example_number. rewrite stol_to_text by lia. rewrite bool_decide_true by done.
    rewrite (proj2 (Z.leb_le _ _)), (proj2 (Z.ltb_lt _ _)) by lia. done.
Qed.

Definition empty_disk : disk := mkDisk None true 0 0.

Lemma settings_roundtrip_witness :
  ∃ w, Save (set_windowWidth 800 (set_drawShapes false Reset)) empty_disk = Ok w ∧
       Load example_parse Reset w = Ok (set_windowWidth 800 (set_drawShapes false Reset), w).
Proof.
  destruct (settings_roundtrip example_parse example_number (set_windowWidth 800 (set_drawShapes false Reset))
    Reset empty_disk) as (w & Hs & _ & Hl).
  - apply example_reads_json.
  - repeat constructor; discriminate.
  - vm_compute. repeat split; discriminate.
  - reflexivity.
  - vm_compute. reflexivity.
  - exists w. split; [exact Hs|]. rewrite Hl. vm_compute. reflexivity.
Defined.

Lemma settings_load_paths_witness :
  Load example_parse Reset (mkDisk (Some []) true 0 0) = Ok (Reset, mkDisk (Some []) true 1 0) ∧
  Load example_parse Reset (mkDisk (Some (txt "garbage")) true 0 0) =
    Ok (Reset, mkDisk (Some (txt "garbage")) true 0 1).
Proof.
  split; rewrite settings_load_paths; try reflexivity; intros content [= <-]; vm_compute; reflexivity.
Defined.

Lemma settings_field_names_witness :
  load_field Reset ([], TYPE_INTEGER 5) = set_testIndex 5 Reset ∧
  load_field Reset (txt "drawJoints", TYPE_FALSE) = Reset.
Proof.
  split.
  - apply (settings_field_names Reset []). reflexivity.
  - apply (settings_field_names Reset (txt "drawJoints")); repeat constructor; discriminate.
Defined.
