(* ===== verification/Factories.v ===== *)
(** The factories of [src/cpp_practices/design_pattern_in_modern_cpp/src/]:
    [MapFactory] models [factory.cpp] (one creator per identifier),
    [ExperimentalFactory] models [factory_experimental.cpp] (creators overloaded by
    signature) and [VariantFactory] models [factory_variant.cpp] (a creator for each
    alternative of a variant, by its name).

    A creator is a method of the program: it may allocate and print.  The error policy of
    a factory is a type class with the two policies as instances.  The maps are finite
    maps; where the code walks through a [std::map] it is a list ordered by the keys.

    The theorems: which creator is called after any sequence of registrations; that an
    overload is chosen by the exact signature of the call, value category included; the
    names and the message of the variant factory. *)
From S2P Require Import Prelude.
From stdpp Require Import sorting pretty.
Local Open Scope string_scope.
Local Open Scope list_scope.

(** ** Objects *)

(* @src cpp_practices/design_pattern_in_modern_cpp/src/factory.cpp 65-78 Fruit *)
(** The classes derived from [Fruit], and what the virtual method [info] prints. *)
Inductive fruit := Apple | Banana | Pear.
Definition fruit_info (f : fruit) : string :=
  match f with
  | Apple => "This is an apple" | Banana => "This is a Banana" | Pear => "This is a Pear"
  end.

(** The objects on the heap; a pointer is an address or null. *)
Abbreviation heap := (gmap nat fruit).

(** [new C()] *)
Definition new_fruit (c : fruit) : M heap (option nat) := λ h,
  let l := fresh (dom h : gset nat) in (Ok (Some l), <[l := c]> h, []).

(** [p->info()] *)
Definition call_info (p : option nat) : M heap unit := λ h,
  match p with
  | None => (UB "call through a null pointer", h, [])
  | Some l => match h !! l with
              | Some f => (Ok tt, h, [fruit_info f; nl])
              | None => (UB "dangling pointer", h, [])
              end
  end.

(** ** Error policies *)

Class FactoryErrorPolicy (Id S P : Type) := { onUnknownType : Id → M S (option P) }.

(* @src cpp_practices/design_pattern_in_modern_cpp/src/factory.cpp 22-27 FactoryErrorNullptr *)
Definition FactoryErrorNullptr {Id S P} : FactoryErrorPolicy Id S P :=
  {| onUnknownType := λ _, mret None |}.

(* @src cpp_practices/design_pattern_in_modern_cpp/src/factory.cpp 29-36 FactoryErrorException *)
Definition FactoryErrorException {Id S P} : FactoryErrorPolicy Id S P :=
  {| onUnknownType := λ _, throw "Unknown object type passed to Factory" |}.

(** ** [factory.cpp] *)
Module MapFactory.
Section factory.
Context {Id S P : Type} `{Countable Id}.
Abbreviation creator := (M S (option P)).

(* @src cpp_practices/design_pattern_in_modern_cpp/src/factory.cpp 40-46 Factory *)
Record Factory := mkFactory { associations_ : gmap Id creator }.
Definition new : Factory := mkFactory ∅.

(* @src cpp_practices/design_pattern_in_modern_cpp/src/factory.cpp 47-49 Factory::registerCreator *)
(** [std::map::insert] does not replace. *)
Definition registerCreator (id : Id) (c : creator) (f : Factory) : bool * Factory :=
  match associations_ f !! id with
  | Some _ => (false, f)
  | None => (true, mkFactory (<[id := c]> (associations_ f)))
  end.

(* @src cpp_practices/design_pattern_in_modern_cpp/src/factory.cpp 50-50 Factory::unregisterCreator *)
Definition unregisterCreator (id : Id) (f : Factory) : bool * Factory :=
  match associations_ f !! id with
  | Some _ => (true, mkFactory (delete id (associations_ f)))
  | None => (false, f)
  end.

(* @src cpp_practices/design_pattern_in_modern_cpp/src/factory.cpp 51-57 Factory::createObject *)
Definition createObject {policy : FactoryErrorPolicy Id S P} (f : Factory) (id : Id) : creator :=
  match associations_ f !! id with
  | Some c => c
  | None => onUnknownType id
  end.
End factory.

(* @src cpp_practices/design_pattern_in_modern_cpp/src/factory.cpp 80-107 main *)
(** The four pointers are kept until the end; the exception of the last factory is not
    caught. *)
Definition main : M heap unit :=
  let f := new in
  let f := (registerCreator 0 (new_fruit Apple) f).2 in
  let f := (registerCreator 1 (new_fruit Banana) f).2 in
  let f := (registerCreator 2 (new_fruit Pear) f).2 in
  apple_ptr ← createObject (policy := FactoryErrorNullptr) f 0;
  banana_ptr ← createObject (policy := FactoryErrorNullptr) f 1;
  pear_ptr ← createObject (policy := FactoryErrorNullptr) f 2;
  unknown_fruit_ptr ← createObject (policy := FactoryErrorNullptr) f 3;
  _ ← call_info apple_ptr;
  _ ← call_info banana_ptr;
  _ ← call_info pear_ptr;
  _ ← match unknown_fruit_ptr with
      | None => _ ← print "This fruit does not exist."; print nl
      | Some _ => mret tt
      end;
  _ ← createObject (P := nat) (policy := FactoryErrorException) (new (Id := nat)) 99;
  mret tt.
End MapFactory.

(** ** [factory_experimental.cpp] *)
Module ExperimentalFactory.

(** The types of parameters, and the arguments of a call: a value and whether the
    expression is an lvalue. *)
Inductive ty := TInt | TString | TRef (t : ty).
Inductive arg_value := VInt (z : Z) | VString (s : string).
Record arg := mkArg { lvalue : bool; value_of : arg_value }.

#[global] Instance ty_eq_dec : EqDecision ty.
Proof. solve_decision. Defined.

(** The signature is the list of the types of the parameters. *)
Abbreviation signature := (list ty).

Definition type_of_value (v : arg_value) : ty := match v with VInt _ => TInt | VString _ => TString end.

(** [Args] as deduced for [Args&&... args]: a reference for an lvalue. *)
Definition given_signature (args : list arg) : signature :=
  (λ a, if lvalue a then TRef (type_of_value (value_of a)) else type_of_value (value_of a)) <$> args.

Section factory.
Context {Id S P : Type} `{Countable Id}.
(** The function behind a pointer, called with a list of arguments that fits. *)
Abbreviation creator := (list arg_value → M S (option P)).

(** Functions with their signatures; the constructor starts with one. *)
Abbreviation FunctionTypes := (list (signature * creator)).

(* @src cpp_practices/design_pattern_in_modern_cpp/src/factory_experimental.cpp 87-96 Factory::FunctionTypes::add *)
Definition add (function_type : signature * creator) (fs_ : FunctionTypes) : bool * FunctionTypes :=
  if existsb (λ x, bool_decide (x.1 = function_type.1)) fs_ then (false, fs_)
  else (true, fs_ ++ [function_type]).

(* @src cpp_practices/design_pattern_in_modern_cpp/src/factory_experimental.cpp 98-107 Factory::FunctionTypes::get *)
Fixpoint get_function (sig : signature) (fs_ : FunctionTypes) : outcome creator :=
  match fs_ with
  | [] => Throw "no matching function."
  | func_type :: fs_ => if bool_decide (sig = func_type.1) then Ok func_type.2 else get_function sig fs_
  end.

(* @src cpp_practices/design_pattern_in_modern_cpp/src/factory_experimental.cpp 113-117 Factory *)
Record Factory := mkFactory { associations_ : gmap Id FunctionTypes }.
Definition new : Factory := mkFactory ∅.

(* @src cpp_practices/design_pattern_in_modern_cpp/src/factory_experimental.cpp 51-65 Factory::registerCreator *)
Definition registerCreator (id : Id) (sig : signature) (c : creator) : M Factory bool :=
  f ← get;
  match associations_ f !! id with
  | Some fs =>
      let '(added, fs) := add (sig, c) fs in
      if added then _ ← put (mkFactory (<[id := fs]> (associations_ f))); mret true
      else throw "the creator function with same signature already exists."
  | None => _ ← put (mkFactory (<[id := [(sig, c)]]> (associations_ f))); mret true
  end.

(* @src cpp_practices/design_pattern_in_modern_cpp/src/factory_experimental.cpp 66-66 Factory::unregisterCreator *)
Definition unregisterCreator (id : Id) : M Factory bool :=
  f ← get;
  match associations_ f !! id with
  | Some _ => _ ← put (mkFactory (delete id (associations_ f))); mret true
  | None => mret false
  end.

(* @src cpp_practices/design_pattern_in_modern_cpp/src/factory_experimental.cpp 68-78 Factory::createObject *)
Definition createObject {policy : FactoryErrorPolicy Id S P} (f : Factory) (id : Id) (args : list arg) :
    M S (option P) :=
  match associations_ f !! id with
  | Some fs => creator_func ← lift (get_function (given_signature args) fs); creator_func (value_of <$> args)
  | None => onUnknownType id
  end.

(** ** The specification *)
Inductive op := Register (id : Id) (sig : signature) (c : creator) | Unregister (id : Id).

(** The factory after an operation; one that throws leaves it as it is. *)
Definition exec_op (f : Factory) (o : op) : Factory :=
  match o with
  | Register id sig c => (registerCreator id sig c f).1.2
  | Unregister id => (unregisterCreator id f).1.2
  end.

(** The registrations of [id] after its last unregistration, in order. *)
Definition registered (ops : list op) (id : Id) : list (signature * creator) :=
  foldl (λ regs o,
    match o with
    | Register id' sig c => if bool_decide (id' = id) then regs ++ [(sig, c)] else regs
    | Unregister id' => if bool_decide (id' = id) then [] else regs
    end) [] ops.

(** The functions kept for an identifier: the first registration of every signature. *)
Definition represents (fs : option FunctionTypes) (regs : list (signature * creator)) : Prop :=
  match fs with
  | None => regs = []
  | Some fs => regs ≠ [] ∧ ∀ sig, get_function sig fs = get_function sig regs
  end.

Lemma get_function_app sig fs gs :
  get_function sig (fs ++ gs) =
  match get_function sig fs with Ok c => Ok c | _ => get_function sig gs end.
Proof.
  induction fs as [|[s c] fs IH]; [done|]. cbn [get_function app]. by case_bool_decide.
Qed.

Lemma existsb_get_function sig fs :
  existsb (λ x, bool_decide (x.1 = sig)) fs = is_ok (get_function sig fs).
Proof.
  induction fs as [|[s c] fs IH]; [done|]. cbn [existsb get_function fst].
  destruct (decide (s = sig)) as [->|Hn].
  - by rewrite !bool_decide_true.
  - rewrite !bool_decide_false by congruence. exact IH.
Qed.

Lemma get_function_fails sig fs :
  is_ok (get_function sig fs) = false → get_function sig fs = Throw "no matching function.".
Proof. induction fs as [|[s c] fs IH]; [done|]. cbn [get_function fst snd]. by case_bool_decide. Qed.

Lemma register_represents id sig c f regs :
  represents (associations_ f !! id) regs →
  registerCreator id sig c f =
    (if is_ok (get_function sig regs)
     then (Throw "the creator function with same signature already exists.", f, [])
     else (Ok true, (registerCreator id sig c f).1.2, [])) ∧
  represents (associations_ (registerCreator id sig c f).1.2 !! id) (regs ++ [(sig, c)]).
Proof.
  intros Hr. unfold registerCreator, mbind, M_bind, get. unfold represents in Hr.
  destruct (associations_ f !! id) as [fs|] eqn:E.
  - destruct Hr as [Hne Hget]. unfold add. cbn [fst]. rewrite existsb_get_function, Hget.
    destruct (get_function sig regs) as [c'| |] eqn:Er; cbn [is_ok].
    + split; [done|]. cbn. rewrite E. split; [by destruct regs|]. intros sig'.
      rewrite get_function_app, Hget. destruct (is_ok (get_function sig' regs)) eqn:Es.
      * by destruct (get_function sig' regs).
      * rewrite (get_function_fails _ _ Es). cbn [get_function fst].
        rewrite bool_decide_false; [done|]. intros ->. by rewrite Er in Es.
    + split; [done|]. cbn. rewrite lookup_insert_eq. split; [by destruct regs|]. intros sig'.
      by rewrite !get_function_app, Hget.
    + split; [done|]. cbn. rewrite lookup_insert_eq. split; [by destruct regs|]. intros sig'.
      by rewrite !get_function_app, Hget.
  - subst regs. cbn. rewrite lookup_insert_eq. done.
Qed.

Lemma register_other id id' sig c f :
  id' ≠ id → associations_ (registerCreator id sig c f).1.2 !! id' = associations_ f !! id'.
Proof.
  intros Hn. unfold registerCreator, mbind, M_bind, get.
  destruct (associations_ f !! id) as [fs|]; [destruct (add _ _) as [[] fs']|]; cbn; [|done|];
    by rewrite lookup_insert_ne.
Qed.

Lemma unregister_lookup id id' f :
  associations_ (unregisterCreator id f).1.2 !! id' =
  if bool_decide (id = id') then None else associations_ f !! id'.
Proof.
  unfold unregisterCreator, mbind, M_bind, get. destruct (associations_ f !! id) as [fs|] eqn:E; cbn.
  - case_bool_decide as Hid; [by rewrite Hid, lookup_delete_eq|by rewrite lookup_delete_ne].
  - case_bool_decide as Hid; [by rewrite <- Hid|done].
Qed.

Lemma exec_represents ops id :
  represents (associations_ (foldl exec_op new ops) !! id) (registered ops id).
Proof.
  induction ops as [|o ops IH] using rev_ind; [done|]. unfold registered in *.
  rewrite !foldl_app. cbn [foldl]. destruct o as [id' sig c|id']; cbn [exec_op].
  - case_bool_decide as Hid; [subst id'|by rewrite register_other].
    by apply register_represents.
  - rewrite unregister_lookup. case_bool_decide as Hid; done.
Qed.

Lemma get_function_In sig fs c : get_function sig fs = Ok c → (sig, c) ∈ fs.
Proof.
  induction fs as [|[s' c'] fs IH]; [done|]. cbn [get_function fst snd]. case_bool_decide as Hs.
  - intros [= <-]. subst s'. left.
  - intros Hc. right. by apply IH.
Qed.

Lemma get_function_defined sig fs w : get_function sig fs ≠ UB w.
Proof. induction fs as [|[s' c'] fs IH]; [done|]. cbn [get_function fst snd]. by case_bool_decide. Qed.

Lemma registered_In ops id sig c : (sig, c) ∈ registered ops id → ∃ id', Register id' sig c ∈ ops.
Proof.
  induction ops as [|o ops IH] using rev_ind; [by intros ?%elem_of_nil|]. unfold registered in *.
  rewrite foldl_app. cbn [foldl]. setoid_rewrite elem_of_app.
  destruct o as [id' sig' c'|id']; case_bool_decide.
  - intros [Hin| [= <- <-]%list_elem_of_singleton]%elem_of_app; [destruct (IH Hin); eauto|].
    exists id'. right. apply list_elem_of_here.
  - intros Hin. destruct (IH Hin); eauto.
  - by intros ?%elem_of_nil.
  - intros Hin. destruct (IH Hin); eauto.
Qed.

(** Values of the types of a signature; the function a pointer to which is cast back to the
    signature it was registered with is only defined for those. *)
Definition fits (sig : signature) (vs : list arg_value) : Prop :=
  Forall2 (λ t v, t = type_of_value v ∨ t = TRef (type_of_value v)) sig vs.
Definition defined_for (sig : signature) (c : creator) : Prop :=
  ∀ vs s, fits sig vs → ∀ w, (c vs s).1.1 ≠ UB w.

Lemma given_signature_fits args : fits (given_signature args) (value_of <$> args).
Proof.
  induction args as [|[[] v] args IH]; [constructor|constructor; [by right|done]|constructor; [by left|done]].
Qed.
End factory.

Section claims.
Context {Id S P : Type} `{Countable Id} {policy : FactoryErrorPolicy Id S P}.

(** After any sequence of registrations and unregistrations, creating an object of an
    identifier that has no registration since it was last unregistered follows the error
    policy; otherwise it calls, with the given arguments, the creator first registered with
    exactly the signature of the call, in which an lvalue argument has a reference type, and
    throws when there is none.  Registering succeeds exactly when the identifier has no
    creator of that signature. *)
Theorem experimental_factory_dispatch (ops : list (@op Id S P)) (id : Id) :
  let f := foldl exec_op new ops in
  (∀ args, createObject f id args =
     match registered ops id with
     | [] => onUnknownType id
     | regs => creator_func ← lift (get_function (given_signature args) regs); creator_func (value_of <$> args)
     end) ∧
  (∀ sig c, (registerCreator id sig c f).1.1 =
     match get_function sig (registered ops id) with
     | Ok _ => Throw "the creator function with same signature already exists."
     | _ => Ok true
     end).
Proof.
  intros f. pose proof (exec_represents ops id) as Hr. fold f in Hr. split.
  - intros args. unfold createObject. unfold represents in Hr.
    destruct (associations_ f !! id) as [fs|]; [|by rewrite Hr].
    destruct Hr as [Hne Hget]. rewrite Hget. by destruct (registered ops id).
  - intros sig c. destruct (register_represents id sig c f _ Hr) as [-> _].
    by destruct (get_function sig (registered ops id)).
Qed.

(** C23: the casts of the function pointers are safe.  Creators are kept without their types
    and cast back to the type of the call; after any operations, if every registered creator
    is defined for the arguments of its own signature, whatever the state, then creating an
    object is defined for every identifier, all arguments and every state, unless the error
    policy itself is not. *)
Theorem experimental_factory_type_safe (ops : list (@op Id S P)) (id : Id) (args : list arg) (s : S) :
  (∀ id' sig c, Register id' sig c ∈ ops → defined_for sig c) →
  (∀ w, (onUnknownType id s).1.1 ≠ UB w) →
  ∀ w, (createObject (foldl exec_op new ops) id args s).1.1 ≠ UB w.
Proof.
  intros Hreg Hpol w. pose proof (exec_represents ops id) as Hr. unfold createObject, represents in *.
  destruct (associations_ _ !! id) as [fs|]; [|apply Hpol]. destruct Hr as [_ Hget]. rewrite Hget.
  destruct (get_function _ _) as [c| |] eqn:E; [|done|by apply get_function_defined in E].
  apply get_function_In in E. destruct (registered_In _ _ _ _ E) as [id' Hin].
  pose proof (Hreg _ _ _ Hin (value_of <$> args) s (given_signature_fits args) w) as Hc.
  unfold mbind, M_bind, lift. by destruct (c (value_of <$> args) s) as [[[] ?] ?].
Qed.
End claims.

(* @src cpp_practices/design_pattern_in_modern_cpp/src/factory_experimental.cpp 119-137 Apple *)
(** The creators of the program: the constructors of [Apple] print their argument. *)
Definition create_fruit (c : fruit) (args : list arg_value) : M heap (option nat) :=
  _ ← match c, args with
      | Apple, [VInt age] => _ ← print "created an apple with age of "; _ ← print (pretty age); print nl
      | Apple, [VString info] => _ ← print "created an apple with info: "; _ ← print info; print nl
      | _, _ => mret tt
      end;
  new_fruit c.

(* @src cpp_practices/design_pattern_in_modern_cpp/src/factory_experimental.cpp 139-179 main *)
Definition main_ops : list (@op string heap nat) :=
  [Register "Apple" [] (create_fruit Apple); Register "Apple" [TInt] (create_fruit Apple);
   Register "Apple" [TString] (create_fruit Apple); Register "Banana" [] (create_fruit Banana);
   Register "Pear" [] (create_fruit Pear)].
Definition main : M heap unit :=
  let f := foldl exec_op new main_ops in
  let create := createObject (policy := FactoryErrorNullptr) f in
  apple_ptr ← create "Apple" [];
  apple_ptr2 ← create "Apple" [mkArg false (VInt 8)];
  apple_ptr3 ← create "Apple" [mkArg false (VString "awesome")];
  banana_ptr ← create "Banana" [];
  pear_ptr ← create "Pear" [];
  unknown_fruit_ptr ← create "Unknown" [];
  _ ← call_info apple_ptr;
  _ ← call_info banana_ptr;
  _ ← call_info pear_ptr;
  _ ← match unknown_fruit_ptr with
      | None => _ ← print "This fruit does not exist."; print nl
      | Some _ => mret tt
      end;
  _ ← createObject (P := nat) (policy := FactoryErrorException) (new (Id := nat)) 99 [];
  mret tt.

Example main_prints :
  (main ∅).1.1 = Throw "Unknown object type passed to Factory" ∧
  concat (String.list_ascii_of_string <$> (main ∅).2) = String.list_ascii_of_string
   ("created an apple with age of 8" +:+ nl +:+ "created an apple with info: awesome" +:+ nl +:+
    "This is an apple" +:+ nl +:+ "This is a Banana" +:+ nl +:+ "This is a Pear" +:+ nl +:+
    "This fruit does not exist." +:+ nl).
Proof. split; vm_compute; reflexivity. Qed.

(** A creator that takes the value of its parameter, which would be undefined for others. *)
Definition aged_apple (args : list arg_value) : M heap (option nat) :=
  match args with
  | [VInt age] => _ ← print (pretty age); new_fruit Apple
  | _ => lift (UB "called through a pointer of another type")
  end.

Lemma experimental_factory_type_safe_witness :
  (createObject (policy := FactoryErrorNullptr)
     (foldl exec_op new [Register "Apple" [TInt] aged_apple; Register "Pear" [] (create_fruit Pear)])
     "Apple" [mkArg false (VInt 8)] ∅).1.1 ≠ UB "called through a pointer of another type".
Proof.
  apply (experimental_factory_type_safe (policy := FactoryErrorNullptr)).
  - intros id' sig c [Heq|[Heq|Hin]%elem_of_cons]%elem_of_cons; [| |by apply elem_of_nil in Hin];
      injection Heq as -> -> ->; intros vs s Hf w.
    + apply Forall2_cons_inv_l in Hf as (v & vs' & Hv & ->%Forall2_nil_inv_l & ->). by destruct v, Hv.
    + apply Forall2_nil_inv_l in Hf as ->. done.
  - done.
Defined.

(** With a variable as the argument the call needs a creator with a reference parameter. *)
Example variable_has_no_creator :
  (createObject (policy := FactoryErrorNullptr) (foldl exec_op new main_ops) "Apple"
     [mkArg true (VInt 8)] ∅).1.1 = Throw "no matching function.".
Proof. vm_compute. reflexivity. Qed.
End ExperimentalFactory.

(** ** [factory_variant.cpp] *)
Module VariantFactory.
Section factory.
(** The alternatives of the variant, and [nameof::nameof_type] of each. *)
Context {T : Type} (name_of : T → string).

(** [std::map<std::string, T>]: pairs ordered by the keys. *)
Abbreviation AssocMap := (list (string * T)).

(** [std::map::insert] *)
Fixpoint map_insert (k : string) (v : T) (m : AssocMap) : AssocMap :=
  match m with
  | [] => [(k, v)]
  | (k', v') :: m' =>
      if decide (k = k') then m
      else if decide (k ≤ k')%string then (k, v) :: m
      else (k', v') :: map_insert k v m'
  end.

(** [std::map::find] *)
Fixpoint map_find (k : string) (m : AssocMap) : option T :=
  match m with
  | [] => None
  | (k', v) :: m => if decide (k = k') then Some v else map_find k m
  end.

(* @src cpp_practices/design_pattern_in_modern_cpp/src/factory_variant.cpp 43-53 Factory::MapCreator *)
(** The fold over the alternatives inserts each under its name. *)
Definition MapCreator (types : list T) (m : AssocMap) : AssocMap :=
  foldl (λ m t, map_insert (name_of t) t m) m types.

(* @src cpp_practices/design_pattern_in_modern_cpp/src/factory_variant.cpp 22-22 Factory::Factory *)
Definition new (types : list T) : AssocMap := MapCreator types [].

(* @src cpp_practices/design_pattern_in_modern_cpp/src/factory_variant.cpp 30-36 Factory::createObject *)
Definition unknown_message (id : string) (names : list string) : string :=
  "Unknown object type ID " +:+ id +:+ ". " +:+ "Registed type IDs are: " +:+
  foldr (λ n s, nl +:+ String "009" n +:+ s) EmptyString names.

(* @src cpp_practices/design_pattern_in_modern_cpp/src/factory_variant.cpp 24-37 Factory::createObject *)
Definition createObject (associations_ : AssocMap) (id : string) : outcome T :=
  match map_find id associations_ with
  | Some t => Ok t
  | None => Throw (unknown_message id (fst <$> associations_))
  end.

(** ** Lemmas *)

(** The strict order of the keys. *)
Definition key_lt (a b : string) : Prop := (a ≤ b)%string ∧ a ≠ b.

Lemma key_lt_trans a b c : key_lt a b → key_lt b c → key_lt a c.
Proof.
  intros [Hab Nab] [Hbc Nbc]. split; [by etrans|]. intros ->. apply Nab. by apply (anti_symm String.le).
Qed.

Abbreviation ordered m := (StronglySorted key_lt (fst <$> m)).

Lemma map_insert_keys k v m x : x ∈ fst <$> map_insert k v m ↔ x = k ∨ x ∈ fst <$> m.
Proof.
  induction m as [|[k1 v1] m IH]; cbn [map_insert].
  - cbn. rewrite list_elem_of_singleton, elem_of_nil. tauto.
  - destruct (decide (k = k1)) as [->|Hne]; [cbn; rewrite elem_of_cons; tauto|].
    destruct (decide (k ≤ k1)%string); cbn [fmap list_fmap fst]; rewrite !elem_of_cons; [tauto|].
    change (list_fmap _ _ fst (map_insert k v m)) with (fst <$> map_insert k v m). rewrite IH.
    change (list_fmap _ _ fst m) with (fst <$> m). tauto.
Qed.

Lemma map_insert_ordered k v m : ordered m → ordered (map_insert k v m).
Proof.
  induction m as [|[k1 v1] m IH]; cbn [map_insert]; intros Hm.
  - repeat constructor.
  - apply StronglySorted_inv in Hm as [Hm Hall]. destruct (decide (k = k1)) as [->|Hne]; [by constructor|].
    destruct (decide (k ≤ k1)%string) as [Hle|Hle].
    + constructor; [by constructor|]. constructor; [done|]. eapply Forall_impl; [exact Hall|].
      intros y Hy. by apply (key_lt_trans k k1).
    + constructor; [by apply IH|]. apply Forall_forall. intros y [->|Hy]%map_insert_keys.
      * split; [|done]. by destruct (total String.le k k1).
      * rewrite Forall_forall in Hall. by apply Hall.
Qed.

Lemma map_find_absent k m : Forall (key_lt k) (fst <$> m) → map_find k m = None.
Proof.
  induction m as [|[k1 v1] m IH]; [done|]. cbn [fmap list_fmap fst map_find].
  intros [[_ Hk] Hm]%Forall_cons. rewrite decide_False by done. by apply IH.
Qed.

Lemma map_find_insert k k' v m :
  ordered m →
  map_find k (map_insert k' v m) =
  match map_find k m with
  | Some t => Some t
  | None => if decide (k = k') then Some v else None
  end.
Proof.
  induction m as [|[k1 v1] m IH]; cbn [map_insert map_find]; [done|].
  intros [Hm Hall]%StronglySorted_inv. destruct (decide (k' = k1)) as [->|Hne].
  - cbn [map_find]. destruct (decide (k = k1)); [done|]. by destruct (map_find k m).
  - destruct (decide (k' ≤ k1)%string); cbn [map_find].
    + destruct (decide (k = k')) as [->|Hk]; [|by destruct (decide (k = k1)), (map_find k m)].
      rewrite decide_False, map_find_absent; [done| |done]. eapply Forall_impl; [exact Hall|].
      intros y Hy. by apply (key_lt_trans k' k1).
    + destruct (decide (k = k1)); [done|]. by apply IH.
Qed.

Lemma MapCreator_spec types m :
  ordered m → ordered (MapCreator types m) ∧
  (∀ x, x ∈ fst <$> MapCreator types m ↔ x ∈ fst <$> m ∨ x ∈ name_of <$> types) ∧
  ∀ k, map_find k (MapCreator types m) =
    match map_find k m with Some t => Some t | None => List.find (λ t, bool_decide (k = name_of t)) types end.
Proof.
  revert m. induction types as [|t types IH]; intros m Hm; unfold MapCreator in *; cbn [foldl List.find].
  - split; [done|]. split; [intros x; cbn; rewrite elem_of_nil; tauto|]. intros k. by destruct (map_find k m).
  - destruct (IH (map_insert (name_of t) t m)) as (Ho & Hk & Hf); [by apply map_insert_ordered|].
    split; [done|]. split.
    + intros x. rewrite Hk, map_insert_keys. rewrite fmap_cons, elem_of_cons. tauto.
    + intros k. rewrite Hf, map_find_insert by done. destruct (map_find k m); [done|].
      case_bool_decide; [by rewrite decide_True|by rewrite decide_False].
Qed.
End factory.

(** The factory of a variant creates the alternative whose name is given, the first one
    if several have the name; for any other identifier it throws an exception whose message
    lists the names of the alternatives, each once and in increasing order. *)
Theorem variant_factory_names {T} (name_of : T → string) (types : list T) (id : string) :
  let factory := new name_of types in
  createObject factory id =
    match List.find (λ t, bool_decide (id = name_of t)) types with
    | Some t => Ok t
    | None => Throw (unknown_message id (fst <$> factory))
    end ∧
  StronglySorted key_lt (fst <$> factory) ∧
  ∀ x, x ∈ fst <$> factory ↔ x ∈ name_of <$> types.
Proof.
  intros factory. destruct (MapCreator_spec name_of types []) as (Ho & Hk & Hf); [constructor|].
  split; [|split].
  - unfold createObject, factory, new. rewrite Hf. cbn [map_find]. by destruct (List.find _ _).
  - exact Ho.
  - intros x. unfold factory, new. rewrite Hk. cbn. rewrite elem_of_nil. tauto.
Qed.

(* @src cpp_practices/design_pattern_in_modern_cpp/src/factory_variant.cpp 61-79 Fruit *)
Inductive Fruit := VApple | VBanana | VPear | NsApple.
Definition fruits : list Fruit := [VApple; VBanana; VPear; NsApple].
Definition name_of_fruit (f : Fruit) : string :=
  match f with
  | VApple => "Apple" | VBanana => "Banana" | VPear => "Pear" | NsApple => "fruit_ns::Apple"
  end.
Definition Fruit_info (f : Fruit) : string :=
  match f with
  | VApple => "This is an apple" | VBanana => "This is a banana" | VPear => "This is a pear"
  | NsApple => "This is an apple in fruit_ns"
  end.

(* @src cpp_practices/design_pattern_in_modern_cpp/src/factory_variant.cpp 78-104 main *)
Definition main : M unit unit :=
  let create id := lift (createObject (new name_of_fruit fruits) id) in
  let info f := _ ← print (Fruit_info f); print nl in
  apple ← create "Apple";
  banana ← create "Banana";
  pear ← create "Pear";
  apple_in_ns ← create "fruit_ns::Apple";
  _ ← info apple;
  _ ← info banana;
  _ ← info pear;
  _ ← info apple_in_ns;
  _ ← create "SomeUnknowFruit";
  mret tt.

Example variant_main_prints :
  main tt = (Throw (unknown_message "SomeUnknowFruit" ["Apple"; "Banana"; "Pear"; "fruit_ns::Apple"]), tt,
    ["This is an apple"; nl; "This is a banana"; nl; "This is a pear"; nl; "This is an apple in fruit_ns"; nl]).
Proof. vm_compute. reflexivity. Qed.
End VariantFactory.
