(* ===== verification/Patterns.v ===== *)
(** The builders and the mixins of [src/cpp_practices/design_pattern_in_modern_cpp/src/]:
    [EmailBuilder] models [builder.cpp], [BlochEmail] models [joshua_bloch_builder.cpp],
    [Mixins] models [decorator_mixins.cpp] and [Visitors] models [visitor.cpp].

    The theorems: both builders give an email with the last value set for every part, so
    that parts of different kinds may come in any order; a point made from coordinates
    keeps neither of them, and showing it reads uninitialised memory. *)
From S2P Require Import Prelude Text Float.
Local Open Scope Z_scope.

(** The parts of an email, as they are given to a builder. *)
Inductive part := From (t : text) | To (t : text) | Subject (t : text) | Body (t : text).
Inductive kind := KFrom | KTo | KSubject | KBody.
Definition kind_of (p : part) : kind :=
  match p with From _ => KFrom | To _ => KTo | Subject _ => KSubject | Body _ => KBody end.
Definition content_of (p : part) : text := match p with From t | To t | Subject t | Body t => t end.

#[global] Instance kind_eq_dec : EqDecision kind.
Proof. solve_decision. Defined.

(** The specification: the last part of a kind, empty if there is none. *)
Definition last_of (k : kind) (ps : list part) : text :=
  default [] (content_of <$> last (filter (λ p, kind_of p = k) ps)).

(** ** [builder.cpp] *)
Module EmailBuilder.

(* @src cpp_practices/design_pattern_in_modern_cpp/src/builder.cpp 28-36 Email *)
Record Email := mkEmail { from_ : text; to_ : text; subject_ : text; body_ : text }.

(* @src cpp_practices/design_pattern_in_modern_cpp/src/builder.cpp 21-26 Email::str *)
Definition str (e : Email) : text :=
  txt "from: " ++ from_ e ++ txt nl ++ txt "to: " ++ to_ e ++ txt nl ++ txt "subject: " ++ subject_ e ++
  txt nl ++ txt "body: " ++ body_ e.

(* @src cpp_practices/design_pattern_in_modern_cpp/src/builder.cpp 60-66 Email::build *)
(** The builder holds an email, [None] when it has been moved from. *)
Definition EmailBuilder := option Email.
Definition build : EmailBuilder := Some (mkEmail [] [] [] []).

(* @src cpp_practices/design_pattern_in_modern_cpp/src/builder.cpp 38-55 EmailBuilder::from *)
(** The four setters; each returns the builder itself. *)
Definition set_part (b : EmailBuilder) (p : part) : EmailBuilder :=
  match b with
  | None => None
  | Some e =>
      Some match p with
           | From t => mkEmail t (to_ e) (subject_ e) (body_ e)
           | To t => mkEmail (from_ e) t (subject_ e) (body_ e)
           | Subject t => mkEmail (from_ e) (to_ e) t (body_ e)
           | Body t => mkEmail (from_ e) (to_ e) (subject_ e) t
           end
  end.

(* @src cpp_practices/design_pattern_in_modern_cpp/src/builder.cpp 56-58 EmailBuilder::operator Email&& *)
(** The conversion moves the email out of the builder. *)
Definition operator_email (b : EmailBuilder) : outcome (Email * EmailBuilder) :=
  match b with Some e => Ok (e, None) | None => UB "value of a moved-from email" end.

(* @src cpp_practices/design_pattern_in_modern_cpp/src/builder.cpp 68-77 main *)
Definition main : outcome text :=
  '(email, _) ← operator_email (foldl set_part build
     [From (txt "sender"); To (txt "receiver"); Subject (txt "unimportant letter");
      Body (txt "This is an example for builder pattern.")]);
  Ok (str email ++ txt nl).
End EmailBuilder.

(** ** [joshua_bloch_builder.cpp] *)
Module BlochEmail.

(* @src cpp_practices/design_pattern_in_modern_cpp/src/joshua_bloch_builder.cpp 9-25 Email *)
Record Email := mkEmail { from_ : text; to_ : text; subject_ : text; body_ : text }.

(* @src cpp_practices/design_pattern_in_modern_cpp/src/joshua_bloch_builder.cpp 32-35 Email::set *)
(** The overloads of [set]. *)
Definition set (e : Email) (p : part) : Email :=
  match p with
  | From t => mkEmail t (to_ e) (subject_ e) (body_ e)
  | To t => mkEmail (from_ e) t (subject_ e) (body_ e)
  | Subject t => mkEmail (from_ e) (to_ e) t (body_ e)
  | Body t => mkEmail (from_ e) (to_ e) (subject_ e) t
  end.

(* @src cpp_practices/design_pattern_in_modern_cpp/src/joshua_bloch_builder.cpp 27-30 Email::Email *)
(** The fold expression over the comma calls [set] from left to right. *)
Definition new (args : list part) : Email := foldl set (mkEmail [] [] [] []) args.

(* @src cpp_practices/design_pattern_in_modern_cpp/src/joshua_bloch_builder.cpp 37-40 Email::toString *)
Definition toString (e : Email) : text :=
  txt "From: " ++ from_ e ++ txt " To: " ++ to_ e ++ txt " Subject: " ++ subject_ e ++
  txt " Body: " ++ body_ e.

(* @src cpp_practices/design_pattern_in_modern_cpp/src/joshua_bloch_builder.cpp 49-61 main *)
Definition main : text :=
  let show e := txt "Email constructed: " ++ txt nl ++ [chr 9] ++ toString e ++ txt nl in
  show (new [From (txt "abc@gmail.com"); To (txt "xyz@gmail.com")]) ++
  show (new [Subject (txt "Some random topic"); To (txt "xyz@gmail.com");
             Body (txt "Hi, nothing important."); From (txt "abc@gmail.com")]).
End BlochEmail.

Lemma last_of_snoc k ps p : last_of k (ps ++ [p]) = if decide (kind_of p = k) then content_of p else last_of k ps.
Proof.
  unfold last_of. rewrite filter_app, filter_cons, filter_nil. destruct (decide _).
  - by rewrite last_snoc.
  - by rewrite app_nil_r.
Qed.

Lemma bloch_new ps :
  BlochEmail.new ps = BlochEmail.mkEmail (last_of KFrom ps) (last_of KTo ps) (last_of KSubject ps) (last_of KBody ps).
Proof.
  unfold BlochEmail.new. induction ps as [|p ps IH] using rev_ind; [done|].
  rewrite foldl_app, IH. cbn [foldl]. rewrite !last_of_snoc. by destruct p.
Qed.

Lemma builder_chain ps :
  foldl EmailBuilder.set_part EmailBuilder.build ps =
  Some (EmailBuilder.mkEmail (last_of KFrom ps) (last_of KTo ps) (last_of KSubject ps) (last_of KBody ps)).
Proof.
  induction ps as [|p ps IH] using rev_ind; [done|].
  rewrite foldl_app, IH. cbn [foldl]. rewrite !last_of_snoc. by destruct p.
Qed.

(** Parts of different kinds: the one of a kind is the same in every order. *)
Lemma last_of_perm k ps qs : NoDup (kind_of <$> ps) → ps ≡ₚ qs → last_of k ps = last_of k qs.
Proof.
  intros Hnd Hp. unfold last_of.
  assert (∀ l, NoDup (kind_of <$> l) → length (filter (λ p, kind_of p = k) l) ≤ 1)%nat as Hlen.
  { clear. induction l as [|p l IH]; [simpl; lia|]. rewrite fmap_cons. intros [Hn Hnd]%NoDup_cons.
    rewrite filter_cons. destruct (decide (kind_of p = k)) as [Hk|]; [|by apply IH].
    destruct (filter (λ p, kind_of p = k) l) as [|q l'] eqn:E; [simpl; lia|].
    assert (q ∈ filter (λ p, kind_of p = k) l) as [Hk' Hq]%list_elem_of_filter by (rewrite E; apply list_elem_of_here).
    destruct Hn. rewrite Hk, <- Hk'. by apply list_elem_of_fmap_2. }
  assert (filter (λ p, kind_of p = k) ps ≡ₚ filter (λ p, kind_of p = k) qs) as Hf by by rewrite Hp.
  specialize (Hlen ps Hnd).
  destruct (filter (λ p, kind_of p = k) ps) as [|p [|p' l]]; [| |simpl in Hlen; lia].
  - apply Permutation_nil_l in Hf. by rewrite Hf.
  - symmetry in Hf. apply Permutation_singleton_r in Hf. by rewrite Hf.
Qed.

(** Both builders give an email that has, for each part, the last value that was set and
    the empty text when none was; converting the builder moves the email out of it.  When
    every part is given at most once, the order of the parts does not matter. *)
Theorem email_builders (ps qs : list part) :
  BlochEmail.new ps = BlochEmail.mkEmail (last_of KFrom ps) (last_of KTo ps) (last_of KSubject ps) (last_of KBody ps) ∧
  EmailBuilder.operator_email (foldl EmailBuilder.set_part EmailBuilder.build ps) =
    Ok (EmailBuilder.mkEmail (last_of KFrom ps) (last_of KTo ps) (last_of KSubject ps) (last_of KBody ps), None) ∧
  (NoDup (kind_of <$> ps) → ps ≡ₚ qs →
     BlochEmail.new ps = BlochEmail.new qs ∧
     foldl EmailBuilder.set_part EmailBuilder.build ps = foldl EmailBuilder.set_part EmailBuilder.build qs).
Proof.
  split; [apply bloch_new|]. split; [by rewrite builder_chain|]. intros Hnd Hp.
  rewrite !bloch_new, !builder_chain. by rewrite !(last_of_perm _ ps qs Hnd Hp).
Qed.

Lemma email_builders_witness :
  BlochEmail.new [From (txt "a"); To (txt "b")] = BlochEmail.new [To (txt "b"); From (txt "a")].
Proof.
  apply (email_builders [From (txt "a"); To (txt "b")] [To (txt "b"); From (txt "a")]).
  - apply (bool_decide_unpack _). vm_compute. exact I.
  - constructor.
Defined.

(** ** [decorator_mixins.cpp] *)
Module Mixins.

(* @src cpp_practices/design_pattern_in_modern_cpp/src/decorator_mixins.cpp 32-38 Color *)
(** The features a point may be composed of; [short] values are 16-bit integers. *)
Inductive feature := Color (r g b : Z) | Transparancy (transparancy : double).

(* @src cpp_practices/design_pattern_in_modern_cpp/src/decorator_mixins.cpp 15-19 Point *)
(** [None]: the coordinate is not initialised. *)
Record Point := mkPoint { x : option double; y : option double; features : list feature }.

Definition default_feature (f : feature) : feature :=
  match f with Color _ _ _ => Color 0 0 0 | Transparancy _ => Transparancy (double_of_Z 0) end.

(* @src cpp_practices/design_pattern_in_modern_cpp/src/decorator_mixins.cpp 21-21 Point::Point *)
(** The default constructor; [fs] stands for the types of the features. *)
Definition default_point (fs : list feature) : Point :=
  mkPoint (Some (double_of_Z 0)) (Some (double_of_Z 0)) (default_feature <$> fs).

(* @src cpp_practices/design_pattern_in_modern_cpp/src/decorator_mixins.cpp 22-22 Point::Point *)
(** The parameters [x] and [y] hide the members, which are not initialised. *)
Definition new_point (px py : double) (fs : list feature) : Point := mkPoint None None fs.

Definition read (v : option double) : outcome double :=
  match v with Some d => Ok d | None => UB "indeterminate value" end.

(* @src cpp_practices/design_pattern_in_modern_cpp/src/decorator_mixins.cpp 40-44 Color::str *)
Definition color_str (r g b : Z) : text :=
  txt "[ r = " ++ to_text r ++ txt ", g = " ++ to_text g ++ txt ", b = " ++ to_text b ++ txt " ] ".

(* @src cpp_practices/design_pattern_in_modern_cpp/src/decorator_mixins.cpp 58-71 Transparancy *)
Definition feature_str (f : feature) : text :=
  match f with
  | Color r g b => color_str r g b
  | Transparancy t => txt "[ transparancy = " ++ show_float t ++ txt " ] "
  end.

(* @src cpp_practices/design_pattern_in_modern_cpp/src/decorator_mixins.cpp 24-29 Point::str *)
Definition str (p : Point) : outcome text :=
  vx ← read (x p); vy ← read (y p);
  Ok (txt "[ x = " ++ show_float vx ++ txt ", y = " ++ show_float vy ++ txt " ] " ++
      concat (feature_str <$> features p)).

(* @src cpp_practices/design_pattern_in_modern_cpp/src/decorator_mixins.cpp 46-55 Color::colorInfo *)
(** The method of the feature [Color r g b] of the point [p]. *)
Definition colorInfo (p : Point) (r g b : Z) : outcome text :=
  vx ← read (x p); vy ← read (y p);
  Ok (txt " Point (" ++ show_float vx ++ txt ", " ++ show_float vy ++ txt ") " ++ color_str r g b).

(* @src cpp_practices/design_pattern_in_modern_cpp/src/decorator_mixins.cpp 79-94 main *)
Definition main : outcome text :=
  let colour := Color 255 255 0 in let trans := Transparancy (decimal 8 10) in
  let point fs := new_point (double_of_Z 1) (double_of_Z 5) fs in
  a ← str (point []);
  b ← str (point [colour]);
  c ← str (point [trans]);
  d ← str (point [colour; trans]);
  e ← colorInfo (point [colour; trans]) 255 255 0;
  Ok (txt " native point: " ++ a ++ txt nl ++ txt " colored point: " ++ b ++ txt nl ++
      txt " transparant point: " ++ c ++ txt nl ++ txt " colored transparant point: " ++ d ++ txt nl ++
      txt " interface added by Color: " ++ e ++ txt nl).

(** A point made by the default constructor shows zero coordinates followed by its
    features in order; one made from coordinates and features keeps the features but not
    the coordinates, so that to show it, as the program does first, reads uninitialised
    members. *)
Theorem mixin_point_str (px py : double) (fs : list feature) :
  str (default_point fs) =
    Ok (txt "[ x = 0, y = 0 ] " ++ concat ((feature_str ∘ default_feature) <$> fs)) ∧
  features (new_point px py fs) = fs ∧
  str (new_point px py fs) = UB "indeterminate value" ∧ main = UB "indeterminate value".
Proof.
  split; [|by repeat split]. unfold str, default_point. cbn [x y features read mbind outcome_bind].
  rewrite <- list_fmap_compose. reflexivity.
Qed.
End Mixins.

(** ** [visitor.cpp] *)
Module Visitors.

(* @src cpp_practices/design_pattern_in_modern_cpp/src/visitor.cpp 5-28 Element *)
Inductive Element := Fire | Ground | Wind.
Definition info (e : Element) : text :=
  match e with Fire => txt "Fire" | Ground => txt "Ground" | Wind => txt "Wind" end.

(* @src cpp_practices/design_pattern_in_modern_cpp/src/visitor.cpp 48-55 UpVisitor *)
Inductive Visitor := UpVisitor | DownVisitor.
Definition visit (v : Visitor) (e : Element) : text :=
  match v with
  | UpVisitor => txt "do Up on " ++ info e ++ txt nl
  | DownVisitor => txt "do Down on " ++ info e ++ txt nl
  end.

(* @src cpp_practices/design_pattern_in_modern_cpp/src/visitor.cpp 36-46 Fire::accept *)
Definition accept (e : Element) (v : Visitor) : text :=
  match e with Fire => visit v Fire | Ground => visit v Ground | Wind => visit v Wind end.

(* @src cpp_practices/design_pattern_in_modern_cpp/src/visitor.cpp 57-69 main *)
Definition main : text :=
  let list := [Fire; Ground; Wind] in
  concat ((λ e, accept e UpVisitor) <$> list) ++ concat ((λ e, accept e DownVisitor) <$> list).

Example visitor_main_prints :
  main = txt "do Up on Fire" ++ txt nl ++ txt "do Up on Ground" ++ txt nl ++ txt "do Up on Wind" ++ txt nl ++
         txt "do Down on Fire" ++ txt nl ++ txt "do Down on Ground" ++ txt nl ++ txt "do Down on Wind" ++ txt nl.
Proof. reflexivity. Qed.
End Visitors.
