(* ===== verification/Tricks.v ===== *)
(** Small programs of [src/cpp_practices/tricks/]: [Reservoir] models
    [src/reservoir_sampling.cpp], [BoolArray] models [src/integer_to_bool_array.cpp] and
    [src/bitset_to_int.cpp], [ScopeGuard] models [include/scope_action.h],
    [src/exit_scope.cpp] and [src/defer.cpp].

    The theorems: every element is sampled equally often over all sequences of draws; the
    bits of an integer and back; which scope guards run, and in which order, on the normal
    and on the exceptional exit of a scope. *)
From S2P Require Import Prelude.
Local Open Scope nat_scope.

(** ** Reservoir sampling *)
Module Reservoir.

(** [*std::find(begin, end, j) = i], when there is such an element. *)
Fixpoint replace_found (j i : nat) (reservoir : list nat) : list nat :=
  match reservoir with
  | [] => []
  | x :: reservoir => if decide (x = j) then i :: reservoir else x :: replace_found j i reservoir
  end.

(* @src cpp_practices/tricks/src/reservoir_sampling.cpp 27-34 reservoir_sampling *)
(** One iteration of the second loop; [r] is the number drawn. *)
Definition sample_step (reservoir : list nat) (i r : nat) : list nat :=
  let j := r `mod` (i + 1) in replace_found j i reservoir.

(** The iterations from [i] on, one for each number drawn. *)
Fixpoint sample_loop (reservoir : list nat) (i : nat) (draws : list nat) : list nat :=
  match draws with
  | [] => reservoir
  | r :: draws => sample_loop (sample_step reservoir i r) (S i) draws
  end.

(* @src cpp_practices/tricks/src/reservoir_sampling.cpp 15-37 reservoir_sampling *)
(** [draws] are the results of [distrib()], of which the second loop takes [n - k]. *)
Definition reservoir_sampling (n k : nat) (draws : list nat) : list nat :=
  let reservoir := imap (λ i _, i) (replicate k 0) in
  sample_loop reservoir k (take (n - k) draws).

(** ** What is in the reservoir *)

Lemma replace_found_elem j i l e :
  NoDup l → e ∈ replace_found j i l ↔ (j ∈ l ∧ e = i) ∨ (e ∈ l ∧ e ≠ j).
Proof.
  induction l as [|x l IH]; cbn [replace_found]; [rewrite !elem_of_nil; tauto|]. intros [Hx Hl]%NoDup_cons.
  destruct (decide (x = j)) as [->|Hne]; rewrite ?elem_of_cons, ?IH by done.
  - split; [intros [->|He]|intros [[_ ->]|[[->|He] Hj]]]; auto; [|done].
    right. split; [by right|]. intros ->. done.
  - split; [intros [->|[[Hj ->]|[He Hj]]]|intros [[[->|Hj] ->]|[[->|He] Hj]]]; auto; done.
Qed.

Lemma replace_found_length j i l : length (replace_found j i l) = length l.
Proof. induction l as [|x l IH]; cbn; [done|]. destruct (decide _); cbn; congruence. Qed.

Lemma replace_found_NoDup j i l : NoDup l → i ∉ l → NoDup (replace_found j i l).
Proof.
  induction l as [|x l IH]; cbn [replace_found]; [done|]. intros [Hx Hl]%NoDup_cons Hi.
  apply not_elem_of_cons in Hi as [Hix Hi].
  destruct (decide (x = j)) as [->|Hne]; constructor; [done|done| |auto].
  rewrite replace_found_elem by done. intros [[_ ->]|[? _]]; done.
Qed.

(** A reservoir of [k] different numbers below [i]. *)
Definition sampled (k i : nat) (l : list nat) : Prop :=
  NoDup l ∧ length l = k ∧ ∀ e, e ∈ l → e < i.

Lemma sampled_start k : sampled k k (imap (λ i _, i) (replicate k 0)).
Proof.
  assert (imap (λ i _ : nat, i) (replicate k 0) = seq 0 k) as ->.
  { apply list_eq. intros i. rewrite list_lookup_imap. destruct (decide (i < k)).
    - by rewrite lookup_replicate_2, lookup_seq_lt by done.
    - rewrite (lookup_ge_None_2 (replicate k 0)), lookup_seq_ge; [done|lia|rewrite length_replicate; lia]. }
  split; [apply NoDup_seq|]. split; [apply length_seq|]. intros e. rewrite elem_of_seq. lia.
Qed.

Lemma sampled_step k i r l : sampled k i l → sampled k (S i) (sample_step l i r).
Proof.
  intros (Hnd & Hlen & Hlt). unfold sample_step. split; [|split].
  - apply replace_found_NoDup; [done|]. intros Hi. specialize (Hlt _ Hi). lia.
  - by rewrite replace_found_length.
  - intros e. rewrite replace_found_elem by done. intros [[_ ->]|[He _]]; [lia|]. specialize (Hlt _ He). lia.
Qed.

Lemma sampled_loop k i draws l :
  sampled k i l → sampled k (i + length draws) (sample_loop l i draws).
Proof.
  revert i l. induction draws as [|r draws IH]; intros i l Hl; cbn [sample_loop length].
  - by rewrite Nat.add_0_r.
  - rewrite Nat.add_succ_r. by apply (IH (S i)), sampled_step.
Qed.

(** ** Counting *)

(** All sequences of [m] draws, each of a number below [range]. *)
Fixpoint all_draws (range m : nat) : list (list nat) :=
  match m with
  | 0 => [[]]
  | S m => ds ← all_draws range m; (λ j, ds ++ [j]) <$> seq 0 range
  end.

Definition count_with (e : nat) (results : list (list nat)) : nat :=
  length (filter (λ l, e ∈ l) results).

Lemma length_filter_perm {A} (P : A → Prop) `{∀ x, Decision (P x)} (l l' : list A) :
  NoDup l → NoDup l' → (∀ x, x ∈ l' ↔ P x ∧ x ∈ l) → length (filter P l) = length l'.
Proof.
  intros Hl Hl' Hx. apply Permutation_length, NoDup_Permutation; [by apply NoDup_filter|done|].
  intros x. by rewrite list_elem_of_filter, Hx.
Qed.

(** Among the [i + 1] values of [j], those after which [e] is in the reservoir. *)
Lemma remainder_count k i e l :
  sampled k i l → e ≤ i →
  length (filter (λ j, e ∈ sample_step l i j) (seq 0 (i + 1))) =
  if decide (e = i) then k else if decide (e ∈ l) then i else 0.
Proof.
  intros (Hnd & Hlen & Hlt) He.
  assert (∀ j, j ∈ seq 0 (i + 1) → e ∈ sample_step l i j ↔ (j ∈ l ∧ e = i) ∨ (e ∈ l ∧ e ≠ j)) as Hin.
  { intros j Hj%elem_of_seq. unfold sample_step. rewrite Nat.mod_small by lia. by apply replace_found_elem. }
  assert (i ∉ l) as Hi by (intros Hi; specialize (Hlt _ Hi); lia).
  destruct (decide (e = i)) as [->|Hne]; [|destruct (decide (e ∈ l)) as [Hel|Hel]].
  - rewrite <- Hlen. apply length_filter_perm; [apply NoDup_seq|done|]. intros j. split.
    + intros Hj. assert (j ∈ seq 0 (i + 1)) as Hs by (apply elem_of_seq; specialize (Hlt _ Hj); lia).
      split; [|done]. apply Hin; auto.
    + intros [Hj Hs]. apply Hin in Hj; [|done]. destruct Hj as [[? _]|[? _]]; done.
  - transitivity (length (filter (λ j, j ≠ e) (seq 0 (i + 1)))).
    + apply length_filter_perm; [apply NoDup_seq|apply NoDup_filter, NoDup_seq|].
      intros j. rewrite list_elem_of_filter. split; intros [Hj Hs]; (split; [|done]).
      * apply Hin; [done|]. right. split; congruence.
      * apply Hin in Hj as [[_ ?]|[_ ?]]; [done|congruence|done].
    + assert (length (e :: filter (λ j, j ≠ e) (seq 0 (i + 1))) = length (seq 0 (i + 1))) as Hl.
      { apply Permutation_length, NoDup_Permutation; [|apply NoDup_seq|].
        - constructor; [rewrite list_elem_of_filter; tauto|apply NoDup_filter, NoDup_seq].
        - intros x. rewrite elem_of_cons, list_elem_of_filter, elem_of_seq.
          destruct (decide (x = e)) as [->|]; [|tauto]. split; [lia|tauto]. }
      rewrite length_seq in Hl. cbn [length] in Hl. lia.
  - apply (length_filter_perm _ _ []); [apply NoDup_seq|constructor|]. intros j. rewrite elem_of_nil.
    split; [done|]. intros [Hj Hs]. apply Hin in Hj as [[_ ?]|[? _]]; done.
Qed.

(** Among the numbers below a multiple of [i + 1]. *)
Lemma step_count k i e l c :
  sampled k i l → e ≤ i →
  length (filter (λ r, e ∈ sample_step l i r) (seq 0 (c * (i + 1)))) =
  c * if decide (e = i) then k else if decide (e ∈ l) then i else 0.
Proof.
  intros Hl He. rewrite <- (remainder_count k i e l) by done. induction c as [|c IH]; [done|].
  replace (S c * (i + 1)) with (c * (i + 1) + (i + 1)) by lia.
  rewrite seq_app, filter_app, length_app, IH, Nat.mul_succ_l. f_equal. cbn [Nat.add].
  replace (seq (c * (i + 1)) (i + 1)) with ((λ j, c * (i + 1) + j) <$> seq 0 (i + 1))
    by (rewrite fmap_add_seq; f_equal; lia).
  generalize (seq 0 (i + 1)) as js.
  induction js as [|j js IHjs]; [done|]. rewrite fmap_cons, !filter_cons.
  assert (sample_step l i (c * (i + 1) + j) = sample_step l i j) as ->.
  { unfold sample_step. by rewrite Nat.add_comm, Nat.Div0.mod_add. }
  destruct (decide _); cbn [length]; congruence.
Qed.

(** The results of all sequences of draws. *)
Definition results (range k m : nat) : list (list nat) :=
  (λ ds, reservoir_sampling (k + m) k ds) <$> all_draws range m.

Lemma all_draws_length range m ds : ds ∈ all_draws range m → length ds = m.
Proof.
  revert ds. induction m as [|m IH]; intros ds; cbn [all_draws].
  - by rewrite list_elem_of_singleton; intros ->.
  - intros (ds' & Hds & Hd)%list_elem_of_bind. apply list_elem_of_fmap in Hds as (j & -> & _).
    rewrite length_app, (IH ds') by done. simpl. lia.
Qed.

Lemma sample_loop_snoc l i ds j :
  sample_loop l i (ds ++ [j]) = sample_step (sample_loop l i ds) (i + length ds) j.
Proof.
  revert l i. induction ds as [|d ds IH]; intros l i; cbn [sample_loop app length].
  - by rewrite Nat.add_0_r.
  - by rewrite IH, Nat.add_succ_r.
Qed.

Lemma reservoir_sampled k m ds :
  length ds = m → sampled k (k + m) (reservoir_sampling (k + m) k ds).
Proof.
  intros Hm. unfold reservoir_sampling. rewrite take_ge by lia. rewrite <- Hm.
  apply sampled_loop, sampled_start.
Qed.

(** One more iteration multiplies the results. *)
Lemma results_succ range k m :
  results range k (S m) = l ← results range k m; sample_step l (k + m) <$> seq 0 range.
Proof.
  unfold results. cbn [all_draws].
  assert (∀ dss, Forall (λ ds, length ds = m) dss →
    (λ ds, reservoir_sampling (k + S m) k ds) <$> (dss ≫= λ ds, (λ j, ds ++ [j]) <$> seq 0 range) =
    ((λ ds, reservoir_sampling (k + m) k ds) <$> dss) ≫= λ l, sample_step l (k + m) <$> seq 0 range) as Hgen.
  { induction dss as [|ds dss IH]; [done|]. intros [Hm Hdss]%Forall_cons.
    rewrite bind_cons, fmap_app, fmap_cons, bind_cons, IH by done. f_equal.
    rewrite <- list_fmap_compose. apply list_fmap_ext. intros _ j _. unfold reservoir_sampling, compose.
    rewrite !take_ge by (rewrite ?length_app; simpl; lia). by rewrite sample_loop_snoc, Hm. }
  apply Hgen, Forall_forall. intros ds. apply all_draws_length.
Qed.

Lemma results_sampled range k m : Forall (sampled k (k + m)) (results range k m).
Proof.
  apply Forall_forall. intros l (ds & -> & Hds)%list_elem_of_fmap.
  by apply reservoir_sampled, (all_draws_length range).
Qed.

(** The counts of one more iteration from those of the results before. *)
Lemma count_succ c k i e ls :
  Forall (sampled k i) ls → e ≤ i →
  let ls' := ls ≫= λ l, sample_step l i <$> seq 0 (c * (i + 1)) in
  length ls' = length ls * (c * (i + 1)) ∧
  count_with e ls' = c * if decide (e = i) then length ls * k else count_with e ls * i.
Proof.
  intros Hls He. induction Hls as [|l ls Hl Hls IH]; cbn zeta in *; [split; [done|]; destruct (decide _); cbn; lia|].
  destruct IH as [IHl IHc]. unfold count_with in *.
  rewrite bind_cons, filter_app, !length_app, IHl, IHc, length_fmap, length_seq.
  split; [cbn [length]; lia|].
  assert (length (filter (λ l0, e ∈ l0) (sample_step l i <$> seq 0 (c * (i + 1)))) =
    c * if decide (e = i) then k else if decide (e ∈ l) then i else 0) as ->.
  { rewrite <- (step_count k i e l) by done. clear. induction (seq 0 (c * (i + 1))) as [|j js IH]; [done|].
    rewrite fmap_cons, !filter_cons. destruct (decide (e ∈ sample_step l i j)); cbn [length]; congruence. }
  rewrite filter_cons. destruct (decide (e = i)), (decide (e ∈ l)); cbn [length]; lia.
Qed.

Lemma results_uniform range k m e :
  (∀ i, k ≤ i < k + m → Nat.divide (i + 1) range) →
  e < k + m → (k + m) * count_with e (results range k m) = k * length (results range k m).
Proof.
  revert e. induction m as [|m IH]; intros e Hdiv He.
  - unfold results, count_with. cbn [all_draws]. rewrite fmap_cons, fmap_nil, filter_cons, filter_nil.
    rewrite Nat.add_0_r in *. destruct (decide _) as [|Hn]; cbn; [lia|]. destruct Hn.
    unfold reservoir_sampling. rewrite Nat.sub_diag. cbn [take sample_loop].
    apply list_elem_of_lookup. exists e. rewrite list_lookup_imap, lookup_replicate_2 by lia. done.
  - destruct (Hdiv (k + m)) as [c Hc]; [lia|]. rewrite results_succ.
    replace (seq 0 range) with (seq 0 (c * (k + m + 1))) by by rewrite <- Hc.
    destruct (count_succ c k (k + m) e (results range k m)) as [-> ->]; [apply results_sampled|lia|].
    destruct (decide (e = k + m)) as [->|Hne]; [lia|].
    assert ((k + m) * count_with e (results range k m) = k * length (results range k m)) as Heq.
    { apply IH; [|lia]. intros i Hi. apply Hdiv. lia. }
    replace ((k + S m) * (c * (count_with e (results range k m) * (k + m))))
      with (c * (k + m + 1) * ((k + m) * count_with e (results range k m))) by lia.
    rewrite Heq. lia.
Qed.

(** C20: reservoir sampling of [k] out of [n >= k] numbers returns [k] different numbers below
    [n], whatever is drawn; and over all sequences of draws from a range that every divisor
    [i + 1] of the loop divides, so that the remainders are uniform, every number below [n] is
    sampled in the same share, [k / n], of the results. *)
Theorem reservoir_sampling_uniform (n k range : nat) :
  k ≤ n →
  (∀ draws, n - k ≤ length draws → sampled k n (reservoir_sampling n k draws)) ∧
  ((∀ i, k ≤ i < n → Nat.divide (i + 1) range) →
   let results := (λ draws, reservoir_sampling n k draws) <$> all_draws range (n - k) in
   ∀ e, e < n → n * count_with e results = k * length results).
Proof.
  intros Hk. split.
  - intros draws Hd. unfold reservoir_sampling.
    pose proof (sampled_loop k k (take (n - k) draws) _ (sampled_start k)) as Hs.
    rewrite length_take in Hs. by replace (k + (n - k) `min` length draws) with n in Hs by lia.
  - intros Hdiv. cbn zeta. pose proof (λ e, results_uniform range k (n - k) e) as Hu. unfold results in Hu.
    replace (k + (n - k)) with n in Hu by lia. intros e. by apply Hu.
Qed.

Lemma reservoir_sampling_uniform_witness :
  let results := (λ draws, reservoir_sampling 4 2 draws) <$> all_draws 12 2 in
  length results = 144 ∧ 4 * count_with 3 results = 2 * 144.
Proof.
  split; [reflexivity|]. apply (reservoir_sampling_uniform 4 2 12); [lia| |lia].
  intros i Hi. assert (i = 2 ∨ i = 3) as [->| ->] by lia; [by exists 4|by exists 3].
Defined.
End Reservoir.

(** ** Integers and bits *)
Module BoolArray.
Local Open Scope Z_scope.

(** The loop from index [i - 1] down to 0: the low bit goes to the last free place. *)
Fixpoint to_bools (i : nat) (random_integer : Z) : list bool :=
  match i with
  | O => []
  | S i => to_bools i (Z.quot random_integer 2) ++ [negb (Z.land random_integer 1 =? 0)]
  end.

(* @src cpp_practices/tricks/src/integer_to_bool_array.cpp 12-29 main *)
Definition boolean_array (random_integer : Z) : list bool := to_bools 7 random_integer.

(** The number whose binary digits, the highest first, are the bits. *)
Definition of_bools (bits : list bool) : Z := foldl (λ n b, 2 * n + Z.b2z b) 0 bits.

Lemma low_bit z : Z.b2z (negb (Z.land z 1 =? 0)) = z mod 2.
Proof.
  change 1 with (Z.ones 1) at 1. rewrite Z.land_ones by lia. change (2 ^ 1) with 2.
  pose proof (Z.mod_pos_bound z 2). destruct (Z.eqb_spec (z mod 2) 0); cbn; lia.
Qed.

Lemma to_bools_of_bools i z : 0 ≤ z → of_bools (to_bools i z) = z mod 2 ^ Z.of_nat i.
Proof.
  revert z. induction i as [|i IH]; intros z Hz; cbn [to_bools].
  - by rewrite Z.mod_1_r.
  - unfold of_bools in *. rewrite foldl_app, Z.quot_div_nonneg by lia. cbn [foldl].
    rewrite IH by (apply Z.div_pos; lia). rewrite low_bit.
    rewrite Nat2Z.inj_succ, Z.pow_succ_r by lia.
    rewrite (Z.rem_mul_r z 2 (2 ^ Z.of_nat i)) by (try apply Z.pow_nonzero; lia). lia.
Qed.

(* @src cpp_practices/tricks/src/bitset_to_int.cpp 4-9 main *)
(** [static_cast<int16_t>] of the 16 bits of an integer converted to [unsigned long]. *)
Definition bitset_to_int (z : Z) : Z := swrap 16 (uwrap 16 (uwrap 64 z)).

(** The boolean array holds the binary digits of the integer that was drawn from the
    range of the array, the highest first; and the 16-bit set made of a 16-bit signed
    integer gives it back. *)
Theorem bits_roundtrip (z : Z) :
  (0 ≤ z < 2 ^ 7 → length (boolean_array z) = 7%nat ∧ of_bools (boolean_array z) = z) ∧
  (- 2 ^ 15 ≤ z < 2 ^ 15 → bitset_to_int z = z).
Proof.
  split.
  - intros Hz. split; [done|]. unfold boolean_array. rewrite to_bools_of_bools by lia.
    apply Z.mod_small. done.
  - intros Hz. unfold bitset_to_int, swrap, uwrap.
    assert ((z mod 2 ^ 64) mod 2 ^ 16 = z mod 2 ^ 16) as ->.
    { apply Z.mod_mod_divide. exists (2 ^ 48). reflexivity. }
    rewrite Z.add_mod_idemp_l by lia. rewrite Z.mod_small; lia.
Qed.

Lemma bits_roundtrip_witness :
  of_bools (boolean_array 77) = 77 ∧ boolean_array 77 = [true; false; false; true; true; false; true] ∧
  bitset_to_int (-58) = -58.
Proof.
  split; [|split; [reflexivity|]].
  - apply (bits_roundtrip 77). lia.
  - apply (bits_roundtrip (-58)). lia.
Defined.
End BoolArray.

(** ** Scope guards *)
Module ScopeGuard.

(* @src cpp_practices/tricks/include/scope_action.h 15-20 UncaughtExceptionCounter *)
Record UncaughtExceptionCounter := mkCounter { exceptionCount_ : nat }.
(* @src cpp_practices/tricks/include/scope_action.h 21-21 UncaughtExceptionCounter::hasNewUncaughtException *)
Definition hasNewUncaughtException (c : UncaughtExceptionCounter) (uncaught_exceptions : nat) : bool :=
  exceptionCount_ c <? uncaught_exceptions.

(* @src cpp_practices/tricks/include/scope_action.h 24-31 ScopeGuardForNewException *)
(** The local objects that guard a scope, with what their functions print: the objects of
    [SCOPE_EXIT] and [Defer] run it always. *)
Inductive guard :=
| ScopeGuardForNewException (executeOnException : bool) (function_ : string) (ec_ : UncaughtExceptionCounter)
| ScopeGuardOnExit (function_ : string).

(* @src cpp_practices/tricks/include/scope_action.h 32-36 ScopeGuardForNewException::~ScopeGuardForNewException *)
(** The destructor, while that many exceptions are uncaught. *)
Definition destroy_guard (uncaught_exceptions : nat) (g : guard) : list string :=
  match g with
  | ScopeGuardForNewException executeOnException function_ ec_ =>
      if Bool.eqb executeOnException (hasNewUncaughtException ec_ uncaught_exceptions) then [function_] else []
  | ScopeGuardOnExit function_ => [function_]
  end.

(* @src cpp_practices/tricks/include/scope_action.h 39-59 detail::ScopeGuardOnFail *)
(** The statements of a scope: the two macros, output and throwing. *)
Inductive statement := SCOPE_EXIT (f : string) | SCOPE_FAIL (f : string) | Output (t : string) | ThrowStmt (e : string).

(** Leaving the scope destroys the guards, the last one first. *)
Definition leave (uncaught_exceptions : nat) (guards : list guard) : list string :=
  concat (destroy_guard uncaught_exceptions <$> guards).

(** A scope entered while [u] exceptions are uncaught; [guards] are those constructed so
    far, the newest first.  The result is the exception that leaves it, and the output. *)
Fixpoint run_scope (u : nat) (guards : list guard) (body : list statement) : option string * list string :=
  match body with
  | [] => (None, leave u guards)
  | ThrowStmt e :: _ => (Some e, leave (S u) guards)
  | Output t :: body => let '(e, out) := run_scope u guards body in (e, t :: out)
  | SCOPE_EXIT f :: body => run_scope u (ScopeGuardOnExit f :: guards) body
  | SCOPE_FAIL f :: body => run_scope u (ScopeGuardForNewException true f (mkCounter u) :: guards) body
  end.

(* @src cpp_practices/tricks/src/exit_scope.cpp 6-17 main *)
Definition exit_scope_main : list string :=
  let '(e, out) := run_scope 0 []
    [SCOPE_FAIL ("scope_fail: exception thrown in scope" +:+ nl); SCOPE_EXIT ("scope_exit: 1" +:+ nl);
     SCOPE_EXIT ("scope_exit: 2" +:+ nl); ThrowStmt "exception for testing purpose";
     Output ("scope end" +:+ nl)] in
  out ++ match e with Some _ => ["caught exception" +:+ nl] | None => [] end.

(* @src cpp_practices/tricks/src/defer.cpp 4-26 main *)
(** The shared pointer without an object and [Defer] run their functions when they are
    destroyed. *)
Definition defer_main : list string :=
  (run_scope 0 [] [SCOPE_EXIT ("Do defer with shared_ptr" +:+ nl); SCOPE_EXIT (" world" +:+ nl);
                   Output "hello"]).2.

(** ** The specification *)

(** The statements that are executed: those before the first throw. *)
Fixpoint executed (body : list statement) : list statement :=
  match body with
  | [] | ThrowStmt _ :: _ => []
  | s :: body => s :: executed body
  end.

Fixpoint thrown (body : list statement) : option string :=
  match body with [] => None | ThrowStmt e :: _ => Some e | _ :: body => thrown body end.

Definition output_of (s : statement) : list string := match s with Output t => [t] | _ => [] end.
Definition action_of (failed : bool) (s : statement) : list string :=
  match s with SCOPE_EXIT f => [f] | SCOPE_FAIL f => if failed then [f] else [] | _ => [] end.

Definition failed (body : list statement) : bool := match thrown body with Some _ => true | None => false end.

Lemma run_scope_spec u guards body :
  run_scope u guards body =
  (thrown body, concat (output_of <$> executed body) ++
     concat (action_of (failed body) <$> reverse (executed body)) ++
     leave (if failed body then S u else u) guards).
Proof.
  revert guards. induction body as [|s body IH]; intros guards; [done|].
  destruct s as [f|f|t|e]; cbn [run_scope thrown executed]; [| | |done].
  - rewrite IH. unfold failed. cbn [thrown]. rewrite reverse_cons, fmap_app, concat_app, <- app_assoc. done.
  - rewrite IH. unfold failed. cbn [thrown]. rewrite reverse_cons, fmap_app, concat_app, <- app_assoc.
    unfold leave. cbn [fmap list_fmap concat output_of action_of destroy_guard app].
    unfold hasNewUncaughtException. cbn [exceptionCount_]. destruct (thrown body).
    + by rewrite (proj2 (Nat.ltb_lt u (S u))) by lia.
    + by rewrite Nat.ltb_irrefl.
  - rewrite IH. unfold failed. cbn [thrown]. rewrite reverse_cons, fmap_app, concat_app. cbn. by rewrite app_nil_r.
Qed.

(** A scope with guards prints what its statements print up to the first that throws, and
    then, in the reverse order of the guards that were constructed, the output of every
    [SCOPE_EXIT] and, only when the scope is left by an exception, of every [SCOPE_FAIL];
    also when the scope is entered while other exceptions are being handled. *)
Theorem scope_guards_run (u : nat) (body : list statement) :
  run_scope u [] body =
  (thrown body, concat (output_of <$> executed body) ++
                concat (action_of (failed body) <$> reverse (executed body))).
Proof. rewrite run_scope_spec. unfold leave. cbn. by rewrite app_nil_r. Qed.

Example scope_programs :
  exit_scope_main = ["scope_exit: 2" +:+ nl; "scope_exit: 1" +:+ nl;
                     "scope_fail: exception thrown in scope" +:+ nl; "caught exception" +:+ nl] ∧
  defer_main = ["hello"; " world" +:+ nl; "Do defer with shared_ptr" +:+ nl].
Proof. split; reflexivity. Qed.
End ScopeGuard.
