(* ===== verification/DcfFinder.v ===== *)
(** The search for parameters in a CANopen device configuration file:
    [src/third_party_examples/lely_examples/dcf_parameter_finder.cpp].

    The file is read line by line; a section [\[index\]] or [\[indexsubX\]] sets the index
    and the sub-index of the parameter names that follow.  Indices and sub-indices are
    [int]s, read as decimal numbers.

    The theorems: for a file whose indices are decimal, every parameter name is found with
    the index and sub-index of its section; what happens to the hexadecimal indices and
    sub-indices that such files have. *)
From S2P Require Import Prelude Text.
Local Open Scope Z_scope.

(** ** The library functions *)

(** [std::stoi] *)
Definition stoi (s : text) : outcome Z :=
  match stol s with
  | Ok z => if in_int z then Ok z else Throw "std::out_of_range: stoi"
  | Throw e => Throw (if bool_decide (e = "std::out_of_range: stol"%string)
                      then "std::out_of_range: stoi" else "std::invalid_argument: stoi")
  | UB w => UB w
  end.

(** [regex_match] with the pattern [\[(\d+)\]]: the group, if the whole line matches. *)
Definition match_section (line : text) : option text :=
  match line with
  | c :: rest =>
      if Ascii.eqb c "[" then
        match reverse rest with
        | d :: ds => if Ascii.eqb d "]" && negb (bool_decide (ds = [])) && forallb isdigit ds
                     then Some (reverse ds) else None
        | [] => None
        end
      else None
  | [] => None
  end.

(** ** Reading the file *)

(* @src third_party_examples/lely_examples/dcf_parameter_finder.cpp 9-12 ParameterInfo *)
Record ParameterInfo := mkInfo { index : Z; subindex : Z }.

(** The variables of the loop: the index and sub-index of the section and the map. *)
Record reading := mkReading {
  currentIndex : Z; currentSubindex : Z; parameterMap : gmap text ParameterInfo }.

(* @src third_party_examples/lely_examples/dcf_parameter_finder.cpp 35-48 main *)
(** The body of the loop. *)
Definition read_line (st : reading) (line : text) : outcome reading :=
  match match_section line with
  | Some ds => i ← stoi ds; Ok (mkReading i 0 (parameterMap st))
  | None =>
      match find (txt "ParameterName=") line with
      | Some _ =>
          let eq := match find (txt "=") line with Some i => S i | None => 0%nat end in
          paramName ← substr line eq (length line);
          Ok (mkReading (currentIndex st) (currentSubindex st)
                (<[paramName := mkInfo (currentIndex st) (currentSubindex st)]> (parameterMap st)))
      | None =>
          match find (txt "[" ++ to_text (currentIndex st) ++ txt "sub") line with
          | Some _ =>
              let sub := match find (txt "sub") line with Some i => (i + 3)%nat | None => 2%nat end in
              s ← substr line sub (length line);
              k ← stoi s;
              Ok (mkReading (currentIndex st) k (parameterMap st))
          | None => Ok st
          end
      end
  end.

Fixpoint read_lines (st : reading) (lines : list text) : outcome reading :=
  match lines with [] => Ok st | line :: lines => st ← read_line st line; read_lines st lines end.

(* @src third_party_examples/lely_examples/dcf_parameter_finder.cpp 19-50 main *)
(** The map of the file's content. *)
Definition read_dcf (content : text) : outcome (gmap text ParameterInfo) :=
  st ← read_lines (mkReading 0 0 ∅) (getlines "010" [] content);
  Ok (parameterMap st).

(** ** Answering *)

(* @src third_party_examples/lely_examples/dcf_parameter_finder.cpp 64-73 main *)
Definition answer (m : gmap text ParameterInfo) (paramName : text) : text :=
  match m !! paramName with
  | Some info => txt "Parameter: " ++ paramName ++ txt ", Index: " ++ to_text (index info) ++
                 txt ", Subindex: " ++ to_text (subindex info) ++ txt nl
  | None => txt "Parameter " ++ [dquote] ++ paramName ++ [dquote] ++ txt " not found in the DCF file." ++ txt nl
  end.

(* @src third_party_examples/lely_examples/dcf_parameter_finder.cpp 13-75 main *)
(** [args] are the arguments with the program's name first; [file] is the content of the
    file if it can be opened; [input] is the standard input.  The result is the exit status
    and the output. *)
Definition dcf_main (args : list text) (file : text → option text) (input : text) : outcome (Z * text) :=
  match args with
  | [_; name] =>
      match file name with
      | Some content =>
          m ← read_dcf content;
          let inputNames := match getlines "010" [] input with l :: _ => l | [] => [] end in
          Ok (0, txt "Enter parameter names separated by commas: " ++
                 concat (answer m <$> getlines "," [] inputNames))
      | None => Ok (1, txt "Unable to open the DCF file." ++ txt nl)
      end
  | program :: _ => Ok (1, txt "Usage: " ++ program ++ txt " <dcf file>")
  | [] => UB "no program name"
  end.

(** ** Files with decimal indices *)

(** An object of the dictionary: its index, its name, its sub-objects. *)
Record object := mkObject { obj_index : Z; obj_name : text; obj_subs : list (Z * text) }.

Definition name_line (name : text) : text := txt "ParameterName=" ++ name.
Definition index_line (i : Z) : text := txt "[" ++ to_text i ++ txt "]".
Definition sub_line (i k : Z) : text := txt "[" ++ to_text i ++ txt "sub" ++ to_text k ++ txt "]".

Definition object_lines (o : object) : list text :=
  index_line (obj_index o) :: name_line (obj_name o) ::
  concat ((λ '(k, name), [sub_line (obj_index o) k; name_line name]) <$> obj_subs o).

Definition dcf_text (os : list object) : text :=
  concat ((λ l, l ++ txt nl) <$> concat (object_lines <$> os)).

(** The entries of an object and the map of a file: of two parameters with the same name,
    the later one is kept. *)
Definition object_entries (o : object) : list (text * ParameterInfo) :=
  (obj_name o, mkInfo (obj_index o) 0) ::
  ((λ '(k, name), (name, mkInfo (obj_index o) k)) <$> obj_subs o).

Definition dcf_map (os : list object) : gmap text ParameterInfo :=
  foldl (λ m '(name, info), <[name := info]> m) ∅ (concat (object_entries <$> os)).

Definition plain_name (name : text) : Prop := "010"%char ∉ name.
Definition plain_int (i : Z) : Prop := 0 ≤ i ≤ int_max.
Definition plain_object (o : object) : Prop :=
  plain_int (obj_index o) ∧ plain_name (obj_name o) ∧
  Forall (λ '(k, name), plain_int k ∧ plain_name name) (obj_subs o).

(** ** Lemmas on texts *)

Lemma stol_digits z t :
  0 ≤ z < 2 ^ 63 → head t = None ∨ (∃ c, head t = Some c ∧ isdigit c = false) →
  stol (digits 20 z ++ t) = Ok z.
Proof.
  intros Hz Ht. pose proof (digits_value_digits 20 z t ltac:(lia) Ht) as Hv.
  destruct (digits_cons 19 z) as (c & s & Hc & Hcd); [lia|]. rewrite Hc in *. unfold stol.
  cbn [skip_space app]. rewrite isdigit_not_space by done.
  assert (Ascii.eqb c "-" = false ∧ Ascii.eqb c "+" = false) as [-> ->].
  { split; apply Ascii.eqb_neq; intros ->; done. }
  cbn [app] in Hv. rewrite Hcd, Hv. replace (1 * z) with z by lia.
  destruct (Z.leb_spec (- 2 ^ 63) z), (Z.ltb_spec z (2 ^ 63)); [done|lia..].
Qed.

Lemma stoi_plain i t :
  plain_int i → head t = None ∨ (∃ c, head t = Some c ∧ isdigit c = false) → stoi (to_text i ++ t) = Ok i.
Proof.
  unfold plain_int, int_max. intros Hi Ht. unfold stoi, to_text.
  rewrite (proj2 (Z.ltb_ge i 0)), stol_digits by (done || lia). unfold in_int, int_min, int_max.
  destruct (Z.leb_spec (- 2 ^ 31) i), (Z.leb_spec i (2 ^ 31 - 1)); [done|lia..].
Qed.

Lemma to_text_digits i : plain_int i → Forall (λ c, isdigit c = true) (to_text i) ∧ to_text i ≠ [].
Proof.
  intros [Hi _]. unfold to_text. rewrite (proj2 (Z.ltb_ge i 0)) by lia. split; [by apply digits_isdigit|].
  destruct (digits_cons 19 i Hi) as (c & s & -> & _). done.
Qed.

Lemma find_no_char c p s : c ∉ s → find (c :: p) s = None.
Proof.
  induction s as [|d s IH]; [done|]. intros [Hd Hs]%not_elem_of_cons. cbn [find is_prefix].
  rewrite (proj2 (Ascii.eqb_neq c d)) by done. cbn [andb]. by rewrite IH.
Qed.

Lemma find_prefix p s : find p (p ++ s) = Some 0%nat.
Proof.
  assert (is_prefix p (p ++ s) = true) as Hp by (apply is_prefix_spec; eauto).
  destruct (p ++ s); cbn [find]; by rewrite Hp.
Qed.

Lemma find_after c p a t : c ∉ a → find (c :: p) (a ++ (c :: p) ++ t) = Some (length a).
Proof.
  induction a as [|d a IH]; [intros _; apply (find_prefix (c :: p))|].
  intros [Hd Ha]%not_elem_of_cons. cbn [app find is_prefix length].
  rewrite (proj2 (Ascii.eqb_neq c d)) by done. cbn [andb].
  change (c :: p ++ t) with ((c :: p) ++ t). by rewrite IH.
Qed.

Lemma digit_not_in c s : isdigit c = false → Forall (λ c, isdigit c = true) s → c ∉ s.
Proof. intros Hc Hs Hin. rewrite Forall_forall in Hs. specialize (Hs c Hin). congruence. Qed.

(** ** The lines of a file *)

Lemma index_line_read st i :
  plain_int i → read_line st (index_line i) = Ok (mkReading i 0 (parameterMap st)).
Proof.
  intros Hi. destruct (to_text_digits i Hi) as [Hd Hne].
  assert (match_section (index_line i) = Some (to_text i)) as Hm.
  { unfold index_line, match_section. cbn [app txt String.list_ascii_of_string].
    rewrite Ascii.eqb_refl, reverse_snoc, Ascii.eqb_refl. cbn [andb].
    rewrite bool_decide_false by (intros E; apply Hne; by rewrite <- (reverse_involutive (to_text i)), E).
    cbn [negb andb]. rewrite (proj2 (forallb_forall _ _)); [by rewrite reverse_involutive|].
    intros c Hc%list_elem_of_In. rewrite elem_of_reverse in Hc. rewrite Forall_forall in Hd. by apply Hd. }
  unfold read_line. rewrite Hm. rewrite <- (app_nil_r (to_text i)), stoi_plain; [done|done|by left].
Qed.

Lemma name_line_read st name :
  read_line st (name_line name) =
  Ok (mkReading (currentIndex st) (currentSubindex st)
        (<[name := mkInfo (currentIndex st) (currentSubindex st)]> (parameterMap st))).
Proof.
  unfold read_line. change (match_section (name_line name)) with (@None text). cbn match.
  unfold name_line at 1. rewrite find_prefix. change (find (txt "=") (name_line name)) with (Some 13%nat).
  cbn zeta. unfold substr. rewrite (proj2 (Nat.ltb_ge _ _)) by (cbn; lia).
  change (drop 14 (name_line name)) with name. rewrite take_ge by (cbn; lia). done.
Qed.

Lemma sub_line_read st k :
  plain_int (currentIndex st) → plain_int k →
  read_line st (sub_line (currentIndex st) k) = Ok (mkReading (currentIndex st) k (parameterMap st)).
Proof.
  set (i := currentIndex st). intros Hi Hk. destruct (to_text_digits i Hi) as [Hd Hne].
  destruct (to_text_digits k Hk) as [Hdk _].
  assert (sub_line i k = (txt "[" ++ to_text i ++ txt "sub") ++ to_text k ++ txt "]") as Hline.
  { unfold sub_line. by rewrite <- !app_assoc. }
  assert (match_section (sub_line i k) = None) as Hm.
  { assert (sub_line i k = "["%char :: (to_text i ++ txt "sub" ++ to_text k) ++ ["]"%char]) as ->
      by (unfold sub_line; by rewrite <- !app_assoc).
    unfold match_section. rewrite Ascii.eqb_refl, reverse_snoc.
    destruct (forallb isdigit _) eqn:Ef; [|by rewrite andb_false_r]. exfalso.
    rewrite forallb_forall in Ef. specialize (Ef "s"%char). discriminate Ef.
    apply list_elem_of_In, elem_of_reverse. rewrite !elem_of_app. right. left. apply list_elem_of_here. }
  assert (find (txt "ParameterName=") (sub_line i k) = None) as Hp.
  { apply find_no_char. unfold sub_line. rewrite !not_elem_of_app.
    repeat split; try (by apply digit_not_in); apply not_elem_of_cons; set_solver. }
  unfold read_line. rewrite Hm, Hp. rewrite Hline, find_prefix. fold i. rewrite <- Hline.
  assert (find (txt "sub") (sub_line i k) = Some (length (txt "[" ++ to_text i))) as Hs.
  { rewrite Hline. rewrite <- !app_assoc, app_assoc. apply find_after.
    rewrite not_elem_of_app. split; [set_solver|by apply digit_not_in]. }
  rewrite Hs. cbn zeta.
  assert (drop (length (txt "[" ++ to_text i) + 3) (sub_line i k) = to_text k ++ txt "]") as Hdrop.
  { rewrite Hline. apply drop_app_length'. rewrite !length_app.
    cbn [length txt String.list_ascii_of_string]. lia. }
  unfold substr. rewrite (proj2 (Nat.ltb_ge _ _)).
  2:{ rewrite Hline, !length_app. cbn [length txt String.list_ascii_of_string]. lia. }
  rewrite Hdrop, take_ge by (rewrite Hline, !length_app; lia). cbn [mbind outcome_bind].
  rewrite stoi_plain; [done|done|right; by exists "]"%char].
Qed.

Definition insert_entry (m : gmap text ParameterInfo) (e : text * ParameterInfo) : gmap text ParameterInfo :=
  <[e.1 := e.2]> m.

Lemma read_lines_app st a b : read_lines st (a ++ b) = (st' ← read_lines st a; read_lines st' b).
Proof.
  revert st. induction a as [|l a IH]; intros st; [done|]. cbn [read_lines app].
  destruct (read_line st l); [apply IH|done|done].
Qed.

Lemma subs_read i subs st :
  plain_int i → Forall (λ '(k, name), plain_int k ∧ plain_name name) subs → currentIndex st = i →
  ∃ st', read_lines st (concat ((λ '(k, name), [sub_line i k; name_line name]) <$> subs)) = Ok st' ∧
    parameterMap st' =
      foldl insert_entry (parameterMap st) ((λ '(k, name), (name, mkInfo i k)) <$> subs).
Proof.
  intros Hi. revert st. induction subs as [|[k name] subs IH]; intros st Hs Hst; [by exists st|].
  apply Forall_cons in Hs as [[Hk _] Hs]. rewrite !fmap_cons. cbn [concat app read_lines foldl].
  rewrite <- Hst, sub_line_read by congruence || done. cbn [mbind outcome_bind].
  rewrite name_line_read. cbn [mbind outcome_bind currentIndex currentSubindex parameterMap].
  rewrite Hst. by apply IH.
Qed.

Lemma object_read st o :
  plain_object o →
  ∃ st', read_lines st (object_lines o) = Ok st' ∧
         parameterMap st' = foldl insert_entry (parameterMap st) (object_entries o).
Proof.
  intros (Hi & _ & Hs). unfold object_lines. cbn [read_lines].
  rewrite index_line_read by done. cbn [mbind outcome_bind]. rewrite name_line_read.
  cbn [mbind outcome_bind currentIndex currentSubindex parameterMap].
  by apply (subs_read (obj_index o) (obj_subs o)).
Qed.

Lemma objects_read st os :
  Forall plain_object os →
  ∃ st', read_lines st (concat (object_lines <$> os)) = Ok st' ∧
         parameterMap st' = foldl insert_entry (parameterMap st) (concat (object_entries <$> os)).
Proof.
  intros Hos. revert st. induction Hos as [|o os Ho Hos IH]; intros st; [by exists st|].
  rewrite !fmap_cons. cbn [concat]. rewrite read_lines_app, foldl_app.
  destruct (object_read st o Ho) as (st1 & -> & <-). apply IH.
Qed.

Lemma no_newline i : plain_int i → "010"%char ∉ to_text i.
Proof. intros Hi. by apply digit_not_in, to_text_digits. Qed.

Lemma object_lines_plain o : plain_object o → Forall (λ l, "010"%char ∉ l) (object_lines o).
Proof.
  assert (∀ i, plain_int i → "010"%char ∉ index_line i) as Hindex.
  { intros i Hi. unfold index_line. rewrite !not_elem_of_app. pose proof (no_newline i Hi). set_solver. }
  assert (∀ i k, plain_int i → plain_int k → "010"%char ∉ sub_line i k) as Hsub.
  { intros i k Hi Hk. unfold sub_line. rewrite !not_elem_of_app.
    pose proof (no_newline i Hi). pose proof (no_newline k Hk). set_solver. }
  assert (∀ name, plain_name name → "010"%char ∉ name_line name) as Hname.
  { intros name Hn. unfold name_line. rewrite not_elem_of_app. split; [|done]. set_solver. }
  intros (Hi & Hn & Hs). unfold object_lines. constructor; [auto|]. constructor; [auto|].
  induction Hs as [|[k name] subs [Hk Hk'] Hs IH]; [constructor|].
  rewrite fmap_cons. cbn [concat app]. repeat constructor; auto.
Qed.

Lemma foldl_insert_entry es m :
  foldl insert_entry m es = foldl (λ m '(name, info), <[name := info]> m) m es.
Proof. revert m. induction es as [|[n i] es IH]; intros m; [done|]. apply IH. Qed.

Lemma read_dcf_plain os : Forall plain_object os → read_dcf (dcf_text os) = Ok (dcf_map os).
Proof.
  intros Hos. unfold read_dcf, dcf_text. rewrite getlines_lines.
  - destruct (objects_read (mkReading 0 0 ∅) os Hos) as (st & -> & Hm). cbn [mbind outcome_bind].
    rewrite Hm. unfold dcf_map. by rewrite foldl_insert_entry.
  - induction Hos as [|o os Ho Hos IH]; [constructor|]. rewrite fmap_cons. cbn [concat].
    apply Forall_app. split; [by apply object_lines_plain|done].
Qed.

(** For a file that lists objects with decimal indices, each with its name and the names
    of its sub-objects, the program answers, for each name of the comma-separated line it is
    given, the index and sub-index under which the file has the name last, or that the file
    does not have it. *)
Theorem dcf_finder_answers (os : list object) (program name input : text) (file : text → option text) :
  Forall plain_object os → file name = Some (dcf_text os) →
  dcf_main [program; name] file input =
  Ok (0, txt "Enter parameter names separated by commas: " ++
         concat (answer (dcf_map os) <$> getlines "," [] (default [] (head (getlines "010" [] input))))).
Proof.
  intros Hos Hf. unfold dcf_main. rewrite Hf, read_dcf_plain by done. cbn [mbind outcome_bind].
  by destruct (getlines "010" [] input).
Qed.

(** Configuration files have hexadecimal indices, which the program does not read: a
    section whose index has a letter is passed over, so that its parameters are reported
    under the index and sub-index before it, and a sub-index that is a letter ends the
    program with an exception that is not caught. *)
Theorem dcf_finder_hexadecimal (m : gmap text ParameterInfo) (name : text) :
  read_lines (mkReading 1018 4 m) [txt "[1A00]"; name_line name] =
    Ok (mkReading 1018 4 (<[name := mkInfo 1018 4]> m)) ∧
  read_line (mkReading 1018 4 m) (txt "[1018subA]") = Throw "std::invalid_argument: stoi".
Proof.
  split; [|reflexivity]. cbn [read_lines].
  change (read_line (mkReading 1018 4 m) (txt "[1A00]")) with (Ok (mkReading 1018 4 m)).
  cbn [mbind outcome_bind]. rewrite name_line_read. done.
Qed.

(** A file with one object and one sub-object. *)
Definition example_objects : list object :=
  [mkObject 1018 (txt "Identity") [(1, txt "Vendor")]].

Lemma dcf_finder_answers_witness :
  dcf_main [txt "finder"; txt "a.dcf"] (λ _, Some (dcf_text example_objects)) (txt "Vendor,Other") =
  Ok (0, txt "Enter parameter names separated by commas: Parameter: Vendor, Index: 1018, Subindex: 1" ++
         txt nl ++ txt "Parameter " ++ [dquote] ++ txt "Other" ++ [dquote] ++
         txt " not found in the DCF file." ++ txt nl).
Proof.
  rewrite (dcf_finder_answers example_objects).
  - vm_compute. reflexivity.
  - repeat constructor; try (vm_compute; congruence); apply (bool_decide_unpack _); vm_compute; exact I.
  - reflexivity.
Defined.
