(* ===== verification/UmlDump.v ===== *)
(** The PlantUML dump of a state machine:
    [src/third_party_examples/sml_examples/src/dump_uml.cpp], and the machine of
    [src/sm_to_dump_example.h] that the program dumps.

    The program works on types: a transition table is a type list, a guard and an action are
    expression types of [boost::sml].  Here they are data: [machine], [row], [state], [guard]
    and [action], with a type as its demangled name.  What is printed is a list of [item]s: a
    line, the opening of a block for a sub-machine, or its closing.

    The theorems: the text of a guard, read with the tokens and precedences of C++, has the truth
    value of the guard, each guard type standing under its name without the namespaces; the text of
    an action lists the actions of a sequence in order, by these names; the blocks of a dump
    are balanced, and no sub-machine has two. *)
From S2P Require Import Prelude Text.
Local Open Scope list_scope.

(** ** Names *)

(** [s.substr(s.find_last_of(':') + 1)]; [after] is what follows the last colon so far. *)
Fixpoint after_last_colon (after s : text) : text :=
  match s with
  | [] => after
  | c :: s => if Ascii.eqb c ":" then after_last_colon s s else after_last_colon after s
  end.

(* @src third_party_examples/sml_examples/src/dump_uml.cpp 37-44 base_name *)
(** Of the demangled name of a type, which is not empty. *)
Definition base_name (full_name : text) : text :=
  match last full_name with
  | Some c => if Ascii.eqb c ">" then full_name else after_last_colon full_name full_name
  | None => full_name
  end.

(** ** Guards *)

(** [GLeaf] is a guard type; the others are [sml::front::or_], [and_] and [not_].  The program
    has the types as demangled names, [guard text]. *)
Inductive guard (A : Type) :=
| GLeaf (type : A) | GOr (a b : guard A) | GAnd (a b : guard A) | GNot (a : guard A).
Arguments GLeaf {A} type. Arguments GOr {A} a b. Arguments GAnd {A} a b. Arguments GNot {A} a.

(* @src third_party_examples/sml_examples/src/dump_uml.cpp 110-145 guard_name *)
(** [None]: the program does not compile, since [guard_name<not_<T>>] has no [is_leaf]. *)
Fixpoint guard_name (g : guard text) : option text :=
  match g with
  | GLeaf t => Some (base_name t)
  | GOr a b => na ← guard_name a; nb ← guard_name b; Some (txt "(" ++ na ++ txt " || " ++ nb ++ txt ")")
  | GAnd a b => na ← guard_name a; nb ← guard_name b; Some (na ++ txt " && " ++ nb)
  | GNot (GNot _) => None
  | GNot (GLeaf _ as a) => na ← guard_name a; Some (txt "!" ++ na)
  | GNot a => na ← guard_name a; Some (txt "!(" ++ na ++ txt ")")
  end.

(** The value of a guard when the guard types have the values of [env]. *)
Fixpoint guard_value {A} (env : A → bool) (g : guard A) : bool :=
  match g with
  | GLeaf t => env t
  | GOr a b => guard_value env a || guard_value env b
  | GAnd a b => guard_value env a && guard_value env b
  | GNot a => negb (guard_value env a)
  end.

(** The guard types of a guard. *)
Fixpoint leaves {A} (g : guard A) : list A :=
  match g with
  | GLeaf t => [t]
  | GOr a b | GAnd a b => leaves a ++ leaves b
  | GNot a => leaves a
  end.

Fixpoint guard_map {A B} (f : A → B) (g : guard A) : guard B :=
  match g with
  | GLeaf t => GLeaf (f t)
  | GOr a b => GOr (guard_map f a) (guard_map f b)
  | GAnd a b => GAnd (guard_map f a) (guard_map f b)
  | GNot a => GNot (guard_map f a)
  end.

Lemma guard_value_map {A B} (f : A → B) env env' g :
  (∀ t, t ∈ leaves g → env' (f t) = env t) → guard_value env' (guard_map f g) = guard_value env g.
Proof.
  induction g as [t|a IHa b IHb|a IHa b IHb|a IHa]; cbn [leaves guard_map guard_value]; intros H.
  - by apply H, list_elem_of_singleton.
  - rewrite IHa, IHb; [done| |]; intros t Ht; apply H, elem_of_app; auto.
  - rewrite IHa, IHb; [done| |]; intros t Ht; apply H, elem_of_app; auto.
  - by rewrite IHa.
Qed.

(** *** Qualified names *)

(** A type that is declared with the identifier [ident] in the namespaces (and classes) [path]. *)
Record qualified := mkQualified { path : list text; ident : text }.

Definition full_name (q : qualified) : text := concat ((λ p, p ++ txt "::") <$> path q) ++ ident q.

Definition ident_char (c : ascii) : bool :=
  let n := code c in
  ((48 <=? n) && (n <=? 57) || (65 <=? n) && (n <=? 90) || (97 <=? n) && (n <=? 122) || (n =? 95))%Z.

Definition identifier (s : text) : Prop := s ≠ [] ∧ Forall (λ c, ident_char c = true) s.

Lemma ident_char_not c d : ident_char c = true → ident_char d = false → Ascii.eqb c d = false.
Proof. intros Hc Hd. apply Ascii.eqb_neq. congruence. Qed.

Lemma after_last_colon_none after s : Forall (λ c, ident_char c = true) s → after_last_colon after s = after.
Proof.
  induction 1 as [|c s Hc Hs IH]; [done|]. cbn [after_last_colon].
  by rewrite (ident_char_not c ":" Hc).
Qed.

Lemma after_last_colon_colon after p s :
  Forall (λ c, ident_char c = true) s → after_last_colon after (p ++ ":"%char :: s) = s.
Proof.
  intros Hs. revert after. induction p as [|c p IH]; intros after; cbn [app after_last_colon].
  - rewrite (Ascii.eqb_refl ":"). by apply after_last_colon_none.
  - destruct (Ascii.eqb c ":"); apply IH.
Qed.

Lemma base_name_full q : identifier (ident q) → base_name (full_name q) = ident q.
Proof.
  destruct q as [ps id]. cbn [ident path]. intros [Hne Hid]. unfold base_name, full_name. cbn [ident path].
  destruct (exists_last Hne) as (s & c & Es).
  assert (ident_char c = true) as Hc by (rewrite Es in Hid; apply Forall_app in Hid as [_ Hid]; by inversion Hid).
  assert (∀ p, last (p ++ id) = Some c) as Hlast by (intros p; by rewrite Es, app_assoc, last_snoc).
  rewrite Hlast, (ident_char_not c ">" Hc) by done. induction ps as [|p ps _] using rev_ind.
  - by apply after_last_colon_none.
  - rewrite fmap_app, concat_app. cbn [fmap list_fmap concat]. rewrite app_nil_r, <- !app_assoc.
    change (txt "::" ++ id) with ([":"%char] ++ ":"%char :: id).
    rewrite (app_assoc p), (app_assoc _ (p ++ [":"%char])). by apply after_last_colon_colon.
Qed.

(** *** Reading a guard with the precedences of C++ *)

Inductive token := TLeft | TRight | TNot | TAnd | TOr | TName (n : text).

Definition token_text (t : token) : text :=
  match t with
  | TLeft => txt "(" | TRight => txt ")" | TNot => txt "!"
  | TAnd => txt " && " | TOr => txt " || " | TName n => n
  end.

Inductive formula := FName (n : text) | FNot (f : formula) | FAnd (f g : formula) | FOr (f g : formula).

Fixpoint formula_value (env : text → bool) (f : formula) : bool :=
  match f with
  | FName n => env n
  | FNot f => negb (formula_value env f)
  | FAnd f g => formula_value env f && formula_value env g
  | FOr f g => formula_value env f || formula_value env g
  end.

(** Recursive descent; the precedence levels are disjunction, conjunction and unary. *)
Inductive level := LOr | LAnd | LUnary.

Fixpoint parse (fuel : nat) (l : level) (ts : list token) : option (formula * list token) :=
  match fuel with
  | 0 => None
  | S fuel =>
      match l with
      | LOr =>
          '(f, ts) ← parse fuel LAnd ts;
          match ts with
          | TOr :: ts => '(g, ts) ← parse fuel LOr ts; Some (FOr f g, ts)
          | _ => Some (f, ts)
          end
      | LAnd =>
          '(f, ts) ← parse fuel LUnary ts;
          match ts with
          | TAnd :: ts => '(g, ts) ← parse fuel LAnd ts; Some (FAnd f g, ts)
          | _ => Some (f, ts)
          end
      | LUnary =>
          match ts with
          | TName n :: ts => Some (FName n, ts)
          | TNot :: ts => '(f, ts) ← parse fuel LUnary ts; Some (FNot f, ts)
          | TLeft :: ts =>
              '(f, ts) ← parse fuel LOr ts;
              match ts with TRight :: ts => Some (f, ts) | _ => None end
          | _ => None
          end
      end
  end.

(** The tokens of a printed guard. *)
Fixpoint guard_tokens (g : guard text) : list token :=
  match g with
  | GLeaf t => [TName (base_name t)]
  | GOr a b => TLeft :: guard_tokens a ++ TOr :: guard_tokens b ++ [TRight]
  | GAnd a b => guard_tokens a ++ TAnd :: guard_tokens b
  | GNot (GLeaf _ as a) => TNot :: guard_tokens a
  | GNot a => TNot :: TLeft :: guard_tokens a ++ [TRight]
  end.

Definition tokens_text (ts : list token) : text := concat (token_text <$> ts).

(** Reads the tokens of a text: names are of identifier characters, spaces separate; [acc] is the
    name that has begun. *)
Definition flush (acc : text) (ts : list token) : list token :=
  match acc with [] => ts | _ => TName acc :: ts end.

Fixpoint lex (acc s : text) : option (list token) :=
  match s with
  | [] => Some (flush acc [])
  | c :: s =>
      if ident_char c then lex (acc ++ [c]) s
      else if Ascii.eqb c " " then flush acc <$> lex [] s
      else if Ascii.eqb c "(" then (λ ts, flush acc (TLeft :: ts)) <$> lex [] s
      else if Ascii.eqb c ")" then (λ ts, flush acc (TRight :: ts)) <$> lex [] s
      else if Ascii.eqb c "!" then (λ ts, flush acc (TNot :: ts)) <$> lex [] s
      else if Ascii.eqb c "&" then
        match s with
        | d :: s => if Ascii.eqb d "&" then (λ ts, flush acc (TAnd :: ts)) <$> lex [] s else None
        | [] => None
        end
      else if Ascii.eqb c "|" then
        match s with
        | d :: s => if Ascii.eqb d "|" then (λ ts, flush acc (TOr :: ts)) <$> lex [] s else None
        | [] => None
        end
      else None
  end.

(** The formula that a text denotes. *)
Definition read_formula (fuel : nat) (s : text) : option formula :=
  ts ← lex [] s; '(f, rest) ← parse fuel LOr ts; match rest with [] => Some f | _ => None end.

(** No identifier goes on at the beginning of the text. *)
Definition boundary (s : text) : Prop := match s with [] => True | c :: _ => ident_char c = false end.

Lemma lex_name acc n s : Forall (λ c, ident_char c = true) n → lex acc (n ++ s) = lex (acc ++ n) s.
Proof.
  intros Hn. revert acc. induction Hn as [|c n Hc Hn IH]; intros acc; cbn [app lex]; [by rewrite app_nil_r|].
  rewrite Hc, IH. by rewrite <- app_assoc.
Qed.

Lemma lex_flush acc s : boundary s → lex acc s = flush acc <$> lex [] s.
Proof.
  destruct s as [|c s]; cbn [boundary lex]; [done|]. intros ->.
  repeat case_match; try done; by destruct (lex [] _).
Qed.

Lemma lex_token acc t s :
  match t with TName n => identifier n ∧ acc = [] ∧ boundary s | _ => True end →
  lex acc (token_text t ++ s) = (λ ts, flush acc (t :: ts)) <$> lex [] s.
Proof.
  destruct t as [| | | | |n]; intros H; cbn [token_text app lex]; try done.
  - cbn. destruct (lex [] s); done.
  - cbn. destruct (lex [] s); done.
  - destruct H as ([Hne Hid] & -> & Hs). rewrite lex_name, app_nil_l, lex_flush by done.
    by destruct n.
Qed.

Lemma tokens_text_app ts us : tokens_text (ts ++ us) = tokens_text ts ++ tokens_text us.
Proof. unfold tokens_text. by rewrite fmap_app, concat_app. Qed.

Lemma tokens_text_cons t ts : tokens_text (t :: ts) = token_text t ++ tokens_text ts.
Proof. done. Qed.

Lemma guard_name_tokens g n : guard_name g = Some n → n = tokens_text (guard_tokens g).
Proof.
  revert n. induction g as [t|a IHa b IHb|a IHa b IHb|a IHa]; intros n; cbn [guard_name guard_tokens].
  - intros [= <-]. unfold tokens_text. cbn. by rewrite app_nil_r.
  - destruct (guard_name a) as [na|]; [|done]. destruct (guard_name b) as [nb|]; [|done]. intros [= <-].
    rewrite (IHa na), (IHb nb) by done.
    by rewrite tokens_text_cons, tokens_text_app, tokens_text_cons, tokens_text_app.
  - destruct (guard_name a) as [na|]; [|done]. destruct (guard_name b) as [nb|]; [|done]. intros [= <-].
    rewrite (IHa na), (IHb nb) by done. by rewrite tokens_text_app, tokens_text_cons.
  - destruct a as [t|a b|a b|a]; cbn [guard_name] in *; [| | |done].
    + intros [= <-]. unfold tokens_text. cbn. by rewrite app_nil_r.
    + destruct (guard_name a ≫= _) as [na|]; [|done]. intros [= <-]. rewrite (IHa na) by done.
      rewrite (tokens_text_cons TNot), (tokens_text_cons TLeft), tokens_text_app. done.
    + destruct (guard_name a ≫= _) as [na|]; [|done]. intros [= <-]. rewrite (IHa na) by done.
      rewrite (tokens_text_cons TNot), (tokens_text_cons TLeft), tokens_text_app. done.
Qed.

(** *** Reading back *)

(** The parser succeeds on [ts] with any fuel from some bound on. *)
Definition reads (l : level) (ts : list token) (f : formula) (rest : list token) : Prop :=
  ∃ n, ∀ fuel, n ≤ fuel → parse fuel l ts = Some (f, rest).

Definition no_and (ts : list token) : Prop := match ts with TAnd :: _ => False | _ => True end.
Definition no_or (ts : list token) : Prop := match ts with TOr :: _ => False | _ => True end.

Lemma reads_and_end ts f rest : reads LUnary ts f rest → no_and rest → reads LAnd ts f rest.
Proof.
  intros [n Hn] Hr. exists (S n). intros [|fuel] Hf; [lia|]. cbn [parse]. rewrite Hn by lia.
  cbn. by destruct rest as [|[] ?].
Qed.

Lemma reads_and_more ts f us g rest :
  reads LUnary ts f (TAnd :: us) → reads LAnd us g rest → reads LAnd ts (FAnd f g) rest.
Proof.
  intros [n Hn] [m Hm]. exists (S (n + m)). intros [|fuel] Hf; [lia|]. cbn [parse].
  rewrite Hn by lia. cbn. by rewrite Hm by lia.
Qed.

Lemma reads_or_end ts f rest : reads LAnd ts f rest → no_or rest → reads LOr ts f rest.
Proof.
  intros [n Hn] Hr. exists (S n). intros [|fuel] Hf; [lia|]. cbn [parse]. rewrite Hn by lia.
  cbn. by destruct rest as [|[] ?].
Qed.

Lemma reads_or_more ts f us g rest :
  reads LAnd ts f (TOr :: us) → reads LOr us g rest → reads LOr ts (FOr f g) rest.
Proof.
  intros [n Hn] [m Hm]. exists (S (n + m)). intros [|fuel] Hf; [lia|]. cbn [parse].
  rewrite Hn by lia. cbn. by rewrite Hm by lia.
Qed.

Lemma reads_paren ts f rest : reads LOr ts f (TRight :: rest) → reads LUnary (TLeft :: ts) f rest.
Proof.
  intros [n Hn]. exists (S n). intros [|fuel] Hf; [lia|]. cbn [parse]. by rewrite Hn by lia.
Qed.

Lemma reads_not ts f rest : reads LUnary ts f rest → reads LUnary (TNot :: ts) (FNot f) rest.
Proof.
  intros [n Hn]. exists (S n). intros [|fuel] Hf; [lia|]. cbn [parse]. by rewrite Hn by lia.
Qed.

Lemma reads_name n rest : reads LUnary (TName n :: rest) (FName n) rest.
Proof. exists 1. intros [|fuel] Hf; [lia|done]. Qed.

Definition same_value (f : formula) (g : guard text) : Prop :=
  ∀ env, formula_value env f = guard_value (λ t, env (base_name t)) g.

(** A printed guard stands where a conjunction is expected, alone or followed by more. *)
Definition reads_back (g : guard text) : Prop :=
  (∀ rest, no_and rest → ∃ f, reads LAnd (guard_tokens g ++ rest) f rest ∧ same_value f g) ∧
  (∀ us h rest, reads LAnd us h rest →
     ∃ f, reads LAnd (guard_tokens g ++ TAnd :: us) f rest ∧
          ∀ env, formula_value env f = guard_value (λ t, env (base_name t)) g && formula_value env h).

Lemma unary_reads_back g :
  (∀ rest, ∃ f, reads LUnary (guard_tokens g ++ rest) f rest ∧ same_value f g) → reads_back g.
Proof.
  intros Hu. split.
  - intros rest Hr. destruct (Hu rest) as (f & Hf & Hs). exists f. split; [by apply reads_and_end|done].
  - intros us h rest Hh. destruct (Hu (TAnd :: us)) as (f & Hf & Hs). exists (FAnd f h).
    split; [by eapply reads_and_more|]. intros env. cbn. by rewrite Hs.
Qed.

(** Between parentheses. *)
Lemma paren_reads_back g rest :
  reads_back g → ∃ f, reads LUnary (TLeft :: guard_tokens g ++ TRight :: rest) f rest ∧ same_value f g.
Proof.
  intros [He _]. destruct (He (TRight :: rest) I) as (f & Hf & Hs). exists f.
  split; [|done]. by apply reads_paren, reads_or_end.
Qed.

Lemma guard_reads_back g : reads_back g.
Proof.
  induction g as [t|a IHa b IHb|a IHa b IHb|a IHa].
  - apply unary_reads_back. intros rest. exists (FName (base_name t)). split; [apply reads_name|done].
  - apply unary_reads_back. intros rest. cbn [guard_tokens app].
    destruct (proj1 IHb (TRight :: rest) I) as (fb & Hb & Sb).
    destruct (proj1 IHa (TOr :: guard_tokens b ++ TRight :: rest) I) as (fa & Ha & Sa).
    exists (FOr fa fb). split; [|intros env; cbn; by rewrite Sa, Sb].
    apply reads_paren. rewrite <- app_assoc. cbn [app]. rewrite <- app_assoc. cbn [app].
    eapply reads_or_more; [exact Ha|]. by apply reads_or_end.
  - destruct IHa as [_ IHa], IHb as [IHe IHm]. split.
    + intros rest Hr. destruct (IHe rest Hr) as (fb & Hb & Sb).
      destruct (IHa _ _ _ Hb) as (f & Hf & Sf). exists f. cbn [guard_tokens]. rewrite <- app_assoc.
      split; [exact Hf|]. intros env. cbn. by rewrite Sf, Sb.
    + intros us h rest Hh. destruct (IHm _ _ _ Hh) as (fb & Hb & Sb).
      destruct (IHa _ _ _ Hb) as (f & Hf & Sf). exists f. cbn [guard_tokens]. rewrite <- app_assoc.
      split; [exact Hf|]. intros env. cbn. by rewrite Sf, Sb, andb_assoc.
  - apply unary_reads_back. intros rest.
    assert (∃ f, reads LUnary (TLeft :: guard_tokens a ++ TRight :: rest) f rest ∧ same_value f a)
      as (f & Hf & Sf) by by apply paren_reads_back.
    destruct a as [t|a1 a2|a1 a2|a1].
    1:{ exists (FNot (FName (base_name t))). split; [apply reads_not, reads_name|done]. }
    all: exists (FNot f); split; [|intros env; cbn [formula_value]; by rewrite Sf].
    all: match goal with |- reads _ (guard_tokens (GNot ?a) ++ _) _ _ =>
           change (guard_tokens (GNot a)) with (TNot :: TLeft :: guard_tokens a ++ [TRight]) end.
    all: rewrite <- !app_comm_cons, <- app_assoc; by apply reads_not.
Qed.

(** ** Actions *)

(** [sml::front::seq_<TRest, TEnd>] for [(rest, end)]; [raw] is the name of the type. *)
Inductive action := ALeaf (type : text) | ASeq (rest end_ : action) (raw : text).
Definition action_type (a : action) : text := match a with ALeaf t => t | ASeq _ _ raw => raw end.

(** Tuple types. *)
Inductive tuple := TType (type : text) | TTuple (ts : list tuple).

(* @src third_party_examples/sml_examples/src/dump_uml.cpp 147-160 clean_action_name *)
Fixpoint clean_action_name (a : action) : tuple :=
  match a with
  | ALeaf t => TType t
  | ASeq rest end_ _ => TTuple [clean_action_name rest; TType (action_type end_)]
  end.

(* @src third_party_examples/sml_examples/src/dump_uml.cpp 71-80 flatten_tuple_helper *)
(** The elements of the flattened tuple. *)
Fixpoint flatten_tuple_helper (t : tuple) : list text :=
  match t with
  | TType t => [t]
  | TTuple ts => concat (map flatten_tuple_helper ts)
  end.

Definition join (delimiter : text) (ts : list text) : text :=
  match ts with [] => [] | t :: ts => t ++ concat ((λ t, delimiter ++ t) <$> ts) end.

(* @src third_party_examples/sml_examples/src/dump_uml.cpp 46-65 tuple_types_to_string *)
(** Of a flattened tuple, or of a type that is not a tuple. *)
Definition tuple_types_to_string (ts : list text) : text := join (txt ", ") (base_name <$> ts).

(* @src third_party_examples/sml_examples/src/dump_uml.cpp 82-91 flatten_tuple *)
Definition action_name (a : action) : text :=
  tuple_types_to_string (flatten_tuple_helper (clean_action_name a)).

(** The actions of a sequence written [(a1, ..., an)], which is nested to the left. *)
Fixpoint sequence (a : action) (others : list (text * text)) : action :=
  match others with [] => a | (t, raw) :: others => sequence (ASeq a (ALeaf t) raw) others end.

Lemma sequence_flat a others :
  flatten_tuple_helper (clean_action_name (sequence a others)) =
  flatten_tuple_helper (clean_action_name a) ++ others.*1.
Proof.
  revert a. induction others as [|[t raw] others IH]; intros a; cbn [sequence].
  - cbn. by rewrite app_nil_r.
  - rewrite IH. cbn. by rewrite <- app_assoc.
Qed.

(** *** Reading the texts *)

Lemma leaves_names g :
  Forall (λ q, identifier (ident q)) (leaves g) →
  Forall (λ t, identifier (base_name t)) (leaves (guard_map full_name g)).
Proof.
  induction g as [q|a IHa b IHb|a IHa b IHb|a IHa]; cbn [leaves guard_map]; [|rewrite !Forall_app; naive_solver..|done].
  rewrite !Forall_singleton. intros Hq. by rewrite base_name_full.
Qed.

(** The tokens of a printed guard are read from its text, whatever follows. *)
Lemma lex_guard g s :
  Forall (λ t, identifier (base_name t)) (leaves g) → boundary s →
  lex [] (tokens_text (guard_tokens g) ++ s) = app (guard_tokens g) <$> lex [] s.
Proof.
  revert s. induction g as [t|a IHa b IHb|a IHa b IHb|a IHa]; intros s Hl Hs; cbn [leaves] in Hl.
  - rewrite Forall_singleton in Hl. unfold tokens_text. cbn [guard_tokens fmap list_fmap concat token_text].
    rewrite app_nil_r. exact (lex_token [] (TName (base_name t)) s (conj Hl (conj eq_refl Hs))).
  - apply Forall_app in Hl as [Ha Hb]. cbn [guard_tokens].
    rewrite tokens_text_cons, tokens_text_app, tokens_text_cons, tokens_text_app, <- !app_assoc.
    change (tokens_text [TRight]) with (token_text TRight).
    rewrite (lex_token [] TLeft), IHa, (lex_token [] TOr), IHb, (lex_token [] TRight) by done.
    destruct (lex [] s) as [ts|]; [|done]. cbn. by rewrite <- !app_assoc, <- ?app_comm_cons, <- ?app_assoc.
  - apply Forall_app in Hl as [Ha Hb]. cbn [guard_tokens].
    rewrite tokens_text_app, tokens_text_cons, <- !app_assoc.
    rewrite IHa, (lex_token [] TAnd), IHb by done.
    destruct (lex [] s) as [ts|]; [|done]. cbn. by rewrite <- !app_assoc, <- ?app_comm_cons, <- ?app_assoc.
  - assert (lex [] (tokens_text (TNot :: TLeft :: guard_tokens a ++ [TRight]) ++ s) =
      app (TNot :: TLeft :: guard_tokens a ++ [TRight]) <$> lex [] s) as Hparen.
    { rewrite !tokens_text_cons, tokens_text_app, <- !app_assoc.
      change (tokens_text [TRight]) with (token_text TRight).
      rewrite (lex_token [] TNot), (lex_token [] TLeft), IHa, (lex_token [] TRight) by done.
      destruct (lex [] s) as [ts|]; [|done]. cbn. by rewrite <- app_assoc. }
    destruct a as [t| | |]; [|exact Hparen..]. cbn [guard_tokens].
    rewrite tokens_text_cons, <- app_assoc, (lex_token [] TNot), IHa by done. by destruct (lex [] s).
Qed.

(** The parts of a text between commas with a space behind them. *)
Fixpoint split_commas (acc s : text) : list text :=
  match s with
  | [] => [acc]
  | c :: s' =>
      match s' with
      | d :: s'' =>
          if Ascii.eqb c "," && Ascii.eqb d " " then acc :: split_commas [] s'' else split_commas (acc ++ [c]) s'
      | [] => split_commas (acc ++ [c]) s'
      end
  end.

Lemma split_name acc n s :
  Forall (λ c, ident_char c = true) n → split_commas acc (n ++ s) = split_commas (acc ++ n) s.
Proof.
  intros Hn. revert acc. induction Hn as [|c n Hc Hn IH]; intros acc; [by rewrite app_nil_r|].
  cbn [app split_commas]. rewrite (ident_char_not c "," Hc) by done. cbn [andb].
  replace (match n ++ s with [] | _ => split_commas (acc ++ [c]) (n ++ s) end)
    with (split_commas (acc ++ [c]) (n ++ s)) by by destruct (n ++ s).
  by rewrite IH, <- app_assoc.
Qed.

Lemma split_join n ns :
  Forall identifier (n :: ns) → split_commas [] (join (txt ", ") (n :: ns)) = n :: ns.
Proof.
  revert n. induction ns as [|m ns IH]; intros n Hn; apply Forall_cons in Hn as [[_ Hn] Hns].
  - unfold join. cbn [fmap list_fmap concat]. rewrite split_name by done. done.
  - specialize (IH m Hns). unfold join in *. cbn [fmap list_fmap concat] in *.
    rewrite split_name by done. cbn. f_equal. exact IH.
Qed.

(** C24: what the dump prints of a transition is faithful, for guard types and action types that are
    declared with identifiers, in any namespaces, and named in full by the demangled names that the
    program has.  The text of a guard, split into tokens and read with the precedences that
    C++ gives to [!], [&&] and [||], is a formula about the identifiers that has the guard's truth value:
    for all values of the guard types and all values of the identifiers that agree with them.
    (Parentheses are only printed around disjunctions and negated compounds.  Guard types of the same
    identifier in different namespaces are not told apart.)  The text of an action that is a sequence,
    split at the commas, lists the identifiers of its actions in order. *)
Theorem dump_reads_back (g : guard qualified) (n : text) (first : qualified) (others : list (qualified * text)) :
  Forall (λ q, identifier (ident q)) (leaves g) →
  Forall (λ q, identifier (ident q)) (first :: others.*1) →
  guard_name (guard_map full_name g) = Some n →
  (∃ f fuel, read_formula fuel n = Some f ∧
     ∀ env env', (∀ q, q ∈ leaves g → env' (ident q) = env q) → formula_value env' f = guard_value env g) ∧
  split_commas [] (action_name (sequence (ALeaf (full_name first)) (prod_map full_name id <$> others))) =
    ident <$> first :: others.*1.
Proof.
  intros Hg Ha Hn. split.
  - apply guard_name_tokens in Hn as ->.
    assert (∀ q, q ∈ leaves g → base_name (full_name q) = ident q) as Hb.
    { intros q Hq. apply base_name_full. rewrite Forall_forall in Hg. by apply Hg. }
    destruct (proj1 (guard_reads_back (guard_map full_name g)) [] I) as (f & Hf & Hs). rewrite app_nil_r in Hf.
    destruct (reads_or_end _ _ _ Hf I) as [fuel Hp]. exists f, fuel. split.
    + unfold read_formula. rewrite <- (app_nil_r (tokens_text _)), lex_guard; [|by apply leaves_names|done].
      cbn. rewrite app_nil_r, Hp by done. done.
    + intros env env' He. rewrite (Hs env'). apply guard_value_map. intros q Hq. by rewrite Hb, He.
  - unfold action_name, tuple_types_to_string. rewrite sequence_flat.
    assert (base_name <$> flatten_tuple_helper (clean_action_name (ALeaf (full_name first))) ++
      (prod_map full_name id <$> others).*1 = ident <$> first :: others.*1) as ->.
    { cbn [clean_action_name flatten_tuple_helper app]. rewrite <- list_fmap_compose.
      apply Forall_cons in Ha as [Hfirst Ha]. cbn [fmap list_fmap]. rewrite base_name_full by done. f_equal.
      induction others as [|[q raw] others IH]; [done|]. apply Forall_cons in Ha as [Hq Ha].
      cbn [fmap list_fmap]. rewrite IH by done. f_equal. by apply base_name_full. }
    change (ident <$> first :: others.*1) with (ident first :: (ident <$> others.*1)). apply (split_join (ident first) (ident <$> others.*1)).
    change (Forall identifier (ident <$> first :: others.*1)). by apply Forall_fmap.
Qed.

(** ** The dump *)

Inductive event := EAnonymous | EOnEntry | EOnExit | EType (type : text).

(** A transition table.  A state is a name, a sub-machine, the terminate state [X], or, as the
    destination of an internal transition, nothing. *)
Inductive machine := Machine (type : text) (transitions : list row)
with row := Row (initial : bool) (src dst : state) (e : event) (g : option (guard text)) (a : option action)
with state := SName (name : text) | SMachine (m : machine) | STerminate | SInternal.

Definition machine_type (m : machine) : text := let 'Machine t _ := m in t.
Definition transitions (m : machine) : list row := let 'Machine _ rows := m in rows.

(** What is printed: a line, [state name {] after an empty line, or [}]. *)
Inductive item := Line (t : text) | Open (name : text) | Close.
Definition item_text (i : item) : text :=
  match i with
  | Line t => t ++ txt nl
  | Open name => txt nl ++ txt "state " ++ name ++ txt " {" ++ txt nl
  | Close => txt "}" ++ txt nl
  end.

(* @src third_party_examples/sml_examples/src/dump_uml.cpp 195-210 UMLDumper::dump_transition *)
Definition src_name (s : state) : text :=
  match s with
  | SName n => n
  | SMachine m => base_name (machine_type m)
  | STerminate => txt "terminate"
  | SInternal => []
  end.
Definition dst_name (s : state) : text :=
  match s with STerminate => txt "[*]" | SName n => if bool_decide (n = txt "terminate") then txt "[*]" else n
             | _ => src_name s end.

(* @src third_party_examples/sml_examples/src/dump_uml.cpp 250-258 UMLDumper::dump_transition *)
Definition event_text (e : event) : text :=
  match e with
  | EAnonymous => []
  | EOnEntry => txt " on_entry"
  | EOnExit => txt " on_exit"
  | EType t => txt " " ++ base_name t
  end.

Definition is_anonymous (e : event) : bool := match e with EAnonymous => true | _ => false end.
Definition is_none {A} (o : option A) : bool := match o with None => true | Some _ => false end.

(* @src third_party_examples/sml_examples/src/dump_uml.cpp 228-270 UMLDumper::dump_transition *)
(** The line of the transition itself. *)
Definition transition_line (src dst : state) (e : event) (g : option (guard text)) (a : option action) : text :=
  src_name src ++
  match dst with SInternal => [] | _ => txt " --> " ++ dst_name dst end ++
  (if negb (is_anonymous e) || negb (is_none g) || negb (is_none a) then txt " :" else []) ++
  event_text e ++
  match g with Some g => txt " [" ++ default [] (guard_name g) ++ txt "]" | None => [] end ++
  match a with Some a => txt " / " ++ action_name a | None => [] end.

(* @src third_party_examples/sml_examples/src/dump_uml.cpp 212-214 UMLDumper::dump_transition *)
(** The line of an initial state, with the separator of orthogonal regions, and [starts]. *)
Definition initial_items (initial : bool) (starts : nat) (src : state) : list item * nat :=
  if initial then
    ((if starts =? 0 then [] else [Line (txt "--")]) ++ [Line (txt "[*] --> " ++ src_name src)], S starts)%nat
  else ([], starts).

(** The state of a dump of a table: the names of the sub-machines that have been handled, and
    [starts]; with what was printed. *)
Abbreviation dumped := (list item * gset text * nat)%type.

(** One transition after the other: [dump_transitions] below its test of the depth. *)
Definition dump_rows (dump_row : row → gset text → nat → dumped) : list row → gset text → nat → dumped :=
  fix go rows handled starts :=
    match rows with
    | [] => ([], handled, starts)
    | r :: rows =>
        let '(out, handled, starts) := dump_row r handled starts in
        let '(out', handled, starts) := go rows handled starts in
        (out ++ out', handled, starts)
    end.

(* @src third_party_examples/sml_examples/src/dump_uml.cpp 193-271 UMLDumper::dump_transition *)
(** [depth] is that of the table; the table of a sub-machine is one deeper, and nothing of it
    is printed when it is too deep (lines 273-283). *)
Fixpoint dump_transition (max_depth_ depth : nat) (r : row) (handled : gset text) (starts : nat) : dumped :=
  let 'Row initial src dst e g a := r in
  let '(out1, starts) := initial_items initial starts src in
  let '(out2, handled) :=
    match dst with
    | SMachine (Machine t rows) =>
        let name := base_name t in
        if bool_decide (name ∈ handled) then ([], handled)
        else
          let handled := {[name]} ∪ handled in
          if (max_depth_ <? S depth)%nat then ([Open name; Close], handled)
          else
            let '(out, handled, _) := dump_rows (dump_transition max_depth_ (S depth)) rows handled 0 in
            (Open name :: out ++ [Close], handled)
    | _ => ([], handled)
    end in
  (out1 ++ out2 ++ [Line (transition_line src dst e g a)], handled, starts).

(* @src third_party_examples/sml_examples/src/dump_uml.cpp 273-283 UMLDumper::dump_transitions *)
Definition dump_transitions (max_depth_ depth : nat) (rows : list row) (handled : gset text) (starts : nat) :
    dumped :=
  if (max_depth_ <? depth)%nat then ([], handled, starts)
  else dump_rows (dump_transition max_depth_ depth) rows handled starts.

(* @src third_party_examples/sml_examples/src/dump_uml.cpp 176-186 UMLDumper::dump *)
Definition dump (max_depth_ : nat) (m : machine) : text :=
  txt "@startuml" ++ txt nl ++ txt nl ++
  concat (item_text <$> (dump_transitions max_depth_ 0 (transitions m) ∅ 0).1.1) ++
  txt nl ++ txt "@enduml" ++ txt nl.

(** ** Blocks *)

(** Reads the blocks: how many are open at the end, when [n] are open at the start. *)
Fixpoint nesting (n : nat) (out : list item) : option nat :=
  match out with
  | [] => Some n
  | Line _ :: out => nesting n out
  | Open _ :: out => nesting (S n) out
  | Close :: out => match n with 0 => None | S n => nesting n out end
  end.

Definition opened (out : list item) : list text :=
  omap (λ i, match i with Open name => Some name | _ => None end) out.

(** A balanced output that opens blocks for names that were not handled before. *)
Record well_dumped (handled : gset text) (out : list item) (handled' : gset text) : Prop := {
  wd_nesting : ∀ n, nesting n out = Some n;
  wd_distinct : NoDup (opened out);
  wd_new : ∀ x, x ∈ opened out → x ∉ handled;
  wd_handled : handled' = handled ∪ list_to_set (opened out) }.

Lemma nesting_app n out out' m : nesting n out = Some m → nesting n (out ++ out') = nesting m out'.
Proof.
  revert n. induction out as [|[t|name|] out IH]; intros n; cbn [nesting app]; [by intros [= ->]|apply IH..|].
  destruct n; [done|apply IH].
Qed.

Lemma opened_app out out' : opened (out ++ out') = opened out ++ opened out'.
Proof. apply omap_app. Qed.

Lemma well_dumped_lines handled out :
  (∀ i, i ∈ out → ∃ t, i = Line t) → well_dumped handled out handled.
Proof.
  intros Hl.
  assert (opened out = [] ∧ ∀ n, nesting n out = Some n) as [Ho Hn].
  { induction out as [|i out IH]; [done|].
    destruct (Hl i (list_elem_of_here _ _)) as [t ->]. apply IH. intros i Hi. apply Hl. by right. }
  split; rewrite ?Ho; [done|constructor|by intros x ?%elem_of_nil|by set_solver].
Qed.

Lemma well_dumped_app h out h' out' h'' :
  well_dumped h out h' → well_dumped h' out' h'' → well_dumped h (out ++ out') h''.
Proof.
  intros [Hn Hd Hnew ->] [Hn' Hd' Hnew' ->]. split.
  - intros n. by rewrite (nesting_app _ _ _ _ (Hn n)).
  - rewrite opened_app. apply NoDup_app. split; [done|]. split; [|done]. intros x Hx Hx'.
    apply (Hnew' x Hx'). set_solver.
  - rewrite opened_app. intros x [Hx|Hx]%elem_of_app; [by apply Hnew|]. specialize (Hnew' x Hx). set_solver.
  - rewrite opened_app, list_to_set_app_L. set_solver.
Qed.

Lemma well_dumped_block h name out h' :
  name ∉ h → well_dumped ({[name]} ∪ h) out h' → well_dumped h (Open name :: out ++ [Close]) h'.
Proof.
  intros Hname [Hn Hd Hnew ->].
  assert (opened (Open name :: out ++ [Close]) = name :: opened out) as Ho.
  { cbn. f_equal. change (opened (out ++ [Close]) = opened out). rewrite opened_app. cbn. by rewrite app_nil_r. }
  split; rewrite ?Ho.
  - intros n. cbn [nesting]. by rewrite (nesting_app _ _ _ _ (Hn (S n))).
  - constructor; [|done]. intros Hx. apply (Hnew name Hx). set_solver.
  - intros x [->|Hx]%elem_of_cons; [done|]. specialize (Hnew x Hx). set_solver.
  - cbn. set_solver.
Qed.

(** Induction on the nesting of tables. *)
Lemma row_nested_ind (P : row → Prop) :
  (∀ initial src dst e g a,
     (∀ t rows, dst = SMachine (Machine t rows) → Forall P rows) → P (Row initial src dst e g a)) →
  ∀ r, P r.
Proof.
  intros H. fix IH 1. intros [initial src [n|[t rows]| |] e g a]; apply H; try (intros ? ? ?; discriminate).
  assert (Forall P rows) as Hrows.
  { induction rows as [|r rows IHrows]; constructor; [apply IH|exact IHrows]. }
  intros t' rows' [= <- <-]. exact Hrows.
Qed.

Lemma dump_rows_cons f r rows handled starts :
  dump_rows f (r :: rows) handled starts =
  let '(out, h, s) := f r handled starts in
  let '(out', h', s') := dump_rows f rows h s in (out ++ out', h', s').
Proof. reflexivity. Qed.

(** A transition is dumped well from any handled set. *)
Definition dumps_well (f : row → gset text → nat → dumped) (r : row) : Prop :=
  ∀ handled starts, well_dumped handled (f r handled starts).1.1 (f r handled starts).1.2.

Lemma dump_rows_well f rows handled starts :
  Forall (dumps_well f) rows →
  well_dumped handled (dump_rows f rows handled starts).1.1 (dump_rows f rows handled starts).1.2.
Proof.
  intros Hf. revert handled starts. induction Hf as [|r rows Hr Hrows IH]; intros handled starts;
    rewrite ?dump_rows_cons.
  - apply well_dumped_lines. by intros i ?%elem_of_nil.
  - specialize (Hr handled starts). destruct (f r handled starts) as [[out h] s]. cbn in Hr.
    specialize (IH h s).
    destruct (dump_rows f rows h s) as [[out' h'] s']. cbn in *. by eapply well_dumped_app.
Qed.

Lemma initial_items_lines initial starts src i :
  i ∈ (initial_items initial starts src).1 → ∃ t, i = Line t.
Proof.
  unfold initial_items. destruct initial; [|by intros ?%elem_of_nil]. destruct (starts =? 0)%nat; cbn.
  - intros ->%list_elem_of_singleton. eauto.
  - intros [->| ->%list_elem_of_singleton]%elem_of_cons; eauto.
Qed.

Lemma dump_transition_well max_depth r : ∀ depth, dumps_well (dump_transition max_depth depth) r.
Proof.
  induction r as [initial src dst e g a IH] using row_nested_ind. intros depth handled starts.
  cbn [dump_transition].
  pose proof (λ i, initial_items_lines initial starts src i) as Hinit.
  destruct (initial_items initial starts src) as [out1 starts']. cbn [fst] in Hinit.
  match goal with |- context [let '(_, _) := ?x in _] => set (block := x) end.
  assert (well_dumped handled block.1 block.2) as Hblock.
  { subst block. destruct dst as [n|[t rows]| |].
    1,3,4: apply well_dumped_lines; by intros i ?%elem_of_nil.
    case_bool_decide as Hin; [apply well_dumped_lines; by intros i ?%elem_of_nil|].
    destruct (max_depth <? S depth)%nat.
    - apply (well_dumped_block handled (base_name t) []); [done|].
      apply well_dumped_lines. by intros i ?%elem_of_nil.
    - pose proof (dump_rows_well (dump_transition max_depth (S depth)) rows ({[base_name t]} ∪ handled) 0) as Hr.
      destruct (dump_rows _ rows _ 0) as [[out h] s]. cbn in *. apply well_dumped_block; [done|]. apply Hr.
      eapply Forall_impl; [by apply (IH t rows)|]. intros r Hr'. apply Hr'. }
  destruct block as [out2 h]. cbn in *.
  eapply well_dumped_app; [by apply well_dumped_lines|]. eapply well_dumped_app; [exact Hblock|].
  apply well_dumped_lines. intros i ->%list_elem_of_singleton. eauto.
Qed.

(** The line of a transition. *)
Definition row_line (r : row) : text := let 'Row _ src dst e g a := r in transition_line src dst e g a.
Definition row_machine (r : row) : option text :=
  let 'Row _ _ dst _ _ _ := r in match dst with SMachine (Machine t _) => Some (base_name t) | _ => None end.

(** A transition prints its line, and the sub-machine it leads to has been handled. *)
Lemma dump_transition_line max_depth depth r handled starts :
  let d := dump_transition max_depth depth r handled starts in
  Line (row_line r) ∈ d.1.1 ∧ ∀ name, row_machine r = Some name → name ∈ d.1.2.
Proof.
  pose proof (dump_transition_well max_depth r depth handled starts) as Hw.
  destruct r as [initial src dst e g a]. cbn [dump_transition] in *.
  destruct (initial_items initial starts src) as [out1 starts'].
  match goal with |- context [let '(_, _) := ?x in _] => set (block := x) in * end.
  assert (∀ name, row_machine (Row initial src dst e g a) = Some name → name ∈ block.2) as Hb.
  { intros name. subst block. destruct dst as [n|[t rows]| |]; try done. intros [= <-].
    case_bool_decide as Hin; [done|]. destruct (max_depth <? S depth)%nat; [set_solver|].
    pose proof (dump_rows_well (dump_transition max_depth (S depth)) rows ({[base_name t]} ∪ handled) 0) as Hr.
    destruct (dump_rows _ rows _ 0) as [[out h] s]. cbn in *.
    rewrite (wd_handled _ _ _ (Hr (Forall_true _ _ (λ r, dump_transition_well max_depth r (S depth))))).
    set_solver. }
  destruct block as [out2 h]. cbn in *. split; [|done].
  rewrite !elem_of_app. right. right. apply list_elem_of_here.
Qed.

Lemma dump_rows_lines max_depth depth rows handled starts r :
  r ∈ rows →
  let d := dump_rows (dump_transition max_depth depth) rows handled starts in
  Line (row_line r) ∈ d.1.1 ∧ ∀ name, row_machine r = Some name → name ∈ d.1.2.
Proof.
  revert handled starts. induction rows as [|r' rows IH]; intros handled starts; [by intros ?%elem_of_nil|].
  intros Hr. rewrite dump_rows_cons.
  pose proof (dump_transition_line max_depth depth r' handled starts) as Hl.
  destruct (dump_transition max_depth depth r' handled starts) as [[out h] s]. cbn in Hl.
  pose proof (dump_rows_well (dump_transition max_depth depth) rows h s
    (Forall_true _ _ (λ r, dump_transition_well max_depth r depth))) as Hw.
  specialize (IH h s). destruct (dump_rows _ rows h s) as [[out' h'] s']. cbn in *.
  apply elem_of_cons in Hr as [->|Hr].
  - destruct Hl as [Hl Hm]. split; [by apply elem_of_app; left|]. intros name Hname.
    rewrite (wd_handled _ _ _ Hw). specialize (Hm name Hname). set_solver.
  - destruct (IH Hr) as [Hl' Hm']. split; [by apply elem_of_app; right|done].
Qed.

(** The dump of a machine, to whatever depth, is a diagram: the blocks of sub-machines are
    balanced and none is printed twice, every transition of the machine has its line, and every
    sub-machine a transition of it leads to has its block. *)
Theorem dump_blocks (max_depth : nat) (m : machine) :
  let out := (dump_transitions max_depth 0 (transitions m) ∅ 0).1.1 in
  (∀ n, nesting n out = Some n) ∧ NoDup (opened out) ∧
  ∀ r, r ∈ transitions m →
    Line (row_line r) ∈ out ∧ ∀ name, row_machine r = Some name → Open name ∈ out.
Proof.
  cbn zeta. unfold dump_transitions. cbn [Nat.ltb Nat.leb].
  pose proof (dump_rows_well (dump_transition max_depth 0) (transitions m) ∅ 0
    (Forall_true _ _ (λ r, dump_transition_well max_depth r 0))) as Hw.
  pose proof (λ r, dump_rows_lines max_depth 0 (transitions m) ∅ 0 r) as Hl.
  destruct (dump_rows _ (transitions m) ∅ 0) as [[out h] s]. cbn in *.
  split; [apply Hw|]. split; [apply Hw|]. intros r Hr. destruct (Hl r Hr) as [Hline Hm].
  split; [done|]. intros name Hname. specialize (Hm name Hname).
  rewrite (wd_handled _ _ _ Hw), elem_of_union, elem_of_list_to_set in Hm.
  destruct Hm as [Hm|Hm]; [by apply elem_of_empty in Hm|].
  apply list_elem_of_omap in Hm as (i & Hi & Heq). destruct i; simplify_eq. done.
Qed.

(** ** The machine that the program dumps *)

(** A type of the namespace of the example. *)
Definition ns (t : string) : text := txt "some::extra::ns::" ++ txt t.

(* @src third_party_examples/sml_examples/src/sm_to_dump_example.h 47-58 subsub *)
Definition subsub : machine := Machine (ns "subsub")
  [Row true (SName (txt "subsub_idle")) SInternal EOnEntry None (Some (ALeaf (ns "action")));
   Row false (SName (txt "subsub_idle")) (SName (txt "s1")) (EType (ns "e3")) None (Some (ALeaf (ns "action")));
   Row false (SName (txt "s1")) STerminate (EType (ns "e4")) None (Some (ALeaf (ns "action")))].

(* @src third_party_examples/sml_examples/src/sm_to_dump_example.h 60-70 sub *)
(** [hook] is the name of the type of the closure that [hook_action] returns. *)
Definition sub (hook : text) : machine := Machine (ns "sub")
  [Row true (SName (txt "sub_idle")) (SMachine subsub) (EType (ns "e3")) None (Some (ALeaf (ns "action")));
   Row false (SName (txt "subsub")) STerminate (EType (ns "e4")) None (Some (ALeaf hook))].

Definition guards (k : string) : guard text := GLeaf (ns k).

(* @src third_party_examples/sml_examples/src/sm_to_dump_example.h 72-92 plant_uml *)
(** [closure] is the name of the type of the closure of the transition that ends [s2]; the
    third components of the sequences are the names of their types, which are not printed. *)
Definition plant_uml (hook closure raw : text) : machine := Machine (ns "plant_uml")
  [Row true (SName (txt "idle")) SInternal EOnEntry None (Some (ALeaf (ns "action")));
   Row false (SName (txt "idle")) SInternal EOnExit None (Some (ALeaf (ns "another_action")));
   Row false (SName (txt "idle")) (SMachine (sub hook)) (EType (ns "e1")) None None;
   Row false (SName (txt "idle")) (SMachine (sub hook)) (EType (ns "e5")) None None;
   Row false (SMachine (sub hook)) (SName (txt "s2")) (EType (ns "e2"))
     (Some (GOr (GNot (guards "guard1")) (GAnd (guards "guard2") (guards "guard3"))))
     (Some (sequence (ALeaf (ns "action")) [(ns "another_action", raw); (ns "special_action", raw)]));
   Row false (SName (txt "sub1")) (SName (txt "s2")) (EType (ns "e2"))
     (Some (GNot (GOr (guards "guard1") (GAnd (guards "guard2") (guards "guard3")))))
     (Some (sequence (ALeaf (ns "action")) [(ns "another_action", raw)]));
   Row false (SName (txt "sub2")) (SName (txt "s2")) (EType (ns "e2")) (Some (guards "guard"))
     (Some (ALeaf (ns "action")));
   Row false (SName (txt "s2")) (SName (txt "idle")) (EType (ns "e3")) (Some (guards "guard")) None;
   Row false (SName (txt "s2")) STerminate (EType (ns "e4")) None (Some (ALeaf closure));
   Row true (SName (txt "idle2")) (SName (txt "s17")) (EType (ns "e2")) None None;
   Row false (SName (txt "s17")) STerminate (EType (ns "e3")) None None].

(* @src third_party_examples/sml_examples/src/dump_uml.cpp 292-297 main *)
Definition dump_main (hook closure raw : text) : text := dump 1 (plant_uml hook closure raw).

(** The diagram of the program, with the transitions of [subsub] left out by the depth. *)
Example dump_main_output raw :
  dump_main (txt "ns::hook_action()::{lambda()#1}") (txt "plant_uml::operator()() const::{lambda()#1}") raw =
  concat ((λ l, txt l ++ txt nl) <$>
    ["@startuml"; EmptyString; "[*] --> idle"; "idle : on_entry / action"; "idle : on_exit / another_action";
     EmptyString; "state sub {"; "[*] --> sub_idle"; EmptyString; "state subsub {"; "}";
     "sub_idle --> subsub : e3 / action"; "subsub --> [*] : e4 / {lambda()#1}"; "}";
     "idle --> sub : e1"; "idle --> sub : e5";
     "sub --> s2 : e2 [(!guard1 || guard2 && guard3)] / action, another_action, special_action";
     "sub1 --> s2 : e2 [!((guard1 || guard2 && guard3))] / action, another_action";
     "sub2 --> s2 : e2 [guard] / action"; "s2 --> idle : e3 [guard]"; "s2 --> [*] : e4 / {lambda()#1}";
     "--"; "[*] --> idle2"; "idle2 --> s17 : e2"; "s17 --> [*] : e3"; EmptyString; "@enduml"]%string).
Proof. vm_compute. reflexivity. Qed.

(** The guard and the action of the transition from [sub1]. *)
Definition ns_type (t : string) : qualified := mkQualified [txt "some"; txt "extra"; txt "ns"] (txt t).

Lemma dump_reads_back_witness :
  let g := GNot (GOr (GLeaf (ns_type "guard1")) (GAnd (GLeaf (ns_type "guard2")) (GLeaf (ns_type "guard3")))) in
  let n := txt "!((guard1 || guard2 && guard3))" in
  (∃ f fuel, read_formula fuel n = Some f ∧
     ∀ env env', (∀ q, q ∈ leaves g → env' (ident q) = env q) → formula_value env' f = guard_value env g) ∧
  split_commas [] (txt "action, another_action") = [txt "action"; txt "another_action"].
Proof.
  cbv zeta.
  refine (dump_reads_back (GNot (GOr (GLeaf (ns_type "guard1")) (GAnd (GLeaf (ns_type "guard2")) (GLeaf (ns_type "guard3")))))
    (txt "!((guard1 || guard2 && guard3))") (ns_type "action") [(ns_type "another_action", [])] _ _ eq_refl);
    repeat constructor; discriminate.
Defined.
