(* ===== verification/CanOpen.v ===== *)
(** The CANopen master, passive master and slave:
    [src/third_party_examples/lely_examples/master.cpp], [passive_master.cpp], [slave.cpp],
    [tutorial.cpp], [master_manual_sync.cpp] and [syslog_diag_handler.h].

    The lely library is the environment: [lely_call] lists what the programs call, [lely_ret]
    the answers.  An SDO request or [ConfigHeartbeat] is answered by an [sdo_answer]: it may throw an
    [SdoError] or something else, and what is not caught in a handler ends the process, as the
    handlers are [noexcept].  Objects of a dictionary are found by index and sub-index.

    [Module Exchange] is the bus between [master.cpp] and [slave.cpp]: each side sends its
    mapped object by PDO and calls the other's handler on arrival, in any order, with any
    number of frames on the way.  The mapping is that of [cpp-slave.eds]: object 4001:00 of
    the slave goes to the master, object 4000:00 comes from it.

    The theorems: the configuration reports to the library exactly once, with the first
    error; and the two sides count together, modulo 2^32. *)
From S2P Require Import Prelude Text.
From stdpp Require Import gmap.
Local Open Scope Z_scope.

(** ** The library *)

Inductive sdo_answer := Done | SdoFailed (code : Z) | Failed.

Inductive lely_call :=
| Cout (t : text) | Cerr (t : text)
| AsyncWrite (width idx subidx val : Z)     (* and [Wait] for the future *)
| ConfigHeartbeat (ms : Z)
| Res (ec : option Z)                       (* [None] is the empty error code *)
| SetDiagHandlers
| CanController (name : option text)        (* [None] is a null pointer *)
| ChanOpen | ChanWrite (id len : Z) (data : list Z)
| AsyncMaster (dcf : text) (id : option Z) | MyDriver (id : Z) | MySlave (eds : text) (id : Z)
| SigInsert (signal : string) | SubmitWait | SigClear
| AsyncDeconfig | CtxShutdown | Reset | LoopRun.

Definition lely_ret (c : lely_call) : Type :=
  match c with
  | AsyncWrite _ _ _ _ | ConfigHeartbeat _ => sdo_answer
  | CanController _ | ChanOpen | ChanWrite _ _ _ | AsyncMaster _ _ | MyDriver _ | MySlave _ _ => bool
  | _ => unit
  end.

(** How a function that must not throw, or [main], ends. *)
Inductive ending := Returned (status : Z) | Terminated | Undefined (why : string).

(** Programs that may throw: [inl] is an [SdoError] with its code, or ([None]) anything else. *)
Definition Fiber (A : Type) : Type := prog lely_ret (option Z + A).
#[global] Instance Fiber_ret : MRet Fiber := λ A a, Ret (inr a).
#[global] Instance Fiber_bind : MBind Fiber := λ A B f p,
  prog_bind p (λ r, match r with inl e => Ret (inl e) | inr a => f a end).

Definition lely (c : lely_call) : Fiber (lely_ret c) := Call c (λ r, Ret (inr r)).
Definition thrown (r : sdo_answer) : Fiber unit :=
  match r with Done => mret tt | SdoFailed code => Ret (inl (Some code)) | Failed => Ret (inl None) end.
Definition Wait (width idx subidx val : Z) : Fiber unit := r ← lely (AsyncWrite width idx subidx val); thrown r.
Definition Heartbeat (ms : Z) : Fiber unit := r ← lely (ConfigHeartbeat ms); thrown r.
(** A constructor or operation that throws a [system_error] when it fails. *)
Definition checked (c : lely_call) (ok : lely_ret c → bool) : Fiber unit :=
  r ← lely c; if ok r then mret tt else Ret (inl None).

(** [try { p } catch (SdoError& e) { handler(e.code()) }] *)
Definition try_sdo (p : Fiber unit) (handler : Z → Fiber unit) : Fiber unit :=
  prog_bind p (λ r, match r with inl (Some code) => handler code | _ => Ret r end).

(** A [noexcept] function. *)
Definition noexcept (p : Fiber unit) : prog lely_ret ending :=
  prog_bind p (λ r, Ret (match r with inr _ => Returned 0 | inl _ => Terminated end)).

Inductive NmtState := BOOTUP | STOP | START | RESET_NODE | RESET_COMM | PREOP | TOGGLE | OtherState (v : Z).

(* @src third_party_examples/lely_examples/master.cpp 28-47 to_string *)
Definition to_string (state : NmtState) : string :=
  match state with
  | BOOTUP => "BOOTUP" | STOP => "STOP" | START => "START" | RESET_NODE => "RESET_NODE"
  | RESET_COMM => "RESET_COMM" | PREOP => "PREOP" | TOGGLE => "TOGGLE" | OtherState _ => "UNKNOWN"
  end.

Definition says (id : Z) (what : text) : text := txt "slave " ++ to_text id ++ what ++ txt nl.

(** ** The master *)
Module Master.

(* @src third_party_examples/lely_examples/master.cpp 57-69 MyDriver::OnBoot *)
(** [es] is the error character, the null character on success. *)
Definition OnBoot (id : Z) (nmt_state : NmtState) (es : ascii) (what : text) : prog lely_ret ending :=
  noexcept (
    lely (Cout (says id (txt " state: " ++ txt (to_string nmt_state))));;
    if Ascii.eqb es "000" || Ascii.eqb es "L" then lely (Cout (says id (txt " booted sucessfully")))
    else lely (Cout (says id (txt " failed to boot: " ++ what)))).

(* @src third_party_examples/lely_examples/master.cpp 71-74 MyDriver::OnState *)
Definition OnState (id : Z) (nmt_state : NmtState) : prog lely_ret ending :=
  noexcept (lely (Cout (says id (txt " state: " ++ txt (to_string nmt_state))))).

(* @src third_party_examples/lely_examples/master.cpp 76-107 MyDriver::OnConfig *)
Definition OnConfig : prog lely_ret ending :=
  noexcept (try_sdo (
    Wait 32 0x1016 1 (Z.lor (Z.shiftl 1 16) 2000);;
    Wait 16 0x1017 0 1000;;
    Heartbeat 2000;;
    Wait 32 0x4000 0 0;;
    Wait 32 0x4001 0 0;;
    lely (Res None)) (λ code, lely (Res (Some code)))).

(* @src third_party_examples/lely_examples/master.cpp 109-123 MyDriver::OnDeconfig *)
Definition OnDeconfig : prog lely_ret ending :=
  noexcept (try_sdo (
    Heartbeat 0;;
    Wait 16 0x1017 0 0;;
    Wait 32 0x1016 1 0;;
    lely (Res None)) (λ code, lely (Res (Some code)))).

(** What the library keeps for the driver: the objects mapped by PDO, at the slave's index. *)
Abbreviation objects := (gmap (Z * Z) Z).
Record driver := Driver { id : Z; rpdo_mapped : objects; tpdo_mapped : objects }.

(* @src third_party_examples/lely_examples/master.cpp 125-141 MyDriver::OnRpdoWrite *)
(** The new state and the text printed; an object that is not mapped throws. *)
Definition OnRpdoWrite (idx subidx : Z) (d : driver) : outcome driver * list text :=
  if (idx =? 0x4001) && (subidx =? 0) then
    match rpdo_mapped d !! (0x4001, 0) with
    | None => (Throw "SdoError", [])
    | Some val =>
        (match tpdo_mapped d !! (0x4000, 0) with
         | None => Throw "SdoError"
         | Some _ => Ok (Driver (id d) (rpdo_mapped d) (<[(0x4000, 0) := uwrap 32 (val + 1)]> (tpdo_mapped d)))
         end,
         [txt "Received value " ++ to_text val ++ txt " from slave " ++ to_text (id d) ++ txt nl])
    end
  else (Ok d, []).

(* @src third_party_examples/lely_examples/master.cpp 145-148 main *)
(** [argv[0]] is a null pointer when there are no arguments at all. *)
Definition usage (argv : list text) (rest : string) : prog lely_ret ending :=
  match argv with
  | [] => Ret (Undefined "null pointer printed")
  | name :: _ => call (Cerr (txt "Usage: " ++ name ++ txt rest ++ txt nl));; Ret (Returned 1)
  end.

(** [main] after its test of the arguments: an exception is not caught. *)
Definition uncaught : Fiber unit → prog lely_ret ending := noexcept.

(* @src third_party_examples/lely_examples/master.cpp 150-185 main *)
(** The context, the polling instance, the loop and the timer have no arguments that depend
    on the program. *)
Definition open_channel (interface : option text) : Fiber unit :=
  lely SetDiagHandlers;; checked (CanController interface) (λ b, b);; checked ChanOpen (λ b, b).

(* @src third_party_examples/lely_examples/master.cpp 196-204 main *)
Definition watch_signals : Fiber unit :=
  lely (SigInsert "SIGHUP");; lely (SigInsert "SIGINT");; lely (SigInsert "SIGTERM");; lely SubmitWait.

(* @src third_party_examples/lely_examples/master.cpp 144-236 main *)
Definition main (argv : list text) : prog lely_ret ending :=
  match argv with
  | [_; interface; dcf] =>
      uncaught (
        open_channel (Some interface);;
        checked (AsyncMaster dcf None) (λ b, b);;
        checked (MyDriver 1) (λ b, b);;
        watch_signals;;
        lely Reset;; lely LoopRun)
  | _ => usage argv " <can-interface> <master-dcf-path>"
  end.

(* @src third_party_examples/lely_examples/master.cpp 204-213 main *)
(** The task of the signal set, and the task submitted to the deconfiguration. *)
Definition on_signal : Fiber unit := lely SigClear;; lely AsyncDeconfig.
Definition on_deconfigured : Fiber unit := lely CtxShutdown.

End Master.

(** ** The passive master *)
Module Passive.

(* @src third_party_examples/lely_examples/passive_master.cpp 36-46 MyDriver::OnBoot *)
Definition OnBoot (id : Z) (st : NmtState) (es : ascii) (what : text) : prog lely_ret ending :=
  noexcept (
    if Ascii.eqb es "000" || Ascii.eqb es "L" then lely (Cout (says id (txt " booted sucessfully")))
    else lely (Cout (says id (txt " failed to boot: " ++ what)))).

(* @src third_party_examples/lely_examples/passive_master.cpp 48-79 MyDriver::OnState *)
Definition OnState (id : Z) (nmt_state : NmtState) : prog lely_ret ending :=
  let nmt_state_str : string :=
    match nmt_state with
    | BOOTUP => "BOOTUP" | STOP => "STOP" | START => "START" | RESET_NODE => "RESET_NODE"
    | RESET_COMM => "RESET_COMM" | PREOP => "PREOP" | TOGGLE => "TOGGLE" | OtherState _ => "UNKNOWN"
    end in
  noexcept (lely (Cout (says id (txt " state: " ++ txt nmt_state_str)))).

(* @src third_party_examples/lely_examples/passive_master.cpp 81-94 MyDriver::OnRpdoWrite *)
Definition OnRpdoWrite (idx subidx : Z) (d : Master.driver) : outcome Master.driver * list text :=
  if (idx =? 0x4001) && (subidx =? 0) then
    match Master.rpdo_mapped d !! (0x4001, 0) with
    | None => (Throw "SdoError", [])
    | Some val =>
        (Ok d, [txt "Received value " ++ to_text val ++ txt " from slave " ++ to_text (Master.id d) ++ txt nl])
    end
  else (Ok d, []).

(* @src third_party_examples/lely_examples/passive_master.cpp 97-189 main *)
Definition main (argv : list text) : prog lely_ret ending :=
  match argv with
  | [_; interface; dcf] =>
      Master.uncaught (
        Master.open_channel (Some interface);;
        checked (AsyncMaster dcf None) (λ b, b);;
        checked (MyDriver 1) (λ b, b);;
        Master.watch_signals;;
        lely Reset;; lely LoopRun)
  | _ => Master.usage argv " <can-interface> <master-dcf-path>"
  end.

End Passive.

(** ** The slave *)
Module Slave.

Abbreviation dictionary := (gmap (Z * Z) Z).

(* @src third_party_examples/lely_examples/slave.cpp 58-68 MySlave::OnWrite *)
Definition OnWrite (idx subidx : Z) (d : dictionary) : outcome dictionary * list text :=
  if (idx =? 0x4000) && (subidx =? 0) then
    match d !! (0x4000, 0) with
    | None => (Throw "SdoError", [])
    | Some val =>
        (match d !! (0x4001, 0) with
         | None => Throw "SdoError"
         | Some _ => Ok (<[(0x4001, 0) := val]> d)
         end,
         [txt "Received value: " ++ to_text val ++ txt nl])
    end
  else (Ok d, []).

(** A value arrives for an object of the dictionary: the library stores it and calls [OnWrite]. *)
Definition arrives (idx subidx val : Z) (d : dictionary) : outcome dictionary * list text :=
  OnWrite idx subidx (<[(idx, subidx) := val]> d).

(* @src third_party_examples/lely_examples/slave.cpp 71-152 main *)
(** A wrong number of arguments is reported, and the program goes on. *)
Definition main (argv : list text) : prog lely_ret ending :=
  let go : prog lely_ret ending :=
    Master.uncaught (
      Master.open_channel (argv !! 1%nat);;
      checked (MySlave (txt "cpp-slave.eds") 1) (λ b, b);;
      Master.watch_signals;;
      lely Reset;; lely LoopRun) in
  match argv with
  | [_; _] => go
  | [] => Ret (Undefined "null pointer printed")
  | name :: _ => call (Cerr (txt "Usage: " ++ name ++ txt " <can-interface>" ++ txt nl));; go
  end.

(* @src third_party_examples/lely_examples/slave.cpp 124-129 main *)
Definition on_signal : Fiber unit := lely SigClear;; lely CtxShutdown.

End Slave.

(* @src third_party_examples/lely_examples/tutorial.cpp 21-89 main *)
Definition tutorial_main : prog lely_ret ending :=
  Master.uncaught (
    checked (CanController (Some (txt "vcan0"))) (λ b, b);; checked ChanOpen (λ b, b);;
    Master.watch_signals;; lely LoopRun).

(* @src third_party_examples/lely_examples/master_manual_sync.cpp 9-39 main *)
Definition manual_sync_main (argv : list text) : prog lely_ret ending :=
  match argv with
  | [_; interface] =>
      Master.uncaught (
        checked (CanController (Some interface)) (λ b, b);; checked ChanOpen (λ b, b);;
        checked (AsyncMaster (txt "master.dcf") (Some 1)) (λ b, b);;
        checked (ChanWrite 0x80 1 [0]) (λ b, b);;
        lely LoopRun)
  | _ => Master.usage argv " <can-interface>"
  end.

(** ** Diagnostics *)
Inductive diag_severity := DIAG_DEBUG | DIAG_INFO | DIAG_WARNING | DIAG_ERROR | DIAG_FATAL.
Inductive log_level := LOG_DEBUG | LOG_INFO | LOG_WARNING | LOG_ERR | LOG_CRIT.

(* @src third_party_examples/lely_examples/syslog_diag_handler.h 21-54 syslog_diag_at_handler *)
(** [formatted] is what [vasprintf_diag_at] allocates, with [DIAG_INFO] as its severity, and
    [clobber] the effect of the calls on [errno]; what is logged, and [errno] on return. *)
Definition syslog_diag_at_handler (severity : diag_severity) (formatted : option text) (clobber : Z → Z)
    (errno : Z) : list (log_level * text) * Z :=
  let errsv := errno in
  let _ := clobber errno in
  let out :=
    match formatted with
    | Some s =>
        let level := match severity with
                     | DIAG_DEBUG => LOG_DEBUG | DIAG_INFO => LOG_INFO | DIAG_WARNING => LOG_WARNING
                     | DIAG_ERROR => LOG_ERR | DIAG_FATAL => LOG_CRIT
                     end in
        [(level, txt "lely: " ++ s)]
    | None => []
    end in
  (out, errsv).

(** ** Reports of a configuration *)

(** The reference: the steps in order up to the first that fails, and one report. *)
Inductive config_step := CWrite (width idx subidx val : Z) | CHeartbeat (ms : Z).
Definition step_call (s : config_step) : lely_call :=
  match s with CWrite w i j v => AsyncWrite w i j v | CHeartbeat ms => ConfigHeartbeat ms end.

Definition step_prog (s : config_step) : prog lely_ret sdo_answer :=
  match s with CWrite w i j v => call (AsyncWrite w i j v) | CHeartbeat ms => call (ConfigHeartbeat ms) end.

Fixpoint configure (steps : list config_step) : prog lely_ret ending :=
  match steps with
  | [] => call (Res None);; Ret (Returned 0)
  | s :: steps =>
      r ← step_prog s;
      match r with
      | Done => configure steps
      | SdoFailed code => call (Res (Some code));; Ret (Returned 0)
      | Failed => Ret Terminated
      end
  end.

(** The answer to a step in a history. *)
Definition answered (e : sigT lely_ret) : option sdo_answer :=
  match e with
  | existT (AsyncWrite _ _ _ _) r | existT (ConfigHeartbeat _) r => Some r
  | _ => None
  end.

Definition config_steps : list config_step :=
  [CWrite 32 0x1016 1 (Z.lor (Z.shiftl 1 16) 2000); CWrite 16 0x1017 0 1000; CHeartbeat 2000; CWrite 32 0x4000 0 0; CWrite 32 0x4001 0 0].
Definition deconfig_steps : list config_step := [CHeartbeat 0; CWrite 16 0x1017 0 0; CWrite 32 0x1016 1 0].

(** Runs both programs to the next answer. *)
Ltac next_answer :=
  cbn; match goal with |- context [match ?env ?h ?c with Done => _ | _ => _ end] => destruct (env h c) end.

Lemma run_OnConfig env h : run env Master.OnConfig h = run env (configure config_steps) h.
Proof. do 5 (next_answer; [|done|done]). done. Qed.

Lemma run_OnDeconfig env h : run env Master.OnDeconfig h = run env (configure deconfig_steps) h.
Proof. do 3 (next_answer; [|done|done]). done. Qed.

(** The outcome of the reference: [k] steps were tried, the last of which is the one that
    failed, if any did. *)
Definition reported (steps : list config_step) (e : ending) (h h' : history lely_ret) : Prop :=
  ∃ (k : nat) (tried : history lely_ret),
    calls tried = step_call <$> take k steps ∧
    ((e = Returned 0 ∧ k = length steps ∧ h' = h ++ tried ++ [existT (Res None) tt] ∧
      Forall (λ x, answered x = Some Done) tried) ∨
     ∃ ok bad, tried = ok ++ [bad] ∧ Forall (λ x, answered x = Some Done) ok ∧
       ((∃ code, answered bad = Some (SdoFailed code) ∧
          e = Returned 0 ∧ h' = h ++ tried ++ [existT (Res (Some code)) tt]) ∨
        (answered bad = Some Failed ∧ e = Terminated ∧ h' = h ++ tried))).

Lemma run_step env s (f : sdo_answer → prog lely_ret ending) h :
  ∃ x r, projT1 x = step_call s ∧ answered x = Some r ∧ run env (step_prog s ≫= f) h = run env (f r) (h ++ [x]).
Proof.
  destruct s as [w i j v|ms]; [exists (existT (AsyncWrite w i j v) (env h (AsyncWrite w i j v)))|
    exists (existT (ConfigHeartbeat ms) (env h (ConfigHeartbeat ms)))]; eexists; repeat split.
Qed.

Lemma run_unit env c (r : lely_ret c) (e : ending) h :
  (∀ x : lely_ret c, x = r) → run env (call c;; Ret e) h = (e, h ++ [existT c r]).
Proof. intros Hx. cbn. by rewrite (Hx (env h c)). Qed.

Lemma configure_reports env steps h :
  reported steps (run env (configure steps) h).1 h (run env (configure steps) h).2.
Proof.
  revert h. induction steps as [|s steps IH]; intros h; cbn [configure].
  - rewrite (run_unit env (Res None) tt) by by intros []. exists 0%nat, []. split; [done|]. left. by repeat split.
  - destruct (run_step env s (λ r, match r with
      | Done => configure steps | SdoFailed code => call (Res (Some code));; Ret (Returned 0)
      | Failed => Ret Terminated end) h) as (x & r & Hc & Hr & ->).
    destruct r as [|code|].
    + destruct (IH (h ++ [x])) as (k & tried & Ht & Hcase). exists (S k), (x :: tried). split.
      { unfold calls in *. cbn. by rewrite Hc, Ht. }
      destruct Hcase as [(He & Hk & Hh & Hall)|(ok & bad & -> & Hok & Hcase)].
      * left. rewrite He, Hk, Hh, <- app_assoc. split; [done|]. split; [done|]. split; [done|]. by constructor.
      * right. exists (x :: ok), bad. split; [done|]. split; [by constructor|].
        destruct Hcase as [(code & Hb & He & Hh)|(Hb & He & Hh)]; [left; exists code|right];
          rewrite Hb, He, Hh; cbn [app]; rewrite <- ?app_assoc; cbn [app]; rewrite <- ?app_assoc; by repeat split.
    + rewrite (run_unit env (Res (Some code)) tt) by by intros [].
      exists 1%nat, [x]. split; [by unfold calls; cbn; rewrite Hc|]. right. exists [], x. split; [done|]. split; [done|].
      left. exists code. cbn. by rewrite <- app_assoc.
    + exists 1%nat, [x]. split; [by unfold calls; cbn; rewrite Hc|]. right. exists [], x. split; [done|]. split; [done|].
      by right.
Qed.

(** The configuration and the deconfiguration of a slave report to the library exactly
    once, whatever the library answers, unless an exception that is not an [SdoError] ends
    the process: they make the requests of the script in order up to the first that fails
    with an SDO error and report its code, or make them all and report success. *)
Theorem configuration_reports (env : environment lely_ret) (h : history lely_ret) :
  (let '(e, h') := run env Master.OnConfig h in reported config_steps e h h') ∧
  (let '(e, h') := run env Master.OnDeconfig h in reported deconfig_steps e h h').
Proof.
  rewrite run_OnConfig, run_OnDeconfig.
  pose proof (configure_reports env config_steps h) as Hc.
  pose proof (configure_reports env deconfig_steps h) as Hd.
  destruct (run env (configure config_steps) h), (run env (configure deconfig_steps) h). done.
Qed.

(** ** The exchange of values *)
Module Exchange.

(** The bus between a master and a slave: the driver's and the slave's objects, the frames on
    the way (oldest first), what each side has printed, and whether a handler has thrown. *)
Record bus := Bus {
  driver : Master.driver; slave : Slave.dictionary;
  to_master : list Z; to_slave : list Z;
  master_out : list text; slave_out : list text;
  terminated : bool }.

Inductive move := SlaveSends | MasterSends | MasterGets | SlaveGets.

(** A value arrives in an object mapped by PDO; the library calls [OnRpdoWrite]. *)
Definition rpdo_arrives (val : Z) (d : Master.driver) : outcome Master.driver * list text :=
  Master.OnRpdoWrite 0x4001 0
    (Master.Driver (Master.id d) (<[(0x4001, 0) := val]> (Master.rpdo_mapped d)) (Master.tpdo_mapped d)).

Definition master_gets (val : Z) (rest : list Z) (b : bus) : bus :=
  let '(o, out) := rpdo_arrives val (driver b) in
  Bus (match o with Ok d => d | _ => driver b end) (slave b) rest (to_slave b)
    (master_out b ++ out) (slave_out b) (negb (is_ok o)).

Definition slave_gets (val : Z) (rest : list Z) (b : bus) : bus :=
  let '(o, out) := Slave.arrives 0x4000 0 val (slave b) in
  Bus (driver b) (match o with Ok d => d | _ => slave b end) (to_master b) rest
    (master_out b) (slave_out b ++ out) (negb (is_ok o)).

Definition exec (m : move) (b : bus) : option bus :=
  if terminated b then None else
  match m with
  | SlaveSends =>
      val ← slave b !! (0x4001, 0);
      Some (Bus (driver b) (slave b) (to_master b ++ [val]) (to_slave b) (master_out b) (slave_out b) false)
  | MasterSends =>
      val ← Master.tpdo_mapped (driver b) !! (0x4000, 0);
      Some (Bus (driver b) (slave b) (to_master b) (to_slave b ++ [val]) (master_out b) (slave_out b) false)
  | MasterGets => match to_master b with [] => None | val :: rest => Some (master_gets val rest b) end
  | SlaveGets => match to_slave b with [] => None | val :: rest => Some (slave_gets val rest b) end
  end.

(** The start: the mapped objects of the master are zero, and so are the slave's. *)
Definition start (id : Z) (d : Slave.dictionary) : bus :=
  Bus (Master.Driver id {[(0x4001, 0) := 0]} {[(0x4000, 0) := 0]}) d [] [] [] [] false.

Abbreviation u := (uwrap 32).

(** [lo], the elements of [l] and [hi] do not decrease. *)
Fixpoint chain (lo : Z) (l : list Z) (hi : Z) : Prop :=
  match l with [] => lo ≤ hi | x :: l => lo ≤ x ∧ chain x l hi end.

(** Each element is the one before it ([k] for the first), or the next number. *)
Fixpoint counts_from (k : Z) (l : list Z) : Prop :=
  match l with [] => True | x :: l => (x = k ∨ x = k + 1) ∧ counts_from x l end.

Definition master_line (id v : Z) : text :=
  txt "Received value " ++ to_text (u v) ++ txt " from slave " ++ to_text id ++ txt nl.
Definition slave_line (v : Z) : text := txt "Received value: " ++ to_text (u v) ++ txt nl.

(** [n] is the master's value, [s] the slave's and [lo] the last one the master has received,
    counted without wrapping; [lm], [ls] are the frames, [pm], [ps] the values printed. *)
Record counting (id : Z) (b : bus) (lo n s : Z) (lm ls pm ps : list Z) : Prop := {
  c_running : terminated b = false;
  c_id : Master.id (driver b) = id;
  c_master : Master.tpdo_mapped (driver b) !! (0x4000, 0) = Some (u n);
  c_slave : slave b !! (0x4001, 0) = Some (u s);
  c_to_master : to_master b = u <$> lm;
  c_to_slave : to_slave b = u <$> ls;
  c_next : n = lo + 1 ∨ (n = 0 ∧ lo = 0);
  c_up : chain lo lm s;
  c_down : chain s ls n;
  c_master_out : master_out b = master_line id <$> pm;
  c_slave_out : slave_out b = slave_line <$> ps;
  c_pm : counts_from 0 pm ∧ default 0 (last pm) = lo;
  c_ps : counts_from 0 ps ∧ default 0 (last ps) = s }.

Lemma chain_snoc lo l hi : chain lo l hi → chain lo (l ++ [hi]) hi.
Proof. revert lo. induction l as [|x l IH]; intros lo; cbn; [lia|]. intros [? ?]. auto. Qed.
Lemma chain_le lo l hi : chain lo l hi → lo ≤ hi.
Proof. revert lo. induction l as [|x l IH]; intros lo; cbn; [done|]. intros [? H%IH]. lia. Qed.
Lemma chain_mono lo l hi hi' : chain lo l hi → hi ≤ hi' → chain lo l hi'.
Proof. revert lo. induction l as [|x l IH]; intros lo; cbn; [lia|]. intros [? ?] ?. auto. Qed.

Lemma counts_from_snoc k l x :
  counts_from k l → (x = default k (last l) ∨ x = default k (last l) + 1) →
  counts_from k (l ++ [x]) ∧ default k (last (l ++ [x])) = x.
Proof.
  intros Hl Hx. split; [|by rewrite last_snoc].
  revert k Hl Hx. induction l as [|y l IH]; intros k; cbn [counts_from app]; [cbn; auto|].
  intros [Hy Hl] Hx. split; [done|]. apply IH; [done|]. rewrite last_cons in Hx. by destruct (last l).
Qed.

Lemma u_next v : u (u v + 1) = u (v + 1).
Proof. unfold u. by rewrite Z.add_mod_idemp_l. Qed.

(** Moves keep the count, with new witnesses for what they change. *)
Definition counted (id : Z) (b : bus) : Prop := ∃ lo n s lm ls pm ps, counting id b lo n s lm ls pm ps.

Lemma master_gets_counted id b lo n s x lm ls pm ps :
  counting id b lo n s (x :: lm) ls pm ps → counting id (master_gets (u x) (u <$> lm) b) x (x + 1) s lm ls (pm ++ [x]) ps.
Proof.
  intros [Hr Hid Hm Hs Htm Hts Hn [Hx Hu] Hd Hmo Hso [Hpm Hlo] Hps]. unfold master_gets, rpdo_arrives, Master.OnRpdoWrite.
  cbn [Z.eqb Pos.eqb andb Master.rpdo_mapped Master.tpdo_mapped Master.id].
  rewrite lookup_insert_eq, Hm. pose proof (chain_le _ _ _ Hu). pose proof (chain_le _ _ _ Hd).
  split; cbn; try done; [by rewrite u_next, lookup_insert_eq|by left|eapply chain_mono; [done|lia]| |].
  - by rewrite Hmo, Hid, fmap_app.
  - apply counts_from_snoc; [done|]. lia.
Qed.

Lemma slave_gets_counted id b lo n s x lm ls pm ps :
  counting id b lo n s lm (x :: ls) pm ps → counting id (slave_gets (u x) (u <$> ls) b) lo n x lm ls pm (ps ++ [x]).
Proof.
  intros [Hr Hid Hm Hs Htm Hts Hn Hu [Hx Hd] Hmo Hso Hpm [Hps Hlast]]. unfold slave_gets, Slave.arrives, Slave.OnWrite.
  cbn [Z.eqb Pos.eqb andb].
  rewrite lookup_insert_eq, lookup_insert_ne, Hs by done.
  pose proof (chain_le _ _ _ Hu). pose proof (chain_le _ _ _ Hd).
  split; cbn; try done; [by rewrite lookup_insert_eq|eapply chain_mono; [done|lia]| |].
  - by rewrite Hso, fmap_app.
  - apply counts_from_snoc; [done|]. lia.
Qed.

Lemma exec_counted id m b b' : counted id b → exec m b = Some b' → counted id b'.
Proof.
  intros (lo & n & s & lm & ls & pm & ps & C). pose proof C as [Hr Hid Hm Hs Htm Hts Hn Hu Hd Hmo Hso Hpm Hps].
  unfold exec. rewrite Hr. destruct m.
  - rewrite Hs. intros [= <-]. exists lo, n, s, (lm ++ [s]), ls, pm, ps.
    split; cbn; rewrite ?fmap_app, ?Htm; auto using chain_snoc.
  - rewrite Hm. intros [= <-]. exists lo, n, s, lm, (ls ++ [n]), pm, ps.
    split; cbn; rewrite ?fmap_app, ?Hts; auto using chain_snoc.
  - rewrite Htm. destruct lm as [|x lm]; [done|]. intros [= <-].
    exists x, (x + 1), s, lm, ls, (pm ++ [x]), ps. by eapply master_gets_counted.
  - rewrite Hts. destruct ls as [|x ls]; [done|]. intros [= <-].
    exists lo, n, x, lm, ls, pm, (ps ++ [x]). by eapply slave_gets_counted.
Qed.

Lemma start_counted id d : d !! (0x4001, 0) = Some 0 → counted id (start id d).
Proof. intros Hd. exists 0, 0, 0, [], [], [], []. split; cbn; auto; lia. Qed.

(** Rounds of SYNC: both sides send, then both receive. *)
Definition round : list move := [SlaveSends; MasterSends; MasterGets; SlaveGets].
Definition rounds (k : nat) : list move := concat (replicate k round).

(** The values with nothing on the way. *)
Definition at_rest (id n s : Z) (b : bus) : Prop := ∃ lo pm ps, counting id b lo n s [] [] pm ps.

Lemma exec_round id n s b :
  at_rest id n s b → ∃ b', exec_all exec round b = Some b' ∧ at_rest id (s + 1) n b'.
Proof.
  intros (lo & pm & ps & C). pose proof C as [Hr Hid Hm Hs Htm Hts Hn Hu Hd Hmo Hso Hpm Hps]. cbn in Hu, Hd.
  set (b1 := Bus (driver b) (slave b) (u <$> [s]) (to_slave b) (master_out b) (slave_out b) false).
  set (b2 := Bus (driver b) (slave b) (u <$> [s]) (u <$> [n]) (master_out b) (slave_out b) false).
  assert (counting id b2 lo n s [s] [n] pm ps) as C2 by (split; cbn; auto with lia).
  pose proof (master_gets_counted _ _ _ _ _ _ _ _ _ _ C2) as C3.
  pose proof (slave_gets_counted _ _ _ _ _ _ _ _ _ _ C3) as C4.
  assert (exec SlaveSends b = Some b1) as E1 by (unfold exec; rewrite Hr, Hs; cbn; by rewrite Htm).
  assert (exec MasterSends b1 = Some b2) as E2 by (unfold exec; cbn; rewrite Hm; cbn; by rewrite Hts).
  assert (exec SlaveGets (master_gets (u s) (u <$> []) b2) =
          Some (slave_gets (u n) (u <$> []) (master_gets (u s) (u <$> []) b2))) as E4.
  { unfold exec. by rewrite (c_running _ _ _ _ _ _ _ _ _ C3), (c_to_slave _ _ _ _ _ _ _ _ _ C3). }
  eexists. split; [|by exists s, (pm ++ [s]), (ps ++ [n])].
  cbn [exec_all round]. rewrite E1. cbn [mbind option_bind]. rewrite E2. cbn [mbind option_bind].
  change (exec MasterGets b2) with (Some (master_gets (u s) (u <$> []) b2)). cbn [mbind option_bind].
  by rewrite E4.
Qed.

Lemma exec_rounds id k : ∀ n b, at_rest id n n b →
  ∃ b', exec_all exec (rounds (2 * k)) b = Some b' ∧ at_rest id (n + Z.of_nat k) (n + Z.of_nat k) b'.
Proof.
  induction k as [|k IH]; intros n b Hb; [exists b; rewrite Z.add_0_r; done|].
  replace (rounds (2 * S k)) with (round ++ round ++ rounds (2 * k)) by by replace (2 * S k)%nat with (S (S (2 * k))) by lia.
  destruct (exec_round id n n b Hb) as (b1 & E1 & H1). destruct (exec_round id _ _ b1 H1) as (b2 & E2 & H2).
  destruct (IH (n + 1) b2) as (b' & E & H'); [done|]. exists b'.
  rewrite !exec_all_app, E1. cbn [mbind option_bind]. rewrite exec_all_app, E2. cbn [mbind option_bind].
  split; [done|]. by replace (n + Z.of_nat (S k)) with (n + 1 + Z.of_nat k) by lia.
Qed.

(** C22: the master and the slave count together.  However the frames between them are sent
    and delayed, no handler throws, the value of the master is that of the slave or the next
    one, and each side prints values that start from 0 and go up by at most one from line to
    line, all modulo 2^32; and every two rounds of the SYNC, in which both sides send and then
    receive, raise both values by one. *)
Theorem values_count (id : Z) (d : Slave.dictionary) (b : bus) :
  d !! (0x4001, 0) = Some 0 → rtc (move_step exec) (start id d) b →
  (∃ n s pm ps,
    terminated b = false ∧
    Master.tpdo_mapped (driver b) !! (0x4000, 0) = Some (u n) ∧ slave b !! (0x4001, 0) = Some (u s) ∧
    (n = s ∨ n = s + 1) ∧
    master_out b = master_line id <$> pm ∧ counts_from 0 pm ∧
    slave_out b = slave_line <$> ps ∧ counts_from 0 ps) ∧
  ∀ k, ∃ b', exec_all exec (rounds (2 * k)) (start id d) = Some b' ∧
    Master.tpdo_mapped (driver b') !! (0x4000, 0) = Some (u (Z.of_nat k)) ∧
    slave b' !! (0x4001, 0) = Some (u (Z.of_nat k)).
Proof.
  intros Hd Hsteps. pose proof (start_counted id d Hd) as Hstart. split.
  - apply (moves_invariant exec (counted id)) in Hsteps; [|by intros ???; apply exec_counted|done].
    destruct Hsteps as (lo & n & s & lm & ls & pm & ps & [Hr Hid Hm Hs Htm Hts Hn Hu Hdn Hmo Hso [Hpm _] [Hps _]]).
    exists n, s, pm, ps. apply chain_le in Hu, Hdn. repeat split; auto. lia.
  - intros k. destruct (exec_rounds id k 0 (start id d)) as (b' & E & lo & pm & ps & C).
    { exists 0, [], []. split; cbn; auto; lia. }
    exists b'. split; [done|]. split; [apply (c_master _ _ _ _ _ _ _ _ _ C)|apply (c_slave _ _ _ _ _ _ _ _ _ C)].
Qed.

(** A dictionary as [OnConfig] leaves it. *)
Definition configured : Slave.dictionary := {[(0x4000, 0) := 0; (0x4001, 0) := 0]}.

Lemma values_count_witness :
  ∃ b', exec_all exec (rounds 6) (start 1 configured) = Some b' ∧ slave b' !! (0x4001, 0) = Some 3.
Proof.
  destruct (values_count 1 configured (start 1 configured) eq_refl (rtc_refl _ _)) as [_ Hk].
  destruct (Hk 3%nat) as (b' & E & _ & Hs). exists b'. exact (conj E Hs).
Defined.

End Exchange.

(** ** A configuration that reaches a slave *)

(** The dictionary after the requests of a history that were granted. *)
Definition granted (d : Slave.dictionary) (e : sigT lely_ret) : Slave.dictionary :=
  match e with
  | existT (AsyncWrite _ idx subidx val) Done =>
      match (Slave.arrives idx subidx val d).1 with Ok d' => d' | _ => d end
  | _ => d
  end.
Definition dictionary_after (d : Slave.dictionary) (h : history lely_ret) : Slave.dictionary := foldl granted d h.

(** The slave as an environment: it refuses objects that it does not have (SDO abort code
    0602 0000h). *)
Definition slave_env (d : Slave.dictionary) : environment lely_ret := λ h c,
  match c with
  | AsyncWrite _ idx subidx _ =>
      if bool_decide (is_Some (dictionary_after d h !! (idx, subidx))) then Done else SdoFailed 0x06020000
  | ConfigHeartbeat _ => Done
  | CanController _ | ChanOpen | ChanWrite _ _ _ | AsyncMaster _ _ | MyDriver _ | MySlave _ _ => true
  | _ => tt
  end.

(** A slave with the objects of [cpp-slave.eds] is configured: the master reports success, and
    the exchange of values can start from the slave's dictionary. *)
Lemma configured_slave_starts v1 v2 v3 v4 :
  let d : Slave.dictionary := {[(0x1016, 1) := v1; (0x1017, 0) := v2; (0x4000, 0) := v3; (0x4001, 0) := v4]} in
  let '(e, h) := run (slave_env d) Master.OnConfig [] in
  e = Returned 0 ∧ last h = Some (existT (Res None) tt) ∧
  dictionary_after d h = {[(0x1016, 1) := 67536; (0x1017, 0) := 1000; (0x4000, 0) := 0; (0x4001, 0) := 0]}.
Proof. vm_compute. done. Qed.

(** Without the interface as its argument, the slave reports the usage and goes on with a null
    pointer for the name of the interface. *)
Lemma slave_without_interface (env : environment lely_ret) (name : text) :
  ∃ h, calls (run env (Slave.main [name]) []).2 =
    [Cerr (txt "Usage: " ++ name ++ txt " <can-interface>" ++ txt nl); SetDiagHandlers; CanController None] ++ h.
Proof.
  destruct (run_extends env (Slave.main [name]) []) as [h' Hh].
  unfold Slave.main, Master.uncaught, noexcept, Master.open_channel, checked, lely, call in *. cbn in *.
  match goal with |- context [run env ?p ?h] => destruct (run_extends env p h) as [h'' ->] end.
  unfold calls. rewrite fmap_app. cbn. by eexists.
Qed.
