(* ===== verification/StateMachines.v ===== *)
(** State machines: the engine of [src/third_party_examples/sml_examples/3rdParty/sml/boost/sml.hpp]
    and the programs [hello_world.cpp], [child_parent_events.cpp] and
    [get_current_states_name.cpp] of [src/third_party_examples/sml_examples/src].

    The library works on types; here a machine type is its name, [table_of] gives the
    transition table of a machine, and a state machine that is a state of another one is
    [SubSm].  Modelled are tables over user events and anonymous transitions, with guards and
    actions, internal transitions, several regions, sub-machines and history; entry and exit
    events, unexpected and generic events, exceptions, and the queues for deferred and
    processed events are not, and none of the programs uses them.  The pool [sub_sms_] has one
    object for each machine type, and what a logger is told is the trace [logged].

    [process_event] of a machine calls [process_event] of its sub-machines and loops over
    anonymous transitions: it takes a fuel, and is [None] without enough of it.

    The theorems: the engine refines nested automata in which the innermost machine goes
    first, for every table without anonymous transitions, regions and history; the four ways
    to dispatch on the current state agree; and what the programs print.  A sub-machine that
    is the initial state of a sub-machine is not reset on entry: the refinement excludes this,
    and a counterexample shows it. *)
From S2P Require Import Prelude Text.
Local Open Scope list_scope.

(** ** Tables *)

(** [internal] is the destination of internal transitions. *)
Inductive state := Named (name : text) | SubSm (m : text) | Terminate | Internal.

#[global] Instance state_eq_dec : EqDecision state.
Proof. solve_decision. Defined.

Inductive event_id := Anonymous | On (type : text).

#[global] Instance event_id_eq_dec : EqDecision event_id.
Proof. solve_decision. Defined.

Section engine.
(** The data that events carry. *)
Context {D : Type}.

Inductive event := EAnonymous | Event (type : text) (data : D).

Definition id_of (e : event) : event_id := match e with EAnonymous => Anonymous | Event t _ => On t end.

(** A guard or an action is a callable with the name of its type, or a combination. *)
Inductive guard :=
| GCall (name : text) (object : event → bool)
| GAnd (a b : guard) | GOr (a b : guard) | GNot (a : guard).
Inductive action := ACall (name : text) | ASeq (a b : action).

(* @src third_party_examples/sml_examples/3rdParty/sml/boost/sml.hpp 2463-2472 transition *)
(** [None] is [always] as a guard and [none] as an action. *)
Record transition := mkTransition {
  initial : bool; history : bool; src_state : state; dst_state : state;
  on : event_id; g : option guard; a : option action }.

(** The tables of the machine types; sub-machines nest to a depth below [depth]. *)
Context (table_of : text → list transition) (depth : nat).

(* @src third_party_examples/sml_examples/3rdParty/sml/boost/sml.hpp 283-296 unique *)
Fixpoint unique {A} `{EqDecision A} (rs ts : list A) : list A :=
  match ts with
  | [] => rs
  | t :: ts => if decide (t ∈ rs) then unique rs ts else unique (rs ++ [t]) ts
  end.

(* @src third_party_examples/sml_examples/3rdParty/sml/boost/sml.hpp 427-430 get_id *)
(** The position of a type in a list; a type that is not there does not compile. *)
Definition get_id {A} `{EqDecision A} (t : A) (ts : list A) : nat :=
  match list_find (λ u, u = t) ts with Some (n, _) => n | None => length ts end.

(* @src third_party_examples/sml_examples/3rdParty/sml/boost/sml.hpp 823-824 get_states *)
Definition get_states (ts : list transition) : list state := ts ≫= λ t, [src_state t; dst_state t].

(* @src third_party_examples/sml_examples/3rdParty/sml/boost/sml.hpp 825-827 get_initial_states *)
Definition get_initial_states (ts : list transition) : list state :=
  ts ≫= λ t, if initial t then [src_state t] else [].

(* @src third_party_examples/sml_examples/3rdParty/sml/boost/sml.hpp 828-830 get_history_states *)
(** The initial states that are not history states. *)
Definition get_history_states (ts : list transition) : list state :=
  ts ≫= λ t, if negb (history t) && initial t then [src_state t] else [].

(* @src third_party_examples/sml_examples/3rdParty/sml/boost/sml.hpp 1369-1369 sm_impl::states_t *)
Definition states_t (m : text) : list state := unique [] (get_states (table_of m)).

(* @src third_party_examples/sml_examples/3rdParty/sml/boost/sml.hpp 1371-1371 sm_impl::initial_states_t *)
Definition initial_states_t (m : text) : list state := unique [] (get_initial_states (table_of m)).

(* @src third_party_examples/sml_examples/3rdParty/sml/boost/sml.hpp 1374-1375 sm_impl::has_history_states *)
Definition has_history_states (m : text) : bool :=
  negb (length (initial_states_t m) =? length (get_history_states (table_of m)))%nat.

(* @src third_party_examples/sml_examples/3rdParty/sml/boost/sml.hpp 778-799 get_all_events_impl *)
(** The user events of a machine and of its sub-machines, which nest to a depth below [n]. *)
Fixpoint get_all_events (n : nat) (m : text) : list event_id :=
  match n with
  | O => []
  | S n =>
      table_of m ≫= λ t,
        (match on t with Anonymous => [] | e => [e] end) ++
        (match src_state t with SubSm k => get_all_events n k | _ => [] end) ++
        (match dst_state t with SubSm k => get_all_events n k | _ => [] end)
  end.

(* @src third_party_examples/sml_examples/3rdParty/sml/boost/sml.hpp 800-814 get_sub_internal_events *)
Fixpoint get_sub_internal_events (n : nat) (m : text) : list event_id :=
  match n with
  | O => []
  | S n =>
      let of_state (s : state) (e : event_id) :=
        match s with
        | SubSm k => e :: get_sub_internal_events n k
        | _ => match e with Anonymous => [Anonymous] | _ => [] end
        end in
      (table_of m ≫= λ t, of_state (src_state t) (on t)) ++ (table_of m ≫= λ t, of_state (dst_state t) (on t))
  end.

(* @src third_party_examples/sml_examples/3rdParty/sml/boost/sml.hpp 1376-1378 sm_impl::events_t *)
Definition events_t (m : text) : list event_id :=
  unique [] (get_sub_internal_events depth m ++ get_all_events depth m).

(** ** The state of a machine *)

Inductive log_item :=
| LogProcessEvent (sm : text) (e : event)
| LogGuard (sm g : text) (e : event) (result : bool)
| LogAction (sm a : text) (e : event)
| LogStateChange (sm : text) (src dst : state).

(** The pool has [current_state_] of each machine: the id of a state for each region. *)
Record world := mkWorld { sub_sms : text → list nat; logged : list log_item }.

Definition set_states (m : text) (cs : list nat) (w : world) : world :=
  mkWorld (λ k, if decide (k = m) then cs else sub_sms w k) (logged w).

Definition log (i : log_item) (w : world) : world := mkWorld (sub_sms w) (logged w ++ [i]).

(* @src third_party_examples/sml_examples/3rdParty/sml/boost/sml.hpp 1413-1426 sm_impl::initialize *)
Definition initialize (m : text) (w : world) : world :=
  set_states m ((λ s, get_id s (states_t m)) <$> initial_states_t m) w.

(** ** Guards and actions *)

(* @src third_party_examples/sml_examples/3rdParty/sml/boost/sml.hpp 1895-1913 call::execute *)
(** A callable that gives a [bool] is a guard; the logger is told its result. *)
Definition call_bool (m name : text) (object : event → bool) (e : event) (w : world) : bool * world :=
  let result := object e in (result, log (LogGuard m name e result) w).

(* @src third_party_examples/sml_examples/3rdParty/sml/boost/sml.hpp 1869-1887 call::execute *)
(** A callable that gives nothing is an action; the logger is told before it runs. *)
Definition call_void (m name : text) (e : event) (w : world) : world := log (LogAction m name e) w.

(* @src third_party_examples/sml_examples/3rdParty/sml/boost/sml.hpp 1976-2037 and_, or_, not_ *)
Fixpoint call_guard (m : text) (gd : guard) (e : event) (w : world) : bool * world :=
  match gd with
  | GCall name object => call_bool m name object e w
  | GAnd a b => let '(r, w) := call_guard m a e w in if r then call_guard m b e w else (false, w)
  | GOr a b => let '(r, w) := call_guard m a e w in if r then (true, w) else call_guard m b e w
  | GNot a => let '(r, w) := call_guard m a e w in (negb r, w)
  end.

(* @src third_party_examples/sml_examples/3rdParty/sml/boost/sml.hpp 1954-1975 seq_ *)
Fixpoint call_action (m : text) (act : action) (e : event) (w : world) : world :=
  match act with
  | ACall name => call_void m name e w
  | ASeq a b => call_action m b e (call_action m a e w)
  end.

(** ** Transitions *)

(* @src third_party_examples/sml_examples/3rdParty/sml/boost/sml.hpp 2427-2445 update_composite_states *)
(** With history only the regions of the other initial states are reset. *)
Definition update_composite_states (k : text) (w : world) : world :=
  if has_history_states k
  then foldl (λ w s, set_states k (<[get_id s (initial_states_t k) := get_id s (states_t k)]> (sub_sms w k)) w)
         w (get_history_states (table_of k))
  else initialize k w.

(* @src third_party_examples/sml_examples/3rdParty/sml/boost/sml.hpp 2446-2462 update_current_state *)
Definition update_current_state (m : text) (r : nat) (src dst : state) (w : world) : world :=
  let w := log (LogStateChange m src dst) w in
  let w := set_states m (<[r := get_id dst (states_t m)]> (sub_sms w m)) w in
  match dst with SubSm k => update_composite_states k w | _ => w end.

(* @src third_party_examples/sml_examples/3rdParty/sml/boost/sml.hpp 2473-2499 transition::execute *)
(** Region [r] of machine [m]; the specialisations for [internal], [always] and [none] are the
    cases. *)
Definition execute_transition (m : text) (t : transition) (e : event) (r : nat) (w : world) : bool * world :=
  let '(ok, w) := match g t with Some gd => call_guard m gd e w | None => (true, w) end in
  if (ok : bool) then
    let w := match dst_state t with Internal => w | dst => update_current_state m r (src_state t) dst w end in
    (true, match a t with Some act => call_action m act e w | None => w end)
  else (false, w).

(* @src third_party_examples/sml_examples/3rdParty/sml/boost/sml.hpp 903-934 transitions::execute *)
Fixpoint execute_transitions (m : text) (ts : list transition) (e : event) (r : nat) (w : world) : bool * world :=
  match ts with
  | [] => (false, w)
  | t :: ts => let '(ok, w) := execute_transition m t e r w in if ok then (true, w) else execute_transitions m ts e r w
  end.

(* @src third_party_examples/sml_examples/3rdParty/sml/boost/sml.hpp 1054-1061 get_state_mapping *)
(** The transitions of a state for an event, in the order of the table. *)
Definition get_state_mapping (m : text) (s : state) (e : event_id) : list transition :=
  filter (λ t, on t = e ∧ src_state t = s) (table_of m).

(* @src third_party_examples/sml_examples/3rdParty/sml/boost/sml.hpp 1658-1671 sm_impl::is_terminated *)
Definition is_terminated (m : text) (w : world) : bool :=
  forallb (λ c, c =? get_id Terminate (states_t m))%nat (sub_sms w m).

Section sub_calls.
(** [process_event] of the sub-machines. *)
Context (process_sub : text → event → world → option (bool * world)).

(* @src third_party_examples/sml_examples/3rdParty/sml/boost/sml.hpp 935-979 transitions_sub::execute *)
Definition execute_sub (m k : text) (ts : list transition) (e : event) (r : nat) (w : world) : option (bool * world) :=
  let child_first :=
    '(handled, w) ← process_sub k e w;
    if (handled : bool) then Some (true, w) else Some (execute_transitions m ts e r w) in
  match e, ts with
  | EAnonymous, [] => Some (false, w)
  | EAnonymous, _ => if is_terminated k w then child_first else Some (false, w)
  | _, _ => child_first
  end.

(* @src third_party_examples/sml_examples/3rdParty/sml/boost/sml.hpp 1062-1071 get_state_mapping *)
(** What the dispatch calls for a state. *)
Definition execute_state (m : text) (e : event) (r : nat) (w : world) (s : state) : option (bool * world) :=
  let ts := get_state_mapping m s (id_of e) in
  match s with
  | SubSm k => execute_sub m k ts e r w
  | _ => Some (execute_transitions m ts e r w)
  end.

(* @src third_party_examples/sml_examples/3rdParty/sml/boost/sml.hpp 1121-1134 branch_stm::dispatch *)
Fixpoint branch_stm (N : nat) (f : state → option (bool * world)) (current : nat) (w : world) (ss : list state) : option (bool * world) :=
  match ss with
  | [] => Some (false, w)
  | s :: ss => if (current =? N)%nat then f s else branch_stm (S N) f current w ss
  end.

(* @src third_party_examples/sml_examples/3rdParty/sml/boost/sml.hpp 1508-1522 sm_impl::process_event_impl *)
(** Over the regions [rs]. *)
Fixpoint process_event_impl (m : text) (e : event) (rs : list nat) (handled : bool) (w : world) : option (bool * world) :=
  match rs with
  | [] => Some (handled, w)
  | r :: rs =>
      '(h, w) ← branch_stm 0 (execute_state m e r w) (nth r (sub_sms w m) 0) w (states_t m);
      process_event_impl m e rs (handled || h) w
  end.

(* @src third_party_examples/sml_examples/3rdParty/sml/boost/sml.hpp 1431-1459 sm_impl::process_internal_events *)
Definition process_internal_events (m : text) (e : event) (w : world) : option (bool * world) :=
  if decide (id_of e ∈ events_t m)
  then process_event_impl m e (seq 0 (length (initial_states_t m))) false (log (LogProcessEvent m e) w)
  else Some (false, w).

(** The loop over anonymous transitions. *)
Fixpoint process_anonymous (fuel : nat) (m : text) (w : world) : option world :=
  match fuel with
  | O => None
  | S fuel =>
      '(again, w) ← process_internal_events m EAnonymous w;
      if (again : bool) then process_anonymous fuel m w else Some w
  end.
End sub_calls.

(* @src third_party_examples/sml_examples/3rdParty/sml/boost/sml.hpp 1402-1412 sm_impl::process_event *)
(** Without queues the outer loops run once.  The fuel bounds the nesting of sub-machines and
    the number of anonymous transitions. *)
Fixpoint process_event (fuel : nat) (m : text) (e : event) (w : world) : option (bool * world) :=
  match fuel with
  | O => None
  | S fuel =>
      '(handled, w) ← process_internal_events (process_event fuel) m e w;
      w ← process_anonymous (process_event fuel) (S fuel) m w;
      Some (handled, w)
  end.

(* @src third_party_examples/sml_examples/3rdParty/sml/boost/sml.hpp 1709-1709 sm::sm *)
(** The pool is constructed with every machine in its initial states, then the machine starts:
    the entry event is no event of the tables, the anonymous transitions are taken. *)
Definition sm_new (fuel : nat) (m : text) : option world :=
  process_anonymous (process_event fuel) (S fuel) m
    (mkWorld (λ k, (λ s, get_id s (states_t k)) <$> initial_states_t k) []).

(** ** Looking at a machine *)

(* @src third_party_examples/sml_examples/3rdParty/sml/boost/sml.hpp 1643-1653 sm_impl::visit_current_states *)
Definition visit_current_states (m : text) (w : world) : list state :=
  omap (λ c, states_t m !! c) (sub_sms w m).

(* @src third_party_examples/sml_examples/3rdParty/sml/boost/sml.hpp 1739-1746 sm::is *)
Definition is_state (m : text) (s : state) (w : world) : bool :=
  (get_id s (states_t m) =? nth 0 (sub_sms w m) 0)%nat.

(* @src third_party_examples/sml_examples/3rdParty/sml/boost/sml.hpp 1747-1760 sm::is *)
Definition is_terminate (m : text) (w : world) : bool :=
  existsb (λ s, get_id Terminate (states_t m) =? get_id s (states_t m))%nat (visit_current_states m w).

(** ** The four ways to dispatch *)

(* @src third_party_examples/sml_examples/3rdParty/sml/boost/sml.hpp 1106-1119 jump_table::dispatch *)
(** [None]: the table is read out of its range. *)
Definition jump_table {A} (f : state → A) (current : nat) (ss : list state) : option A := f <$> ss !! current.

(* @src third_party_examples/sml_examples/3rdParty/sml/boost/sml.hpp 1136-1152 switch_stm::dispatch *)
Fixpoint switch_stm (N : nat) (f : state → option (bool * world)) (current : nat) (w : world) (ss : list state) : option (bool * world) :=
  match ss with
  | [] => Some (false, w)
  | s :: ss => match Nat.eq_dec current N with left _ => f s | right _ => switch_stm (S N) f current w ss end
  end.

(* @src third_party_examples/sml_examples/3rdParty/sml/boost/sml.hpp 1155-1171 fold_expr::dispatch *)
(** The states before the current one are not handled, those after it are not reached or not
    the current one. *)
Fixpoint fold_expr (N : nat) (f : world → state → option (bool * world)) (current : nat) (w : world) (ss : list state) : option (bool * world) :=
  match ss with
  | [] => Some (false, w)
  | s :: ss =>
      '(h, w) ← (if (current =? N)%nat then f w s else Some (false, w));
      if (h : bool) then Some (true, w) else fold_expr (S N) f current w ss
  end.

Lemma branch_stm_lookup N f current w ss :
  branch_stm N f (N + current) w ss = match ss !! current with Some s => f s | None => Some (false, w) end.
Proof.
  revert N current. induction ss as [|s ss IH]; intros N current; [done|]. cbn [branch_stm].
  destruct current as [|current].
  - by rewrite Nat.add_0_r, Nat.eqb_refl.
  - rewrite (proj2 (Nat.eqb_neq _ _)) by lia. rewrite <- Nat.add_succ_comm. apply IH.
Qed.

Lemma fold_expr_past N f current w ss : (current < N)%nat → fold_expr N f current w ss = Some (false, w).
Proof.
  revert N. induction ss as [|s ss IH]; intros N HN; [done|]. cbn [fold_expr].
  rewrite (proj2 (Nat.eqb_neq _ _)) by lia. cbn. apply IH. lia.
Qed.

Lemma fold_expr_lookup N f current w ss :
  fold_expr N f (N + current) w ss = match ss !! current with Some s => f w s | None => Some (false, w) end.
Proof.
  revert N current. induction ss as [|s ss IH]; intros N current; [done|]. cbn [fold_expr].
  destruct current as [|current].
  - rewrite Nat.add_0_r, Nat.eqb_refl. cbn. destruct (f w s) as [[[] w']|]; [done| |done].
    cbn. apply fold_expr_past. lia.
  - rewrite (proj2 (Nat.eqb_neq _ _)) by lia. rewrite <- Nat.add_succ_comm. apply IH.
Qed.

(** The four dispatch policies agree on the ids of states. *)
Lemma dispatch_policies_agree f current w ss : (current < length ss)%nat →
  jump_table (f w) current ss = Some (branch_stm 0 (f w) current w ss) ∧
  switch_stm 0 (f w) current w ss = branch_stm 0 (f w) current w ss ∧
  fold_expr 0 f current w ss = branch_stm 0 (f w) current w ss.
Proof.
  intros [s Hs]%lookup_lt_is_Some. rewrite (branch_stm_lookup 0 (f w) current), (fold_expr_lookup 0 f current), Hs.
  unfold jump_table. rewrite Hs. split; [done|]. split; [|done].
  assert (∀ N c ss', ss' !! c = Some s → switch_stm N (f w) (N + c) w ss' = f w s) as H; [|by apply (H 0%nat)].
  intros N c ss'. revert N c. induction ss' as [|s' ss' IH]; intros N c Hc; [done|]. cbn [switch_stm].
  destruct c as [|c]; destruct (Nat.eq_dec _ _) as [E|E]; try lia; [by simplify_eq/=|].
  rewrite <- Nat.add_succ_comm. by apply IH.
Qed.

(** ** Ids of states *)

Lemma unique_elem {A} `{EqDecision A} (rs ts : list A) x : x ∈ unique rs ts ↔ x ∈ rs ∨ x ∈ ts.
Proof.
  revert rs. induction ts as [|t ts IH]; intros rs; cbn [unique].
  - set_solver.
  - case_decide as Ht; rewrite IH; set_solver.
Qed.

Lemma get_id_lookup {A} `{EqDecision A} (t : A) ts : t ∈ ts → ts !! get_id t ts = Some t.
Proof.
  intros Ht. unfold get_id. destruct (list_find (λ u, u = t) ts) as [[n u]|] eqn:E.
  - apply list_find_Some in E as (? & -> & _). done.
  - apply list_find_None in E. eapply Forall_forall in E; [|exact Ht]. done.
Qed.

Lemma row_src_state t m : t ∈ table_of m → src_state t ∈ states_t m.
Proof.
  intros Ht. apply unique_elem. right. apply list_elem_of_bind. exists t. split; [set_solver|done].
Qed.

Lemma row_dst_state t m : t ∈ table_of m → dst_state t ∈ states_t m.
Proof.
  intros Ht. apply unique_elem. right. apply list_elem_of_bind. exists t. split; [set_solver|done].
Qed.

Lemma state_row s m : s ∈ states_t m → ∃ t, t ∈ table_of m ∧ (src_state t = s ∨ dst_state t = s).
Proof.
  intros [Hs|Hs]%unique_elem; [by apply elem_of_nil in Hs|].
  apply list_elem_of_bind in Hs as (t & Hs & Ht). exists t. split; [done|]. set_solver.
Qed.

Lemma initial_state_row s m : s ∈ initial_states_t m → ∃ t, t ∈ table_of m ∧ initial t = true ∧ src_state t = s.
Proof.
  intros [Hs|Hs]%unique_elem; [by apply elem_of_nil in Hs|].
  apply list_elem_of_bind in Hs as (t & Hs & Ht). exists t. destruct (initial t); set_solver.
Qed.

(** ** Nested automata

    The active states of a machine, the outermost first: each is a state of the machine before
    it.  On an event the innermost machine that has an enabled transition takes the first one
    of its table; the machines inside it are left; a sub-machine that is entered starts in its
    initial state. *)
Fixpoint guard_value (gd : guard) (e : event) : bool :=
  match gd with
  | GCall _ object => object e
  | GAnd a b => guard_value a e && guard_value b e
  | GOr a b => guard_value a e || guard_value b e
  | GNot a => negb (guard_value a e)
  end.

Definition enabled (e : event) (t : transition) : bool :=
  match g t with Some gd => guard_value gd e | None => true end.

Definition first_enabled (m : text) (s : state) (e : event) : option transition :=
  List.find (enabled e) (get_state_mapping m s (id_of e)).

Lemma no_rows m s e : (∀ t, t ∈ table_of m → on t = id_of e → src_state t ≠ s) → first_enabled m s e = None.
Proof.
  intros H. unfold first_enabled, get_state_mapping. replace (filter _ _) with ([] : list transition); [done|].
  symmetry. apply elem_of_nil_inv. intros t [[H1 H2] Ht]%list_elem_of_filter. by apply (H t).
Qed.

Definition enter (d : state) : list state :=
  d :: match d with SubSm k => option_list (head (initial_states_t k)) | _ => [] end.

Definition taken (p : list state) (t : transition) : list state :=
  match dst_state t with Internal => p | d => enter d end.

Fixpoint automata_step (m : text) (p : list state) (e : event) : option (list state) :=
  match p with
  | [] => None
  | s :: inner =>
      match (match s with SubSm k => automata_step k inner e | _ => None end) with
      | Some inner' => Some (s :: inner')
      | None => taken p <$> first_enabled m s e
      end
  end.

Fixpoint automata_run (m : text) (p : list state) (es : list event) : list bool * list state :=
  match es with
  | [] => ([], p)
  | e :: es =>
      let p' := automata_step m p e in
      let '(hs, q) := automata_run m (default p p') es in (bool_decide (is_Some p') :: hs, q)
  end.

Fixpoint automata_start (n : nat) (m : text) : list state :=
  match n, head (initial_states_t m) with
  | S n, Some (SubSm k) => SubSm k :: automata_start n k
  | S n, Some s => [s]
  | _, _ => []
  end.

Lemma get_id_inj {A} `{EqDecision A} (t u : A) ts : t ∈ ts → u ∈ ts → get_id t ts = get_id u ts → t = u.
Proof. intros Ht Hu E. pose proof (get_id_lookup t ts Ht) as H. rewrite E, get_id_lookup in H by done. by simplify_eq. Qed.

(** The active states of the engine. *)
Fixpoint active (n : nat) (m : text) (w : world) : list state :=
  match n, states_t m !! nth 0 (sub_sms w m) 0 with
  | S n, Some (SubSm k) => SubSm k :: active n k w
  | S n, Some s => [s]
  | _, _ => []
  end.

(** Events one after the other, with what [process_event] returns. *)
Fixpoint process_events (fuel : nat) (m : text) (es : list event) (w : world) : option (list bool * world) :=
  match es with
  | [] => Some ([], w)
  | e :: es =>
      '(h, w) ← process_event fuel m e w;
      '(hs, w) ← process_events fuel m es w;
      Some (h :: hs, w)
  end.

(** ** The refinement *)

(** The tables of the refinement: sub-machines nest, there are no anonymous transitions and no
    history, every machine has one region, and a sub-machine that is entered does not start in
    a sub-machine. *)
Record nested_tables (level : text → nat) : Prop := {
  nested_level m k : SubSm k ∈ states_t m → (level k < level m)%nat;
  nested_depth m : (level m < depth)%nat;
  nested_events m t : t ∈ table_of m → on t ≠ Anonymous;
  nested_history m t : t ∈ table_of m → history t = false;
  nested_tables_of m k : SubSm k ∈ states_t m → table_of k ≠ [];
  nested_region m : table_of m ≠ [] → ∃ s, initial_states_t m = [s];
  nested_entry m t k s : t ∈ table_of m → dst_state t = SubSm k → initial_states_t k = [s] → ∀ j, s ≠ SubSm j }.

Definition valid (w : world) : Prop :=
  ∀ m, table_of m ≠ [] → ∃ c s, sub_sms w m = [c] ∧ states_t m !! c = Some s.

Lemma is_terminate_active n m w : valid w → table_of m ≠ [] → Terminate ∈ states_t m →
  is_terminate m w = true ↔ active (S n) m w = [Terminate].
Proof.
  intros Hv Hm HX. destruct (Hv m Hm) as (c & s & Hc & Hs). unfold is_terminate, visit_current_states. cbn [active].
  rewrite Hc. cbn [omap list_omap nth]. rewrite Hs. cbn [existsb]. rewrite orb_false_r, Nat.eqb_eq.
  apply list_elem_of_lookup_2 in Hs. split.
  - by intros <-%get_id_inj.
  - destruct s; naive_solver.
Qed.

(** Only the logger was told something. *)
Definition same_states (w w' : world) : Prop := ∀ m, sub_sms w' m = sub_sms w m.

Lemma call_guard_value m gd e w : ∃ w', call_guard m gd e w = (guard_value gd e, w') ∧ same_states w w'.
Proof.
  revert w. induction gd as [name object|a IHa b IHb|a IHa b IHb|a IHa]; intros w; cbn [call_guard guard_value].
  - by eexists.
  - destruct (IHa w) as (w1 & -> & H1). destruct (guard_value a e); cbn [andb]; [|by exists w1].
    destruct (IHb w1) as (w2 & -> & H2). exists w2. split; [done|]. intros k. by rewrite H2, H1.
  - destruct (IHa w) as (w1 & -> & H1). destruct (guard_value a e); cbn [orb]; [by exists w1|].
    destruct (IHb w1) as (w2 & -> & H2). exists w2. split; [done|]. intros k. by rewrite H2, H1.
  - destruct (IHa w) as (w1 & -> & H1). by exists w1.
Qed.

Lemma call_action_states m act e w : same_states w (call_action m act e w).
Proof.
  revert w. induction act as [name|a1 IH1 a2 IH2]; intros w k; cbn [call_action]; [done|]. by rewrite IH2, IH1.
Qed.

Lemma same_states_refl w : same_states w w.
Proof. done. Qed.

Lemma same_states_valid w w' : same_states w w' → valid w → valid w'.
Proof. intros Hs Hv m Hm. rewrite Hs. by apply Hv. Qed.

Lemma same_states_active n m w w' : same_states w w' → active n m w' = active n m w.
Proof.
  intros Hs. revert m. induction n as [|n IH]; intros m; cbn [active]; [done|]. rewrite Hs.
  destruct (states_t m !! _) as [[]|]; try done. by rewrite IH.
Qed.

(** The active states depend only on the machines of the same or a lower level. *)
Section refinement.
Context (level : text → nat) (Hwf : nested_tables level).

Definition changed_below (l : nat) (w w' : world) : Prop := ∀ k, (l < level k)%nat → sub_sms w' k = sub_sms w k.

Lemma same_states_below l w w' : same_states w w' → changed_below l w w'.
Proof. intros H k _. apply H. Qed.

Lemma active_sub m w k : states_t m !! nth 0 (sub_sms w m) 0 = Some (SubSm k) → (level k < level m)%nat.
Proof. intros H. apply (nested_level _ Hwf). by eapply list_elem_of_lookup_2. Qed.

Lemma active_ext n n' m w w' :
  (level m < n)%nat → (level m < n')%nat → (∀ k, (level k ≤ level m)%nat → sub_sms w' k = sub_sms w k) →
  active n' m w' = active n m w.
Proof.
  revert n' m. induction n as [|n IH]; intros n' m Hn Hn' H; [lia|]. destruct n' as [|n']; [lia|]. cbn [active].
  rewrite H by lia. destruct (states_t m !! _) as [[]|] eqn:E; try done. apply active_sub in E.
  rewrite (IH n'); [done|lia|lia|]. intros. apply H. lia.
Qed.

Lemma states_update m cs w k : sub_sms (set_states m cs w) k = if decide (k = m) then cs else sub_sms w k.
Proof. done. Qed.

Lemma history_states_initial m : get_history_states (table_of m) = get_initial_states (table_of m).
Proof.
  assert (∀ t, t ∈ table_of m → history t = false) as H by (intros; by eapply nested_history).
  unfold get_history_states, get_initial_states. induction (table_of m) as [|t ts IH]; [done|]. cbn.
  rewrite H by set_solver. cbn. f_equal. apply IH. set_solver.
Qed.

(** Resetting the one region of a machine, once or several times. *)
Definition reset_region (k : text) (w : world) (s : state) : world :=
  set_states k (<[get_id s (initial_states_t k) := get_id s (states_t k)]> (sub_sms w k)) w.

Definition is_reset (k : text) (s : state) (w w' : world) : Prop :=
  ∀ j, sub_sms w' j = if decide (j = k) then [get_id s (states_t k)] else sub_sms w j.

Lemma reset_region_once k s w c : initial_states_t k = [s] → sub_sms w k = [c] → is_reset k s w (reset_region k w s).
Proof.
  intros Hs Hc j. unfold reset_region. rewrite states_update, Hs, Hc.
  replace (get_id s [s]) with 0%nat; [done|]. unfold get_id. cbn. by rewrite decide_True.
Qed.

Lemma reset_region_again k s n w c : initial_states_t k = [s] → sub_sms w k = [c] →
  is_reset k s w (foldl (reset_region k) w (replicate (S n) s)).
Proof.
  intros Hs. revert w c. induction n as [|n IH]; intros w c Hc; [by eapply reset_region_once|].
  change (replicate (S (S n)) s) with (s :: replicate (S n) s). cbn [foldl].
  pose proof (reset_region_once k s w c Hs Hc) as H1.
  assert (sub_sms (reset_region k w s) k = [get_id s (states_t k)]) as Hk by (by rewrite H1, decide_True).
  intros j. rewrite (IH _ _ Hk j). case_decide as Hj; [done|]. by rewrite H1, decide_False.
Qed.

(** Entering a sub-machine resets its one region. *)
Lemma update_composite_states_reset k s w : valid w → table_of k ≠ [] → initial_states_t k = [s] →
  is_reset k s w (update_composite_states k w).
Proof.
  intros Hv Hk Hs. unfold update_composite_states. destruct (has_history_states k).
  2: { intros j. unfold initialize. by rewrite states_update, Hs. }
  rewrite history_states_initial. destruct (Hv k Hk) as (c & _ & Hc & _).
  assert (∀ x, x ∈ get_initial_states (table_of k) ↔ x = s) as Hx.
  { intros x. transitivity (x ∈ initial_states_t k); [|rewrite Hs; set_solver].
    unfold initial_states_t. rewrite unique_elem. set_solver. }
  destruct (get_initial_states (table_of k)) as [|x l]; [by destruct (proj1 (elem_of_nil s) (proj2 (Hx s) eq_refl))|].
  assert (x :: l = replicate (S (length l)) s) as ->; [|by eapply reset_region_again].
  symmetry. change (S (length l)) with (length (x :: l)). apply replicate_as_elem_of. split; [done|]. intros y. apply Hx.
Qed.

(** A transition of the machine itself. *)
Lemma update_current_state_enters n m r t w : valid w → t ∈ table_of m → dst_state t ≠ Internal → r = 0%nat → (level m < n)%nat →
  let w' := update_current_state m r (src_state t) (dst_state t) w in
  valid w' ∧ changed_below (level m) w w' ∧ active n m w' = enter (dst_state t).
Proof.
  intros Hv Ht Hd -> Hn w'. assert (table_of m ≠ []) as Hm by (intros E; rewrite E in Ht; by apply elem_of_nil in Ht).
  pose proof (row_dst_state t m Ht) as Hdst. pose proof (get_id_lookup _ _ Hdst) as Hid.
  destruct (Hv m Hm) as (c & s & Hc & _).
  set (w1 := set_states m [get_id (dst_state t) (states_t m)] w).
  assert (valid w1) as Hv1.
  { intros k Hk. unfold w1. rewrite states_update. case_decide as E; [subst k; eauto|by apply Hv]. }
  assert (∃ w2, same_states w1 w2 ∧ w' = match dst_state t with SubSm k => update_composite_states k w2 | _ => w2 end)
    as (w2 & H2 & ->).
  { eexists. split; [|reflexivity]. intros k. unfold w1. by rewrite !states_update; cbn [log sub_sms]; rewrite Hc. }
  pose proof (same_states_valid _ _ H2 Hv1) as Hv2.
  assert (∀ k, sub_sms w2 k = if decide (k = m) then [get_id (dst_state t) (states_t m)] else sub_sms w k) as Hw2 by (intros; apply H2).
  destruct n as [|n]; [lia|].
  destruct (dst_state t) as [name|k| |] eqn:Ed; try done.
  2: { pose proof (nested_level _ Hwf m k Hdst) as Hlk. pose proof (nested_tables_of _ Hwf m k Hdst) as Hk.
    destruct (nested_region _ Hwf k Hk) as [s0 Hs0]. pose proof (nested_entry _ Hwf m t k s0 Ht Ed Hs0) as Hj.
    pose proof (update_composite_states_reset k s0 w2 Hv2 Hk Hs0) as Hr.
    assert (s0 ∈ states_t k) as Hs0'.
    { destruct (initial_state_row s0 k) as (t0 & Ht0 & _ & <-); [rewrite Hs0; set_solver|]. by apply row_src_state. }
    split; [|split].
    - intros j Hj'. rewrite Hr. case_decide as E; [subst j; eauto using get_id_lookup|by apply Hv2].
    - intros j Hj'. rewrite Hr, decide_False, Hw2, decide_False; [done| |]; intros ->; lia.
    - cbn [active]. rewrite Hr, decide_False, Hw2, decide_True by (done || intros ->; lia). cbn [nth]. rewrite Hid.
      unfold enter. f_equal. rewrite Hs0. cbn [head option_list]. destruct n as [|n]; [lia|]. cbn [active].
      rewrite Hr, decide_True by done. cbn [nth]. rewrite get_id_lookup by done. destruct s0; try done. by destruct (Hj m0). }
  all: split; [done|]; split; [intros j Hj'; rewrite Hw2, decide_False; [done|intros ->; lia]|];
    cbn [active]; rewrite Hw2, decide_True by done; cbn [nth]; by rewrite Hid.
Qed.

Lemma execute_transition_takes n m t e w : valid w → t ∈ table_of m → (level m < n)%nat →
  ∃ w', execute_transition m t e 0 w = (enabled e t, w') ∧ valid w' ∧ changed_below (level m) w w' ∧
    if enabled e t then active n m w' = taken (active n m w) t else same_states w w'.
Proof.
  intros Hv Ht Hn. unfold execute_transition, enabled.
  assert (∃ w1, match g t with Some gd => call_guard m gd e w | None => (true, w) end =
    (match g t with Some gd => guard_value gd e | None => true end, w1) ∧ same_states w w1) as (w1 & -> & H1).
  { destruct (g t) as [gd|]; [apply call_guard_value|by exists w]. }
  pose proof (same_states_valid _ _ H1 Hv) as Hv1.
  destruct (match g t with Some gd => guard_value gd e | None => true end); [|exists w1; eauto using same_states_below].
  assert (∀ w2, valid w2 → changed_below (level m) w w2 → active n m w2 = taken (active n m w) t →
    let w3 := match a t with Some act => call_action m act e w2 | None => w2 end in
    valid w3 ∧ changed_below (level m) w w3 ∧ active n m w3 = taken (active n m w) t) as Hact.
  { intros w2 Hv2 Hc2 Ha2 w3. assert (same_states w2 w3) as H3.
    { unfold w3. destruct (a t); [apply call_action_states|done]. }
    split; [by eapply same_states_valid|]. split; [intros k Hk; rewrite H3; by apply Hc2|].
    by rewrite (same_states_active _ _ _ _ H3). }
  eexists. split; [reflexivity|]. destruct (decide (dst_state t = Internal)) as [Ed|Ed].
  - rewrite Ed. apply Hact; [done|by apply same_states_below|]. unfold taken. rewrite Ed. by apply same_states_active.
  - destruct (update_current_state_enters n m 0 t w1 Hv1 Ht Ed eq_refl Hn) as (Ha & Hb & Hc).
    assert (changed_below (level m) w (update_current_state m 0 (src_state t) (dst_state t) w1)) as Hb'.
    { intros j Hj. by rewrite Hb. }
    assert (active n m (update_current_state m 0 (src_state t) (dst_state t) w1) = taken (active n m w) t) as Hc'.
    { rewrite Hc. unfold taken. by destruct (dst_state t). }
    pose proof (Hact _ Ha Hb' Hc') as Hgoal. by destruct (dst_state t).
Qed.

Lemma execute_transitions_takes n m ts e w : valid w → (∀ t, t ∈ ts → t ∈ table_of m) → (level m < n)%nat →
  ∃ h w', execute_transitions m ts e 0 w = (h, w') ∧ valid w' ∧ changed_below (level m) w w' ∧
    if h then taken (active n m w) <$> List.find (enabled e) ts = Some (active n m w')
    else List.find (enabled e) ts = None ∧ same_states w w'.
Proof.
  intros Hv Hts Hn. revert w Hv. induction ts as [|t ts IH]; intros w Hv; cbn [execute_transitions List.find].
  { by exists false, w. }
  destruct (execute_transition_takes n m t e w Hv ltac:(set_solver) Hn) as (w1 & -> & Hv1 & Hc1 & H1).
  destruct (enabled e t).
  - exists true, w1. split_and!; try done. cbn. by rewrite H1.
  - destruct (IH ltac:(set_solver) w1 Hv1) as (h & w2 & -> & Hv2 & Hc2 & H2). exists h, w2. split_and!; try done.
    + intros k Hk. by rewrite Hc2, Hc1.
    + destruct h; [by rewrite (same_states_active _ _ _ _ H1) in H2|]. split; [by apply H2|].
      intros k. by rewrite (proj2 H2), H1.
Qed.

(** Events. *)
Lemma get_all_events_row n m t : t ∈ table_of m → (0 < n)%nat → on t ∈ get_all_events n m.
Proof.
  intros Ht Hn. destruct n as [|n]; [lia|]. apply list_elem_of_bind. exists t. split; [|done].
  pose proof (nested_events _ Hwf m t Ht). destruct (on t); [done|set_solver].
Qed.

Lemma unknown_event_rows n m s e : id_of e ∉ get_all_events n m → (0 < n)%nat → first_enabled m s e = None.
Proof.
  intros He Hn. unfold first_enabled. destruct (List.find _ _) as [t|] eqn:E; [|done].
  apply find_some in E as [E _]. apply list_elem_of_In, list_elem_of_filter in E as [[E _] Ht].
  destruct He. rewrite <- E. by apply get_all_events_row.
Qed.

Lemma unknown_event_ignored n n' m w e : (level m < n)%nat → id_of e ∉ get_all_events n m →
  automata_step m (active n' m w) e = None.
Proof.
  revert n' m. induction n as [|n IH]; intros n' m Hn He; [lia|]. destruct n' as [|n']; cbn [active]; [done|].
  destruct (states_t m !! _) as [s|] eqn:E; [|done].
  assert (first_enabled m s e = None) as Hf by (apply (unknown_event_rows (S n)); [done|lia]).
  destruct s; cbn [automata_step]; try by rewrite Hf.
  rewrite IH; [by rewrite Hf| |].
  - apply active_sub in E. lia.
  - intros Hm. destruct He. apply list_elem_of_lookup_2, state_row in E as (t & Ht & E). cbn [get_all_events].
    apply list_elem_of_bind. exists t. split; [|done]. destruct E as [-> | ->]; set_solver.
Qed.

Lemma all_events_user n m : Anonymous ∉ get_all_events n m ++ get_sub_internal_events n m.
Proof.
  revert m. induction n as [|n IH]; intros m; [set_solver|].
  assert (∀ k, Anonymous ∉ get_all_events n k ∧ Anonymous ∉ get_sub_internal_events n k) as IH' by set_solver.
  intros [H|[H|H]%elem_of_app]%elem_of_app; apply list_elem_of_bind in H as (t & H & Ht);
    pose proof (nested_events _ Hwf m t Ht); destruct (on t), (src_state t), (dst_state t); set_solver.
Qed.

Lemma no_anonymous m : Anonymous ∉ events_t m.
Proof. intros [?|H]%unique_elem; [set_solver|]. apply (all_events_user depth m). set_solver. Qed.

Lemma process_anonymous_done sub fuel m w : process_anonymous sub (S fuel) m w = Some w.
Proof.
  cbn [process_anonymous]. unfold process_internal_events.
  by rewrite decide_False by (cbn [id_of]; apply no_anonymous).
Qed.

(** What [process_event] does to the active states. *)
Definition refines (m : text) (e : event) (w : world) (res : option (bool * world)) : Prop :=
  ∃ h w', res = Some (h, w') ∧ valid w' ∧ changed_below (level m) w w' ∧
    if h then automata_step m (active depth m w) e = Some (active depth m w')
    else automata_step m (active depth m w) e = None ∧ same_states w w'.

Lemma mapping_rows m s e t : t ∈ get_state_mapping m s e → t ∈ table_of m.
Proof. by intros [_ ?]%list_elem_of_filter. Qed.

Lemma execute_state_refines fuel m e w s :
  (∀ k w, (level k < fuel)%nat → table_of k ≠ [] → valid w → refines k e w (process_event fuel k e w)) →
  (level m < S fuel)%nat → valid w → e ≠ EAnonymous →
  states_t m !! nth 0 (sub_sms w m) 0 = Some s →
  refines m e w (execute_state (process_event fuel) m e 0 w s).
Proof.
  intros IH Hm Hv He Hs. pose proof (nested_depth _ Hwf m) as Hdepth.
  assert (∀ w, valid w → states_t m !! nth 0 (sub_sms w m) 0 = Some s →
    (∀ k, s = SubSm k → automata_step k (active (pred depth) k w) e = None) →
    refines m e w (Some (execute_transitions m (get_state_mapping m s (id_of e)) e 0 w))) as Hown.
  { clear w Hv Hs. intros w Hv Hs Hsub.
    destruct (execute_transitions_takes depth m (get_state_mapping m s (id_of e)) e w Hv (mapping_rows m s (id_of e)) Hdepth)
      as (h & w' & E & Hv' & Hc & H). exists h, w'. rewrite E. split_and!; try done.
    assert (automata_step m (active depth m w) e = taken (active depth m w) <$> first_enabled m s e) as Hstep.
    { destruct depth as [|n]; [lia|]. cbn [active pred] in *. rewrite Hs. destruct s; cbn [automata_step]; try done.
      by rewrite (Hsub m0 eq_refl). }
    rewrite Hstep. unfold first_enabled. destruct h; [done|]. by destruct H as [-> ?]. }
  destruct s as [|k| |]; cbn [execute_state]; try (by apply Hown).
  assert ((level k < level m)%nat) as Hk by (by eapply active_sub).
  assert (table_of k ≠ []) as Hk'.
  { apply (nested_tables_of _ Hwf m). by eapply list_elem_of_lookup_2. }
  destruct (IH k w ltac:(lia) Hk' Hv) as (h & w1 & E & Hv1 & Hc1 & H1).
  assert (execute_sub (process_event fuel) m k (get_state_mapping m (SubSm k) (id_of e)) e 0 w =
    if h then Some (true, w1) else Some (execute_transitions m (get_state_mapping m (SubSm k) (id_of e)) e 0 w1)) as ->.
  { unfold execute_sub. destruct e; [done|]. rewrite E. by destruct h. }
  pose proof (nested_depth _ Hwf k).
  assert (sub_sms w1 m = sub_sms w m) as Hm1 by (apply Hc1; lia).
  assert (∀ w', active depth k w' = active (pred depth) k w') as Hpred by (intros; apply active_ext; [lia|lia|done]).
  destruct h.
  - exists true, w1. split_and!; try done.
    + intros j Hj. apply Hc1. lia.
    + rewrite !Hpred in H1. destruct depth as [|n]; [lia|]. cbn [active pred] in *. rewrite Hm1, Hs. cbn [automata_step].
      by rewrite H1.
  - destruct H1 as [H1 Hsame]. destruct (Hown w1 Hv1) as (h & w2 & E2 & Hv2 & Hc2 & H2).
    + by rewrite Hm1.
    + intros k' [= <-]. rewrite <- Hpred. by rewrite (same_states_active _ _ _ _ Hsame).
    + exists h, w2. rewrite (same_states_active _ _ _ _ Hsame) in H2. split_and!; try done.
      * intros j Hj. rewrite Hc2 by done. apply Hsame.
      * destruct h; [done|]. split; [apply H2|]. intros j. by rewrite (proj2 H2), Hsame.
Qed.

Lemma process_event_refines fuel m e w : (level m < fuel)%nat → table_of m ≠ [] → valid w →
  refines m e w (process_event fuel m e w).
Proof.
  revert m w. induction fuel as [|fuel IH]; intros m w Hm Ht Hv; [lia|].
  destruct (nested_region _ Hwf m Ht) as [s0 Hs0]. destruct (Hv m Ht) as (c & s & Hc & Hs).
  assert (refines m e w (process_internal_events (process_event fuel) m e w)) as (h & w' & E & Hr).
  { unfold process_internal_events. case_decide as He.
    - rewrite Hs0. cbn [length seq process_event_impl]. set (w1 := log (LogProcessEvent m e) w).
      assert (same_states w w1) as H1 by done. rewrite H1, Hc. cbn [nth].
      rewrite (branch_stm_lookup 0 _ c), Hs.
      destruct (execute_state_refines fuel m e w1 s) as (h & w2 & E & Hv2 & Hc2 & H2);
        [by intros; apply IH|done|done|intros ->; by apply (no_anonymous m)|by rewrite H1, Hc|].
      exists h, w2. rewrite E. cbn. rewrite (same_states_active _ _ _ _ H1) in H2. split_and!; try done.
    - exists false, w. split_and!; try done. eapply unknown_event_ignored; [apply (nested_depth _ Hwf)|].
      intros H. apply He. apply unique_elem. set_solver. }
  exists h, w'. split; [|done]. cbn [process_event]. rewrite E. cbn [mbind option_bind].
  by rewrite process_anonymous_done.
Qed.

Lemma process_events_refines fuel m es w : (level m < fuel)%nat → table_of m ≠ [] → valid w →
  ∃ hs w', process_events fuel m es w = Some (hs, w') ∧ valid w' ∧
    automata_run m (active depth m w) es = (hs, active depth m w').
Proof.
  intros Hm Ht. revert w. induction es as [|e es IH]; intros w Hv; cbn [process_events automata_run]; [by exists [], w|].
  destruct (process_event_refines fuel m e w Hm Ht Hv) as (h & w1 & -> & Hv1 & _ & H1).
  destruct (IH w1 Hv1) as (hs & w2 & E2 & Hv2 & H2). exists (h :: hs), w2. cbn [mbind option_bind]. rewrite E2.
  split; [done|]. split; [done|].
  destruct h.
  - rewrite H1. cbn [from_option id]. rewrite H2. by rewrite bool_decide_true by done.
  - destruct H1 as [-> Hs]. cbn [from_option id]. rewrite <- (same_states_active _ _ _ _ Hs), H2.
    by rewrite bool_decide_false by (by intros [? [=]]).
Qed.

Definition fresh : world := mkWorld (λ k, (λ s, get_id s (states_t k)) <$> initial_states_t k) [].

Lemma initial_state_lookup k s : initial_states_t k = [s] → states_t k !! get_id s (states_t k) = Some s.
Proof.
  intros Hs. apply get_id_lookup. destruct (initial_state_row s k) as (t & Ht & _ & <-); [rewrite Hs; set_solver|].
  by apply row_src_state.
Qed.

Lemma fresh_valid : valid fresh.
Proof.
  intros k Hk. destruct (nested_region _ Hwf k Hk) as [s Hs]. exists (get_id s (states_t k)), s.
  cbn [fresh sub_sms]. rewrite Hs. split; [done|by apply initial_state_lookup].
Qed.

Lemma fresh_active n m : table_of m ≠ [] → active n m fresh = automata_start n m.
Proof.
  revert m. induction n as [|n IH]; intros m Hm; [done|]. cbn [active automata_start fresh sub_sms].
  destruct (nested_region _ Hwf m Hm) as [s Hs]. pose proof (initial_state_lookup m s Hs) as Hl.
  rewrite Hs. cbn [fmap list_fmap nth head]. rewrite Hl. destruct s; try done. f_equal. apply IH.
  apply (nested_tables_of _ Hwf m). by eapply list_elem_of_lookup_2.
Qed.
End refinement.

(** C25: The engine is a nested automaton.  For tables without anonymous transitions, with one
    region and no history, whose sub-machines nest and do not start in a sub-machine when they
    are entered: with more fuel than the nesting the machine starts in its initial states and
    handles every sequence of events; on each event the innermost active machine that has an
    enabled transition takes the first one of its table, and no other machine moves; the event
    is reported as handled exactly if there is one. *)
Theorem engine_refines_automata (level : text → nat) (fuel : nat) (m : text) (es : list event) :
  nested_tables level → (level m < fuel)%nat → table_of m ≠ [] →
  ∃ w0 hs w, sm_new fuel m = Some w0 ∧ process_events fuel m es w0 = Some (hs, w) ∧
    automata_run m (automata_start depth m) es = (hs, active depth m w).
Proof.
  intros Hwf Hm Ht. destruct (process_events_refines level Hwf fuel m es fresh Hm Ht (fresh_valid level Hwf)) as (hs & w & E & _ & H).
  exists fresh, hs, w. split; [|split; [done|by rewrite <- (fresh_active level Hwf)]].
  unfold sm_new. by eapply process_anonymous_done.
Qed.
End engine.

#[global] Arguments event D : clear implicits.
#[global] Arguments transition D : clear implicits.
#[global] Arguments world D : clear implicits.
#[global] Arguments log_item D : clear implicits.
#[global] Arguments guard D : clear implicits.

(** ** [simple_logger.h] *)
Section logger.
(** The names of the library's own types. *)
Context {D : Type} (internal_name anonymous_name : text).

(* @src third_party_examples/sml_examples/3rdParty/sml/boost/sml.hpp 572-581 string::c_str *)
(** A sub-machine has the name of its type. *)
Definition c_str (s : state) : text :=
  match s with Named n => n | SubSm m => m | Terminate => txt "terminate" | Internal => internal_name end.

Definition event_name (e : event D) : text := match e with EAnonymous => anonymous_name | Event t _ => t end.

Definition line (sm : text) (what : string) (rest : text) : text :=
  txt "[" ++ sm ++ txt "][" ++ txt what ++ txt "] " ++ rest ++ txt nl.

(* @src third_party_examples/sml_examples/include/simple_logger.h 6-10 simple_logger::log_process_event *)
Definition log_process_event (sm : text) (e : event D) : text := line sm "process_event" (event_name e).

(* @src third_party_examples/sml_examples/include/simple_logger.h 12-17 simple_logger::log_guard *)
Definition log_guard (sm g : text) (e : event D) (result : bool) : text :=
  line sm "guard" (g ++ txt " " ++ event_name e ++ txt " " ++ txt (if result then "[OK]" else "[Reject]")).

(* @src third_party_examples/sml_examples/include/simple_logger.h 19-23 simple_logger::log_action *)
Definition log_action (sm a : text) (e : event D) : text := line sm "action" (a ++ txt " " ++ event_name e).

(* @src third_party_examples/sml_examples/include/simple_logger.h 25-29 simple_logger::log_state_change *)
Definition log_state_change (sm : text) (src dst : state) : text := line sm "transition" (c_str src ++ txt " -> " ++ c_str dst).

Definition simple_logger (i : log_item D) : text :=
  match i with
  | LogProcessEvent sm e => log_process_event sm e
  | LogGuard sm g e r => log_guard sm g e r
  | LogAction sm a e => log_action sm a e
  | LogStateChange sm src dst => log_state_change sm src dst
  end.

(** What the logger has printed. *)
Definition printed (w : world D) : text := concat (simple_logger <$> logged w).

(** ** [get_current_states_name.cpp] *)
Context (table_of : text → list (transition D)).

(* @src third_party_examples/sml_examples/src/get_current_states_name.cpp 55-64 state_name_visitor::operator() *)
(** For the current states of machine [m], which nest to a depth below [n]. *)
Fixpoint state_name_visitor (n : nat) (m : text) (w : world D) : text :=
  match n with
  | O => []
  | S n =>
      concat ((λ s, match s with
                    | SubSm k => k ++ txt ":" ++ state_name_visitor n k w
                    | _ => c_str s
                    end) <$> visit_current_states table_of m w)
  end.

(* @src third_party_examples/sml_examples/src/get_current_states_name.cpp 76-81 get_current_states_name *)
Definition get_current_states_name (depth : nat) (m : text) (w : world D) : text := state_name_visitor depth m w.

Definition path_name (p : list state) : text :=
  concat ((λ s, match s with SubSm k => k ++ txt ":" | _ => c_str s end) <$> p).

(** In the machines of the refinement the name is the path of the active states. *)
Lemma get_current_states_name_path depth level n m w : nested_tables table_of depth level → valid table_of w → table_of m ≠ [] →
  get_current_states_name n m w = path_name (active table_of n m w).
Proof.
  intros Hwf Hv. unfold get_current_states_name. revert m. induction n as [|n IH]; intros m Hm; [done|].
  cbn [state_name_visitor active]. destruct (Hv m Hm) as (c & s & Hc & Hs). unfold visit_current_states.
  rewrite Hc. cbn [omap list_omap nth]. rewrite Hs. cbn [fmap list_fmap concat]. rewrite app_nil_r.
  destruct s as [nm|k| |]; try (unfold path_name; cbn [fmap list_fmap concat]; by rewrite app_nil_r).
  rewrite IH.
  - unfold path_name. cbn [fmap list_fmap concat]. by rewrite <- app_assoc.
  - apply (nested_tables_of _ _ _ Hwf m). by eapply list_elem_of_lookup_2.
Qed.
End logger.

(** A row of a table without guard and action. *)
Definition row {D} (initial : bool) (s : state) (e : string) (d : state) : transition D :=
  mkTransition initial false s d (On (txt e)) None None.

Definition named (s : string) : state := Named (txt s).

Definition tables {D} (ts : list (text * list (transition D))) (m : text) : list (transition D) :=
  match list_find (λ p, p.1 = m) ts with Some (_, (_, t)) => t | None => [] end.

(** Checking that a list of tables is one of the refinement: [ls] gives the levels. *)
Definition level_of (ls : list (text * nat)) (m : text) : nat :=
  match list_find (λ p, p.1 = m) ls with Some (_, (_, l)) => l | None => 0 end.

Definition nested_check {D} (depth : nat) (ls : list (text * nat)) (ts : list (text * list (transition D))) : bool :=
  let level := level_of ls in
  let table := tables ts in
  forallb (λ '(_, l), (l <? depth)%nat) ls && (0 <? depth)%nat &&
  forallb (λ '(m, _),
    forallb (λ s, match s with SubSm k => (level k <? level m)%nat && negb (length (table k) =? 0)%nat | _ => true end)
      (states_t table m) &&
    forallb (λ t, bool_decide (on t ≠ Anonymous) && negb (history t) &&
      match dst_state t with
      | SubSm k => match initial_states_t table k with [SubSm _] => false | _ => true end
      | _ => true
      end) (table m) &&
    ((length (table m) =? 0) || (length (initial_states_t table m) =? 1))%nat) ts.

Lemma tables_cases {D} (ts : list (text * list (transition D))) m : tables ts m = [] ∨ ∃ t, (m, t) ∈ ts.
Proof.
  unfold tables. destruct (list_find _ ts) as [[i [m' t]]|] eqn:E; [|by left]. right.
  apply list_find_Some in E as (E & <- & _). exists t. by eapply list_elem_of_lookup_2.
Qed.

Lemma nested_check_sound {D} depth ls (ts : list (text * list (transition D))) :
  nested_check depth ls ts = true → nested_tables (tables ts) depth (level_of ls).
Proof.
  unfold nested_check. rewrite !andb_true_iff, !forallb_forall. intros [[Hls Hd] Hts].
  apply Nat.ltb_lt in Hd.
  assert (∀ m, tables ts m ≠ [] → ∃ t, In (m, t) ts) as Hin.
  { intros m Hm. destruct (tables_cases ts m) as [?|(t & Ht)]; [done|]. exists t. by apply list_elem_of_In. }
  assert (∀ m s, s ∈ states_t (tables ts) m → tables ts m ≠ []) as Hstates.
  { intros m s (t & Ht & _)%state_row E. rewrite E in Ht. by apply elem_of_nil in Ht. }
  assert (∀ m t, t ∈ tables ts m → tables ts m ≠ []) as Hrows.
  { intros m t Ht E. rewrite E in Ht. by apply elem_of_nil in Ht. }
  assert (∀ m k, SubSm k ∈ states_t (tables ts) m → (level_of ls k < level_of ls m)%nat ∧ tables ts k ≠ []) as Hsub.
  { intros m k Hk. destruct (Hin m (Hstates m _ Hk)) as [t Ht]. apply Hts in Ht. rewrite !andb_true_iff, !forallb_forall in Ht.
    destruct Ht as [[Ht _] _]. specialize (Ht (SubSm k) (proj1 (list_elem_of_In _ _) Hk)). cbn in Ht.
    apply andb_true_iff in Ht as [H1 H2]. apply Nat.ltb_lt in H1. split; [done|]. by destruct (tables ts k). }
  assert (∀ m t, t ∈ tables ts m → on t ≠ Anonymous ∧ history t = false ∧
    ∀ k, dst_state t = SubSm k → ∀ j, initial_states_t (tables ts) k ≠ [SubSm j]) as Hrow.
  { intros m t Ht. destruct (Hin m (Hrows m t Ht)) as [tb Hm]. apply Hts in Hm. rewrite !andb_true_iff, !forallb_forall in Hm.
    destruct Hm as [[_ Hm] _]. specialize (Hm t (proj1 (list_elem_of_In _ _) Ht)).
    rewrite !andb_true_iff, bool_decide_eq_true, negb_true_iff in Hm. destruct Hm as [[H1 H2] H3]. split_and!; try done.
    intros k Hk j Hj. by rewrite Hk, Hj in H3. }
  split.
  - intros m k Hk. by apply Hsub.
  - intros m. unfold level_of. destruct (list_find _ ls) as [[i [m' l]]|] eqn:E; [|done].
    apply list_find_Some in E as (E & _). apply list_elem_of_lookup_2, list_elem_of_In, Hls in E. by apply Nat.ltb_lt.
  - intros m t Ht. by apply (Hrow m).
  - intros m t Ht. by apply (Hrow m).
  - intros m k Hk. by eapply Hsub.
  - intros m Hm. destruct (Hin m Hm) as [t Ht]. apply Hts, andb_true_iff in Ht as [_ Ht].
    apply orb_true_iff in Ht as [Ht|Ht]; apply Nat.eqb_eq in Ht; [by destruct (tables ts m)|].
    destruct (initial_states_t (tables ts) m) as [|s [|]]; try done. by exists s.
  - intros m t k s Ht Hd' Hs j ->. by eapply Hrow.
Qed.

Module GetCurrentStatesName.
(* @src third_party_examples/sml_examples/src/get_current_states_name.cpp 21-31 sub *)
Definition sub : list (transition unit) := [
  row true (named "idle") "e3" (named "sub1");
  row false (named "sub1") "e4" Terminate].

(* @src third_party_examples/sml_examples/src/get_current_states_name.cpp 33-44 composite *)
Definition composite : list (transition unit) := [
  row true (named "idle") "e1" (named "s1");
  row false (named "s1") "e2" (SubSm (txt "sub"));
  row false (SubSm (txt "sub")) "e5" Terminate].

Definition machines : text → list (transition unit) := tables [(txt "composite", composite); (txt "sub", sub)].

(* @src third_party_examples/sml_examples/src/get_current_states_name.cpp 83-102 main *)
(** The names after each event. *)
Definition main (internal_name : text) : option (list text) :=
  w ← sm_new machines 2 2 (txt "composite");
  '(out, _) ← foldl (λ acc e,
     '(out, w) ← acc;
     '(_, w) ← process_event machines 2 2 (txt "composite") (Event (txt e) tt) w;
     Some (out ++ [get_current_states_name internal_name machines 2 (txt "composite") w], w))
     (Some ([], w)) ["e1"; "e2"; "e3"; "e4"; "e5"];
  Some out.

(** The comments of the program say what it prints, but for the fourth line, where they have two
    colons. *)
Lemma get_current_states_name_prints internal_name :
  main internal_name = Some [txt "s1"; txt "sub:idle"; txt "sub:sub1"; txt "sub:terminate"; txt "terminate"].
Proof. by vm_compute. Qed.

Lemma composite_nested : nested_tables machines 2 (level_of [(txt "composite", 1%nat)]).
Proof. apply nested_check_sound. by vm_compute. Qed.

(** After any events the name is that of the active states of the nested automaton. *)
Lemma get_current_states_name_follows internal_name es :
  ∃ w0 hs w, sm_new machines 2 2 (txt "composite") = Some w0 ∧
    process_events machines 2 2 (txt "composite") es w0 = Some (hs, w) ∧
    get_current_states_name internal_name machines 2 (txt "composite") w =
    path_name internal_name (automata_run machines (txt "composite") [named "idle"] es).2.
Proof.
  destruct (process_events_refines machines 2 _ composite_nested 2 (txt "composite") es (fresh machines)) as (hs & w & E & Hv & H);
    [by apply (bool_decide_unpack _); vm_compute|done|apply (fresh_valid _ _ _ composite_nested)|].
  exists (fresh machines), hs, w. split; [by vm_compute|]. split; [done|].
  rewrite (get_current_states_name_path internal_name machines _ _ _ _ _ composite_nested Hv) by done.
  change (active machines 2 (txt "composite") (fresh machines)) with [named "idle"] in H. by rewrite H.
Qed.

Lemma engine_refines_automata_witness :
  ∃ w0 hs w, sm_new machines 2 2 (txt "composite") = Some w0 ∧
    process_events machines 2 2 (txt "composite") [Event (txt "e1") tt; Event (txt "e2") tt; Event (txt "e4") tt; Event (txt "e3") tt] w0 =
      Some (hs, w) ∧
    (hs, active machines 2 (txt "composite") w) = ([true; true; false; true], [SubSm (txt "sub"); named "sub1"]).
Proof.
  destruct (engine_refines_automata machines 2 (level_of [(txt "composite", 1%nat)]) 2 (txt "composite")
    [Event (txt "e1") tt; Event (txt "e2") tt; Event (txt "e4") tt; Event (txt "e3") tt]) as (w0 & hs & w & E0 & E & H).
  - apply nested_check_sound. vm_compute. reflexivity.
  - apply (bool_decide_unpack _). vm_compute. exact I.
  - discriminate.
  - exists w0, hs, w. split; [exact E0|]. split; [exact E|]. rewrite <- H. vm_compute. reflexivity.
Defined.
End GetCurrentStatesName.

(** ** [hello_world.cpp] *)
Module HelloWorld.
Section hello_world.
(** The names of the types of the lambda expressions. *)
Context (is_ack_valid_t is_fin_valid_t send_fin_t send_ack_t : text).

(* @src third_party_examples/sml_examples/src/hello_world.cpp 13-13 is_ack_valid *)
Definition is_ack_valid (e : event unit) : bool := true.

(* @src third_party_examples/sml_examples/src/hello_world.cpp 14-14 is_fin_valid *)
Definition is_fin_valid (e : event unit) : bool := true.

(* @src third_party_examples/sml_examples/src/hello_world.cpp 45-54 hello_world *)
Definition hello_world : list (transition unit) := [
  mkTransition true false (named "established") (named "fin wait 1") (On (txt "release")) None (Some (ACall send_fin_t));
  mkTransition false false (named "fin wait 1") (named "fin wait 2") (On (txt "ack"))
    (Some (GCall is_ack_valid_t is_ack_valid)) None;
  mkTransition false false (named "fin wait 2") (named "timed wait") (On (txt "fin"))
    (Some (GCall is_fin_valid_t is_fin_valid)) (Some (ACall send_ack_t));
  mkTransition false false (named "timed wait") Terminate (On (txt "timeout")) None (Some (ACall send_ack_t))].

Definition machines : text → list (transition unit) := tables [(txt "hello_world", hello_world)].
Definition self : text := txt "hello_world".

(* @src third_party_examples/sml_examples/src/hello_world.cpp 56-74 main *)
(** The conditions of the assertions, and the machine at the end. *)
Definition main : option (list bool * world unit) :=
  w ← sm_new machines 1 1 self;
  foldl (λ acc '(e, s),
    '(checks, w) ← acc;
    '(_, w) ← process_event machines 1 1 self (Event (txt e) tt) w;
    Some (checks ++ [match s with Terminate => is_terminate machines self w | _ => is_state machines self s w end], w))
    (Some ([is_state machines self (named "established") w], w))
    [("release", named "fin wait 1"); ("ack", named "fin wait 2"); ("fin", named "timed wait"); ("timeout", Terminate)].

(** No assertion fails, and what the logger prints. *)
Lemma hello_world_prints internal anonymous : ∃ w,
  main = Some ([true; true; true; true; true], w) ∧
  printed internal anonymous w = concat [
    txt "[hello_world][process_event] release"; txt nl;
    txt "[hello_world][transition] established -> fin wait 1"; txt nl;
    txt "[hello_world][action] "; send_fin_t; txt " release"; txt nl;
    txt "[hello_world][process_event] ack"; txt nl;
    txt "[hello_world][guard] "; is_ack_valid_t; txt " ack [OK]"; txt nl;
    txt "[hello_world][transition] fin wait 1 -> fin wait 2"; txt nl;
    txt "[hello_world][process_event] fin"; txt nl;
    txt "[hello_world][guard] "; is_fin_valid_t; txt " fin [OK]"; txt nl;
    txt "[hello_world][transition] fin wait 2 -> timed wait"; txt nl;
    txt "[hello_world][action] "; send_ack_t; txt " fin"; txt nl;
    txt "[hello_world][process_event] timeout"; txt nl;
    txt "[hello_world][transition] timed wait -> terminate"; txt nl;
    txt "[hello_world][action] "; send_ack_t; txt " timeout"; txt nl].
Proof. eexists. split; [by vm_compute|]. unfold printed. cbn -[app].
  unfold log_process_event, log_guard, log_action, log_state_change, line. rewrite <- !app_assoc. reflexivity.
Qed.

Lemma hello_world_nested : nested_tables machines 1 (level_of []).
Proof. apply nested_check_sound. by vm_compute. Qed.

(** The states in order, with the events that are to come. *)
Definition expected : list (state * list event_id) := [
  (named "established", [On (txt "release"); On (txt "ack"); On (txt "fin"); On (txt "timeout")]);
  (named "fin wait 1", [On (txt "ack"); On (txt "fin"); On (txt "timeout")]);
  (named "fin wait 2", [On (txt "fin"); On (txt "timeout")]);
  (named "timed wait", [On (txt "timeout")]);
  (Terminate, [])].

Lemma sublist_greedy {A} `{EqDecision A} (x y : A) l k :
  (x :: l) `sublist_of` (y :: k) ↔ if decide (x = y) then l `sublist_of` k else (x :: l) `sublist_of` k.
Proof.
  rewrite sublist_cons_r. case_decide as E; [subst y|].
  - split; [|by right; eauto]. intros [H|(l' & [= <-] & H)]; [|done]. etrans; [|exact H]. by apply sublist_cons.
  - split; [|by left]. intros [?|(l' & [= -> ->] & _)]; done.
Qed.

(** Each state waits for the first event of its list. *)
Definition arrows : list (state * event_id * state) := [
  (named "established", On (txt "release"), named "fin wait 1"); (named "fin wait 1", On (txt "ack"), named "fin wait 2");
  (named "fin wait 2", On (txt "fin"), named "timed wait"); (named "timed wait", On (txt "timeout"), Terminate)].

Lemma step_waits s x s' e : (s, x, s') ∈ arrows →
  automata_step machines self [s] e = if decide (x = id_of e) then Some [s'] else None.
Proof.
  intros Hs. unfold arrows in Hs. assert (first_enabled machines self s e =
    if decide (x = id_of e) then List.find (enabled e) (get_state_mapping machines self s x) else None) as Hf.
  { case_decide as E; [by rewrite E|]. apply no_rows. intros t Ht H1 H2. change (machines self) with hello_world in Ht. unfold hello_world in Ht. set_unfold in Ht.
    set_unfold in Hs. naive_solver. }
  set_unfold in Hs. destruct Hs as [Hs|[Hs|[Hs|[Hs|[]]]]]; simplify_eq;
    (cbn [automata_step]; unfold named in *; rewrite Hf; by case_decide).
Qed.

Lemma step_ends e : automata_step machines self [Terminate] e = None.
Proof.
  cbn [automata_step]. rewrite no_rows; [done|]. intros t Ht H1 H2. change (machines self) with hello_world in Ht. unfold hello_world in Ht. set_unfold in Ht. naive_solver.
Qed.

Lemma automata_waits s l es : (s, l) ∈ expected →
  ∃ hs s', automata_run machines self [s] es = (hs, [s']) ∧ (s' = Terminate ↔ l `sublist_of` (id_of <$> es)).
Proof.
  revert s l. induction es as [|e es IH]; intros s l Hs; cbn [automata_run].
  { exists [], s. split; [done|]. cbn. rewrite sublist_nil_r. unfold expected in Hs. set_unfold in Hs. naive_solver. }
  assert (∀ x l' s2, (s, x, s2) ∈ arrows → l = x :: l' → (s2, l') ∈ expected → ∃ hs s', automata_run machines self [s] (e :: es) = (hs, [s']) ∧
    (s' = Terminate ↔ l `sublist_of` (id_of <$> e :: es))) as Hnext.
  { intros x l' s2 Hx -> Hs2. cbn [automata_run]. rewrite (step_waits _ _ _ _ Hx).
    pose proof (sublist_greedy x (id_of e) l' (id_of <$> es)) as Hg. case_decide as Hd; cbn [from_option id].
    - destruct (IH s2 l' Hs2) as (hs & s' & -> & H). eexists _, s'. split; [done|]. by rewrite H, <- Hg.
    - destruct (IH s (x :: l') Hs) as (hs & s' & -> & H). eexists _, s'. split; [done|]. by rewrite H, <- Hg. }
  unfold expected in Hs. rewrite !elem_of_cons, elem_of_nil in Hs.
  destruct Hs as [Hs|[Hs|[Hs|[Hs|[Hs|[]]]]]]; simplify_eq;
    [eapply (Hnext _ _ (named "fin wait 1"))|eapply (Hnext _ _ (named "fin wait 2"))|
     eapply (Hnext _ _ (named "timed wait"))|eapply (Hnext _ _ Terminate)|];
    try reflexivity; try (apply (bool_decide_unpack _); by vm_compute).
  rewrite step_ends. cbn [from_option id]. destruct (IH Terminate []) as (hs & s' & -> & H); [unfold expected; set_solver|].
  exists (bool_decide (is_Some (@None (list state))) :: hs), s'. split; [done|]. rewrite H. split; intros _; apply sublist_nil_l.
Qed.

(** The connection is released exactly by the four events in their order.  Whatever events
    the machine of the program receives, in whatever order and however often, it handles all of
    them, and it is in its final state if and only if [release], [ack], [fin] and [timeout]
    occur among them in this order. *)
Theorem hello_world_terminates (es : list (event unit)) :
  ∃ w0 hs w, sm_new machines 1 1 self = Some w0 ∧ process_events machines 1 1 self es w0 = Some (hs, w) ∧
    (is_terminate machines self w = true ↔
     [On (txt "release"); On (txt "ack"); On (txt "fin"); On (txt "timeout")] `sublist_of` (id_of <$> es)).
Proof.
  destruct (process_events_refines machines 1 _ hello_world_nested 1 self es (fresh machines)) as (hs & w & E & Hv & H).
  { apply Nat.lt_0_1. } { done. } { apply (fresh_valid _ _ _ hello_world_nested). }
  exists (fresh machines), hs, w. split; [by vm_compute|]. split; [done|].
  destruct (automata_waits (named "established") [On (txt "release"); On (txt "ack"); On (txt "fin"); On (txt "timeout")] es)
    as (hs' & s' & E' & H'); [unfold expected; set_solver|].
  assert (Terminate ∈ states_t machines self) as HX by (apply (bool_decide_unpack _); by vm_compute).
  rewrite <- H', (is_terminate_active machines 0 self w Hv ltac:(done) HX).
  change (active machines 1 self (fresh machines)) with [named "established"] in H. rewrite H in E'.
  apply (f_equal snd) in E'. cbn [snd] in E'. rewrite E'. split; [by intros [= ->]|by intros ->].
Qed.
End hello_world.
End HelloWorld.

(** ** [child_parent_events.cpp] *)
Module ChildParentEvents.
Section child_parent.
(** The name of the type of the lambda expression. *)
Context (release_child_t : text).

(* @src third_party_examples/sml_examples/src/child_parent_events.cpp 7-9 release *)
Definition release (child : bool) : event bool := Event (txt "release") child.

(* @src third_party_examples/sml_examples/src/child_parent_events.cpp 12-12 release_child *)
Definition release_child (e : event bool) : bool := match e with Event _ child => child | EAnonymous => false end.

(* @src third_party_examples/sml_examples/src/child_parent_events.cpp 40-48 parent *)
(** [child] has no table and is a plain state. *)
Definition parent : list (transition bool) := [
  mkTransition true false (named "parent::child") (named "intermediate") (On (txt "release"))
    (Some (GCall release_child_t release_child)) None;
  row false (named "intermediate") "timeout" Terminate].

(* @src third_party_examples/sml_examples/src/child_parent_events.cpp 50-55 hello_world *)
Definition hello_world : list (transition bool) := [row true (SubSm (txt "parent")) "release" Terminate].

Definition machines : text → list (transition bool) := tables [(txt "hello_world", hello_world); (txt "parent", parent)].
Definition self : text := txt "hello_world".

Definition heading (s : string) : text :=
  txt "==========================================" ++ txt nl ++
  chr 27 :: txt "[32;1m" ++ txt s ++ chr 27 :: txt "[0m" ++ txt nl.

(* @src third_party_examples/sml_examples/src/child_parent_events.cpp 57-80 main *)
(** The conditions of the assertions, and what is printed. *)
Definition main (internal anonymous : text) : option (list bool * text) :=
  w1 ← sm_new machines 2 2 self;
  '(_, w1) ← process_event machines 2 2 self (release true) w1;
  w2 ← sm_new machines 2 2 self;
  '(_, w2) ← process_event machines 2 2 self (release false) w2;
  Some ([is_state machines self (SubSm (txt "parent")) w1; is_state machines (txt "parent") (named "intermediate") w1;
         is_terminate machines self w2],
        heading "child processes events before parent. " ++ printed internal anonymous w1 ++
        heading "parent processes the same events which is rejected by guard in child. " ++ printed internal anonymous w2).

(** The child handles the event before its parent, and the parent the one that the guard of the
    child rejects: both see it in the first place. *)
Lemma child_parent_prints internal anonymous :
  main internal anonymous = Some ([true; true; true], concat [
    heading "child processes events before parent. ";
    txt "[hello_world][process_event] release"; txt nl; txt "[parent][process_event] release"; txt nl;
    txt "[parent][guard] "; release_child_t; txt " release [OK]"; txt nl;
    txt "[parent][transition] parent::child -> intermediate"; txt nl;
    heading "parent processes the same events which is rejected by guard in child. ";
    txt "[hello_world][process_event] release"; txt nl; txt "[parent][process_event] release"; txt nl;
    txt "[parent][guard] "; release_child_t; txt " release [Reject]"; txt nl;
    txt "[hello_world][transition] parent -> terminate"; txt nl]).
Proof.
  transitivity (Some ([true; true; true], heading "child processes events before parent. " ++
    concat (simple_logger internal anonymous <$> [LogProcessEvent self (release true); LogProcessEvent (txt "parent") (release true);
      LogGuard (txt "parent") release_child_t (release true) true;
      LogStateChange (txt "parent") (named "parent::child") (named "intermediate")]) ++
    heading "parent processes the same events which is rejected by guard in child. " ++
    concat (simple_logger internal anonymous <$> [LogProcessEvent self (release false); LogProcessEvent (txt "parent") (release false);
      LogGuard (txt "parent") release_child_t (release false) false; LogStateChange self (SubSm (txt "parent")) Terminate]))).
  - by vm_compute.
  - do 2 f_equal. cbn [fmap list_fmap simple_logger concat]. unfold log_process_event, log_guard, log_state_change, line.
    rewrite <- !app_assoc. reflexivity.
Qed.
End child_parent.
End ChildParentEvents.

(** ** What is not reset *)
Module Reentry.
Definition inner : list (transition unit) := [row true (named "c0") "e3" (named "c1")].
Definition middle : list (transition unit) := [row true (SubSm (txt "inner")) "e5" Terminate].
Definition outer : list (transition unit) := [
  row true (named "idle") "e1" (SubSm (txt "middle"));
  row false (SubSm (txt "middle")) "e2" (named "idle")].
Definition machines : text → list (transition unit) := tables [(txt "outer", outer); (txt "middle", middle); (txt "inner", inner)].

(** A sub-machine that is the initial state of a sub-machine keeps the state in which it was
    left when that machine is entered again: only the machine that is entered is reset. *)
Lemma reentry_keeps_inner_state : ∃ w0 hs w, sm_new machines 3 3 (txt "outer") = Some w0 ∧
  process_events machines 3 3 (txt "outer")
    [Event (txt "e1") tt; Event (txt "e3") tt; Event (txt "e2") tt; Event (txt "e1") tt] w0 = Some (hs, w) ∧
  active machines 3 (txt "outer") w = [SubSm (txt "middle"); SubSm (txt "inner"); named "c1"].
Proof. eexists _, _, _. split_and!; by vm_compute. Qed.
End Reentry.
