(* ===== verification/RelaxedOrdering.v ===== *)
(** Relaxed atomics: [src/cpp_practices/memory_ordering_examples/relaxed_ordering.cpp].

    Three threads each store 1 to 10 to a variable of their own, and all five threads read
    the three variables in each of their ten rounds, everything with
    [memory_order_relaxed].  An interleaving of the threads would be too strong a model: it
    excludes results that C++ allows.  The executions here are those of the axioms of C++
    for relaxed atomics: the stores to a variable have a modification order, given by
    timestamps, a load reads from a store or the initial value, and of two operations of a
    thread on the same variable the second does not go back in the modification order (the
    four coherence rules of [intro.races]).  Nothing relates different variables.

    The theorem gives exactly the outputs the program can have. *)
From S2P Require Import Prelude Text.
From Stdlib Require Import Sorted.
Local Open Scope Z_scope.
Local Open Scope list_scope.

(** ** Relaxed executions *)

Inductive var := x | y | z.
#[global] Instance var_eq_dec : EqDecision var.
Proof. solve_decision. Defined.

(** The operations of a program. *)
Inductive op := load (l : var) | store (l : var) (v : Z).

(** What an operation did: a load with the value it read, or a store. *)
Record action := Action { loc : var; is_store : bool; val : Z }.
(** An action with its place in the modification order of its variable: its own for a
    store, that of the store it reads from for a load; 0 is the initial value. *)
Abbreviation event := (action * nat)%type.

Definition performs (o : op) (e : event) : Prop :=
  match o with
  | load l => loc e.1 = l ∧ is_store e.1 = false
  | store l v => e.1 = Action l true v
  end.

(** Write-write, read-write, write-read and read-read coherence. *)
Definition coherent (a b : event) : Prop :=
  loc a.1 = loc b.1 → if is_store b.1 then (a.2 < b.2)%nat else (a.2 ≤ b.2)%nat.

Definition store_at (l : var) (a : action) : Prop := is_store a = true ∧ loc a = l.

(** The events of the threads, each in program order. *)
Record consistent (X : list (list event)) : Prop := {
  program_order : Forall (StronglySorted coherent) X;
  modification_order : ∀ l, NoDup (snd <$> filter (λ e, store_at l e.1) (concat X));
  not_initial : ∀ a, a ∈ concat X → is_store a.1 = true → (0 < a.2)%nat;
  reads_from : ∀ a, a ∈ concat X → is_store a.1 = false →
    (val a.1 = 0 ∧ a.2 = 0%nat) ∨ (Action (loc a.1) true (val a.1), a.2) ∈ concat X }.

(** ** The program *)

(* @src cpp_practices/memory_ordering_examples/relaxed_ordering.cpp 12-12 loop_count *)
Definition loop_count : nat := 10.

(* @src cpp_practices/memory_ordering_examples/relaxed_ordering.cpp 14-18 ReadValues *)
Record ReadValues := RV { rv_x : Z; rv_y : Z; rv_z : Z }.

(* @src cpp_practices/memory_ordering_examples/relaxed_ordering.cpp 26-38 increment *)
Definition increment (var_to_inc : var) : list op :=
  concat ((λ i, [load x; load y; load z; store var_to_inc (i + 1)]) <$> seqZ 0 (Z.of_nat loop_count)).

(* @src cpp_practices/memory_ordering_examples/relaxed_ordering.cpp 40-51 readValues *)
Definition readValues : list op :=
  concat ((λ _, [load x; load y; load z]) <$> seqZ 0 (Z.of_nat loop_count)).

(** The values that the loads of a thread read, and a table as they fill it. *)
Definition reads (es : list event) : list Z :=
  omap (λ e, if is_store e.1 then None else Some (val e.1)) es.
Definition filled (values : list ReadValues) : list Z :=
  concat ((λ r, [rv_x r; rv_y r; rv_z r]) <$> values).

Definition row_text (r : ReadValues) : text :=
  txt "(" ++ to_text (rv_x r) ++ txt ", " ++ to_text (rv_y r) ++ txt ", " ++ to_text (rv_z r) ++ txt ")".

(* @src cpp_practices/memory_ordering_examples/relaxed_ordering.cpp 53-61 print *)
Definition print_table (v : list ReadValues) : text :=
  concat (imap (λ i r, (if (i =? 0)%nat then [] else txt ", ") ++ row_text r) v) ++ txt nl.

(* @src cpp_practices/memory_ordering_examples/relaxed_ordering.cpp 64-68 main *)
Definition threads : list (list op) := [increment x; increment y; increment z; readValues; readValues].

(* @src cpp_practices/memory_ordering_examples/relaxed_ordering.cpp 63-83 main *)
(** The output is printed after all threads are joined. *)
Definition relaxed_prints (out : text) : Prop :=
  ∃ (X : list (list event)) (tables : list (list ReadValues)),
    Forall2 (Forall2 performs) threads X ∧ consistent X ∧
    Forall2 (λ es values, reads es = filled values) X tables ∧ out = concat (print_table <$> tables).

(** ** The allowed tables *)

Definition column (l : var) (r : ReadValues) : Z := match l with x => rv_x r | y => rv_y r | z => rv_z r end.

(** The thread that stores to [w] reads in round [i] the value [i] of it; the values of a
    variable of another thread do not decrease from round to round. *)
Definition allowed (w : option var) (values : list ReadValues) : Prop :=
  length values = loop_count ∧
  ∀ l, let c := column l <$> values in
    if bool_decide (w = Some l) then c = seqZ 0 (Z.of_nat loop_count)
    else StronglySorted Z.le c ∧ Forall (λ v, 0 ≤ v ≤ Z.of_nat loop_count) c.

Definition writers : list (option var) := [Some x; Some y; Some z; None; None].

(** ** Actions of a thread *)

(** The actions of a thread from round [i] on, with the values it reads. *)
Fixpoint row_actions (w : option var) (i : Z) (values : list ReadValues) : list action :=
  match values with
  | [] => []
  | r :: values =>
      Action x false (rv_x r) :: Action y false (rv_y r) :: Action z false (rv_z r) ::
      (match w with Some l => [Action l true (i + 1)] | None => [] end) ++ row_actions w (i + 1) values
  end.

Definition thread_ops (w : option var) (i : Z) (n : nat) : list op :=
  concat ((λ i, [load x; load y; load z] ++ match w with Some l => [store l (i + 1)] | None => [] end)
    <$> seqZ i (Z.of_nat n)).

Lemma thread_ops_S w i n :
  thread_ops w i (S n) =
  [load x; load y; load z] ++ match w with Some l => [store l (i + 1)] | None => [] end ++ thread_ops w (i + 1) n.
Proof.
  unfold thread_ops. rewrite seqZ_cons by lia. replace (Z.pred (Z.of_nat (S n))) with (Z.of_nat n) by lia.
  cbn. by destruct w.
Qed.

Lemma performs_load l e : performs (load l) e → ∃ v t, e = (Action l false v, t).
Proof. destruct e as [[l' st v] t]. cbn. intros [-> ->]. eauto. Qed.

(** A thread that performs its operations and fills a table. *)
Lemma thread_actions w i n es values :
  Forall2 performs (thread_ops w i n) es → reads es = filled values →
  es.*1 = row_actions w i values ∧ length values = n.
Proof.
  revert i es values. induction n as [|n IH]; intros i es values.
  - intros ->%Forall2_nil_inv_l. destruct values as [|r values]; [done|]. by intros.
  - rewrite thread_ops_S. cbn [app]. intros Hes.
    apply Forall2_cons_inv_l in Hes as (e1 & es1 & (v1 & t1 & ->)%performs_load & Hes & ->).
    apply Forall2_cons_inv_l in Hes as (e2 & es2 & (v2 & t2 & ->)%performs_load & Hes & ->).
    apply Forall2_cons_inv_l in Hes as (e3 & es3 & (v3 & t3 & ->)%performs_load & Hes & ->).
    destruct values as [|[a b c] values]; [done|]. cbn. destruct w as [l|]; cbn [app] in Hes.
    + apply Forall2_cons_inv_l in Hes as (e4 & es4 & He & Hes & ->). destruct e4 as [a4 t4]. cbn in He. subst a4.
      cbn. intros [= -> -> -> Hr]. destruct (IH (i + 1) es4 values Hes Hr) as [-> ->]. done.
    + intros [= -> -> -> Hr]. destruct (IH (i + 1) es3 values Hes Hr) as [-> ->]. done.
Qed.

(** The converse, with any timestamps. *)
Lemma actions_thread w i values es :
  es.*1 = row_actions w i values →
  Forall2 performs (thread_ops w i (length values)) es ∧ reads es = filled values.
Proof.
  revert i es. induction values as [|[a b c] values IH]; intros i es He.
  - apply fmap_nil_inv in He as ->. by split.
  - cbn [length]. rewrite thread_ops_S. cbn in He.
    destruct es as [|[e1 t1] [|[e2 t2] [|[e3 t3] es]]]; try done. cbn in He. injection He as -> -> -> He.
    destruct w as [l|]; cbn [app] in *.
    + destruct es as [|[e4 t4] es]; [done|]. injection He as -> He. destruct (IH (i + 1) es He) as [Hp Hr].
      split; [by repeat constructor|].
      change (a :: b :: c :: reads es = a :: b :: c :: filled values). by rewrite Hr.
    + destruct (IH (i + 1) es He) as [Hp Hr]. split; [by repeat constructor|].
      change (a :: b :: c :: reads es = a :: b :: c :: filled values). by rewrite Hr.
Qed.

Lemma increment_ops l : increment l = thread_ops (Some l) 0 loop_count.
Proof. done. Qed.
Lemma readValues_ops : readValues = thread_ops None 0 loop_count.
Proof. done. Qed.

(** ** Coherence by values *)

Definition coherent_val (a b : action) : Prop :=
  loc a = loc b → if is_store b then val a < val b else val a ≤ val b.

Definition at_loc (l : var) : list action → list action := filter (λ a, loc a = l).

Lemma coherent_by_loc (acts : list action) :
  StronglySorted coherent_val acts ↔ ∀ l, StronglySorted coherent_val (at_loc l acts).
Proof.
  induction acts as [|a acts IH]; [split; constructor|]. split.
  - intros [Hs Ha]%StronglySorted_inv l. unfold at_loc. rewrite filter_cons. case_decide; [|by apply IH].
    constructor; [by apply IH|]. rewrite Forall_forall in Ha |- *. intros b [_ Hb]%list_elem_of_filter. by apply Ha.
  - intros Hl. constructor.
    + apply IH. intros l. specialize (Hl l). unfold at_loc in Hl. rewrite filter_cons in Hl.
      case_decide; [by apply StronglySorted_inv in Hl as [? _]|done].
    + specialize (Hl (loc a)). unfold at_loc in Hl. rewrite filter_cons_True in Hl by done.
      apply StronglySorted_inv in Hl as [_ Ha]. rewrite Forall_forall in Ha |- *.
      intros b Hb Heq. apply (Ha b); [|done]. by apply list_elem_of_filter.
Qed.

Definition loads (l : var) (c : list Z) : list action := Action l false <$> c.
Fixpoint stores_between (l : var) (i : Z) (c : list Z) : list action :=
  match c with [] => [] | v :: c => Action l false v :: Action l true (i + 1) :: stores_between l (i + 1) c end.

Lemma at_loc_cons l a acts :
  at_loc l (a :: acts) = if bool_decide (loc a = l) then a :: at_loc l acts else at_loc l acts.
Proof. unfold at_loc. rewrite filter_cons. by case_decide; case_bool_decide. Qed.

Lemma at_loc_row_actions w i values l :
  at_loc l (row_actions w i values) =
  if bool_decide (w = Some l) then stores_between l i (column l <$> values) else loads l (column l <$> values).
Proof.
  revert i. induction values as [|[a b c] values IH]; intros i; [by case_bool_decide|].
  specialize (IH (i + 1)). destruct w as [[]|]; destruct l; cbn [row_actions app] in *;
    rewrite !at_loc_cons; cbn [bool_decide decide loc]; rewrite IH; done.
Qed.

Lemma sorted_stores_between l i c :
  (StronglySorted coherent_val (stores_between l i c) ∧ Forall (λ v, i ≤ v) c) ↔ c = seqZ i (Z.of_nat (length c)).
Proof.
  revert i. induction c as [|v c IH]; intros i; [split; [done|by repeat constructor]|].
  cbn [length stores_between]. rewrite seqZ_cons by lia.
  replace (Z.pred (Z.of_nat (S (length c)))) with (Z.of_nat (length c)) by lia. split.
  - intros [[[Hs Hst]%StronglySorted_inv Hv]%StronglySorted_inv [Hi _]%Forall_cons].
    apply Forall_cons in Hv as [Hv _]. specialize (Hv eq_refl). cbn in Hv.
    f_equal; [lia|]. apply IH. split; [done|]. apply Forall_forall. intros v' Hv'.
    assert (∀ i', Action l false v' ∈ stores_between l i' c) as Hin.
    { clear -Hv'. induction c as [|u c IHc]; [by apply elem_of_nil in Hv'|]. intros i'. cbn.
      apply elem_of_cons in Hv' as [->|Hv']; [left|]. do 2 right. by apply IHc. }
    rewrite Forall_forall in Hst. exact (Hst _ (Hin (i + 1)) eq_refl).
  - intros [= -> Hc]. destruct (proj2 (IH (i + 1)) Hc) as [Hs Hf].
    assert (∀ a, a ∈ stores_between l (i + 1) c → i + 1 ≤ val a ∧ (is_store a = true → i + 1 < val a)) as Hall.
    { clear -Hf. revert Hf. generalize (i + 1) as k. intros k.
      assert (∀ k', k ≤ k' → Forall (λ v, k ≤ v) c → ∀ a, a ∈ stores_between l k' c →
        k ≤ val a ∧ (is_store a = true → k < val a)) as H; [|by intros Hf; apply H].
      induction c as [|u c IHc]; intros k' Hk Hf a; [by intros ?%elem_of_nil|].
      apply Forall_cons in Hf as [Hu Hf]. cbn. intros [->|[->|Ha]%elem_of_cons]%elem_of_cons; cbn; [by split|split; [lia|intros _; lia]|].
      apply (IHc (k' + 1)); [lia|done|done]. }
    split; [|constructor; [done|]; eapply Forall_impl; [done|cbn; lia]].
    repeat constructor; [done|..].
    + apply Forall_forall. intros a Ha _. destruct (Hall a Ha). cbn. destruct (is_store a); auto.
    + intros _. cbn. lia.
    + apply Forall_forall. intros a Ha _. destruct (Hall a Ha) as [H1 H2]. cbn. destruct (is_store a); [|lia].
      specialize (H2 eq_refl). lia.
Qed.

Lemma elem_of_concat {A} (a : A) (ls : list (list A)) : a ∈ concat ls ↔ ∃ l, a ∈ l ∧ l ∈ ls.
Proof.
  rewrite list_elem_of_In, in_concat. split; intros (l & H1 & H2); exists l; rewrite <- ?list_elem_of_In in *; by rewrite ?list_elem_of_In in *.
Qed.

Lemma StronglySorted_fmap {A B} (f : A → B) (R : B → B → Prop) (l : list A) :
  StronglySorted R (f <$> l) ↔ StronglySorted (λ a b, R (f a) (f b)) l.
Proof.
  induction l as [|a l IH]; [split; constructor|]. split.
  - intros [Hs Ha]%StronglySorted_inv. constructor; [by apply IH|exact (proj1 (Forall_fmap _ _ _) Ha)].
  - intros [Hs Ha]%StronglySorted_inv. constructor; [by apply IH|exact (proj2 (Forall_fmap _ _ _) Ha)].
Qed.

Lemma StronglySorted_impl {A} (R R' : A → A → Prop) (l : list A) :
  (∀ a b, a ∈ l → b ∈ l → R a b → R' a b) → StronglySorted R l → StronglySorted R' l.
Proof.
  intros HR. induction 1 as [|a l Hs IH Ha]; constructor.
  - apply IH. intros b c Hb Hc. apply HR; by right.
  - rewrite Forall_forall in Ha |- *. intros b Hb. apply HR; [left|by right|by apply Ha].
Qed.

Lemma StronglySorted_and {A} (R R' : A → A → Prop) (l : list A) :
  StronglySorted R l → StronglySorted R' l → StronglySorted (λ a b, R a b ∧ R' a b) l.
Proof.
  induction 1 as [|a l Hs IH Ha]; [constructor|]. intros [Hs' Ha']%StronglySorted_inv. constructor; [by apply IH|].
  apply Forall_and. by split.
Qed.

Lemma StronglySorted_total {A} (R : A → A → Prop) (l : list A) a b :
  StronglySorted R l → a ∈ l → b ∈ l → a = b ∨ R a b ∨ R b a.
Proof.
  induction 1 as [|c l Hs IH Hc]; [by intros ?%elem_of_nil|]. rewrite Forall_forall in Hc.
  intros [->|Ha]%elem_of_cons [->|Hb]%elem_of_cons; auto.
Qed.

Lemma sorted_loads l c : StronglySorted coherent_val (loads l c) ↔ StronglySorted Z.le c.
Proof.
  unfold loads. rewrite StronglySorted_fmap. split; apply StronglySorted_impl; intros a b _ _; unfold coherent_val; cbn; auto.
Qed.

Definition in_range (a : action) : Prop := is_store a = false → 0 ≤ val a ≤ Z.of_nat loop_count.

Lemma Forall_at_loc (P : action → Prop) acts : Forall P acts ↔ ∀ l, Forall P (at_loc l acts).
Proof.
  setoid_rewrite Forall_forall. split.
  - intros H l a [_ Ha]%list_elem_of_filter. by apply H.
  - intros H a Ha. apply (H (loc a)). by apply list_elem_of_filter.
Qed.

Lemma in_range_loads l c : Forall in_range (loads l c) ↔ Forall (λ v, 0 ≤ v ≤ Z.of_nat loop_count) c.
Proof. unfold loads. rewrite Forall_fmap. split; intros H; (eapply Forall_impl; [exact H|]); unfold in_range; cbn; auto. Qed.

Lemma in_range_stores_between l i c :
  Forall in_range (stores_between l i c) ↔ Forall (λ v, 0 ≤ v ≤ Z.of_nat loop_count) c.
Proof.
  revert i. induction c as [|v c IH]; intros i; [split; constructor|]. cbn [stores_between]. rewrite !Forall_cons, IH.
  unfold in_range at 1 2. cbn. intuition done.
Qed.

(** The tables of coherent threads are the allowed ones. *)
Lemma coherent_allowed w values :
  length values = loop_count →
  (StronglySorted coherent_val (row_actions w 0 values) ∧ Forall in_range (row_actions w 0 values)) ↔ allowed w values.
Proof.
  intros Hlen. unfold allowed. rewrite coherent_by_loc, Forall_at_loc.
  setoid_rewrite at_loc_row_actions. transitivity (∀ l, let c := column l <$> values in
    if bool_decide (w = Some l) then c = seqZ 0 (Z.of_nat loop_count)
    else StronglySorted Z.le c ∧ Forall (λ v, 0 ≤ v ≤ Z.of_nat loop_count) c); [|tauto].
  rewrite <- (length_fmap (column x)) in Hlen.
  assert (∀ l, length (column l <$> values) = loop_count) as Hl by (intros l; by rewrite length_fmap in *).
  split.
  - intros [Hs Hr] l. specialize (Hs l). specialize (Hr l). case_bool_decide.
    + apply in_range_stores_between in Hr. rewrite <- (Hl l). apply (sorted_stores_between l). split; [done|].
      eapply Forall_impl; [done|]. cbn. lia.
    + cbn zeta. by rewrite <- (sorted_loads l), <- (in_range_loads l).
  - intros H. split; intros l; specialize (H l); cbn zeta in H; case_bool_decide.
    + rewrite <- (Hl l) in H. by apply (sorted_stores_between l) in H as [? _].
    + by apply sorted_loads, H.
    + apply in_range_stores_between. rewrite H. apply Forall_forall. intros v ?%elem_of_seqZ. lia.
    + by apply in_range_loads, H.
Qed.

(** ** Timestamps *)

(** The stores of a thread go up. *)
Lemma row_actions_stores w i values a :
  a ∈ row_actions w i values → is_store a = true → w = Some (loc a) ∧ i < val a ≤ i + Z.of_nat (length values).
Proof.
  revert i. induction values as [|r values IH]; intros i; [by intros ?%elem_of_nil|].
  cbn [row_actions length]. rewrite !elem_of_cons, elem_of_app.
  intros [->|[->|[->|[Ha|Ha]]]] Hst; try done.
  - destruct w as [l|]; [|by apply elem_of_nil in Ha]. apply list_elem_of_singleton in Ha as ->. cbn. split; [done|lia].
  - destruct (IH (i + 1) Ha Hst) as [-> Hv]. split; [done|lia].
Qed.

Definition stores_up (a b : action) : Prop := is_store a = true → is_store b = true → val a < val b.

Lemma row_actions_up w i values : StronglySorted stores_up (row_actions w i values).
Proof.
  revert i. induction values as [|r values IH]; intros i; cbn [row_actions]; [constructor|].
  assert (∀ l v acts, Forall (stores_up (Action l false v)) acts) as Hload.
  { intros l v acts. apply Forall_forall. by intros a _ [=]. }
  repeat (constructor; [|apply Hload]). destruct w as [l|]; cbn [app]; [|apply IH].
  constructor; [apply IH|]. apply Forall_forall. intros a Ha _ Hst.
  by apply row_actions_stores in Ha as [_ [Hv _]].
Qed.

Section timestamps.
Context (X : list (list event)) (tables : list (list ReadValues)).
Context (HX : Forall2 (λ '(w, values) es, es.*1 = row_actions w 0 values) (zip writers tables) X).
Context (Hrounds : Forall (λ values, length values = loop_count) tables).
Context (Hcons : consistent X).

(** A place in the modification order: the initial value or a store. *)
Definition place (l : var) (v : Z) (t : nat) : Prop :=
  (v = 0 ∧ t = 0%nat) ∨ (Action l true v, t) ∈ concat X.

Lemma event_place a : a ∈ concat X → place (loc a.1) (val a.1) a.2.
Proof.
  intros Ha. destruct (is_store a.1) eqn:Hst.
  - right. destruct a as [[l st v] t]. cbn in *. by subst st.
  - by apply (reads_from X Hcons).
Qed.

Lemma thread_of es : es ∈ X → ∃ w values k,
  writers !! k = Some w ∧ X !! k = Some es ∧ es.*1 = row_actions w 0 values ∧ length values = loop_count.
Proof.
  intros [k Hk]%list_elem_of_lookup.
  destruct (Forall2_lookup_r _ _ _ _ _ HX Hk) as ([w values] & Hwv & He).
  apply lookup_zip_Some in Hwv as [Hw Hv]. exists w, values, k.
  split; [done|]. split; [done|]. split; [done|].
  by apply (Forall_lookup_1 _ _ _ _ Hrounds Hv).
Qed.

Lemma store_thread l v t : (Action l true v, t) ∈ concat X →
  1 ≤ v ≤ Z.of_nat loop_count ∧ ∃ k es, writers !! k = Some (Some l) ∧ X !! k = Some es ∧ (Action l true v, t) ∈ es.
Proof.
  intros (es & Hin & Hes)%elem_of_concat. destruct (thread_of es Hes) as (w & values & k & Hw & Hk & Hacts & Hl).
  assert (Action l true v ∈ row_actions w 0 values) as Ha.
  { rewrite <- Hacts. by apply (list_elem_of_fmap_2 fst) in Hin. }
  apply row_actions_stores in Ha as [-> Hv]; [|done]. cbn in *. split; [lia|]. by exists k, es.
Qed.

Lemma writers_inj k k' l : writers !! k = Some (Some l) → writers !! k' = Some (Some l) → k = k'.
Proof. do 5 (destruct k as [|k]; [do 5 (destruct k' as [|k']; [cbn; by destruct l|]); done|]). done. Qed.

(** Stores of a variable are in the order of their values. *)
Lemma stores_order l v t v' t' :
  (Action l true v, t) ∈ concat X → (Action l true v', t') ∈ concat X →
  (v < v' → (t < t')%nat) ∧ (v = v' → t = t').
Proof.
  intros (Hv & k & es & Hk & Hes & Ha)%store_thread (Hv' & k' & es' & Hk' & Hes' & Hb)%store_thread.
  rewrite (writers_inj _ _ _ Hk' Hk) in Hes'. assert (es' = es) as -> by congruence.
  destruct (thread_of es (list_elem_of_lookup_2 _ _ _ Hes)) as (w & values & k'' & _ & _ & Hacts & _).
  pose proof (row_actions_up w 0 values) as Hup. rewrite <- Hacts, StronglySorted_fmap in Hup.
  pose proof (Forall_lookup_1 _ _ _ _ (program_order X Hcons) Hes) as Hpo.
  destruct (StronglySorted_total _ es _ _ (StronglySorted_and _ _ es Hup Hpo) Ha Hb)
    as [Heq|[[H1 H2]|[H1 H2]]].
  - injection Heq as -> ->. split; [lia|done].
  - specialize (H1 eq_refl eq_refl). specialize (H2 eq_refl). cbn in *. split; [done|lia].
  - specialize (H1 eq_refl eq_refl). specialize (H2 eq_refl). cbn in *. split; lia.
Qed.

Lemma place_order l v t v' t' : place l v t → place l v' t' → (v < v' → (t < t')%nat) ∧ (v = v' → t = t').
Proof.
  intros [[-> ->]|Ha] [[-> ->]|Hb]; [lia|..|exact (stores_order _ _ _ _ _ Ha Hb)].
  - pose proof (not_initial X Hcons _ Hb eq_refl) as Hn. cbn in Hn. apply store_thread in Hb as [? _]. split; lia.
  - pose proof (not_initial X Hcons _ Ha eq_refl) as Hn. cbn in Hn. apply store_thread in Ha as [? _]. split; lia.
Qed.

Lemma place_range l v t : place l v t → 0 ≤ v ≤ Z.of_nat loop_count.
Proof. intros [[-> _]|[? _]%store_thread]; lia. Qed.

(** So coherence in the modification order is coherence by values. *)
Lemma coherent_values es : es ∈ X → StronglySorted coherent_val es.*1 ∧ Forall in_range es.*1.
Proof.
  intros Hes. assert (∀ a, a ∈ es → a ∈ concat X) as Hin by (intros a Ha; apply elem_of_concat; eauto).
  split.
  - apply StronglySorted_fmap. pose proof (program_order X Hcons) as Hpo. rewrite Forall_forall in Hpo.
    eapply StronglySorted_impl; [|exact (Hpo es Hes)]. intros a b Ha Hb Hab Hloc. specialize (Hab Hloc).
    pose proof (event_place a (Hin a Ha)) as Pa. pose proof (event_place b (Hin b Hb)) as Pb. rewrite <- Hloc in Pb.
    pose proof (place_order _ _ _ _ _ Pa Pb). pose proof (place_order _ _ _ _ _ Pb Pa).
    destruct (is_store b.1); lia.
  - apply Forall_fmap, Forall_forall. intros a Ha _. eapply place_range, event_place, Hin, Ha.
Qed.
End timestamps.

(** ** An execution for allowed tables *)

(** A store takes its value as its timestamp. *)
Definition stamp (a : action) : event := (a, Z.to_nat (val a)).
Definition execution (tables : list (list ReadValues)) : list (list event) :=
  zip_with (λ w values, stamp <$> row_actions w 0 values) writers tables.

Lemma row_actions_store_at w i values l :
  filter (store_at l) (row_actions w i values) =
  if bool_decide (w = Some l) then Action l true <$> seqZ (i + 1) (Z.of_nat (length values)) else [].
Proof.
  revert i. induction values as [|r values IH]; intros i; [by case_bool_decide|].
  specialize (IH (i + 1)). cbn [row_actions length]. rewrite seqZ_cons by lia.
  replace (Z.pred (Z.of_nat (S (length values)))) with (Z.of_nat (length values)) by lia.
  replace (Z.succ (i + 1)) with (i + 1 + 1) by lia.
  rewrite !filter_cons_False by (by intros [[=] _]).
  destruct w as [w|]; cbn [app]; [|rewrite IH; by case_bool_decide].
  destruct (decide (w = l)) as [->|Hne].
  - rewrite filter_cons_True by done. rewrite IH. by rewrite !bool_decide_true.
  - rewrite filter_cons_False by (by intros [_ ?]). rewrite IH. by rewrite !bool_decide_false by congruence.
Qed.

Lemma filter_concat {A} (P : A → Prop) `{!∀ a, Decision (P a)} (ls : list (list A)) :
  filter P (concat ls) = concat (filter P <$> ls).
Proof. induction ls as [|l ls IH]; [done|]. cbn. by rewrite filter_app, IH. Qed.

Lemma filter_stamp l (acts : list action) :
  filter (λ e : event, store_at l e.1) (stamp <$> acts) = stamp <$> filter (store_at l) acts.
Proof.
  induction acts as [|a acts IH]; [done|]. rewrite fmap_cons, !filter_cons, IH.
  by case_decide; case_decide.
Qed.

Section execution.
Context (tables : list (list ReadValues)) (Ha : Forall2 allowed writers tables).

Lemma execution_lookup es : es ∈ execution tables → ∃ w values,
  allowed w values ∧ w ∈ writers ∧ es = stamp <$> row_actions w 0 values.
Proof.
  intros [k Hk]%list_elem_of_lookup. unfold execution in Hk.
  apply lookup_zip_with_Some in Hk as (w & values & -> & Hw & Hv).
  exists w, values. split; [by apply (Forall2_lookup_lr _ _ _ _ _ _ Ha Hw Hv)|].
  split; [by eapply list_elem_of_lookup_2|done].
Qed.

Lemma execution_thread es : es ∈ execution tables → StronglySorted coherent es.
Proof.
  intros (w & values & Hal & _ & ->)%execution_lookup.
  destruct (proj2 (coherent_allowed w values (proj1 Hal)) Hal) as [Hs Hr].
  apply StronglySorted_fmap. eapply StronglySorted_impl; [|exact Hs]. intros a b Hina Hinb Hab Hloc.
  cbn in *. specialize (Hab Hloc). rewrite Forall_forall in Hr.
  assert (∀ c, c ∈ row_actions w 0 values → 0 ≤ val c) as Hpos.
  { intros c Hc. destruct (is_store c) eqn:Hst; [apply row_actions_stores in Hc; [lia|done]|].
    specialize (Hr c Hc Hst). lia. }
  pose proof (Hpos a Hina). pose proof (Hpos b Hinb). destruct (is_store b); lia.
Qed.

(** The stores to a variable are 1 to 10. *)
Lemma execution_stores l :
  filter (λ e : event, store_at l e.1) (concat (execution tables)) =
  stamp <$> (Action l true <$> seqZ 1 (Z.of_nat loop_count)).
Proof.
  unfold execution, writers in *.
  apply Forall2_cons_inv_l in Ha as (v1 & t1 & [H1 _] & Ha1 & ->).
  apply Forall2_cons_inv_l in Ha1 as (v2 & t2 & [H2 _] & Ha2 & ->).
  apply Forall2_cons_inv_l in Ha2 as (v3 & t3 & [H3 _] & Ha3 & ->).
  apply Forall2_cons_inv_l in Ha3 as (v4 & t4 & [H4 _] & Ha4 & ->).
  apply Forall2_cons_inv_l in Ha4 as (v5 & t5 & [H5 _] & ->%Forall2_nil_inv_l & ->).
  rewrite filter_concat. cbn [zip_with fmap list_fmap concat]. rewrite !filter_stamp, !row_actions_store_at.
  rewrite H1, H2, H3. destruct l; cbn [bool_decide decide]; done.
Qed.

Lemma execution_consistent : consistent (execution tables).
Proof.
  split.
  - apply Forall_forall, execution_thread.
  - intros l. rewrite execution_stores. change (NoDup (seq 1 10)). apply NoDup_seq.
  - intros a (es & Ha' & (w & values & _ & _ & ->)%execution_lookup)%elem_of_concat Hst.
    apply list_elem_of_fmap in Ha' as (b & -> & Hb). cbn in *. apply row_actions_stores in Hb; [lia|done].
  - intros a Hin Hst. assert (∃ b, a = stamp b ∧ in_range b) as (b & -> & Hr).
    { apply elem_of_concat in Hin as (es & Ha' & (w & values & Hal & _ & ->)%execution_lookup).
      apply list_elem_of_fmap in Ha' as (b & -> & Hb). exists b. split; [done|].
      destruct (proj2 (coherent_allowed w values (proj1 Hal)) Hal) as [_ Hr]. rewrite Forall_forall in Hr. by apply Hr. }
    cbn in *. specialize (Hr Hst). destruct (decide (val b = 0)) as [->|Hne]; [by left|]. right.
    assert (stamp (Action (loc b) true (val b)) ∈ filter (λ e : event, store_at (loc b) e.1) (concat (execution tables))) as H.
    { rewrite execution_stores. apply list_elem_of_fmap_2, list_elem_of_fmap_2, elem_of_seqZ. lia. }
    by apply list_elem_of_filter in H as [_ H].
Qed.
End execution.

(** C21: the outputs the program can have under the C++ rules for relaxed atomics are exactly
    the tables of which each storing thread reads its own variable as the number of the round,
    and every other column holds values from 0 to 10 that do not decrease from round to round;
    the columns and the threads are independent of each other. *)
Theorem relaxed_outputs (out : text) :
  relaxed_prints out ↔ ∃ tables, Forall2 allowed writers tables ∧ out = concat (print_table <$> tables).
Proof.
  assert (threads = (λ w, thread_ops w 0 loop_count) <$> writers) as Hthreads by done. split.
  - intros (X & tables & Hperf & Hcons & Hreads & ->). exists tables. split; [|done].
    rewrite Hthreads, Forall2_fmap_l in Hperf.
    assert (Forall2 (λ w values, ∃ es, es ∈ X ∧ es.*1 = row_actions w 0 values ∧ length values = loop_count) writers tables) as H.
    { apply Forall2_same_length_lookup. split; [by rewrite (Forall2_length _ _ _ Hperf), (Forall2_length _ _ _ Hreads)|].
      intros k w values Hw Hv. destruct (Forall2_lookup_r _ _ _ _ _ Hreads Hv) as (es & Hes & Hr).
      exists es. split; [by eapply list_elem_of_lookup_2|].
      apply thread_actions; [|done]. exact (Forall2_lookup_lr _ _ _ _ _ _ Hperf Hw Hes). }
    assert (Forall2 (λ '(w, values) es, es.*1 = row_actions w 0 values) (zip writers tables) X) as HX.
    { apply Forall2_same_length_lookup. split.
      { rewrite length_zip_with, <- (Forall2_length _ _ _ Hreads), <- (Forall2_length _ _ _ Hperf). lia. }
      intros k [w values] es [Hw Hv]%lookup_zip_Some Hes.
      apply (thread_actions w 0 loop_count); [exact (Forall2_lookup_lr _ _ _ _ _ _ Hperf Hw Hes)|].
      exact (Forall2_lookup_lr _ _ _ _ _ _ Hreads Hes Hv). }
    assert (Forall (λ values, length values = loop_count) tables) as Hrounds.
    { eapply Forall2_Forall_r; [exact H|]. apply Forall_forall. by intros w _ values (es & _ & _ & ?). }
    eapply Forall2_impl; [exact H|]. intros w values (es & Hes & Hacts & Hl). apply coherent_allowed; [done|].
    rewrite <- Hacts. exact (coherent_values X tables HX Hrounds Hcons es Hes).
  - intros (tables & Ha & ->). exists (execution tables), tables.
    assert (Forall2 (λ w es, ∃ values, es = stamp <$> row_actions w 0 values ∧ length values = loop_count) writers (execution tables)) as H1.
    { unfold execution. clear -Ha. induction Ha as [|w values ws ts [Hl _] Ha IH]; constructor; [by exists values|done]. }
    split; [rewrite Hthreads, Forall2_fmap_l; eapply Forall2_impl; [exact H1|]|].
    { intros w es (values & -> & Hl). rewrite <- Hl. apply (actions_thread w 0).
      rewrite <- list_fmap_compose. by rewrite list_fmap_id. }
    split; [by apply execution_consistent|]. split; [|done].
    unfold execution. clear -Ha. induction Ha as [|w values ws ts [Hl _] Ha IH]; constructor; [|done].
    apply (actions_thread w 0). rewrite <- list_fmap_compose. by rewrite list_fmap_id.
Qed.
