(* ===== verification/Rcu.v ===== *)
(** The user-space RCU example: [src/third_party_examples/urcu_examples/main.cpp].

    A writer thread adds three nodes at the head of a list, a reader thread traverses the
    list again and again, deletes every node it reads, and returns when it has read three;
    then [main] removes and frees what is left.  The list operations are those of liburcu, at
    the level of their contract: an update takes time, from a step that begins it to a step
    that ends it with its effect, and two updates must not overlap: once they have ([raced]),
    the contract says nothing, and any state may follow ([rcu_step]).  A traversal goes along
    the nodes that followed when it started, as a deleted node keeps its link and nodes are
    added in front.  A node is named by its value, as the three values differ.  The reader
    begins each round by reading a pointer that nothing has initialised ([indeterminate]); the
    value is not used.

    The system without an overlap is finite and explored exhaustively.  The theorem: as long
    as no updates overlap, the reader reads no value twice, and unless an allocation fails the
    program can still end, and it ends with an empty list and the three nodes never freed.
    The updates can overlap, since nothing keeps the two threads apart. *)
From S2P Require Import Prelude.
Local Open Scope Z_scope.
Local Open Scope list_scope.

(** ** The threads *)

(* @src third_party_examples/urcu_examples/main.cpp 64-68 writer *)
Definition values : list Z := [42; 36; 24].

(** The writer before a value (or the end), with a node it prints, within an addition. *)
Inductive wpc := WNext (todo : list Z) | WPrint (v : Z) (todo : list Z) | WBegin (v : Z) (todo : list Z)
  | WAdding (v : Z) (todo : list Z) | WDone.
(** The reader before it reads [p], before a traversal, at the nodes that remain of it, about to delete a node it
    has printed, within the deletion, and at the test of the counter. *)
Inductive rpc := RDereference | RLock | RTraverse (rest : list Z) | RBegin (v : Z) (rest : list Z)
  | RDeleting (v : Z) (rest : list Z) | RTest | RDone.
(** [main] waits for the threads, removes the rest, and is done. *)
Inductive mpc := MJoin | MLoop (rest : list Z) | MFree (v : Z) (rest : list Z) | MDone.

Inductive line := Wrote (v : Z) | ReadValue (v : Z).

Record rcu := mkRcu {
  writer : wpc; reader : rpc; main : mpc;
  mylist : list Z; counter : nat; out : list line;
  allocated : list Z; freed : list Z;
  raced : bool; threw : bool; indeterminate : bool }.

Definition init : rcu := mkRcu (WNext values) RDereference MJoin [] 0 [] [] [] false false false.

(** An update begins; [other] says that another one is under way. *)
Definition writer_updates (s : rcu) : bool := match writer s with WAdding _ _ => true | _ => false end.
Definition reader_updates (s : rcu) : bool := match reader s with RDeleting _ _ => true | _ => false end.

Definition set_writer (w : wpc) (s : rcu) : rcu :=
  mkRcu w (reader s) (main s) (mylist s) (counter s) (out s) (allocated s) (freed s) (raced s) (threw s) (indeterminate s).
Definition set_reader (r : rpc) (s : rcu) : rcu :=
  mkRcu (writer s) r (main s) (mylist s) (counter s) (out s) (allocated s) (freed s) (raced s) (threw s) (indeterminate s).
Definition set_main (m : mpc) (s : rcu) : rcu :=
  mkRcu (writer s) (reader s) m (mylist s) (counter s) (out s) (allocated s) (freed s) (raced s) (threw s) (indeterminate s).
Definition set_list (l : list Z) (s : rcu) : rcu :=
  mkRcu (writer s) (reader s) (main s) l (counter s) (out s) (allocated s) (freed s) (raced s) (threw s) (indeterminate s).
Definition say (l : line) (s : rcu) : rcu :=
  mkRcu (writer s) (reader s) (main s) (mylist s) (counter s) (out s ++ [l]) (allocated s) (freed s) (raced s) (threw s) (indeterminate s).
Definition count_up (s : rcu) : rcu :=
  mkRcu (writer s) (reader s) (main s) (mylist s) (S (counter s)) (out s) (allocated s) (freed s) (raced s) (threw s) (indeterminate s).
Definition set_raced (b : bool) (s : rcu) : rcu :=
  mkRcu (writer s) (reader s) (main s) (mylist s) (counter s) (out s) (allocated s) (freed s) b (threw s) (indeterminate s).
Definition allocate (v : Z) (s : rcu) : rcu :=
  mkRcu (writer s) (reader s) (main s) (mylist s) (counter s) (out s) (v :: allocated s) (freed s) (raced s) (threw s) (indeterminate s).
Definition free_node (v : Z) (s : rcu) : rcu :=
  mkRcu (writer s) (reader s) (main s) (mylist s) (counter s) (out s) (allocated s) (v :: freed s) (raced s) (threw s) (indeterminate s).
Definition set_threw (s : rcu) : rcu :=
  mkRcu (writer s) (reader s) (main s) (mylist s) (counter s) (out s) (allocated s) (freed s) (raced s) true (indeterminate s).

Definition set_indeterminate (s : rcu) : rcu :=
  mkRcu (writer s) (reader s) (main s) (mylist s) (counter s) (out s) (allocated s) (freed s) (raced s) (threw s) true.

(* @src third_party_examples/urcu_examples/main.cpp 47-89 writer *)
(** [fails]: [calloc] gives a null pointer, and the exception ends the program. *)
Definition writer_step (fails : bool) (s : rcu) : option rcu :=
  match writer s with
  | WNext [] => if fails then None else Some (set_writer WDone s)
  | WNext (v :: todo) =>
      if fails then Some (set_threw s) else Some (set_writer (WPrint v todo) (allocate v s))
  | WPrint v todo => if fails then None else Some (set_writer (WBegin v todo) (say (Wrote v) s))
  | WBegin v todo =>
      if fails then None else Some (set_writer (WAdding v todo) (set_raced (raced s || reader_updates s) s))
  | WAdding v todo => if fails then None else Some (set_writer (WNext todo) (set_list (v :: mylist s) s))
  | WDone => None
  end.

(* @src third_party_examples/urcu_examples/main.cpp 91-118 reader *)
Definition reader_step (s : rcu) : option rcu :=
  match reader s with
  | RDereference => Some (set_reader RLock (set_indeterminate s))
  | RLock => Some (set_reader (RTraverse (mylist s)) s)
  | RTraverse [] => Some (set_reader RTest s)
  | RTraverse (v :: rest) => Some (set_reader (RBegin v rest) (say (ReadValue v) s))
  | RBegin v rest => Some (set_reader (RDeleting v rest) (set_raced (raced s || writer_updates s) s))
  | RDeleting v rest =>
      Some (set_reader (RTraverse rest) (count_up (set_list (filter (λ x, x ≠ v) (mylist s)) s)))
  | RTest => Some (set_reader (if (3 <=? counter s)%nat then RDone else RDereference) s)
  | RDone => None
  end.

(* @src third_party_examples/urcu_examples/main.cpp 120-143 main *)
Definition rcu_main_step (s : rcu) : option rcu :=
  match main s with
  | MJoin =>
      match reader s, writer s with
      | RDone, WDone => Some (set_main (MLoop (mylist s)) s)
      | _, _ => None
      end
  | MLoop [] => Some (set_main MDone s)
  | MLoop (v :: rest) =>
      Some (set_main (MFree v rest) (set_list (filter (λ x, x ≠ v) (mylist s)) s))
  | MFree v rest => Some (set_main (MLoop rest) (free_node v s))
  | MDone => None
  end.

Inductive rcu_move := MvWriter (fails : bool) | MvReader | MvMain.

(** A step by the contract of the list; an exception ends the program. *)
Definition exec (m : rcu_move) (s : rcu) : option rcu :=
  if raced s || threw s then None
  else match m with
       | MvWriter fails => writer_step fails s
       | MvReader => reader_step s
       | MvMain => rcu_main_step s
       end.

(** A step of the program: after an overlap of updates, to any state that records it. *)
Definition rcu_step (s s' : rcu) : Prop :=
  if raced s then raced s' = true else move_step exec s s'.

Lemma rcu_step_contract s s' : rtc rcu_step s s' → raced s' = false → rtc (move_step exec) s s'.
Proof.
  revert s'. apply (rtc_ind_r (λ s', raced s' = false → rtc (move_step exec) s s')); [intros; apply rtc_refl|].
  intros s1 s2 _ Hstep IH Hr. unfold rcu_step in Hstep. destruct (raced s1) eqn:E; [congruence|].
  eapply rtc_r; [by apply IH|done].
Qed.

Lemma contract_rcu_step s s' : rtc (move_step exec) s s' → rtc rcu_step s s'.
Proof.
  induction 1 as [|s s1 s2 Hstep _ IH]; [apply rtc_refl|]. eapply rtc_l; [|exact IH].
  unfold rcu_step. destruct (raced s) eqn:E; [|done]. destruct Hstep as [m Hm]. unfold exec in Hm. by rewrite E in Hm.
Qed.

(** ** All states *)

#[global] Instance wpc_eq_dec : EqDecision wpc.
Proof. solve_decision. Defined.
#[global] Instance rpc_eq_dec : EqDecision rpc.
Proof. solve_decision. Defined.
#[global] Instance mpc_eq_dec : EqDecision mpc.
Proof. solve_decision. Defined.
#[global] Instance line_eq_dec : EqDecision line.
Proof. solve_decision. Defined.
#[global] Instance rcu_eq_dec : EqDecision rcu.
Proof. solve_decision. Defined.

Definition rcu_moves : list rcu_move := [MvWriter false; MvWriter true; MvReader; MvMain].
Lemma rcu_all_moves m : m ∈ rcu_moves.
Proof. destruct m as [[]| |]; unfold rcu_moves; set_solver. Qed.

Definition R : list rcu := Eval vm_compute in explore exec rcu_moves 100000 [init] [].

Lemma rcu_R_closed : closed exec rcu_moves R = true.
Proof. vm_compute. reflexivity. Qed.

Lemma rcu_R_always (P : rcu → bool) s :
  forallb P R = true → rtc (move_step exec) init s → P s = true.
Proof. apply (closed_always exec rcu_moves rcu_all_moves R); [apply rcu_R_closed|by vm_compute]. Qed.

Definition reads_of (s : rcu) : list Z :=
  omap (λ l, match l with ReadValue v => Some v | Wrote _ => None end) (out s).

(** The end of the program. *)
Definition ended (s : rcu) : bool := match main s with MDone => true | _ => false end.

(** A way to the end: a deletion is finished first, then the writer runs, then the reader. *)
Definition next_move (s : rcu) : rcu_move :=
  if reader_updates s then MvReader
  else match writer s, reader s with
       | WDone, RDone => MvMain
       | WDone, _ => MvReader
       | _, _ => MvWriter false
       end.

Fixpoint run_on (fuel : nat) (s : rcu) : option rcu :=
  if ended s && negb (raced s) then Some s
  else match fuel with
       | O => None
       | S fuel => exec (next_move s) s ≫= run_on fuel
       end.

Lemma run_on_ends fuel s s' :
  run_on fuel s = Some s' → rtc (move_step exec) s s' ∧ ended s' = true ∧ raced s' = false.
Proof.
  revert s. induction fuel as [|fuel IH]; intros s; cbn [run_on]; destruct (ended s && negb (raced s)) eqn:He; try done;
    try (apply andb_true_iff in He as [He Hr%negb_true_iff]; intros [= <-]; by split; [apply rtc_refl|]).
  destruct (exec (next_move s) s) as [s1|] eqn:E; [|done]. intros [Hr He']%IH. split; [|done].
  eapply rtc_l; [by exists (next_move s)|done].
Qed.

Definition rcu_ok (s : rcu) : bool :=
  bool_decide (NoDup (reads_of s)) && forallb (λ v, bool_decide (v ∈ values)) (reads_of s) &&
  (negb (ended s) ||
     bool_decide (length (reads_of s) = 3%nat) && bool_decide (mylist s = []) && bool_decide (freed s = []) &&
     bool_decide (allocated s = reverse values)) &&
  (raced s || threw s || match run_on 60 s with Some _ => true | None => false end) &&
  (bool_decide (reads_of s = []) || indeterminate s).

(** C32: In every execution, as long as no addition by the writer and deletion by the reader
    have overlapped (which they can, [rcu_updates_overlap]; after that the contract of the list
    says nothing, and so does the theorem): the reader reads only values of the writer and none
    twice; if no allocation fails, the program can still end; and when it ends the reader has
    read all three values, the list is empty, and of the three nodes none was freed.  This
    takes the value of the pointer [p], read by [rcu_dereference] before anything has set it,
    for some value that nothing uses; the reader has always read it before it reads a node. *)
Theorem rcu_reads_once (s : rcu) :
  rtc rcu_step init s → raced s = false →
  (NoDup (reads_of s) ∧ ∀ v, v ∈ reads_of s → v ∈ values) ∧
  (threw s = false → ∃ s', rtc rcu_step s s' ∧ ended s' = true ∧ raced s' = false) ∧
  (ended s = true →
     reads_of s ≡ₚ values ∧ mylist s = [] ∧ allocated s = reverse values ∧ freed s = []) ∧
  (reads_of s ≠ [] → indeterminate s = true).
Proof.
  intros Hr Hra. assert (rcu_ok s = true) as H.
  { apply rcu_R_always; [by vm_compute|by apply rcu_step_contract]. }
  unfold rcu_ok in H. apply andb_true_iff in H as [H Hind]. apply andb_true_iff in H as [H Hrun].
  apply andb_true_iff in H as [H Hend].
  apply andb_true_iff in H as [Hnd%bool_decide_eq_true_1 Hin]. rewrite forallb_forall in Hin.
  assert (∀ v, v ∈ reads_of s → v ∈ values) as Hv.
  { intros v Hv. apply list_elem_of_In in Hv. by apply (bool_decide_eq_true_1 _), Hin. }
  split; [done|]. split; [|split].
  - intros Hth. rewrite Hra, Hth in Hrun. destruct (run_on 60 s) as [s'|] eqn:E; [|done].
    exists s'. destruct (run_on_ends _ _ _ E) as (Hs & He & Hra'). split; [by apply contract_rcu_step|]. by split.
  - intros He. rewrite He in Hend. cbn in Hend. apply andb_true_iff in Hend as [Hend Ha%bool_decide_eq_true_1].
    apply andb_true_iff in Hend as [Hend Hf%bool_decide_eq_true_1].
    apply andb_true_iff in Hend as [Hl%bool_decide_eq_true_1 Hm%bool_decide_eq_true_1].
    split; [|done]. apply submseteq_length_Permutation; [by apply NoDup_submseteq|]. by rewrite Hl.
  - intros Hne. apply orb_true_iff in Hind as [Hnil%bool_decide_eq_true_1|]; done.
Qed.

(** A run without a race: the writer, then the reader, then [main]. *)
Definition quiet_run : list rcu_move :=
  replicate 13 (MvWriter false) ++ replicate 13 MvReader ++ [MvMain; MvMain].

Lemma rcu_reads_once_witness :
  ∃ s, rtc rcu_step init s ∧ ended s = true ∧ reads_of s = [24; 36; 42] ∧ reads_of s ≡ₚ values.
Proof.
  assert (∃ s, exec_all exec quiet_run init = Some s ∧ ended s = true ∧ reads_of s = [24; 36; 42] ∧ raced s = false)
    as (s & Hs & He & Hreads & Hra) by (vm_compute; eexists; repeat split).
  exists s. pose proof (contract_rcu_step _ _ (exec_all_rtc exec quiet_run init s Hs)) as Hr.
  destruct (rcu_reads_once s Hr Hra) as (_ & _ & Hend & _). destruct (Hend He) as [Hp _]. done.
Defined.

(** Nothing keeps a deletion by the reader and an addition by the writer apart, as the
    comments of the source require. *)
Lemma rcu_updates_overlap : ∃ s, rtc rcu_step init s ∧ raced s = true.
Proof.
  assert (∃ s, exec_all exec (replicate 7 (MvWriter false) ++ replicate 4 MvReader) init = Some s ∧
    raced s = true) as (s & Hs & Hra) by (vm_compute; eexists; repeat split).
  exists s. split; [by eapply contract_rcu_step, exec_all_rtc|done].
Qed.
