(* ===== verification/Calendar.v ===== *)
(** The calendar of [src/third_party_examples/uwebsockets/src/date.h], with which the web
    socket servers write the time they broadcast.

    Days, months and weekdays are unsigned characters, years are shorts: they are integers
    here, reduced to their width where the code converts.  Durations count in [int].
    Where signed arithmetic may leave [int] the operation returns an [outcome].

    The theorems: the arithmetic on days counts the Gregorian calendar, day by day, in both
    directions and over all years that the type holds; months, weekdays and the order of
    dates agree with it. *)
From S2P Require Import Prelude.
Local Open Scope Z_scope.

(** Conversions to [unsigned], [unsigned char] and [short]. *)
Definition u32 (z : Z) : Z := uwrap 32 z.
Definition u8 (z : Z) : Z := uwrap 8 z.
Definition i16 (z : Z) : Z := swrap 16 z.
Definition i32 (z : Z) : Z := swrap 32 z.

Definition int_neg (a : Z) : outcome Z := int_add 0 (- a).

(** [(x >= 0 ? x : x - (n - 1)) / n] *)
Definition div_down (x n : Z) : Z := Z.quot (if 0 <=? x then x else x - (n - 1)) n.

(** ** Days, months, years, weekdays *)
Module Day.
(* @src third_party_examples/uwebsockets/src/date.h 1259-1259 day::day *)
Definition of_unsigned (d : Z) : Z := u8 d.

(* @src third_party_examples/uwebsockets/src/date.h 1260-1263 day::operator++ *)
Definition next (d : Z) : Z := u8 (d + 1).

(* @src third_party_examples/uwebsockets/src/date.h 1269-1272 day::operator-- *)
Definition previous (d : Z) : Z := u8 (d - 1).

(* @src third_party_examples/uwebsockets/src/date.h 1289-1291 day::ok *)
Definition ok (d : Z) : bool := (1 <=? d) && (d <=? 31).

(* @src third_party_examples/uwebsockets/src/date.h 1323-1326 operator- *)
Definition difference (x y : Z) : Z := i32 (u32 (x - y)).

(* @src third_party_examples/uwebsockets/src/date.h 1328-1331 operator+ *)
Definition plus (x y : Z) : Z := of_unsigned (u32 (x + u32 y)).

(* @src third_party_examples/uwebsockets/src/date.h 1338-1341 operator- *)
Definition minus (x y : Z) : outcome Z := y ← int_neg y; Ok (plus x y).
End Day.

Module Month.
(* @src third_party_examples/uwebsockets/src/date.h 1369-1369 month::month *)
Definition of_unsigned (m : Z) : Z := u8 m.

(* @src third_party_examples/uwebsockets/src/date.h 1404-1406 month::ok *)
Definition ok (m : Z) : bool := (1 <=? m) && (m <=? 12).

(* @src third_party_examples/uwebsockets/src/date.h 1439-1442 operator- *)
Definition difference (x y : Z) : Z :=
  let d := u32 (x - y) in
  i32 (if d <=? 11 then d else u32 (d + 12)).

(* @src third_party_examples/uwebsockets/src/date.h 1445-1449 operator+ *)
(** In [long long]: no overflow. *)
Definition plus (x y : Z) : Z :=
  let mu := x + y - 1 in
  let yr := div_down mu 12 in
  of_unsigned (u32 (mu - yr * 12 + 1)).

(* @src third_party_examples/uwebsockets/src/date.h 1457-1459 operator- *)
Definition minus (x y : Z) : outcome Z := y ← int_neg y; Ok (plus x y).

(* @src third_party_examples/uwebsockets/src/date.h 1370-1373 month::operator++ *)
Definition next (m : Z) : Z := plus m 1.

(* @src third_party_examples/uwebsockets/src/date.h 1379-1382 month::operator-- *)
Definition previous (m : Z) : Z := plus m (-1).
End Month.

Module Year.
(* @src third_party_examples/uwebsockets/src/date.h 1487-1487 year::year *)
Definition of_int (y : Z) : Z := i16 y.

(* @src third_party_examples/uwebsockets/src/date.h 1488-1491 year::operator++ *)
Definition next (y : Z) : Z := i16 (y + 1).

(* @src third_party_examples/uwebsockets/src/date.h 1497-1500 year::operator-- *)
Definition previous (y : Z) : Z := i16 (y - 1).

(* @src third_party_examples/uwebsockets/src/date.h 1514-1516 year::operator- *)
Definition negate (y : Z) : Z := of_int (- y).

(* @src third_party_examples/uwebsockets/src/date.h 1522-1524 year::is_leap *)
Definition is_leap (y : Z) : bool :=
  (Z.rem y 4 =? 0) && (negb (Z.rem y 100 =? 0) || (Z.rem y 400 =? 0)).

(* @src third_party_examples/uwebsockets/src/date.h 1531-1533 year::ok *)
Definition ok (y : Z) : bool := negb (y =? - 2 ^ 15).

(* @src third_party_examples/uwebsockets/src/date.h 1566-1568 operator- *)
Definition difference (x y : Z) : Z := x - y.

(* @src third_party_examples/uwebsockets/src/date.h 1571-1573 operator+ *)
Definition plus (x y : Z) : outcome Z := z ← int_add x y; Ok (of_int z).

(* @src third_party_examples/uwebsockets/src/date.h 1581-1583 operator- *)
Definition minus (x y : Z) : outcome Z := z ← int_add x (- y); Ok (of_int z).
End Year.

Module Weekday.
(* @src third_party_examples/uwebsockets/src/date.h 1619-1619 weekday::weekday *)
Definition of_unsigned (wd : Z) : Z := u8 (if negb (wd =? 7) then wd else 0).

(* @src third_party_examples/uwebsockets/src/date.h 1613-1616 weekday::weekday_from_days *)
Definition from_days (z : Z) : Z :=
  let u := u32 z in
  u8 (if -4 <=? z then u32 (u + 4) mod 7 else u mod 7).

(* @src third_party_examples/uwebsockets/src/date.h 1660-1662 weekday::ok *)
Definition ok (wd : Z) : bool := wd <=? 6.

(* @src third_party_examples/uwebsockets/src/date.h 1670-1672 weekday::iso_encoding *)
Definition iso_encoding (wd : Z) : Z := if wd =? 0 then 7 else wd.

(* @src third_party_examples/uwebsockets/src/date.h 1685-1689 operator- *)
Definition difference (x y : Z) : Z :=
  let wdu := x - y in
  let wk := div_down wdu 7 in
  wdu - wk * 7.

(* @src third_party_examples/uwebsockets/src/date.h 1692-1696 operator+ *)
Definition plus (x y : Z) : Z :=
  let wdu := x + y in
  let wk := div_down wdu 7 in
  of_unsigned (u32 (wdu - wk * 7)).

(* @src third_party_examples/uwebsockets/src/date.h 1704-1706 operator- *)
Definition minus (x y : Z) : outcome Z := y ← int_neg y; Ok (plus x y).

(* @src third_party_examples/uwebsockets/src/date.h 1629-1632 weekday::operator++ *)
Definition next (wd : Z) : Z := plus wd 1.

(* @src third_party_examples/uwebsockets/src/date.h 1638-1641 weekday::operator-- *)
Definition previous (wd : Z) : Z := plus wd (-1).
End Weekday.

(** ** Weekdays with an index *)
Module WeekdayIndexed.
(* @src third_party_examples/uwebsockets/src/date.h 473-475 weekday_indexed *)
(** Two fields of four bits. *)
Record t := mk { wd_ : Z; index_ : Z }.

(* @src third_party_examples/uwebsockets/src/date.h 1816-1818 weekday_indexed::weekday_indexed *)
Definition make (wd index : Z) : t := mk (uwrap 4 wd) (uwrap 4 index).

(* @src third_party_examples/uwebsockets/src/date.h 1797-1799 weekday_indexed::weekday *)
Definition weekday (x : t) : Z := Weekday.of_unsigned (wd_ x).

(* @src third_party_examples/uwebsockets/src/date.h 1806-1808 weekday_indexed::ok *)
Definition ok (x : t) : bool := Weekday.ok (weekday x) && (1 <=? index_ x) && (index_ x <=? 5).
End WeekdayIndexed.

(** ** A month of a year *)
Module YearMonth.
(* @src third_party_examples/uwebsockets/src/date.h 520-522 year_month *)
Record t := mk { year : Z; month : Z }.

(* @src third_party_examples/uwebsockets/src/date.h 1913-1915 year_month::ok *)
Definition ok (x : t) : bool := Year.ok (year x) && Month.ok (month x).

(* @src third_party_examples/uwebsockets/src/date.h 1952-1954 operator< *)
Definition lt (x y : t) : bool :=
  if year x <? year y then true else if year y <? year x then false else month x <? month y.

(* @src third_party_examples/uwebsockets/src/date.h 1972-1977 operator+ *)
Definition plus_months (ym : t) (dm : Z) : outcome t :=
  dmi ← int_add (month ym - 1) dm;
  n ← (if 0 <=? dmi then Ok dmi else int_add dmi (-11));
  let dy := Z.quot n 12 in
  let dmi := dmi - dy * 12 + 1 in
  y ← Year.plus (year ym) dy;
  Ok (mk y (Month.of_unsigned (u32 dmi))).

(* @src third_party_examples/uwebsockets/src/date.h 1985-1987 operator- *)
Definition minus_months (ym : t) (dm : Z) : outcome t := dm ← int_neg dm; plus_months ym dm.

(* @src third_party_examples/uwebsockets/src/date.h 1990-1993 operator- *)
(** Years are converted to months; the difference of the months is unsigned and then an [int]. *)
Definition difference (x y : t) : outcome Z :=
  int_add (12 * Year.difference (year x) (year y)) (i32 (u32 (month x - month y))).

(* @src third_party_examples/uwebsockets/src/date.h 1996-1998 operator+ *)
Definition plus_years (ym : t) (dy : Z) : outcome t := y ← Year.plus (year ym) dy; Ok (mk y (month ym)).

(* @src third_party_examples/uwebsockets/src/date.h 2006-2008 operator- *)
Definition minus_years (ym : t) (dy : Z) : outcome t := dy ← int_neg dy; plus_years ym dy.
End YearMonth.

(** ** The last day of a month *)
Module YearMonthDayLast.
(* @src third_party_examples/uwebsockets/src/date.h 718-720 year_month_day_last *)
Record t := mk { year : Z; month : Z }.

(* @src third_party_examples/uwebsockets/src/date.h 2325-2327 year_month_day_last::ok *)
Definition ok (x : t) : bool := Year.ok (year x) && Month.ok (month x).

Definition lengths : list Z := [31; 28; 31; 30; 31; 30; 31; 31; 30; 31; 30; 31].

(* @src third_party_examples/uwebsockets/src/date.h 2306-2312 year_month_day_last::day *)
Definition day (x : t) : Z :=
  if (negb (month x =? 2) || negb (Year.is_leap (year x))) && Month.ok (month x)
  then nth (Z.to_nat (month x - 1)) lengths 0 else 29.

(* @src third_party_examples/uwebsockets/src/date.h 2400-2402 operator+ *)
Definition plus_years (x : t) (dy : Z) : outcome t := y ← Year.plus (year x) dy; Ok (mk y (month x)).

(* @src third_party_examples/uwebsockets/src/date.h 2340-2344 operator< *)
Definition lt (x y : t) : bool :=
  if year x <? year y then true else if year y <? year x then false else month x <? month y.

(* @src third_party_examples/uwebsockets/src/date.h 2382-2385 operator+ *)
Definition plus_months (x : t) (dm : Z) : outcome t :=
  ym ← YearMonth.plus_months (YearMonth.mk (year x) (month x)) dm;
  Ok (mk (YearMonth.year ym) (YearMonth.month ym)).
End YearMonthDayLast.

(** ** Dates *)
Module YearMonthDay.
(* @src third_party_examples/uwebsockets/src/date.h 662-665 year_month_day *)
Record t := mk { year : Z; month : Z; day : Z }.

(* @src third_party_examples/uwebsockets/src/date.h 2424-2426 year_month_day::year_month_day *)
Definition of_last (x : YearMonthDayLast.t) : t :=
  mk (YearMonthDayLast.year x) (YearMonthDayLast.month x) (YearMonthDayLast.day x).

(* @src third_party_examples/uwebsockets/src/date.h 2471-2484 year_month_day::to_days *)
Definition to_days (x : t) : Z :=
  let y := year x - (if month x <=? 2 then 1 else 0) in
  let m := month x in
  let d := day x in
  let era := div_down y 400 in
  let yoe := u32 (y - era * 400) in
  let doy := u32 ((153 * (if 2 <? m then m - 3 else m + 9) + 2) / 5 + d - 1) in
  let doe := u32 (yoe * 365 + yoe / 4 - yoe / 100 + doy) in
  era * 146097 + i32 doe - 719468.

(* @src third_party_examples/uwebsockets/src/date.h 2497-2501 year_month_day::ok *)
Definition ok (x : t) : bool :=
  if negb (Year.ok (year x) && Month.ok (month x)) then false
  else (1 <=? day x) && (day x <=? YearMonthDayLast.day (YearMonthDayLast.mk (year x) (month x))).

(* @src third_party_examples/uwebsockets/src/date.h 2514-2522 operator< *)
Definition lt (x y : t) : bool :=
  if year x <? year y then true
  else if year y <? year x then false
  else if month x <? month y then true
  else if month y <? month x then false
  else day x <? day y.

(* @src third_party_examples/uwebsockets/src/date.h 2557-2572 year_month_day::from_days *)
Definition from_days (dp : Z) : outcome t :=
  z ← int_add dp 719468;
  let era := div_down z 146097 in
  let doe := u32 (z - era * 146097) in
  let yoe := (doe - doe / 1460 + doe / 36524 - doe / 146096) / 365 in
  let y := yoe + era * 400 in
  let doy := doe - (365 * yoe + yoe / 4 - yoe / 100) in
  let mp := (5 * doy + 2) / 153 in
  let d := doy - (153 * mp + 2) / 5 + 1 in
  let m := if mp <? 10 then mp + 3 else mp - 9 in
  Ok (mk (Year.of_int (y + (if m <=? 2 then 1 else 0))) (Month.of_unsigned m) (Day.of_unsigned d)).

(* @src third_party_examples/uwebsockets/src/date.h 2575-2577 operator+ *)
Definition plus_months (x : t) (dm : Z) : outcome t :=
  ym ← YearMonth.plus_months (YearMonth.mk (year x) (month x)) dm;
  Ok (mk (YearMonth.year ym) (YearMonth.month ym) (day x)).

(* @src third_party_examples/uwebsockets/src/date.h 2585-2587 operator- *)
Definition minus_months (x : t) (dm : Z) : outcome t := dm ← int_neg dm; plus_months x dm.

(* @src third_party_examples/uwebsockets/src/date.h 2590-2592 operator+ *)
Definition plus_years (x : t) (dy : Z) : outcome t :=
  y ← Year.plus (year x) dy; Ok (mk y (month x) (day x)).

(* @src third_party_examples/uwebsockets/src/date.h 2600-2602 operator- *)
Definition minus_years (x : t) (dy : Z) : outcome t := dy ← int_neg dy; plus_years x dy.
End YearMonthDay.

(** ** The nth and the last weekday of a month *)
Module YearMonthWeekday.
(* @src third_party_examples/uwebsockets/src/date.h 779-782 year_month_weekday *)
Record t := mk { year : Z; month : Z; wdi : WeekdayIndexed.t }.

(* @src third_party_examples/uwebsockets/src/date.h 2690-2695 year_month_weekday::from_days *)
Definition from_days (d : Z) : outcome t :=
  let wd := Weekday.from_days d in
  ymd ← YearMonthDay.from_days d;
  Ok (mk (YearMonthDay.year ymd) (YearMonthDay.month ymd)
        (WeekdayIndexed.make wd (u32 (YearMonthDay.day ymd - 1) / 7 + 1))).

(* @src third_party_examples/uwebsockets/src/date.h 2698-2702 year_month_weekday::to_days *)
Definition to_days (x : t) : Z :=
  let d := YearMonthDay.to_days (YearMonthDay.mk (year x) (month x) 1) in
  d + (Weekday.difference (WeekdayIndexed.weekday (wdi x)) (Weekday.from_days d) +
       i32 (u32 (u32 (WeekdayIndexed.index_ (wdi x) - 1) * 7))).

(* @src third_party_examples/uwebsockets/src/date.h 2679-2687 year_month_weekday::ok *)
Definition ok (x : t) : bool :=
  let wd := WeekdayIndexed.weekday (wdi x) in
  let index := WeekdayIndexed.index_ (wdi x) in
  if negb (Year.ok (year x)) || negb (Month.ok (month x)) || negb (Weekday.ok wd) || (index <? 1) then false
  else if index <=? 4 then true
  else
    let d2 := Weekday.difference wd
                (Weekday.from_days (YearMonthDay.to_days (YearMonthDay.mk (year x) (month x) 1))) +
              i32 (u32 (u32 (index - 1) * 7 + 1)) in
    u32 d2 <=? YearMonthDayLast.day (YearMonthDayLast.mk (year x) (month x)).

(* @src third_party_examples/uwebsockets/src/date.h 2727-2730 operator+ *)
Definition plus_months (x : t) (dm : Z) : outcome t :=
  ym ← YearMonth.plus_months (YearMonth.mk (year x) (month x)) dm;
  Ok (mk (YearMonth.year ym) (YearMonth.month ym) (wdi x)).
End YearMonthWeekday.

Module YearMonthWeekdayLast.
(* @src third_party_examples/uwebsockets/src/date.h 843-846 year_month_weekday_last *)
Record t := mk { year : Z; month : Z; weekday : Z }.

(* @src third_party_examples/uwebsockets/src/date.h 2823-2825 year_month_weekday_last::ok *)
Definition ok (x : t) : bool := Year.ok (year x) && Month.ok (month x) && Weekday.ok (weekday x).

(* @src third_party_examples/uwebsockets/src/date.h 2828-2831 year_month_weekday_last::to_days *)
Definition to_days (x : t) : Z :=
  let d := YearMonthDay.to_days (YearMonthDay.of_last (YearMonthDayLast.mk (year x) (month x))) in
  d - Weekday.difference (Weekday.from_days d) (weekday x).
End YearMonthWeekdayLast.

(** ** Arithmetic *)

Lemma div_down_div x n : 0 < n → div_down x n = x / n.
Proof.
  intros Hn. unfold div_down. destruct (Z.leb_spec 0 x); [by apply Z.quot_div_nonneg|].
  replace (x - (n - 1)) with (- (n - 1 - x)) by lia. rewrite Z.quot_opp_l, Z.quot_div_nonneg by lia.
  apply Z.div_unique_pos with (n - 1 - (n - 1 - x) mod n).
  - pose proof (Z.mod_pos_bound (n - 1 - x) n). lia.
  - pose proof (Z.div_mod (n - 1 - x) n). lia.
Qed.

(** The days before a March of year [y], where years begin in March and [0] is the first
    day of March of year 0. *)
Definition years_days (y : Z) : Z := 365 * y + y / 4 - y / 100 + y / 400.
(** The day of such a year on which its month [mp] (from 0) begins. *)
Definition month_days (mp : Z) : Z := (153 * mp + 2) / 5.

Lemma is_leap_mod y :
  Year.is_leap y = (y mod 4 =? 0) && (negb (y mod 100 =? 0) || (y mod 400 =? 0)).
Proof.
  unfold Year.is_leap.
  assert (∀ n, 0 < n → (Z.rem y n =? 0) = (y mod n =? 0)) as H.
  { intros n Hn. apply eq_true_iff_eq. rewrite !Z.eqb_eq, Z.rem_divide, Z.mod_divide by lia. done. }
  by rewrite !H.
Qed.

(** The leap day is the last day of the year that begins in March. *)
Lemma years_days_step y :
  years_days (y + 1) = years_days y + 365 + (if Year.is_leap (y + 1) then 1 else 0).
Proof.
  rewrite is_leap_mod. unfold years_days.
  destruct (Z.eqb_spec ((y + 1) mod 4) 0), (Z.eqb_spec ((y + 1) mod 100) 0), (Z.eqb_spec ((y + 1) mod 400) 0);
    cbn [andb orb negb]; Z.to_euclidean_division_equations; lia.
Qed.

Lemma u32_small z : 0 ≤ z < 2 ^ 32 → u32 z = z.
Proof. apply uwrap_small. Qed.
Lemma u8_small z : 0 ≤ z < 256 → u8 z = z.
Proof. apply (uwrap_small 8). Qed.
Lemma i32_small z : - 2 ^ 31 ≤ z < 2 ^ 31 → i32 z = z.
Proof. by apply (swrap_small 32). Qed.
Lemma i16_small z : - 2 ^ 15 ≤ z < 2 ^ 15 → i16 z = z.
Proof. by apply (swrap_small 16). Qed.

Lemma years_days_era y :
  years_days y = y / 400 * 146097 + (y mod 400 * 365 + y mod 400 / 4 - y mod 400 / 100).
Proof. unfold years_days. Z.to_euclidean_division_equations. lia. Qed.

(** Years that begin in March: the year and the month, from 0, of a date. *)
Definition march_year (y m : Z) : Z := y - (if m <=? 2 then 1 else 0).
Definition march_month (m : Z) : Z := if 2 <? m then m - 3 else m + 9.

Lemma march_month_range m : 1 ≤ m ≤ 12 → 0 ≤ march_month m ≤ 11.
Proof. unfold march_month. destruct (Z.ltb_spec 2 m); lia. Qed.

Lemma month_days_range mp : 0 ≤ mp ≤ 11 → 0 ≤ month_days mp ≤ 337.
Proof. unfold month_days. intros. Z.to_euclidean_division_equations. lia. Qed.

(** The count of days without eras and without machine integers. *)
Lemma to_days_count x :
  1 ≤ YearMonthDay.month x ≤ 12 → 1 ≤ YearMonthDay.day x ≤ 31 →
  YearMonthDay.to_days x =
    years_days (march_year (YearMonthDay.year x) (YearMonthDay.month x)) +
    month_days (march_month (YearMonthDay.month x)) + YearMonthDay.day x - 1 - 719468.
Proof.
  destruct x as [y m d]. cbn [YearMonthDay.month YearMonthDay.day YearMonthDay.year]. intros Hm Hd.
  unfold YearMonthDay.to_days. cbn [YearMonthDay.month YearMonthDay.day YearMonthDay.year].
  rewrite div_down_div by lia. fold (march_year y m) (march_month m). fold (month_days (march_month m)).
  set (y' := march_year y m). rewrite years_days_era.
  pose proof (march_month_range m Hm) as Hmp. pose proof (month_days_range _ Hmp).
  pose proof (Z.mod_pos_bound y' 400 ltac:(lia)).
  assert (y' - y' / 400 * 400 = y' mod 400) as -> by (Z.to_euclidean_division_equations; lia).
  rewrite (u32_small (y' mod 400)) by lia.
  rewrite (u32_small (month_days _ + d - 1)) by lia.
  assert (0 ≤ y' mod 400 * 365 + y' mod 400 / 4 - y' mod 400 / 100 + (month_days (march_month m) + d - 1) < 150000).
  { Z.to_euclidean_division_equations. lia. }
  rewrite u32_small, i32_small by lia. lia.
Qed.

(** ** From days to dates *)

Definition year_formula (doe : Z) : Z := doe - doe / 1460 + doe / 36524 - doe / 146096.

Lemma year_formula_step x : year_formula x ≤ year_formula (x + 1).
Proof. unfold year_formula. Z.to_euclidean_division_equations. lia. Qed.

Lemma year_formula_mono x y : x ≤ y → year_formula x ≤ year_formula y.
Proof.
  intros Hxy. replace y with (x + Z.of_nat (Z.to_nat (y - x))) by lia.
  induction (Z.to_nat (y - x)) as [|n IH]; [by rewrite Z.add_0_r|].
  etrans; [exact IH|]. rewrite Nat2Z.inj_succ, <- Z.add_1_r, Z.add_assoc. apply year_formula_step.
Qed.

Definition era_days (yoe : Z) : Z := 365 * yoe + yoe / 4 - yoe / 100.

(** The formula is right on the first and the last day of each of the 400 years. *)
Definition year_formula_ends (yoe : Z) : bool :=
  let last := if yoe =? 399 then 146096 else era_days (yoe + 1) - 1 in
  (yoe * 365 <=? year_formula (era_days yoe)) && (year_formula last <? (yoe + 1) * 365).

Lemma year_formula_ends_all : forallb year_formula_ends (Z.of_nat <$> seq 0 400) = true.
Proof. vm_compute. reflexivity. Qed.

Definition era_next (yoe : Z) : Z := if yoe =? 399 then 146097 else era_days (yoe + 1).

Lemma year_of_day yoe doe :
  0 ≤ yoe < 400 → era_days yoe ≤ doe < era_next yoe → year_formula doe / 365 = yoe.
Proof.
  intros Hy Hd. pose proof year_formula_ends_all as Hall. rewrite forallb_forall in Hall.
  specialize (Hall yoe). unfold year_formula_ends in Hall.
  rewrite andb_true_iff, Z.leb_le, Z.ltb_lt in Hall. destruct Hall as [H1 H2].
  { apply list_elem_of_In, list_elem_of_fmap. exists (Z.to_nat yoe). split; [lia|]. apply elem_of_seq. lia. }
  pose proof (year_formula_mono _ _ (proj1 Hd)).
  assert (year_formula doe ≤ year_formula (if yoe =? 399 then 146096 else era_days (yoe + 1) - 1)).
  { apply year_formula_mono. unfold era_next in Hd. destruct (yoe =? 399); lia. }
  symmetry. apply Z.div_unique_pos with (year_formula doe - 365 * yoe); lia.
Qed.

Lemma years_days_next y :
  years_days (y + 1) = y / 400 * 146097 + era_next (y mod 400).
Proof.
  rewrite years_days_era. unfold era_next, era_days. pose proof (Z.div_mod y 400).
  pose proof (Z.mod_pos_bound y 400). destruct (Z.eqb_spec (y mod 400) 399) as [He|He].
  - assert ((y + 1) / 400 = y / 400 + 1 ∧ (y + 1) mod 400 = 0) as [-> ->]; [|change (0 * 365 + 0 / 4 - 0 / 100) with 0; lia].
    split; [symmetry; apply Z.div_unique_pos with 0|symmetry; apply Z.mod_unique_pos with (y / 400 + 1)]; lia.
  - assert ((y + 1) / 400 = y / 400 ∧ (y + 1) mod 400 = y mod 400 + 1) as [-> ->]; [|lia].
    split; [symmetry; apply Z.div_unique_pos with (y mod 400 + 1)
           |symmetry; apply Z.mod_unique_pos with (y / 400)]; lia.
Qed.

(** A date of the calendar, with a year that the type holds. *)
Definition date (x : YearMonthDay.t) : Prop :=
  - 32767 ≤ YearMonthDay.year x ≤ 32767 ∧ YearMonthDay.ok x = true.

Definition month_length (y m : Z) : Z := YearMonthDayLast.day (YearMonthDayLast.mk y m).

Lemma date_spec x :
  date x ↔ - 32767 ≤ YearMonthDay.year x ≤ 32767 ∧ 1 ≤ YearMonthDay.month x ≤ 12 ∧
    1 ≤ YearMonthDay.day x ≤ month_length (YearMonthDay.year x) (YearMonthDay.month x).
Proof.
  unfold date, YearMonthDay.ok, Year.ok, Month.ok, month_length.
  destruct (Z.eqb_spec (YearMonthDay.year x) (- 2 ^ 15)); cbn [negb andb]; [split; [by intros []|lia]|].
  destruct (Z.leb_spec 1 (YearMonthDay.month x)), (Z.leb_spec (YearMonthDay.month x) 12);
    cbn [negb andb]; try (split; [by intros []|lia]).
  rewrite andb_true_iff, !Z.leb_le. intuition lia.
Qed.

(** Case analysis on a month. *)
Lemma month_cases m :
  1 ≤ m ≤ 12 → m = 1 ∨ m = 2 ∨ m = 3 ∨ m = 4 ∨ m = 5 ∨ m = 6 ∨ m = 7 ∨ m = 8 ∨ m = 9 ∨ m = 10 ∨ m = 11 ∨ m = 12.
Proof. lia. Qed.
Ltac by_month H := destruct (month_cases _ H) as [-> |[-> |[-> |[-> |[-> |[-> |[-> |[-> |[-> |[-> |[-> | -> ]]]]]]]]]]].

(** The lengths of the months are what the formula counts. *)
Lemma month_length_formula y m :
  1 ≤ m ≤ 12 →
  month_length y m = if m =? 2 then (if Year.is_leap y then 29 else 28)
                     else month_days (march_month m + 1) - month_days (march_month m).
Proof.
  intros Hm. unfold month_length, YearMonthDayLast.day. cbn [YearMonthDayLast.month YearMonthDayLast.year].
  by_month Hm; try reflexivity. cbn. by destruct (Year.is_leap y).
Qed.

Lemma month_length_bound y m : 1 ≤ m ≤ 12 → 28 ≤ month_length y m ≤ 31.
Proof.
  intros Hm. rewrite month_length_formula by done. destruct (Year.is_leap y); by_month Hm; vm_compute; split; discriminate.
Qed.

(** A date lies within its year that begins in March, and gives its month back. *)
Lemma day_of_year x :
  date x → let y := march_year (YearMonthDay.year x) (YearMonthDay.month x) in
  let mp := march_month (YearMonthDay.month x) in
  let doy := month_days mp + YearMonthDay.day x - 1 in
  0 ≤ doy ∧ years_days y + doy < years_days (y + 1) ∧ (5 * doy + 2) / 153 = mp.
Proof.
  intros (Hy & Hm & Hd)%date_spec. destruct x as [y m d]. cbn [YearMonthDay.month YearMonthDay.day YearMonthDay.year] in *.
  rewrite month_length_formula in Hd by done. rewrite years_days_step.
  assert (m = 2 → march_year y m + 1 = y) as Hfeb by (unfold march_year; intros ->; cbn; lia).
  destruct (Z.eqb_spec m 2) as [-> |Hne].
  - rewrite Hfeb by done. change (march_month 2) with 11. change (month_days 11) with 337 in *.
    destruct (Year.is_leap y); split_and!; try lia; Z.to_euclidean_division_equations; lia.
  - pose proof (march_month_range m Hm). assert (march_month m ≠ 11).
    { unfold march_month. destruct (Z.ltb_spec 2 m); lia. }
    unfold month_days in *. split_and!; [|destruct (Year.is_leap (march_year y m + 1))|];
      Z.to_euclidean_division_equations; lia.
Qed.

Lemma from_to_days x : date x → YearMonthDay.from_days (YearMonthDay.to_days x) = Ok x.
Proof.
  intros Hx. pose proof (day_of_year x Hx) as (Hdoy & Hyear & Hmp). apply date_spec in Hx as (Hy & Hm & Hd).
  pose proof (month_length_bound (YearMonthDay.year x) _ Hm). rewrite to_days_count by lia.
  destruct x as [y m d]. cbn [YearMonthDay.month YearMonthDay.day YearMonthDay.year] in *.
  set (y' := march_year y m) in *. set (doy := month_days (march_month m) + d - 1) in *.
  assert (y - 1 ≤ y' ≤ y) by (unfold y', march_year; destruct (m <=? 2); lia).
  unfold YearMonthDay.from_days. rewrite int_add_ok.
  2: { unfold int_min, int_max, years_days in *. Z.to_euclidean_division_equations. lia. }
  cbn [mbind outcome_bind]. rewrite div_down_div by lia.
  replace (years_days y' + month_days (march_month m) + d - 1 - 719468 + 719468) with (years_days y' + doy) by lia.
  rewrite years_days_next, years_days_era in Hyear. pose proof (Z.mod_pos_bound y' 400 ltac:(lia)).
  rewrite years_days_era. set (yoe := y' mod 400) in *. set (era := y' / 400) in *.
  replace (yoe * 365 + yoe / 4 - yoe / 100) with (era_days yoe) in * by (unfold era_days; lia).
  assert (0 ≤ era_days yoe) by (unfold era_days; Z.to_euclidean_division_equations; lia).
  assert (era_next yoe ≤ 146097) by (unfold era_next, era_days; destruct (Z.eqb_spec yoe 399);
    Z.to_euclidean_division_equations; lia).
  assert ((era * 146097 + era_days yoe + doy) / 146097 = era) as ->.
  { symmetry. apply Z.div_unique_pos with (era_days yoe + doy); lia. }
  replace (era * 146097 + era_days yoe + doy - era * 146097) with (era_days yoe + doy) by lia.
  rewrite u32_small by lia. fold (year_formula (era_days yoe + doy)).
  rewrite (year_of_day yoe) by lia. fold (era_days yoe).
  replace (era_days yoe + doy - era_days yoe) with doy by lia. rewrite Hmp.
  fold (month_days (march_month m)). replace (doy - month_days (march_month m) + 1) with d by lia.
  replace (yoe + era * 400) with y' by (unfold yoe, era; pose proof (Z.div_mod y' 400); lia).
  assert ((if march_month m <? 10 then march_month m + 3 else march_month m - 9) = m) as ->.
  { clear -Hm. by_month Hm; reflexivity. }
  f_equal. f_equal.
  - unfold Year.of_int. replace (y' + _) with y; [apply i16_small; lia|].
    unfold y', march_year. destruct (m <=? 2); lia.
  - apply u8_small. lia.
  - apply u8_small. lia.
Qed.

(** ** The calendar, as a specification *)

Definition gregorian_leap (y : Z) : Prop := y mod 4 = 0 ∧ (y mod 100 ≠ 0 ∨ y mod 400 = 0).
#[global] Instance gregorian_leap_dec y : Decision (gregorian_leap y).
Proof. unfold gregorian_leap. apply _. Defined.

Definition gregorian_length (y m : Z) : Z :=
  if decide (m = 2) then if decide (gregorian_leap y) then 29 else 28
  else if decide (m ∈ [4; 6; 9; 11]) then 30 else 31.

(** The day after a date. *)
Definition next_day (x : YearMonthDay.t) : YearMonthDay.t :=
  let '(YearMonthDay.mk y m d) := x in
  if decide (d < gregorian_length y m) then YearMonthDay.mk y m (d + 1)
  else if decide (m < 12) then YearMonthDay.mk y (m + 1) 1
  else YearMonthDay.mk (y + 1) 1 1.

Lemma is_leap_spec y : Year.is_leap y = bool_decide (gregorian_leap y).
Proof.
  apply eq_true_iff_eq. rewrite bool_decide_eq_true, is_leap_mod. unfold gregorian_leap.
  rewrite andb_true_iff, orb_true_iff, negb_true_iff, !Z.eqb_eq, Z.eqb_neq. done.
Qed.

Lemma gregorian_length_spec y m : 1 ≤ m ≤ 12 → gregorian_length y m = month_length y m.
Proof.
  intros Hm. rewrite month_length_formula, is_leap_spec by done. unfold gregorian_length.
  by_month Hm; try reflexivity. rewrite decide_True by done. change (2 =? 2) with true. cbn match.
  by destruct (decide (gregorian_leap y)); [rewrite bool_decide_eq_true_2|rewrite bool_decide_eq_false_2].
Qed.

Definition first_date : YearMonthDay.t := YearMonthDay.mk (-32767) 1 1.
Definition last_date : YearMonthDay.t := YearMonthDay.mk 32767 12 31.

Lemma next_day_date x : date x → x ≠ last_date → date (next_day x).
Proof.
  destruct x as [y m d]. rewrite !date_spec. cbn [YearMonthDay.month YearMonthDay.day YearMonthDay.year].
  intros (Hy & Hm & Hd) Hne. unfold next_day. rewrite gregorian_length_spec by done.
  destruct (decide (d < month_length y m)) as [Hlt|Hge]; [cbn [YearMonthDay.month YearMonthDay.day YearMonthDay.year]; lia|].
  destruct (decide (m < 12)) as [Hlt|Hge'].
  - cbn [YearMonthDay.month YearMonthDay.day YearMonthDay.year]. pose proof (month_length_bound y (m + 1) ltac:(lia)). lia.
  - assert (m = 12) as -> by lia. change (month_length y 12) with 31 in *.
    cbn [YearMonthDay.month YearMonthDay.day YearMonthDay.year].
    pose proof (month_length_bound (y + 1) 1 ltac:(lia)). split_and!; try lia.
    assert (y ≠ 32767); [|lia]. intros ->. apply Hne. unfold last_date. f_equal. lia.
Qed.

(** Counting the days goes with the calendar. *)
Lemma to_days_next x :
  date x → YearMonthDay.to_days (next_day x) = YearMonthDay.to_days x + 1.
Proof.
  destruct x as [y m d]. rewrite !date_spec. cbn [YearMonthDay.month YearMonthDay.day YearMonthDay.year].
  intros (Hy & Hm & Hd). pose proof (month_length_bound y m Hm).
  unfold next_day. rewrite gregorian_length_spec by done.
  destruct (decide (d < month_length y m)) as [Hlt|Hge].
  { rewrite !to_days_count; cbn [YearMonthDay.month YearMonthDay.day YearMonthDay.year]; lia. }
  assert (d = month_length y m) as Hlast by lia. rewrite month_length_formula in Hlast by done.
  destruct (decide (m < 12)) as [Hlt|Hge'];
    rewrite !to_days_count by (cbn [YearMonthDay.month YearMonthDay.day YearMonthDay.year]; lia); cbn [YearMonthDay.month YearMonthDay.day YearMonthDay.year].
  - destruct (Z.eqb_spec m 2) as [-> |Hne].
    + change (march_year y (2 + 1)) with (y - 0). change (march_year y 2) with (y - 1).
      replace (y - 0) with (y - 1 + 1) by lia. rewrite years_days_step.
      replace (y - 1 + 1) with y by lia. change (month_days (march_month 2)) with 337.
      change (month_days (march_month (2 + 1))) with 0. destruct (Year.is_leap y); lia.
    + assert (march_year y (m + 1) = march_year y m ∧ march_month (m + 1) = march_month m + 1) as [-> ->]; [|lia].
      unfold march_year, march_month.
      destruct (Z.leb_spec m 2), (Z.leb_spec (m + 1) 2), (Z.ltb_spec 2 m), (Z.ltb_spec 2 (m + 1)); lia.
  - assert (m = 12) as -> by lia. change (march_year (y + 1) 1) with (y + 1 - 1).
    change (march_year y 12) with (y - 0). replace (y + 1 - 1) with (y - 0) by lia.
    change (month_days (march_month 1)) with 306. change (month_days (march_month 12)) with 275.
    change (month_days (march_month 12 + 1) - month_days (march_month 12)) with 31 in Hlast.
    change (12 =? 2) with false in Hlast. cbn match in Hlast. lia.
Qed.

Lemma date_of_days z :
  YearMonthDay.to_days first_date ≤ z ≤ YearMonthDay.to_days last_date →
  ∃ x, date x ∧ YearMonthDay.to_days x = z.
Proof.
  intros Hz. replace z with (YearMonthDay.to_days first_date + Z.of_nat (Z.to_nat (z - YearMonthDay.to_days first_date))) in * by lia.
  induction (Z.to_nat _) as [|n IH].
  - exists first_date. split; [by vm_compute|lia].
  - destruct IH as (x & Hx & Hxz); [lia|]. exists (next_day x). split.
    + apply next_day_date; [done|]. intros ->. lia.
    + rewrite to_days_next by done. lia.
Qed.

(** ** Comparison *)

Lemma years_days_mono a b : a ≤ b → years_days a ≤ years_days b.
Proof. unfold years_days. intros. Z.to_euclidean_division_equations. lia. Qed.

Lemma lt_cases x y :
  YearMonthDay.lt x y = true ↔
  YearMonthDay.year x < YearMonthDay.year y ∨
  YearMonthDay.year x = YearMonthDay.year y ∧
    (YearMonthDay.month x < YearMonthDay.month y ∨
     YearMonthDay.month x = YearMonthDay.month y ∧ YearMonthDay.day x < YearMonthDay.day y).
Proof.
  unfold YearMonthDay.lt.
  destruct (Z.ltb_spec (YearMonthDay.year x) (YearMonthDay.year y)); [intuition lia|].
  destruct (Z.ltb_spec (YearMonthDay.year y) (YearMonthDay.year x)); [intuition lia|].
  destruct (Z.ltb_spec (YearMonthDay.month x) (YearMonthDay.month y)); [intuition lia|].
  destruct (Z.ltb_spec (YearMonthDay.month y) (YearMonthDay.month x)); [intuition lia|].
  rewrite Z.ltb_lt. intuition lia.
Qed.

Lemma to_days_lt x y : date x → date y → YearMonthDay.lt x y = true → YearMonthDay.to_days x < YearMonthDay.to_days y.
Proof.
  intros Hx Hy Hlt%lt_cases. pose proof (day_of_year x Hx) as (Hx0 & Hx1 & Hx2).
  pose proof (day_of_year y Hy) as (Hy0 & Hy1 & Hy2). apply date_spec in Hx as (_ & Hmx & Hdx), Hy as (_ & Hmy & Hdy).
  pose proof (month_length_bound (YearMonthDay.year x) _ Hmx). pose proof (month_length_bound (YearMonthDay.year y) _ Hmy).
  rewrite !to_days_count by lia.
  destruct (Z.lt_ge_cases (march_year (YearMonthDay.year x) (YearMonthDay.month x))
              (march_year (YearMonthDay.year y) (YearMonthDay.month y))) as [Hm|Hm].
  { pose proof (years_days_mono _ _ (proj2 (Z.le_succ_l _ _) Hm)). unfold Z.succ in *. lia. }
  assert (march_year (YearMonthDay.year x) (YearMonthDay.month x) =
          march_year (YearMonthDay.year y) (YearMonthDay.month y) ∧
          (march_month (YearMonthDay.month x) < march_month (YearMonthDay.month y) ∨
           march_month (YearMonthDay.month x) = march_month (YearMonthDay.month y) ∧
           YearMonthDay.day x < YearMonthDay.day y)) as [-> Hmd].
  { unfold march_year, march_month in *.
    destruct (Z.leb_spec (YearMonthDay.month x) 2), (Z.leb_spec (YearMonthDay.month y) 2),
      (Z.ltb_spec 2 (YearMonthDay.month x)), (Z.ltb_spec 2 (YearMonthDay.month y)); lia. }
  destruct Hmd as [Hmd|[-> Hmd]]; [|lia]. unfold month_days in *. Z.to_euclidean_division_equations. lia.
Qed.

Lemma lt_to_days x y :
  date x → date y → YearMonthDay.lt x y = (YearMonthDay.to_days x <? YearMonthDay.to_days y).
Proof.
  intros Hx Hy. destruct (YearMonthDay.lt x y) eqn:Hxy.
  - symmetry. apply Z.ltb_lt. by apply to_days_lt.
  - symmetry. apply Z.ltb_ge. destruct (YearMonthDay.lt y x) eqn:Hyx.
    + pose proof (to_days_lt y x Hy Hx Hyx). lia.
    + assert (x = y) as ->; [|lia]. apply not_true_iff_false in Hxy, Hyx. rewrite lt_cases in Hxy, Hyx.
      destruct x, y. cbn in *. f_equal; lia.
Qed.

(** C8: The calendar of the library is the Gregorian calendar.  Day 0 is the first of January
    1970; every day number of the years -32767 to 32767, which are those the type holds, is
    the number of exactly one date: [from_days] gives it, it is valid and [to_days] gives the
    number back; the next number is that of the next day, with months of 28 to 31 days and
    the leap years divisible by 4, less those divisible by 100 but not by 400; and dates
    compare as their numbers do.  The computation does not overflow. *)
Theorem calendar_is_gregorian :
  YearMonthDay.from_days 0 = Ok (YearMonthDay.mk 1970 1 1) ∧
  (∀ x, date x → YearMonthDay.from_days (YearMonthDay.to_days x) = Ok x) ∧
  (∀ z, YearMonthDay.to_days first_date ≤ z ≤ YearMonthDay.to_days last_date →
     ∃ x, YearMonthDay.from_days z = Ok x ∧ date x ∧ YearMonthDay.to_days x = z ∧
       (x ≠ last_date → YearMonthDay.from_days (z + 1) = Ok (next_day x))) ∧
  (∀ x y, date x → date y → YearMonthDay.lt x y = (YearMonthDay.to_days x <? YearMonthDay.to_days y)).
Proof.
  split; [by vm_compute|]. split; [exact from_to_days|]. split; [|exact lt_to_days]. intros z (x & Hx & <-)%date_of_days.
  exists x. split; [by apply from_to_days|]. split; [done|]. split; [done|]. intros Hne.
  rewrite <- to_days_next by done. by apply from_to_days, next_day_date.
Qed.

(** ** Weekdays *)

Lemma weekday_from_days z : int_min ≤ z ≤ int_max → Weekday.from_days z = (z + 4) mod 7.
Proof.
  unfold int_min, int_max. intros Hz. unfold Weekday.from_days, u32, uwrap.
  pose proof (Z.mod_pos_bound (z + 4) 7 ltac:(lia)).
  destruct (Z.leb_spec (-4) z) as [Hge|Hlt].
  - rewrite Zplus_mod_idemp_l, (Z.mod_small (z + 4)) by lia. apply u8_small. lia.
  - replace (z mod 2 ^ 32) with (z + 2 ^ 32) by (apply Z.mod_unique_pos with (-1); lia).
    replace ((z + 2 ^ 32) mod 7) with ((z + 4) mod 7); [apply u8_small; lia|].
    replace (z + 2 ^ 32) with (z + 4 + 613566756 * 7) by lia. by rewrite Z_mod_plus_full.
Qed.

Lemma weekday_difference x y : Weekday.difference x y = (x - y) mod 7.
Proof. unfold Weekday.difference. rewrite div_down_div by lia. pose proof (Z.div_mod (x - y) 7). lia. Qed.

Lemma weekday_plus x y : 0 ≤ x ≤ 6 → Weekday.plus x y = (x + y) mod 7.
Proof.
  intros Hx. unfold Weekday.plus, Weekday.of_unsigned. rewrite div_down_div by lia.
  pose proof (Z.mod_pos_bound (x + y) 7 ltac:(lia)).
  replace (x + y - (x + y) / 7 * 7) with ((x + y) mod 7) by (pose proof (Z.div_mod (x + y) 7); lia).
  rewrite u32_small by lia. destruct (Z.eqb_spec ((x + y) mod 7) 7); [lia|]. apply u8_small. cbn. lia.
Qed.

(** Reading a weekday with an index back. *)
Lemma weekday_indexed_make wd i :
  0 ≤ wd ≤ 6 → 0 ≤ i < 16 →
  WeekdayIndexed.weekday (WeekdayIndexed.make wd i) = wd ∧ WeekdayIndexed.index_ (WeekdayIndexed.make wd i) = i.
Proof.
  intros Hw Hi. cbn. unfold WeekdayIndexed.weekday, WeekdayIndexed.make, Weekday.of_unsigned. cbn.
  rewrite !(uwrap_small 4) by (cbn; lia). split; [|done]. destruct (Z.eqb_spec wd 7); [lia|]. by apply u8_small; cbn; lia.
Qed.

Lemma date_days_int x : date x → int_min ≤ YearMonthDay.to_days x ≤ int_max - 719468.
Proof.
  intros Hx. pose proof (day_of_year x Hx) as (H0 & _ & _). apply date_spec in Hx as (Hy & Hm & Hd).
  pose proof (month_length_bound (YearMonthDay.year x) _ Hm). pose proof (march_month_range _ Hm) as Hr.
  pose proof (month_days_range _ Hr). rewrite to_days_count by lia.
  unfold int_min, int_max, years_days, march_year in *.
  destruct (YearMonthDay.month x <=? 2); Z.to_euclidean_division_equations; lia.
Qed.

(** The first day of the month of a date. *)
Lemma first_of_month x :
  date x → date (YearMonthDay.mk (YearMonthDay.year x) (YearMonthDay.month x) 1) ∧
  YearMonthDay.to_days (YearMonthDay.mk (YearMonthDay.year x) (YearMonthDay.month x) 1) =
    YearMonthDay.to_days x - (YearMonthDay.day x - 1).
Proof.
  rewrite !date_spec. cbn [YearMonthDay.month YearMonthDay.day YearMonthDay.year]. intros (Hy & Hm & Hd).
  pose proof (month_length_bound (YearMonthDay.year x) _ Hm). split; [lia|].
  rewrite !to_days_count by (cbn [YearMonthDay.month YearMonthDay.day YearMonthDay.year]; lia).
  cbn [YearMonthDay.month YearMonthDay.day YearMonthDay.year]. lia.
Qed.

Lemma weekday_roundtrip x :
  date x →
  ∃ w, YearMonthWeekday.from_days (YearMonthDay.to_days x) = Ok w ∧
    YearMonthWeekday.to_days w = YearMonthDay.to_days x ∧ YearMonthWeekday.ok w = true.
Proof.
  intros Hx. pose proof (date_days_int x Hx) as Hint. destruct (first_of_month x Hx) as [H1 Hfirst].
  pose proof (date_days_int _ H1) as Hint1. unfold YearMonthWeekday.from_days. rewrite from_to_days by done.
  cbn [mbind outcome_bind]. eexists. split; [done|]. pose proof Hx as Hx'. apply date_spec in Hx' as (Hy & Hm & Hd).
  pose proof (month_length_bound (YearMonthDay.year x) _ Hm).
  rewrite !weekday_from_days by lia. set (z := YearMonthDay.to_days x) in *. set (d := YearMonthDay.day x) in *.
  rewrite (u32_small (d - 1)) by lia.
  assert (0 ≤ (z + 4) mod 7 ≤ 6) as Hwd by (pose proof (Z.mod_pos_bound (z + 4) 7); lia).
  assert (1 ≤ (d - 1) / 7 + 1 ≤ 5) as Hi by (Z.to_euclidean_division_equations; lia).
  destruct (weekday_indexed_make ((z + 4) mod 7) ((d - 1) / 7 + 1)) as [Hw Hix]; [lia..|].
  assert (((z + 4) mod 7 - (z - (d - 1) + 4) mod 7) mod 7 = (d - 1) mod 7) as Hmod.
  { rewrite <- Zminus_mod. f_equal. lia. }
  pose proof (Z.div_mod (d - 1) 7). pose proof (Z.mod_pos_bound (d - 1) 7).
  unfold YearMonthWeekday.to_days, YearMonthWeekday.ok.
  cbn [YearMonthWeekday.year YearMonthWeekday.month YearMonthWeekday.wdi].
  rewrite Hw, Hix, Hfirst, weekday_difference, weekday_from_days, Hmod by lia.
  replace ((d - 1) / 7 + 1 - 1) with ((d - 1) / 7) by lia. rewrite !(u32_small ((d - 1) / 7)) by lia. split.
  - rewrite u32_small, i32_small by lia. lia.
  - destruct Hx as [_ Hok]. unfold YearMonthDay.ok in Hok.
    destruct (Year.ok (YearMonthDay.year x) && Month.ok (YearMonthDay.month x)) eqn:Hym; [|done].
    apply andb_true_iff in Hym as [-> ->]. unfold Weekday.ok.
    destruct (Z.leb_spec ((z + 4) mod 7) 6), (Z.ltb_spec ((d - 1) / 7 + 1) 1); try lia. cbn [negb orb].
    destruct (Z.leb_spec ((d - 1) / 7 + 1) 4); [done|]. apply Z.leb_le.
    rewrite (u32_small ((d - 1) / 7 * 7 + 1)), i32_small, u32_small by lia.
    fold (month_length (YearMonthDay.year x) (YearMonthDay.month x)). lia.
Qed.

(** The last given weekday of a month is in the month, has the weekday, and a week later
    another month has begun. *)
Lemma last_weekday y m wd :
  - 32767 ≤ y ≤ 32767 → 1 ≤ m ≤ 12 → 0 ≤ wd ≤ 6 →
  ∃ d, date (YearMonthDay.mk y m d) ∧ month_length y m < d + 7 ∧
    YearMonthWeekdayLast.to_days (YearMonthWeekdayLast.mk y m wd) = YearMonthDay.to_days (YearMonthDay.mk y m d) ∧
    Weekday.from_days (YearMonthDay.to_days (YearMonthDay.mk y m d)) = wd.
Proof.
  intros Hy Hm Hw. pose proof (month_length_bound y m Hm) as Hl.
  assert (∀ d, 1 ≤ d ≤ month_length y m → date (YearMonthDay.mk y m d)) as Hdate.
  { intros d Hd. apply date_spec. cbn [YearMonthDay.month YearMonthDay.day YearMonthDay.year]. lia. }
  assert (∀ d, 1 ≤ d ≤ month_length y m → YearMonthDay.to_days (YearMonthDay.mk y m d) =
    YearMonthDay.to_days (YearMonthDay.mk y m (month_length y m)) - (month_length y m - d)) as Hsub.
  { intros d Hd. rewrite !to_days_count by (cbn [YearMonthDay.month YearMonthDay.day YearMonthDay.year]; lia).
    cbn [YearMonthDay.month YearMonthDay.day YearMonthDay.year]. lia. }
  unfold YearMonthWeekdayLast.to_days, YearMonthDay.of_last.
  cbn [YearMonthWeekdayLast.year YearMonthWeekdayLast.month YearMonthWeekdayLast.weekday
       YearMonthDayLast.year YearMonthDayLast.month].
  fold (month_length y m). set (z := YearMonthDay.to_days (YearMonthDay.mk y m (month_length y m))) in *.
  pose proof (date_days_int _ (Hdate (month_length y m) ltac:(lia))) as Hz. fold z in Hz.
  rewrite weekday_difference, (weekday_from_days z) by lia.
  set (k := ((z + 4) mod 7 - wd) mod 7). pose proof (Z.mod_pos_bound ((z + 4) mod 7 - wd) 7 ltac:(lia)) as Hk. fold k in Hk.
  exists (month_length y m - k). split_and!; [apply Hdate; lia|lia|rewrite Hsub by lia; lia|].
  pose proof (date_days_int _ (Hdate (month_length y m - k) ltac:(lia))).
  rewrite weekday_from_days, Hsub by lia. unfold k. clear -Hw.
  replace (z - (month_length y m - (month_length y m - ((z + 4) mod 7 - wd) mod 7)) + 4)
    with (z + 4 - ((z + 4) mod 7 - wd) mod 7) by lia.
  symmetry. apply Z.mod_unique_pos with ((z + 4) / 7 + ((z + 4) mod 7 - wd) / 7); [lia|].
  pose proof (Z.div_mod (z + 4) 7). pose proof (Z.div_mod ((z + 4) mod 7 - wd) 7). lia.
Qed.

(** Weekdays.  Day 0 is a Thursday and weekdays follow each other through every date;
    the weekday-of-month form of every date ("the third Tuesday of May 2024") is valid and
    gives the same day back; and the last given weekday of a month lies in the month, has
    that weekday, and is less than a week from the end of the month. *)
Theorem weekdays_follow :
  Weekday.from_days 0 = 4 ∧
  (∀ x, date x → date (next_day x) →
     Weekday.from_days (YearMonthDay.to_days (next_day x)) = Weekday.next (Weekday.from_days (YearMonthDay.to_days x))) ∧
  (∀ x, date x → ∃ w, YearMonthWeekday.from_days (YearMonthDay.to_days x) = Ok w ∧
     YearMonthWeekday.to_days w = YearMonthDay.to_days x ∧ YearMonthWeekday.ok w = true) ∧
  (∀ y m wd, - 32767 ≤ y ≤ 32767 → 1 ≤ m ≤ 12 → 0 ≤ wd ≤ 6 →
     ∃ d, date (YearMonthDay.mk y m d) ∧ month_length y m < d + 7 ∧
       YearMonthWeekdayLast.to_days (YearMonthWeekdayLast.mk y m wd) = YearMonthDay.to_days (YearMonthDay.mk y m d) ∧
       Weekday.from_days (YearMonthDay.to_days (YearMonthDay.mk y m d)) = wd).
Proof.
  split_and!; [done| |exact weekday_roundtrip|exact last_weekday].
  intros x Hx Hn. pose proof (date_days_int x Hx). pose proof (date_days_int _ Hn).
  rewrite !weekday_from_days by lia. rewrite to_days_next by done. unfold Weekday.next.
  rewrite weekday_plus by (pose proof (Z.mod_pos_bound (YearMonthDay.to_days x + 4) 7); lia).
  rewrite Zplus_mod_idemp_l. f_equal. lia.
Qed.
