(* ===== verification/TimeText.v ===== *)
(** The time as text: the second half of what the web socket servers use of
    [src/third_party_examples/uwebsockets/src/date.h], the time of day and the output of
    dates and times.

    Times of the system clock count nanoseconds since 1970 in 64 bits, as durations of the
    GNU library do.  An output stream is the text written to it.

    The theorems: the text that is broadcast has one fixed format, with the date and the
    time of day of the calendar, and texts compare as strings in the order of the times. *)
From S2P Require Import Prelude Text Calendar.
Local Open Scope Z_scope.

(** Ticks of the clock per second. *)
Definition den : Z := 1000000000.

(** Signed 64-bit arithmetic. *)
Definition int64 (z : Z) : outcome Z :=
  if (- 2 ^ 63 <=? z) && (z <? 2 ^ 63) then Ok z else UB "signed integer overflow".

(** [std::chrono::duration_cast] between counts of [from] and [to] ticks per second. *)
Definition duration_cast (from to c : Z) : Z := Z.quot (c * to) from.

(** ** Output *)

(** A non-negative number, right-aligned and filled with zeros. *)
Definition pad (w : nat) (n : Z) : text :=
  replicate (w - length (to_text n)) "0"%char ++ to_text n.

(* @src third_party_examples/uwebsockets/src/date.h 1345-1354 low_level_fmt *)
Definition fmt_day (d : Z) : text := pad 2 d.

(* @src third_party_examples/uwebsockets/src/date.h 1358-1365 operator<< *)
Definition show_day (d : Z) : text :=
  fmt_day d ++ if Day.ok d then [] else txt " is not a valid day".

(* @src third_party_examples/uwebsockets/src/date.h 1587-1597 low_level_fmt *)
(** Filled between the sign and the digits. *)
Definition fmt_year (y : Z) : text := if y <? 0 then "-"%char :: pad 4 (- y) else pad 4 y.

(* @src third_party_examples/uwebsockets/src/date.h 1601-1608 operator<< *)
Definition show_year (y : Z) : text :=
  fmt_year y ++ if Year.ok y then [] else txt " is not a valid year".

(* @src third_party_examples/uwebsockets/src/date.h 2539-2554 operator<< *)
Definition show_date (x : YearMonthDay.t) : text :=
  to_text (YearMonthDay.year x) ++ txt "-" ++ pad 2 (YearMonthDay.month x) ++ txt "-" ++
  pad 2 (YearMonthDay.day x) ++
  if YearMonthDay.ok x then [] else txt " is not a valid year_month_day".

(** ** The time of day *)

(* @src third_party_examples/uwebsockets/src/date.h 3144-3155 width *)
(** [fuel] is [19 - w]. *)
Fixpoint width_from (fuel : nat) (n d : Z) : nat :=
  match fuel with
  | O => 0
  | S fuel => if negb (n mod d =? 0) then S (width_from fuel (uwrap 64 (n mod d * 10)) d) else 0
  end.

(* @src third_party_examples/uwebsockets/src/date.h 3157-3170 static_pow10 *)
(** [fuel] is at least [exp]. *)
Fixpoint static_pow10_from (fuel exp : nat) : Z :=
  match fuel, exp with
  | S fuel, S _ =>
      let h := static_pow10_from fuel (Nat.div2 exp) in
      uwrap 64 (h * h * (if Nat.odd exp then 10 else 1))
  | _, _ => 1
  end.
Definition static_pow10 (exp : nat) : Z := static_pow10_from exp exp.

(* @src third_party_examples/uwebsockets/src/date.h 3174-3176 decimal_format_seconds::trial_width *)
Definition trial_width : nat := width_from 19 1 den.

(* @src third_party_examples/uwebsockets/src/date.h 3179-3179 decimal_format_seconds::width *)
Definition fractional_width : nat := if (trial_width <? 19)%nat then trial_width else 6.

(* @src third_party_examples/uwebsockets/src/date.h 3180-3180 decimal_format_seconds::precision *)
Definition precision : Z := static_pow10 fractional_width.

(* @src third_party_examples/uwebsockets/src/date.h 3183-3184 decimal_format_seconds *)
Record decimal_format_seconds := mkSeconds { s_ : Z; sub_s_ : Z }.

(* @src third_party_examples/uwebsockets/src/date.h 3188-3190 decimal_format_seconds::decimal_format_seconds *)
Definition make_seconds (d : Z) : decimal_format_seconds :=
  let s := duration_cast den 1 d in
  mkSeconds s (duration_cast den precision (d - s * den)).

(* @src third_party_examples/uwebsockets/src/date.h 3196-3196 decimal_format_seconds::to_duration *)
Definition seconds_duration (x : decimal_format_seconds) : Z := s_ x * precision + sub_s_ x.

(* @src third_party_examples/uwebsockets/src/date.h 3221-3241 decimal_format_seconds::print *)
Definition show_seconds (x : decimal_format_seconds) : text :=
  pad 2 (s_ x) ++
  if (0 <? fractional_width)%nat then txt "." ++ pad fractional_width (sub_s_ x) else [].

(* @src third_party_examples/uwebsockets/src/date.h 3260-3268 hh_mm_ss *)
Record hh_mm_ss := mkTime { h_ : Z; m_ : Z; seconds_ : decimal_format_seconds; neg_ : bool }.

(* @src third_party_examples/uwebsockets/src/date.h 3244-3249 abs *)
Definition abs (d : Z) : Z := if 0 <=? d then d else - d.

(* @src third_party_examples/uwebsockets/src/date.h 3276-3280 hh_mm_ss::hh_mm_ss *)
Definition make_time (d : Z) : hh_mm_ss :=
  let h := Z.quot (abs d) (3600 * den) in
  let m := Z.quot (abs d) (60 * den) - 60 * h in
  mkTime h m (make_seconds (abs d - h * (3600 * den) - m * (60 * den))) (d <? 0).

(* @src third_party_examples/uwebsockets/src/date.h 3290-3292 hh_mm_ss::to_duration *)
Definition time_duration (x : hh_mm_ss) : Z :=
  (seconds_duration (seconds_ x) + m_ x * (60 * precision) + h_ x * (3600 * precision)) *
  (1 - 2 * (if neg_ x then 1 else 0)).

(* @src third_party_examples/uwebsockets/src/date.h 3294-3296 hh_mm_ss::in_conventional_range *)
Definition in_conventional_range (x : hh_mm_ss) : bool :=
  negb (neg_ x) && (h_ x <? 24) && (m_ x <? 60) &&
  ((sub_s_ (seconds_ x) <? precision) && (s_ (seconds_ x) <? 60)).

(* @src third_party_examples/uwebsockets/src/date.h 3299-3311 operator<< *)
Definition show_time (x : hh_mm_ss) : text :=
  (if neg_ x then txt "-" else []) ++ (if h_ x <? 10 then txt "0" else []) ++ to_text (h_ x) ++ txt ":" ++
  (if m_ x <? 10 then txt "0" else []) ++ to_text (m_ x) ++ txt ":" ++ show_seconds (seconds_ x).

(* @src third_party_examples/uwebsockets/src/date.h 3329-3332 is_am *)
Definition is_am (h : Z) : bool := (0 <=? h) && (h <? 12).

(* @src third_party_examples/uwebsockets/src/date.h 3334-3337 is_pm *)
Definition is_pm (h : Z) : bool := (12 <=? h) && (h <? 24).

(* @src third_party_examples/uwebsockets/src/date.h 3339-3349 make12 *)
Definition make12 (h : Z) : Z :=
  if h <? 12 then if h =? 0 then 12 else h
  else if negb (h =? 12) then h - 12 else h.

(* @src third_party_examples/uwebsockets/src/date.h 3351-3359 make24 *)
Definition make24 (h : Z) (pm : bool) : Z :=
  if pm then if negb (h =? 12) then h + 12 else h
  else if h =? 12 then 0 else h.

(** ** Times of the system clock *)

Definition day_ticks : Z := 86400 * den.

(* @src third_party_examples/uwebsockets/src/date.h 1137-1145 floor *)
(** As [std::chrono::floor], which is used where the library has it. *)
Definition floor_days (d : Z) : Z :=
  let t := i32 (Z.quot d day_ticks) in
  if d <? t * day_ticks then t - 1 else t.

(* @src third_party_examples/uwebsockets/src/date.h 3370-3376 operator<< *)
Definition show_sys_time (tp : Z) : outcome text :=
  let dp := floor_days tp in
  ymd ← YearMonthDay.from_days dp;
  start ← int64 (dp * day_ticks);
  tod ← int64 (tp - start);
  Ok (show_date ymd ++ txt " " ++ show_time (make_time tod)).

Example show_sys_time_examples :
  show_sys_time 0 = Ok (txt "1970-01-01 00:00:00.000000000") ∧
  show_sys_time 1700000000123456789 = Ok (txt "2023-11-14 22:13:20.123456789") ∧
  show_sys_time (-1) = Ok (txt "1969-12-31 23:59:59.999999999") ∧
  (∃ w, show_sys_time (- 2 ^ 63) = UB w).
Proof. vm_compute. split_and!; try reflexivity. by eexists. Qed.

(** ** Numerals of fixed width *)

Fixpoint fixed (w : nat) (n : Z) : text :=
  match w with O => [] | S w => fixed w (n / 10) ++ [digit (n mod 10)] end.

Lemma fixed_length w n : length (fixed w n) = w.
Proof. revert n. induction w as [|w IH]; intros n; [done|]. cbn [fixed]. rewrite length_app, IH. cbn. lia. Qed.

Lemma fixed_zero w : fixed w 0 = replicate w "0"%char.
Proof.
  induction w as [|w IH]; [done|]. cbn [fixed]. change (0 / 10) with 0. change (digit (0 mod 10)) with "0"%char.
  by rewrite IH, <- replicate_S_end.
Qed.

Lemma fixed_digits w f n :
  0 ≤ n < 10 ^ Z.of_nat (S w) → (w < f)%nat →
  fixed (S w) n = replicate (S w - length (digits f n)) "0"%char ++ digits f n ∧ (1 ≤ length (digits f n) ≤ S w)%nat.
Proof.
  revert f n. induction w as [|w IH]; intros f n Hn Hf; (destruct f as [|f]; [lia|]); cbn [digits].
  - change (10 ^ Z.of_nat 1) with 10 in Hn. destruct (Z.ltb_spec n 10); [|lia].
    cbn [fixed]. rewrite Z.mod_small by lia. cbn. split; [done|lia].
  - rewrite Nat2Z.inj_succ, Z.pow_succ_r in Hn by lia. destruct (Z.ltb_spec n 10) as [Hlt|Hge].
    + cbn [fixed]. rewrite (Z.div_small n), (Z.mod_small n) by lia.
      change (fixed w (0 / 10) ++ [digit (0 mod 10)]) with (fixed (S w) 0). rewrite fixed_zero. cbn [length].
      split; [done|lia].
    + destruct (IH f (n / 10)) as [Hfix Hlen]; [|lia|].
      { split; [apply Z.div_pos; lia|apply Z.div_lt_upper_bound; lia]. }
      change (fixed (S (S w)) n) with (fixed (S w) (n / 10) ++ [digit (n mod 10)]).
      rewrite Hfix, length_app, <- app_assoc. cbn [length]. split; [|lia]. f_equal. f_equal. lia.
Qed.

(** What is written with a width is a numeral of that width. *)
Lemma pad_fixed w n : (0 < w ≤ 20)%nat → 0 ≤ n < 10 ^ Z.of_nat w → pad w n = fixed w n.
Proof.
  intros Hw Hn. destruct w as [|w]; [lia|]. unfold pad, to_text.
  destruct (Z.ltb_spec n 0); [lia|]. by destruct (fixed_digits w 20 n Hn ltac:(lia)) as [-> _].
Qed.

(** A number with its leading zero, and a number of four digits. *)
Lemma two_digits n : 0 ≤ n < 100 → (if n <? 10 then txt "0" else []) ++ to_text n = fixed 2 n.
Proof.
  intros Hn. rewrite <- pad_fixed by (cbn; lia). unfold pad, to_text. destruct (Z.ltb_spec n 0); [lia|].
  cbn [digits]. destruct (Z.ltb_spec n 10); [done|]. destruct (Z.ltb_spec (n / 10) 10); [done|].
  pose proof (Z.div_lt_upper_bound n 10 10). lia.
Qed.

Lemma four_digits n : 1000 ≤ n < 10000 → to_text n = fixed 4 n.
Proof.
  intros Hn. unfold to_text. destruct (Z.ltb_spec n 0); [lia|].
  destruct (fixed_digits 3 20 n) as [-> Hlen]; [cbn; lia|lia|].
  assert (length (digits 20 n) = 4%nat) as ->; [|done].
  cbn [digits]. destruct (Z.ltb_spec n 10); [lia|]. destruct (Z.ltb_spec (n / 10) 10); [Z.to_euclidean_division_equations; lia|].
  destruct (Z.ltb_spec (n / 10 / 10) 10); [Z.to_euclidean_division_equations; lia|].
  destruct (Z.ltb_spec (n / 10 / 10 / 10) 10); [done|Z.to_euclidean_division_equations; lia].
Qed.

(** ** Comparing texts *)

(** [operator<] of strings. *)
Fixpoint text_lt (s t : text) : bool :=
  match s, t with
  | [], _ :: _ => true
  | _, [] => false
  | x :: s, y :: t => if code x <? code y then true else if code y <? code x then false else text_lt s t
  end.

Lemma text_lt_cons c s t : text_lt (c :: s) (c :: t) = text_lt s t.
Proof. cbn. by rewrite Z.ltb_irrefl. Qed.

(** Numerals of one width compare as numbers, and then what follows them. *)
Lemma text_lt_fixed w a b s t :
  0 ≤ a < 10 ^ Z.of_nat w → 0 ≤ b < 10 ^ Z.of_nat w →
  text_lt (fixed w a ++ s) (fixed w b ++ t) = (a <? b) || ((a =? b) && text_lt s t).
Proof.
  revert a b s t. induction w as [|w IH]; intros a b s t Ha Hb.
  { change (10 ^ Z.of_nat 0) with 1 in *. assert (a = 0) as -> by lia. assert (b = 0) as -> by lia. done. }
  rewrite Nat2Z.inj_succ, Z.pow_succ_r in * by lia. cbn [fixed]. rewrite <- !app_assoc. cbn [app].
  rewrite IH by (split; [apply Z.div_pos|apply Z.div_lt_upper_bound]; lia). cbn [text_lt].
  pose proof (Z.mod_pos_bound a 10). pose proof (Z.mod_pos_bound b 10). rewrite !digit_code by lia.
  pose proof (Z.div_mod a 10). pose proof (Z.div_mod b 10).
  destruct (Z.ltb_spec (a / 10) (b / 10)), (Z.eqb_spec (a / 10) (b / 10)), (Z.ltb_spec a b), (Z.eqb_spec a b),
    (Z.ltb_spec (48 + a mod 10) (48 + b mod 10)), (Z.ltb_spec (48 + b mod 10) (48 + a mod 10));
    cbn [andb orb]; try done; lia.
Qed.

(** ** The format *)

(** The times whose day begins within the range of the clock. *)
Definition showable (t : Z) : Prop := - 2 ^ 63 + day_ticks ≤ t < 2 ^ 63.

Definition date_text (x : YearMonthDay.t) : text :=
  fixed 4 (YearMonthDay.year x) ++ "-"%char :: fixed 2 (YearMonthDay.month x) ++ "-"%char ::
  fixed 2 (YearMonthDay.day x).

(** Of the nanoseconds of a day. *)
Definition tod_text (n : Z) : text :=
  fixed 2 (n / (3600 * den)) ++ ":"%char :: fixed 2 (n / (60 * den) mod 60) ++ ":"%char ::
  fixed 2 (n / den mod 60) ++ "."%char :: fixed 9 (n mod den).

Lemma widths : fractional_width = 9%nat ∧ precision = den.
Proof. by vm_compute. Qed.

Lemma make_time_parts n :
  0 ≤ n < day_ticks →
  make_time n = mkTime (n / (3600 * den)) (n / (60 * den) mod 60) (mkSeconds (n / den mod 60) (n mod den)) false.
Proof.
  unfold day_ticks. intros Hn. unfold make_time, abs, make_seconds, duration_cast.
  rewrite (proj2 widths), (proj2 (Z.leb_le 0 n)), (proj2 (Z.ltb_ge n 0)) by lia. unfold den in *.
  rewrite Z.mul_1_r. rewrite !(Z.quot_div_nonneg n) by lia.
  assert (n / (60 * 1000000000) - 60 * (n / (3600 * 1000000000)) = n / (60 * 1000000000) mod 60) as ->
    by (Z.to_euclidean_division_equations; lia).
  set (r := n - n / (3600 * 1000000000) * (3600 * 1000000000) - n / (60 * 1000000000) mod 60 * (60 * 1000000000)).
  assert (0 ≤ r < 60 * 1000000000 ∧ r / 1000000000 = n / 1000000000 mod 60 ∧ r mod 1000000000 = n mod 1000000000)
    as (Hr & Hs & Hsub).
  { unfold r. clear r. split_and!; Z.to_euclidean_division_equations; lia. }
  rewrite (Z.quot_div_nonneg r) by lia.
  replace (r - r / 1000000000 * 1000000000) with (r mod 1000000000) by (Z.to_euclidean_division_equations; lia).
  rewrite Z.quot_mul by lia. by rewrite Hs, Hsub.
Qed.

Lemma show_time_text n : 0 ≤ n < day_ticks → show_time (make_time n) = tod_text n.
Proof.
  intros Hn. rewrite make_time_parts by done. unfold show_time, show_seconds, tod_text. cbn [neg_ h_ m_ seconds_ s_ sub_s_].
  rewrite (proj1 widths). unfold day_ticks, den in *.
  rewrite !pad_fixed by (try lia; cbn; Z.to_euclidean_division_equations; lia).
  rewrite <- (two_digits (n / (3600 * 1000000000))), <- (two_digits (n / (60 * 1000000000) mod 60))
    by (Z.to_euclidean_division_equations; lia).
  cbn [app]. by rewrite <- !app_assoc.
Qed.

Lemma floor_days_div t : - 2 ^ 63 ≤ t < 2 ^ 63 → floor_days t = t / day_ticks.
Proof.
  intros Ht. unfold floor_days, day_ticks, den.
  rewrite i32_small by (Z.to_euclidean_division_equations; lia).
  destruct (Z.ltb_spec t (Z.quot t (86400 * 1000000000) * (86400 * 1000000000)));
    Z.to_euclidean_division_equations; lia.
Qed.

Lemma int64_ok z : - 2 ^ 63 ≤ z < 2 ^ 63 → int64 z = Ok z.
Proof. intros Hz. unfold int64. by rewrite (proj2 (Z.leb_le _ _)), (proj2 (Z.ltb_lt _ _)) by lia. Qed.

(** Years with four digits. *)
Lemma year_of_time x :
  date x → -106752 ≤ YearMonthDay.to_days x ≤ 106752 → 1000 ≤ YearMonthDay.year x ≤ 9999.
Proof.
  intros Hx Hd. destruct (Z.lt_ge_cases (YearMonthDay.year x) 1000) as [Hlt|Hge];
    [|destruct (Z.lt_ge_cases 9999 (YearMonthDay.year x)) as [Hlt|Hge']; [|lia]].
  - pose proof (to_days_lt x (YearMonthDay.mk 1000 1 1) Hx ltac:(by vm_compute)) as H.
    rewrite lt_cases in H. specialize (H (or_introl Hlt)). change (YearMonthDay.to_days (YearMonthDay.mk 1000 1 1)) with (-354285) in H. lia.
  - pose proof (to_days_lt (YearMonthDay.mk 9999 12 31) x ltac:(by vm_compute) Hx) as H.
    rewrite lt_cases in H. specialize (H (or_introl Hlt)). change (YearMonthDay.to_days (YearMonthDay.mk 9999 12 31)) with 2932896 in H. lia.
Qed.

Lemma show_date_text x : date x → 1000 ≤ YearMonthDay.year x ≤ 9999 → show_date x = date_text x.
Proof.
  intros Hx Hy. unfold show_date, date_text. rewrite (proj2 Hx). apply date_spec in Hx as (_ & Hm & Hd).
  pose proof (month_length_bound (YearMonthDay.year x) _ Hm).
  rewrite four_digits, !pad_fixed by (try lia; cbn; lia). by rewrite app_nil_r.
Qed.

(** The date of a time. *)
Lemma date_of_time t :
  - 2 ^ 63 ≤ t < 2 ^ 63 →
  ∃ x, date x ∧ YearMonthDay.to_days x = t / day_ticks ∧ 1000 ≤ YearMonthDay.year x ≤ 9999.
Proof.
  intros Ht. assert (-106752 ≤ t / day_ticks ≤ 106752) as Hd.
  { unfold day_ticks, den. Z.to_euclidean_division_equations. lia. }
  destruct (date_of_days (t / day_ticks)) as (x & Hx & Hxt).
  { change (YearMonthDay.to_days first_date) with (-12687428). change (YearMonthDay.to_days last_date) with 11248737. lia. }
  exists x. split; [done|]. split; [done|]. apply year_of_time; [done|lia].
Qed.

Lemma show_sys_time_text t x :
  showable t → date x → YearMonthDay.to_days x = t / day_ticks → 1000 ≤ YearMonthDay.year x ≤ 9999 →
  show_sys_time t = Ok (date_text x ++ " "%char :: tod_text (t mod day_ticks)).
Proof.
  unfold showable. intros Ht Hx Hxt Hy. assert (0 < day_ticks < 2 ^ 63) by done.
  pose proof (Z.mod_pos_bound t day_ticks ltac:(done)). pose proof (Z.div_mod t day_ticks ltac:(done)).
  unfold show_sys_time. rewrite floor_days_div by lia. rewrite <- Hxt, from_to_days by done.
  cbn [mbind outcome_bind]. rewrite Hxt, int64_ok by lia. cbn [mbind outcome_bind].
  replace (t - t / day_ticks * day_ticks) with (t mod day_ticks) by lia.
  rewrite int64_ok by lia. cbn [mbind outcome_bind]. by rewrite show_date_text, show_time_text.
Qed.

(** ** The order *)

Lemma text_lt_date x y s t :
  date x → date y → 1000 ≤ YearMonthDay.year x ≤ 9999 → 1000 ≤ YearMonthDay.year y ≤ 9999 →
  text_lt (date_text x ++ s) (date_text y ++ t) =
    YearMonthDay.lt x y || ((YearMonthDay.to_days x =? YearMonthDay.to_days y) && text_lt s t).
Proof.
  intros Hx Hy Yx Yy. assert (x = y ↔ YearMonthDay.to_days x = YearMonthDay.to_days y) as Hinj.
  { split; [by intros ->|]. intros He. pose proof (from_to_days x Hx) as H1. rewrite He, from_to_days in H1 by done. congruence. }
  apply date_spec in Hx as (_ & Hmx & Hdx), Hy as (_ & Hmy & Hdy).
  pose proof (month_length_bound (YearMonthDay.year x) _ Hmx). pose proof (month_length_bound (YearMonthDay.year y) _ Hmy).
  unfold date_text. rewrite <- !app_assoc. rewrite text_lt_fixed by (cbn; lia). rewrite <- !app_comm_cons, text_lt_cons.
  rewrite <- !app_assoc, text_lt_fixed by (cbn; lia). rewrite <- !app_comm_cons, text_lt_cons.
  rewrite text_lt_fixed by (cbn; lia).
  destruct (Z.eqb_spec (YearMonthDay.to_days x) (YearMonthDay.to_days y)) as [He|He].
  - apply Hinj in He as ->. unfold YearMonthDay.lt. by rewrite !Z.ltb_irrefl, !Z.eqb_refl.
  - rewrite orb_false_r. unfold YearMonthDay.lt. destruct x as [y1 m1 d1], y as [y2 m2 d2].
    cbn [YearMonthDay.year YearMonthDay.month YearMonthDay.day] in *.
    destruct (Z.ltb_spec y1 y2), (Z.eqb_spec y1 y2), (Z.ltb_spec y2 y1); try lia; cbn [orb andb]; try done.
    destruct (Z.ltb_spec m1 m2), (Z.eqb_spec m1 m2), (Z.ltb_spec m2 m1); try lia; cbn [orb andb]; try done.
    destruct (Z.ltb_spec d1 d2), (Z.eqb_spec d1 d2); try lia; cbn [orb andb]; try done.
    exfalso. apply He, Hinj. by subst.
Qed.

Lemma text_lt_tod a b : 0 ≤ a < day_ticks → 0 ≤ b < day_ticks → text_lt (tod_text a) (tod_text b) = (a <? b).
Proof.
  unfold day_ticks, tod_text, den. intros Ha Hb.
  rewrite text_lt_fixed by (cbn; Z.to_euclidean_division_equations; lia). rewrite text_lt_cons.
  rewrite text_lt_fixed by (cbn; Z.to_euclidean_division_equations; lia). rewrite text_lt_cons.
  rewrite text_lt_fixed by (cbn; Z.to_euclidean_division_equations; lia). rewrite text_lt_cons.
  rewrite <- (app_nil_r (fixed 9 (a mod _))), <- (app_nil_r (fixed 9 (b mod _))).
  rewrite text_lt_fixed by (cbn; Z.to_euclidean_division_equations; lia). cbn [text_lt]. rewrite andb_false_r, orb_false_r.
  apply eq_true_iff_eq. rewrite !orb_true_iff, !andb_true_iff, !orb_true_iff, !andb_true_iff, !Z.ltb_lt, !Z.eqb_eq.
  Z.to_euclidean_division_equations. lia.
Qed.

Lemma Ok_inj {A} (a b : A) : Ok a = Ok b → a = b.
Proof. congruence. Qed.

Lemma show_sys_time_lt t t' s s' :
  showable t → showable t' → show_sys_time t = Ok s → show_sys_time t' = Ok s' → text_lt s s' = (t <? t').
Proof.
  intros Ht Ht'. assert (0 < day_ticks) by done. pose proof Ht as Hr. pose proof Ht' as Hr'. unfold showable in Hr, Hr'.
  destruct (date_of_time t) as (x & Hx & Hxt & Hy); [lia|]. destruct (date_of_time t') as (x' & Hx' & Hxt' & Hy'); [lia|].
  rewrite (show_sys_time_text t x), (show_sys_time_text t' x') by done.
  intros Hs Hs'. apply Ok_inj in Hs as <-, Hs' as <-.
  rewrite text_lt_date, text_lt_cons by done. rewrite text_lt_tod by (by apply Z.mod_pos_bound).
  rewrite lt_to_days, Hxt, Hxt' by done.
  pose proof (Z.div_mod t day_ticks). pose proof (Z.div_mod t' day_ticks).
  pose proof (Z.mod_pos_bound t day_ticks). pose proof (Z.mod_pos_bound t' day_ticks).
  destruct (Z.ltb_spec (t / day_ticks) (t' / day_ticks)), (Z.eqb_spec (t / day_ticks) (t' / day_ticks)),
    (Z.ltb_spec (t mod day_ticks) (t' mod day_ticks)), (Z.ltb_spec t t'); cbn [orb andb]; try done; nia.
Qed.

(** C28: The text of a time.  Every time of the system clock but those of its first, broken
    day is written without overflow as [YYYY-MM-DD hh:mm:ss.nnnnnnnnn], always 29 characters
    long: the date of the calendar, then hours, minutes, seconds and nanoseconds of the day.
    And the order of two such texts, compared as strings, is the order of the times, so that
    different times have different texts. *)
Theorem time_text_ordered :
  (∀ t, showable t →
     ∃ x, YearMonthDay.from_days (t / day_ticks) = Ok x ∧ date x ∧
       show_sys_time t = Ok (date_text x ++ " "%char :: tod_text (t mod day_ticks)) ∧
       length (date_text x ++ " "%char :: tod_text (t mod day_ticks)) = 29%nat) ∧
  (∀ t t' s s', showable t → showable t' → show_sys_time t = Ok s → show_sys_time t' = Ok s' →
     text_lt s s' = (t <? t')).
Proof.
  split.
  - intros t Ht. destruct (date_of_time t) as (x & Hx & Hxt & Hy).
    { unfold showable in Ht. assert (0 < day_ticks) by done. lia. }
    exists x. split; [rewrite <- Hxt; by apply from_to_days|]. split; [done|].
    split; [by apply show_sys_time_text|]. unfold date_text, tod_text.
    repeat (rewrite length_app || rewrite fixed_length || cbn [length]). done.
  - exact show_sys_time_lt.
Qed.

Lemma show_sys_time_ok t : showable t → ∃ s, show_sys_time t = Ok s.
Proof.
  intros Ht. destruct (date_of_time t) as (x & Hx & Hxt & Hy).
  { unfold showable in Ht. assert (0 < day_ticks) by done. lia. }
  eexists. by apply (show_sys_time_text t x).
Qed.

(** The time of day is read back, and the hours of a clock with twelve of them. *)
Lemma time_duration_make n : 0 ≤ n < day_ticks →
  time_duration (make_time n) = n ∧ in_conventional_range (make_time n) = true.
Proof.
  intros Hn. rewrite make_time_parts by done. unfold time_duration, in_conventional_range, seconds_duration.
  cbn [neg_ h_ m_ seconds_ s_ sub_s_]. rewrite (proj2 widths). unfold day_ticks, den in *. split.
  - Z.to_euclidean_division_equations. lia.
  - rewrite !andb_true_iff, !Z.ltb_lt. split_and!; try done; Z.to_euclidean_division_equations; lia.
Qed.

Lemma make24_make12 h : 0 ≤ h < 24 → make24 (make12 h) (is_pm h) = h.
Proof.
  intros Hh.
  assert (forallb (λ h, make24 (make12 h) (is_pm h) =? h) (Z.of_nat <$> seq 0 24) = true) as Hall by done.
  rewrite forallb_forall in Hall. apply Z.eqb_eq, Hall, list_elem_of_In, list_elem_of_fmap.
  exists (Z.to_nat h). split; [lia|]. apply elem_of_seq. lia.
Qed.
