(* ===== verification/WebSockets.v ===== *)
(** The web socket servers of [src/third_party_examples/uwebsockets/src]: [trim.h],
    [broadcast_echo_server.cpp], [echo_server.cpp], [broadcast.cpp], [threaded_broadcast.cpp]
    and [threaded_multiple_broadcasters.cpp].

    What the handlers rely on of uWebSockets is the class [PubSub]: connections, topics, who
    receives what is published or sent.  The servers are written against the class, and
    [hub] is an instance.  The library drops a message for a connection with too much unsent
    data ([maxBackpressure]).  A call on a connection that was closed is undefined.

    The theorems: [trim] removes white space at both ends of every text that is not empty;
    each client of the broadcasting server receives what the others send while it is
    connected, in order; the threaded server echoes and broadcasts; each client of the time
    server receives the texts of the times at which the timer fires while it is connected;
    less what the library drops. *)
From Stdlib Require Import Sorted.
From S2P Require Import Prelude Text Calendar TimeText.
Local Open Scope Z_scope.
Local Open Scope list_scope.

(** ** [trim.h] *)

(** The first loop: what is left from [start]. *)
Fixpoint trim_start (s : text) : outcome text :=
  match s with
  | [] => Ok []
  | c :: s' => b ← isspace_char c; if (b : bool) then trim_start s' else Ok s
  end.

(** The second loop, with [end_] the distance from [start] after a decrement. *)
Fixpoint trim_end (end_ : nat) (r : text) : outcome nat :=
  match end_ with
  | O => Ok O
  | S e =>
      match r !! end_ with
      | Some c => b ← isspace_char c; if (b : bool) then trim_end e r else Ok end_
      | None => UB "out of range"
      end
  end.

(* @src third_party_examples/uwebsockets/src/trim.h 5-17 trim *)
Definition trim (s : text) : outcome text :=
  r ← trim_start s;
  match s, r with
  | [], _ => UB "decrement of begin()"
  | _, [] => Ok []
  | _, _ => e ← trim_end (length r - 1) r; Ok (take (S e) r)
  end.

Lemma trim_start_spec s : plain s → trim_start s = Ok (skip_space s).
Proof.
  induction 1 as [|c s Hc Hs IH]; [done|]. cbn [trim_start skip_space]. rewrite isspace_plain by done. cbn.
  by destruct (isspace c).
Qed.

(** Without white space at its end. *)
Definition rtrim (s : text) : text := reverse (skip_space (reverse s)).

Lemma rtrim_snoc s d : rtrim (s ++ [d]) = if isspace d then rtrim s else s ++ [d].
Proof.
  unfold rtrim. rewrite reverse_snoc. cbn [skip_space]. destruct (isspace d); [done|].
  by rewrite reverse_cons, reverse_involutive.
Qed.

Lemma trim_end_spec r c k :
  plain (c :: r) → isspace c = false → (k < length (c :: r))%nat →
  ∃ e, trim_end k (c :: r) = Ok e ∧ take (S e) (c :: r) = rtrim (take (S k) (c :: r)).
Proof.
  intros Hp Hc. induction k as [|k IH]; intros Hk.
  - exists O. split; [done|]. change (take 1 (c :: r)) with ([] ++ [c]). by rewrite rtrim_snoc, Hc.
  - destruct (lookup_lt_is_Some_2 _ _ Hk) as [d Hd]. cbn [trim_end]. rewrite Hd.
    rewrite (isspace_plain d) by exact (Forall_lookup_1 _ _ _ _ Hp Hd). cbn [mbind outcome_bind].
    rewrite (take_S_r (c :: r) (S k) d Hd), rtrim_snoc. destruct (isspace d).
    + apply IH. lia.
    + exists (S k). split; [done|]. exact (take_S_r (c :: r) (S k) d Hd).
Qed.

Lemma skip_space_suffix s : ∃ a, s = a ++ skip_space s ∧ Forall (λ c, isspace c = true) a.
Proof.
  induction s as [|c s (a & Hs & Ha)]; [by exists []|]. cbn [skip_space]. destruct (isspace c) eqn:E; [|by exists []].
  exists (c :: a). split; [cbn; by rewrite <- Hs|by constructor].
Qed.

Lemma skip_space_head s c r : skip_space s = c :: r → isspace c = false.
Proof. induction s as [|d s IH]; [done|]. cbn. destruct (isspace d) eqn:E; [done|]. by intros [= <- _]. Qed.

Lemma trim_correct s : plain s → s ≠ [] → trim s = Ok (rtrim (skip_space s)).
Proof.
  intros Hp Hne. unfold trim. rewrite trim_start_spec by done. cbn [mbind outcome_bind].
  destruct s as [|c s]; [done|]. destruct (skip_space (c :: s)) as [|d r] eqn:E; [done|].
  assert (plain (d :: r)) as Hd.
  { destruct (skip_space_suffix (c :: s)) as (a & Ha & _). rewrite E in Ha. rewrite Ha in Hp.
    by apply Forall_app in Hp as [_ ?]. }
  destruct (trim_end_spec r d (length (d :: r) - 1) Hd (skip_space_head _ _ _ E)) as (e & He & Ht); [cbn; lia|].
  rewrite He. cbn [mbind outcome_bind]. rewrite Ht. cbn [length]. rewrite take_ge by (cbn; lia). done.
Qed.

(** [trim] of a text that is not empty, of characters on which [isspace] is defined, gives
    the text without the white space at its beginning and its end: what is cut off is white
    space, and what is left neither begins nor ends with it.  Of the empty text it is
    undefined, as the iterator is decremented below the beginning. *)
Theorem trim_cuts_space (s : text) :
  (∃ w, trim [] = UB w) ∧
  (plain s → s ≠ [] → ∃ a t b, s = a ++ t ++ b ∧ trim s = Ok t ∧
     Forall (λ c, isspace c = true) (a ++ b) ∧
     (∀ c, head t = Some c ∨ last t = Some c → isspace c = false)).
Proof.
  split; [by eexists|]. intros Hp Hne. rewrite trim_correct by done.
  destruct (skip_space_suffix s) as (a & Hs & Ha). set (m := skip_space s) in *.
  destruct (skip_space_suffix (reverse m)) as (b & Hm & Hb).
  exists a, (rtrim m), (reverse b). split.
  { unfold rtrim. rewrite <- reverse_app, <- Hm, reverse_involutive. done. }
  split; [done|]. split; [apply Forall_app; split; [done|by apply Forall_reverse]|].
  intros c [Hc|Hc].
  - assert (head m = Some c) as Hh.
    { unfold rtrim in Hc. rewrite <- (reverse_involutive m), Hm, reverse_app. by destruct (reverse (skip_space (reverse m))). }
    destruct m as [|d r] eqn:E; [done|]. injection Hh as ->. by eapply (skip_space_head s).
  - unfold rtrim in Hc. rewrite last_reverse in Hc. destruct (skip_space (reverse m)) as [|d r] eqn:E; [done|].
    injection Hc as ->. by eapply skip_space_head.
Qed.

Lemma trim_cuts_space_witness :
  trim (txt "  closedown ") = Ok (txt "closedown") ∧
  ∃ a t b, txt "  closedown " = a ++ t ++ b ∧ trim (txt "  closedown ") = Ok t ∧
     Forall (λ c, isspace c = true) (a ++ b) ∧
     (∀ c, head t = Some c ∨ last t = Some c → isspace c = false).
Proof.
  split; [reflexivity|]. apply (proj2 (trim_cuts_space (txt "  closedown "))); [|done].
  repeat constructor; left; reflexivity.
Defined.

(** ** What the servers rely on *)

Inductive OpCode := TEXT | BINARY.
Abbreviation payload := (OpCode * text)%type.

(** Connections are numbered; [H] is the library's state.  [publish] from a connection, or
    ([None]) from the application.  [full h v p]: connection [v] has so much data unsent that
    [p] is dropped, which the library decides by [maxBackpressure]; [drain]: the network takes
    some of it. *)
Class PubSub (H : Type) := {
  is_open : H → nat → bool;
  subscribed : H → nat → text → bool;
  received : H → nat → list payload;
  full : H → nat → payload → bool;
  connect : nat → H → H;
  subscribe : nat → text → H → H;
  publish : option nat → text → payload → H → H;
  send : nat → payload → H → H;
  close : nat → H → H;
  drain : nat → H → H }.

(** The documented behaviour: a connection starts without topics and loses them when it is
    closed; what is published reaches the open subscribers but the publisher itself, if they
    are not [full].  Nothing is said of when they are. *)
Class PubSubLaws (H : Type) `{PubSub H} := {
  connect_open w h v : is_open (connect w h) v = is_open h v || (v =? w)%nat;
  connect_subscribed w h v t : subscribed (connect w h) v t = subscribed h v t && negb (v =? w)%nat;
  connect_received w h v : received (connect w h) v = received h v;
  subscribe_open w t h v : is_open (subscribe w t h) v = is_open h v;
  subscribe_subscribed w t h v t' :
    subscribed (subscribe w t h) v t' = subscribed h v t' || ((v =? w)%nat && bool_decide (t' = t));
  subscribe_received w t h v : received (subscribe w t h) v = received h v;
  publish_open w t p h v : is_open (publish w t p h) v = is_open h v;
  publish_subscribed w t p h v t' : subscribed (publish w t p h) v t' = subscribed h v t';
  publish_received w t p h v :
    received (publish w t p h) v =
    received h v ++
      (if is_open h v && subscribed h v t && negb (bool_decide (w = Some v)) && negb (full h v p) then [p] else []);
  send_open w p h v : is_open (send w p h) v = is_open h v;
  send_subscribed w p h v t : subscribed (send w p h) v t = subscribed h v t;
  send_received w p h v :
    received (send w p h) v =
    received h v ++ (if is_open h v && (v =? w)%nat && negb (full h v p) then [p] else []);
  close_open w h v : is_open (close w h) v = is_open h v && negb (v =? w)%nat;
  close_subscribed w h v t : subscribed (close w h) v t = subscribed h v t && negb (v =? w)%nat;
  close_received w h v : received (close w h) v = received h v;
  drain_open w h v : is_open (drain w h) v = is_open h v;
  drain_subscribed w h v t : subscribed (drain w h) v t = subscribed h v t;
  drain_received w h v : received (drain w h) v = received h v }.

Create Rewrite HintDb pubsub.
#[global] Hint Rewrite @connect_open @connect_subscribed @connect_received @subscribe_open @subscribe_subscribed
  @subscribe_received @publish_open @publish_subscribed @publish_received @send_open @send_subscribed
  @send_received @close_open @close_subscribed @close_received @drain_open @drain_subscribed @drain_received using typeclasses eauto : pubsub.

(** ** The servers *)
Section servers.
Context {H : Type} `{PubSub H}.

(** Whether the server still listens, and the library's state. *)
Record server := mkServer { listening : bool; hub_of : H }.

(** Calls on a connection that is closed are undefined. *)
Definition on_ws (w : nat) (f : H → H) (s : server) : outcome server :=
  if is_open (hub_of s) w then Ok (mkServer (listening s) (f (hub_of s))) else UB "use of a closed web socket".

Definition closedown : text := txt "closedown".
Definition topic : text := txt "broadcast".

(* @src third_party_examples/uwebsockets/src/broadcast_echo_server.cpp 19-24 main *)
Definition broadcast_echo_open (w : nat) : server → outcome server := on_ws w (subscribe w topic).

(* @src third_party_examples/uwebsockets/src/broadcast_echo_server.cpp 25-37 main *)
(** There is no [else]: a message that closes is published as well. *)
Definition broadcast_echo_message (w : nat) (message : text) (opCode : OpCode) (s : server) : outcome server :=
  t ← trim message;
  s ← (if bool_decide (t = closedown) then on_ws w (close w) (mkServer false (hub_of s)) else Ok s);
  on_ws w (publish (Some w) topic (opCode, message)) s.

(* @src third_party_examples/uwebsockets/src/echo_server.cpp 33-38 main *)
(** The connection subscribes when it sends; the text is also printed. *)
Definition echo_message (w : nat) (message : text) (opCode : OpCode) (s : server) : outcome (server * text) :=
  s ← on_ws w (subscribe w (txt "echo")) s;
  s ← on_ws w (publish (Some w) (txt "echo") (BINARY, message)) s;
  Ok (s, txt "received: " ++ message ++ txt nl).

(* @src third_party_examples/uwebsockets/src/threaded_broadcast.cpp 79-79 ThreadedBroadcaster::work *)
Definition threaded_open (w : nat) : server → outcome server := on_ws w (subscribe w topic).

(* @src third_party_examples/uwebsockets/src/threaded_broadcast.cpp 80-92 ThreadedBroadcaster::work *)
Definition threaded_message (w : nat) (message : text) (opCode : OpCode) (s : server) : outcome server :=
  t ← trim message;
  if bool_decide (t = closedown) then on_ws w (close w) (mkServer false (hub_of s))
  else on_ws w (send w (opCode, message)) s.

(** A function deferred to the loop publishes for the application. *)
Definition app_publish (t : text) (p : payload) (s : server) : outcome server :=
  Ok (mkServer (listening s) (publish None t p (hub_of s))).

(* @src third_party_examples/uwebsockets/src/broadcast.cpp 37-42 main *)
Definition broadcast_open (w : nat) : server → outcome server := on_ws w (subscribe w topic).

(* @src third_party_examples/uwebsockets/src/broadcast.cpp 43-46 main *)
Definition broadcast_message (w : nat) (message : text) (opCode : OpCode) (s : server) : outcome server := Ok s.

(* @src third_party_examples/uwebsockets/src/broadcast.cpp 73-81 main *)
(** [now] is the time of the system clock. *)
Definition timer_fires (now : Z) (s : server) : outcome server :=
  t ← show_sys_time now;
  app_publish topic (BINARY, t) s.

(** The text of a time that can be written. *)
Definition time_text (now : Z) : text := match show_sys_time now with Ok t => t | _ => [] end.

Lemma show_time_text_ok now : showable now → show_sys_time now = Ok (time_text now).
Proof. intros Hn. unfold time_text. by destruct (show_sys_time_ok now Hn) as [t ->]. Qed.

(** What happens to a server. *)
Inductive event := Connects (w : nat) | Sends (w : nat) (opCode : OpCode) (message : text) | Leaves (w : nat)
  | Publishes (p : payload) | Drains (w : nat).

(** A server by its handlers of open connections and of messages. *)
Definition handle (open_ : nat → server → outcome server)
    (message_ : nat → text → OpCode → server → outcome server) (e : event) (s : server) : outcome server :=
  match e with
  | Connects w => open_ w (mkServer (listening s) (connect w (hub_of s)))
  | Sends w op m => message_ w m op s
  | Leaves w => Ok (mkServer (listening s) (close w (hub_of s)))
  | Publishes p => app_publish topic p s
  | Drains w => Ok (mkServer (listening s) (drain w (hub_of s)))
  end.

Fixpoint handle_all (f : event → server → outcome server) (es : list event) (s : server) : outcome server :=
  match es with [] => Ok s | e :: es => s ← f e s; handle_all f es s end.

(** Client [v] is never so far behind that a message to it is dropped. *)
Fixpoint keeps_up {E} (v : nat) (f : E → server → outcome server) (es : list E) (s : server) : Prop :=
  match es with
  | [] => True
  | e :: es => (∀ p, full (hub_of s) v p = false) ∧ ∀ s', f e s = Ok s' → keeps_up v f es s'
  end.

Definition broadcast_echo_server : list event → server → outcome server :=
  handle_all (handle broadcast_echo_open broadcast_echo_message).
Definition threaded_server : list event → server → outcome server :=
  handle_all (handle threaded_open threaded_message).
End servers.
Arguments server : clear implicits.

(** ** What a client hears *)

(** Events that the library can give to the server from the set [on] of open connections:
    connections are opened once; messages are texts that [trim] is defined on and that do not
    close the server. *)
Definition ordinary (m : text) : Prop := plain m ∧ m ≠ [] ∧ trim m ≠ Ok closedown.
Fixpoint proper (on : list nat) (es : list event) : Prop :=
  match es with
  | [] => True
  | Connects w :: es => w ∉ on ∧ proper (w :: on) es
  | Sends w _ m :: es => w ∈ on ∧ ordinary m ∧ proper on es
  | Leaves w :: es => w ∈ on ∧ proper (filter (λ v, v ≠ w) on) es
  | Publishes _ :: es | Drains _ :: es => proper on es
  end.

(** What client [v] hears when [hears w] says whether it hears what [w] sends; [on] is whether
    it is connected. *)
Fixpoint heard (hears : nat → bool) (v : nat) (on : bool) (es : list event) : list payload :=
  match es with
  | [] => []
  | Connects w :: es => heard hears v (on || (v =? w)%nat) es
  | Sends w op m :: es => (if on && hears w then [(op, m)] else []) ++ heard hears v on es
  | Leaves w :: es => heard hears v (on && negb (v =? w)%nat) es
  | Publishes p :: es => (if on then [p] else []) ++ heard hears v on es
  | Drains _ :: es => heard hears v on es
  end.

(** [l] is what [v] receives of [all]: a part in the order of [all], or all of it if [up]. *)
Definition hears_of {A} (up : Prop) (l all : list A) : Prop := l `sublist_of` all ∧ (up → l = all).

Lemma hears_of_app {A} (up1 up2 up : Prop) (l1 l2 all1 all2 : list A) :
  hears_of up1 l1 all1 → hears_of up2 l2 all2 → (up → up1 ∧ up2) → hears_of up (l1 ++ l2) (all1 ++ all2).
Proof.
  intros [? E1] [? E2] Hup. split; [by apply sublist_app|]. intros Hu. destruct (Hup Hu) as [H1 H2]. by rewrite E1, E2.
Qed.

Lemma hears_of_refl {A} (up : Prop) (l : list A) : hears_of up l l.
Proof. by split. Qed.

Lemma hears_of_full {A} (up : Prop) (b full : bool) (p : A) :
  (up → full = false) → hears_of up (if b && negb full then [p] else []) (if b then [p] else []).
Proof.
  intros Hf. destruct b, full; cbn; split; try done.
  - apply sublist_nil_l.
  - by intros Hu%Hf.
Qed.

Section heard.
Context {H : Type} `{PubSub H, !PubSubLaws H}.
Implicit Types (s : server H) (on : list nat).

(** The open connections are those of [on], all subscribed. *)
Definition agrees on s : Prop :=
  ∀ v, is_open (hub_of s) v = bool_decide (v ∈ on) ∧ subscribed (hub_of s) v topic = bool_decide (v ∈ on).

Lemma agrees_open on s w : agrees on s → w ∈ on → is_open (hub_of s) w = true.
Proof. intros Ha Hw. destruct (Ha w) as [-> _]. by apply bool_decide_true. Qed.

Lemma agrees_ext on on' s : (∀ v, v ∈ on ↔ v ∈ on') → agrees on s → agrees on' s.
Proof. intros Hv Ha v. destruct (Ha v) as [-> ->]. split; apply bool_decide_ext, Hv. Qed.

Lemma eqb_bool_decide (v w : nat) : (v =? w)%nat = bool_decide (v = w).
Proof. destruct (Nat.eqb_spec v w); [by rewrite bool_decide_true|by rewrite bool_decide_false]. Qed.

Section server.
Context (message_ : nat → text → OpCode → server H → outcome (server H)) (hears : nat → nat → bool).
Hypothesis message_heard : ∀ w m op s on, agrees on s → w ∈ on → ordinary m →
  ∃ s', message_ w m op s = Ok s' ∧ agrees on s' ∧
    ∀ v, received (hub_of s') v = received (hub_of s) v ++
      (if bool_decide (v ∈ on) && hears v w && negb (full (hub_of s) v (op, m)) then [(op, m)] else []).

(** A connection is opened and subscribed. *)
Lemma connects_agrees w on s : agrees on s → w ∉ on →
  ∃ s', handle threaded_open message_ (Connects w) s = Ok s' ∧ agrees (w :: on) s' ∧
    ∀ v, received (hub_of s') v = received (hub_of s) v.
Proof.
  intros Ha Hw. cbn [handle]. unfold threaded_open, on_ws. cbn [hub_of].
  rewrite connect_open, Nat.eqb_refl, orb_true_r. eexists. split; [done|]. cbn [hub_of]. split.
  - intros v. cbn [hub_of]. autorewrite with pubsub. destruct (Ha v) as [-> ->]. rewrite eqb_bool_decide.
    rewrite (bool_decide_true (topic = topic)), andb_true_r by done.
    split; apply eq_bool_prop_intro; rewrite ?orb_True, ?andb_True, ?negb_True, !bool_decide_spec, elem_of_cons.
    + tauto.
    + destruct (decide (v = w)) as [->|]; tauto.
  - intros v. by autorewrite with pubsub.
Qed.

Lemma leaves_agrees w on s : agrees on s →
  ∃ s', handle threaded_open message_ (Leaves w) s = Ok s' ∧ agrees (filter (λ v, v ≠ w) on) s' ∧
    ∀ v, received (hub_of s') v = received (hub_of s) v.
Proof.
  intros Ha. eexists. split; [done|]. cbn [hub_of]. split.
  - intros v. cbn [hub_of]. autorewrite with pubsub. destruct (Ha v) as [-> ->]. rewrite eqb_bool_decide.
    split; apply eq_bool_prop_intro; rewrite ?andb_True, ?negb_True, !bool_decide_spec, list_elem_of_filter; tauto.
  - intros v. by autorewrite with pubsub.
Qed.

Lemma publishes_agrees p on s : agrees on s →
  ∃ s', handle threaded_open message_ (Publishes p) s = Ok s' ∧ agrees on s' ∧
    ∀ v, received (hub_of s') v = received (hub_of s) v ++
      (if bool_decide (v ∈ on) && negb (full (hub_of s) v p) then [p] else []).
Proof.
  intros Ha. eexists. split; [done|]. cbn [hub_of]. split.
  - intros v. cbn [hub_of]. autorewrite with pubsub. apply Ha.
  - intros v. cbn [hub_of]. autorewrite with pubsub. destruct (Ha v) as [-> ->]. by rewrite andb_diag, andb_true_r.
Qed.

Lemma drains_agrees w on s : agrees on s →
  ∃ s', handle threaded_open message_ (Drains w) s = Ok s' ∧ agrees on s' ∧
    ∀ v, received (hub_of s') v = received (hub_of s) v.
Proof.
  intros Ha. eexists. split; [done|]. cbn [hub_of].
  split; intros v; cbn [hub_of]; autorewrite with pubsub; [apply Ha|done].
Qed.

(** One event. *)
Lemma handle_heard e es on s : agrees on s → proper on (e :: es) →
  ∃ on' s' d all, handle threaded_open message_ e s = Ok s' ∧ agrees on' s' ∧ proper on' es ∧
    ∀ v, received (hub_of s') v = received (hub_of s) v ++ d v ∧
      hears_of (∀ p, full (hub_of s) v p = false) (d v) (all v) ∧
      heard (hears v) v (bool_decide (v ∈ on)) (e :: es) = all v ++ heard (hears v) v (bool_decide (v ∈ on')) es.
Proof.
  intros Ha Hp. destruct e as [w|w op m|w|p|w]; cbn [proper heard] in *.
  - destruct Hp as [Hw Hp]. destruct (connects_agrees w on s Ha Hw) as (s1 & E & Ha1 & Hr).
    exists (w :: on), s1, (λ _, []), (λ _, []). split_and!; [done..|]. intros v.
    split; [by rewrite app_nil_r|]. split; [apply hears_of_refl|].
    cbn [app]. f_equal. rewrite eqb_bool_decide. apply eq_bool_prop_intro.
    rewrite orb_True, !bool_decide_spec, elem_of_cons. tauto.
  - destruct Hp as (Hw & Hm & Hp). destruct (message_heard w m op s on Ha Hw Hm) as (s1 & E & Ha1 & Hr).
    eexists on, s1, _, _. split_and!; [done..|]. intros v. split; [apply Hr|]. split; [|done].
    apply hears_of_full. auto.
  - destruct Hp as [Hw Hp]. destruct (leaves_agrees w on s Ha) as (s1 & E & Ha1 & Hr).
    exists (filter (λ v, v ≠ w) on), s1, (λ _, []), (λ _, []). split_and!; [done..|]. intros v.
    split; [by rewrite app_nil_r|]. split; [apply hears_of_refl|]. cbn [app]. f_equal. rewrite eqb_bool_decide.
    apply eq_bool_prop_intro. rewrite andb_True, negb_True, !bool_decide_spec, list_elem_of_filter. tauto.
  - destruct (publishes_agrees p on s Ha) as (s1 & E & Ha1 & Hr).
    eexists on, s1, _, _. split_and!; [done..|]. intros v. split; [apply Hr|]. split; [|done].
    apply hears_of_full. auto.
  - destruct (drains_agrees w on s Ha) as (s1 & E & Ha1 & Hr).
    exists on, s1, (λ _, []), (λ _, []). split_and!; [done..|]. intros v.
    split; [by rewrite app_nil_r|]. split; [apply hears_of_refl|done].
Qed.

Lemma handle_all_heard es on s : agrees on s → proper on es →
  ∃ s', handle_all (handle threaded_open message_) es s = Ok s' ∧
    ∀ v, ∃ l, received (hub_of s') v = received (hub_of s) v ++ l ∧
      hears_of (keeps_up v (handle threaded_open message_) es s) l (heard (hears v) v (bool_decide (v ∈ on)) es).
Proof.
  revert on s. induction es as [|e es IH]; intros on s Ha Hp.
  { exists s. split; [done|]. intros v. exists []. split; [by rewrite app_nil_r|apply hears_of_refl]. }
  destruct (handle_heard e es on s Ha Hp) as (on' & s1 & d & all & E & Ha1 & Hp1 & Hv).
  destruct (IH on' s1 Ha1 Hp1) as (s' & E' & Hr'). exists s'. split; [cbn [handle_all]; by rewrite E|].
  intros v. destruct (Hv v) as (Hr & Hd & Hh), (Hr' v) as (l & Hl & Hrest). exists (d v ++ l).
  split; [by rewrite Hl, Hr, app_assoc|]. rewrite Hh. eapply hears_of_app; [done..|].
  cbn [keeps_up]. intros [Hup Hrun]. split; [exact Hup|by apply Hrun].
Qed.
End server.

Lemma ordinary_trim m : ordinary m → ∃ t, trim m = Ok t ∧ bool_decide (t = closedown) = false.
Proof.
  intros (Hp & Hne & Hc). rewrite trim_correct in * by done. eexists. split; [done|].
  apply bool_decide_false. congruence.
Qed.

Lemma broadcast_echo_message_heard w m op s on : agrees on s → w ∈ on → ordinary m →
  ∃ s', broadcast_echo_message w m op s = Ok s' ∧ agrees on s' ∧
    ∀ v, received (hub_of s') v =
      received (hub_of s) v ++
      (if bool_decide (v ∈ on) && negb (v =? w)%nat && negb (full (hub_of s) v (op, m)) then [(op, m)] else []).
Proof.
  intros Ha Hw Hm. destruct (ordinary_trim m Hm) as (t & Ht & Hc). unfold broadcast_echo_message, on_ws.
  rewrite Ht. cbn [mbind outcome_bind]. rewrite Hc. cbn [mbind outcome_bind]. rewrite (agrees_open on) by done.
  eexists. split; [done|]. split; intros v; cbn [hub_of]; autorewrite with pubsub; [apply Ha|].
  destruct (Ha v) as [-> ->]. rewrite andb_diag, eqb_bool_decide.
  by rewrite (bool_decide_ext (Some w = Some v) (v = w)) by (split; congruence).
Qed.

Lemma threaded_message_heard w m op s on : agrees on s → w ∈ on → ordinary m →
  ∃ s', threaded_message w m op s = Ok s' ∧ agrees on s' ∧
    ∀ v, received (hub_of s') v =
      received (hub_of s) v ++
      (if bool_decide (v ∈ on) && (v =? w)%nat && negb (full (hub_of s) v (op, m)) then [(op, m)] else []).
Proof.
  intros Ha Hw Hm. destruct (ordinary_trim m Hm) as (t & Ht & Hc). unfold threaded_message, on_ws.
  rewrite Ht. cbn [mbind outcome_bind]. rewrite Hc, (agrees_open on) by done.
  eexists. split; [done|]. split; intros v; cbn [hub_of]; autorewrite with pubsub; [apply Ha|].
  by destruct (Ha v) as [-> _].
Qed.

(** A message that closes the server: the threaded server closes the connection; the
    broadcasting server goes on to publish through the connection it has closed. *)
Lemma closedown_messages w m op s :
  is_open (hub_of s) w = true → trim m = Ok closedown →
  threaded_message w m op s = Ok (mkServer false (close w (hub_of s))) ∧
  broadcast_echo_message w m op s = UB "use of a closed web socket".
Proof.
  intros Hw Ht. unfold threaded_message, broadcast_echo_message. rewrite Ht. cbn [mbind outcome_bind].
  rewrite bool_decide_true by done. unfold on_ws. cbn [hub_of]. rewrite Hw. split; [done|].
  cbn [mbind outcome_bind hub_of]. by rewrite close_open, Nat.eqb_refl, andb_false_r.
Qed.

(** The echo server does not send a message back to its sender. *)
Lemma echo_not_to_sender w m op s s' out :
  echo_message w m op s = Ok (s', out) → received (hub_of s') w = received (hub_of s) w.
Proof.
  unfold echo_message, on_ws. destruct (is_open (hub_of s) w) eqn:Ho; [|done]. cbn [mbind outcome_bind hub_of].
  rewrite subscribe_open, Ho. intros [= <- <-]. cbn [hub_of]. autorewrite with pubsub.
  by rewrite (bool_decide_true (Some w = Some w)), andb_false_r, andb_false_l, app_nil_r.
Qed.

(** C27: Over any library with the behaviour of [PubSubLaws], for any events in which a
    connection is opened once, only open connections send, and every message sent consists of
    characters on which [isspace] is defined (codes below 128, or 255), is not empty and is not,
    apart from white space around it, the word that closes the server: no handler does
    anything undefined.  A client of the broadcasting server receives, in that order, what the
    other clients send and the application publishes while it is connected, and nothing else;
    a client of the threaded server its own messages as echoes and what is published.  Only
    what the library drops because too much is unsent to that client is missing: a client
    that keeps up receives all of it. *)
Theorem web_socket_clients_hear (h : H) (es : list event) :
  (∀ v, is_open h v = false ∧ subscribed h v topic = false) → proper [] es →
  (∃ s, broadcast_echo_server es (mkServer true h) = Ok s ∧
     ∀ v, ∃ l, received (hub_of s) v = received h v ++ l ∧
       hears_of (keeps_up v (handle broadcast_echo_open broadcast_echo_message) es (mkServer true h))
         l (heard (λ w, negb (v =? w)%nat) v false es)) ∧
  (∃ s, threaded_server es (mkServer true h) = Ok s ∧
     ∀ v, ∃ l, received (hub_of s) v = received h v ++ l ∧
       hears_of (keeps_up v (handle threaded_open threaded_message) es (mkServer true h))
         l (heard (λ w, (v =? w)%nat) v false es)).
Proof.
  intros Hh Hp. assert (agrees [] (mkServer true h)) as Ha.
  { intros v. destruct (Hh v) as [E1 E2]. cbn [hub_of]. by rewrite E1, E2. }
  split.
  - exact (handle_all_heard _ (λ v w, negb (v =? w)%nat) broadcast_echo_message_heard es [] _ Ha Hp).
  - exact (handle_all_heard _ (λ v w, (v =? w)%nat) threaded_message_heard es [] _ Ha Hp).
Qed.

(** ** The server that broadcasts the time *)

Inductive clock_event := ClientConnects (w : nat) | ClientSends (w : nat) (opCode : OpCode) (message : text)
  | ClientLeaves (w : nat) | ClientDrains (w : nat) | TimerFires (now : Z).

Definition clock_handle (e : clock_event) : server H → outcome (server H) :=
  match e with
  | ClientConnects w => handle broadcast_open broadcast_message (Connects w)
  | ClientSends w op m => handle broadcast_open broadcast_message (Sends w op m)
  | ClientLeaves w => handle broadcast_open broadcast_message (Leaves w)
  | ClientDrains w => handle broadcast_open broadcast_message (Drains w)
  | TimerFires now => timer_fires now
  end.
Fixpoint clock_server (es : list clock_event) (s : server H) : outcome (server H) :=
  match es with [] => Ok s | e :: es => s ← clock_handle e s; clock_server es s end.

(** From the open connections [on] and the time [last], connections are opened once and the
    clock does not go back. *)
Fixpoint clock_proper (on : list nat) (last : Z) (es : list clock_event) : Prop :=
  match es with
  | [] => True
  | ClientConnects w :: es => w ∉ on ∧ clock_proper (w :: on) last es
  | ClientSends w _ _ :: es => w ∈ on ∧ clock_proper on last es
  | ClientLeaves w :: es => w ∈ on ∧ clock_proper (filter (λ v, v ≠ w) on) last es
  | ClientDrains w :: es => clock_proper on last es
  | TimerFires now :: es => last ≤ now ∧ showable now ∧ clock_proper on now es
  end.

(** The times at which the timer fires while client [v] is connected. *)
Fixpoint times_seen (v : nat) (on : bool) (es : list clock_event) : list Z :=
  match es with
  | [] => []
  | ClientConnects w :: es => times_seen v (on || (v =? w)%nat) es
  | ClientSends _ _ _ :: es | ClientDrains _ :: es => times_seen v on es
  | ClientLeaves w :: es => times_seen v (on && negb (v =? w)%nat) es
  | TimerFires now :: es => (if on then [now] else []) ++ times_seen v on es
  end.

Lemma clock_step e s on last es :
  agrees on s → clock_proper on last (e :: es) →
  ∃ on' last' s' d all, clock_handle e s = Ok s' ∧ agrees on' s' ∧ clock_proper on' last' es ∧ last ≤ last' ∧
    ∀ v, received (hub_of s') v = received (hub_of s) v ++ ((λ now, (BINARY, time_text now)) <$> d v) ∧
      hears_of (∀ p, full (hub_of s) v p = false) (d v) (all v) ∧
      times_seen v (bool_decide (v ∈ on)) (e :: es) = all v ++ times_seen v (bool_decide (v ∈ on')) es.
Proof.
  intros Ha Hp. destruct e as [w|w op m|w|w|now]; cbn [clock_proper times_seen clock_handle] in *.
  - destruct Hp as [Hw Hp]. destruct (connects_agrees broadcast_message w on s Ha Hw) as (s1 & E & Ha1 & Hr).
    exists (w :: on), last, s1, (λ _, []), (λ _, []). split_and!; [exact E|done..|]. intros v.
    split; [by rewrite app_nil_r|]. split; [apply hears_of_refl|]. cbn [app]. f_equal. rewrite eqb_bool_decide.
    apply eq_bool_prop_intro. rewrite orb_True, !bool_decide_spec, elem_of_cons. tauto.
  - destruct Hp as [Hw Hp]. exists on, last, s, (λ _, []), (λ _, []). split_and!; [done..|]. intros v.
    split; [by rewrite app_nil_r|]. split; [apply hears_of_refl|done].
  - destruct Hp as [Hw Hp]. destruct (leaves_agrees broadcast_message w on s Ha) as (s1 & E & Ha1 & Hr).
    exists (filter (λ v, v ≠ w) on), last, s1, (λ _, []), (λ _, []). split_and!; [exact E|done..|]. intros v.
    split; [by rewrite app_nil_r|]. split; [apply hears_of_refl|]. cbn [app]. f_equal. rewrite eqb_bool_decide.
    apply eq_bool_prop_intro. rewrite andb_True, negb_True, !bool_decide_spec, list_elem_of_filter. tauto.
  - destruct (drains_agrees broadcast_message w on s Ha) as (s1 & E & Ha1 & Hr).
    exists on, last, s1, (λ _, []), (λ _, []). split_and!; [exact E|done..|]. intros v.
    split; [by rewrite app_nil_r|]. split; [apply hears_of_refl|done].
  - destruct Hp as (Hlast & Hnow & Hp).
    destruct (publishes_agrees broadcast_message (BINARY, time_text now) on s Ha) as (s1 & E & Ha1 & Hr).
    eexists on, now, s1, (λ v, if bool_decide (v ∈ on) && negb (full (hub_of s) v (BINARY, time_text now)) then [now] else []), _.
    split_and!; [|done..|].
    + unfold timer_fires. by rewrite (show_time_text_ok now Hnow).
    + intros v. rewrite Hr. split; [by destruct (bool_decide (v ∈ on) && _)|]. split; [|done].
      apply hears_of_full. auto.
Qed.

Lemma clock_server_heard es on last s :
  agrees on s → clock_proper on last es →
  ∃ s', clock_server es s = Ok s' ∧
    ∀ v, ∃ ts, received (hub_of s') v = received (hub_of s) v ++ ((λ now, (BINARY, time_text now)) <$> ts) ∧
      hears_of (keeps_up v clock_handle es s) ts (times_seen v (bool_decide (v ∈ on)) es).
Proof.
  revert on last s. induction es as [|e es IH]; intros on last s Ha Hp.
  { exists s. split; [done|]. intros v. exists []. split; [by rewrite app_nil_r|apply hears_of_refl]. }
  destruct (clock_step e s on last es Ha Hp) as (on' & last' & s1 & d & all & E & Ha1 & Hp1 & _ & Hv).
  destruct (IH on' last' s1 Ha1 Hp1) as (s' & E' & Hr'). exists s'. split; [cbn [clock_server]; by rewrite E|].
  intros v. destruct (Hv v) as (Hr & Hd & Ht), (Hr' v) as (ts & Hts & Hrest). exists (d v ++ ts).
  split; [by rewrite Hts, Hr, fmap_app, app_assoc|]. rewrite Ht. eapply hears_of_app; [done..|].
  cbn [keeps_up]. intros [Hup Hrun]. split; [exact Hup|by apply Hrun].
Qed.

(** The times are in order, and can be written. *)
Lemma times_seen_sorted v on bs last es :
  clock_proper on last es → StronglySorted Z.le (last :: times_seen v bs es) ∧ Forall showable (times_seen v bs es).
Proof.
  revert on bs last. induction es as [|e es IH]; intros on bs last Hp.
  { split; [repeat constructor|constructor]. }
  destruct e as [w|w op m|w|w|now]; cbn [clock_proper times_seen] in *.
  - destruct Hp as [_ Hp]. by eapply IH.
  - destruct Hp as [_ Hp]. by eapply IH.
  - destruct Hp as [_ Hp]. by eapply IH.
  - by eapply IH.
  - destruct Hp as (Hl & Hs & Hp). destruct (IH on bs now Hp) as [Hsort Hshow]. destruct bs; cbn [app].
    + split; [|by constructor]. constructor; [done|]. constructor; [done|].
      inversion Hsort as [|? ? _ Hall]; subst. eapply Forall_impl; [exact Hall|]. cbn. lia.
    + split; [|done]. inversion Hsort as [|? ? Hs' Hall]; subst. constructor; [done|].
      eapply Forall_impl; [exact Hall|]. cbn. lia.
Qed.

Lemma Forall_sublist {A} (P : A → Prop) l k : l `sublist_of` k → Forall P k → Forall P l.
Proof. intros Hl. rewrite !Forall_forall. intros Hk x Hx. apply Hk. by eapply elem_of_sublist. Qed.

(** A part of a list in order is in order. *)
Lemma StronglySorted_sublist {A} (R : A → A → Prop) l k : l `sublist_of` k → StronglySorted R k → StronglySorted R l.
Proof.
  induction 1 as [|x l k Hl IH|x l k Hl IH]; intros Hk; [done| |]; apply StronglySorted_inv in Hk as [Hk Hall].
  - constructor; [by apply IH|]. by eapply Forall_sublist.
  - by apply IH.
Qed.

(** The texts of times in order are in order. *)
Lemma time_texts_sorted ts :
  StronglySorted Z.le ts → Forall showable ts → StronglySorted (λ t t', text_lt t' t = false) (time_text <$> ts).
Proof.
  induction 1 as [|t ts Hts IH Hall]; intros Hs; [constructor|]. inversion Hs as [|? ? Ht Hs']; subst.
  constructor; [by apply IH|]. apply Forall_forall. intros x (t' & -> & Ht')%list_elem_of_fmap.
  assert (showable t') as Hst' by (by eapply Forall_forall in Hs').
  rewrite (show_sys_time_lt t' t) by (done || by apply show_time_text_ok).
  apply Z.ltb_ge. by eapply Forall_forall in Hall.
Qed.

(** C29: The time server, over any library with the behaviour of [PubSubLaws].  Whatever
    clients connect (each connection once), send, leave and read, if the clock of the system
    does not go back and shows only times that the server can write (the day of which begins
    within the range of the clock's 64 bits, [showable]): no handler does anything undefined;
    every client receives binary messages with texts of times at which the timer fires while
    it is connected, each at most once, in the order of the times, and nothing else; it
    misses only those that the library drops because too much is unsent to it, so a client
    that keeps up receives one for every firing.  The texts it receives are in the order of
    strings, a later time never with a smaller text. *)
Theorem time_server_ticks (h : H) (start : Z) (es : list clock_event) :
  (∀ v, is_open h v = false ∧ subscribed h v topic = false ∧ received h v = []) → clock_proper [] start es →
  ∃ s, clock_server es (mkServer true h) = Ok s ∧
    ∀ v, ∃ ts, received (hub_of s) v = (λ now, (BINARY, time_text now)) <$> ts ∧
      hears_of (keeps_up v clock_handle es (mkServer true h)) ts (times_seen v false es) ∧
      StronglySorted (λ t t', text_lt t' t = false) (snd <$> received (hub_of s) v).
Proof.
  intros Hh Hp. assert (agrees [] (mkServer true h)) as Ha.
  { intros v. destruct (Hh v) as (E1 & E2 & _). cbn [hub_of]. by rewrite E1, E2. }
  destruct (clock_server_heard es [] start _ Ha Hp) as (s & E & Hv). exists s. split; [exact E|].
  intros v. destruct (Hv v) as (ts & Hr & Hts). destruct (Hh v) as (_ & _ & Hnil). cbn [hub_of] in Hr.
  rewrite Hnil in Hr. change (bool_decide (v ∈ [])) with false in Hts.
  exists ts. split_and!; [exact Hr|exact Hts|]. rewrite Hr. cbn [app]. rewrite <- list_fmap_compose.
  destruct (times_seen_sorted v [] false start es Hp) as [Hsort Hshow]. apply StronglySorted_inv in Hsort as [Hsort _].
  destruct Hts as [Hsub _]. apply (time_texts_sorted ts).
  - by eapply StronglySorted_sublist.
  - by eapply Forall_sublist.
Qed.
End heard.

(** ** A library *)

(** Each connection has room for [room] more messages until the network drains it. *)
Record hub := mkHub {
  opens : nat → bool; topics : nat → text → bool; inbox : nat → list payload; unsent : nat → nat; room : nat }.
Definition empty_hub (room : nat) : hub := mkHub (λ _, false) (λ _ _, false) (λ _, []) (λ _, O) room.

(** [p] goes to those of [who] that have room. *)
Definition deliver (who : nat → bool) (p : payload) (h : hub) : hub :=
  mkHub (opens h) (topics h) (λ v, inbox h v ++ (if who v && negb (room h <=? unsent h v)%nat then [p] else []))
    (λ v, (unsent h v + Nat.b2n (who v && negb (room h <=? unsent h v)))%nat) (room h).

#[global] Instance hub_pubsub : PubSub hub := {|
  is_open := opens;
  subscribed := topics;
  received := inbox;
  full h v _ := (room h <=? unsent h v)%nat;
  connect w h := mkHub (λ v, opens h v || (v =? w)%nat) (λ v t, topics h v t && negb (v =? w)%nat) (inbox h) (unsent h) (room h);
  subscribe w t h := mkHub (opens h) (λ v t', topics h v t' || ((v =? w)%nat && bool_decide (t' = t))) (inbox h) (unsent h) (room h);
  publish w t p h := deliver (λ v, opens h v && topics h v t && negb (bool_decide (w = Some v))) p h;
  send w p h := deliver (λ v, opens h v && (v =? w)%nat) p h;
  close w h := mkHub (λ v, opens h v && negb (v =? w)%nat) (λ v t, topics h v t && negb (v =? w)%nat) (inbox h) (unsent h) (room h);
  drain w h := mkHub (opens h) (topics h) (inbox h) (λ v, if (v =? w)%nat then O else unsent h v) (room h) |}.

#[global] Instance hub_laws : PubSubLaws hub.
Proof. by split. Qed.

Definition chat_events : list event :=
  [Connects 1; Connects 2; Sends 1 TEXT (txt "hello"); Publishes (BINARY, txt "noon"); Drains 2; Leaves 2; Sends 1 TEXT (txt "bye")].

(** With room for three messages client 2 receives both of its own, with room for one it
    misses the second. *)
Lemma web_socket_clients_hear_witness :
  (∃ s : server hub, broadcast_echo_server chat_events (mkServer true (empty_hub 3)) = Ok s ∧
     ∃ l, received (hub_of s) 2%nat = l ∧ l = [(TEXT, txt "hello"); (BINARY, txt "noon")]) ∧
  (∃ s : server hub, broadcast_echo_server chat_events (mkServer true (empty_hub 1)) = Ok s ∧
     received (hub_of s) 2%nat = [(TEXT, txt "hello")]).
Proof.
  assert (∀ m, m = txt "hello" ∨ m = txt "bye" → ordinary m) as Hm.
  { intros m [->| ->]; (split; [repeat constructor; left; reflexivity|]); split; vm_compute; congruence. }
  split; [|by eexists]. destruct (web_socket_clients_hear (empty_hub 3) chat_events) as [(s & E & Hr) _].
  - done.
  - cbn [proper chat_events]. set_unfold. split; [auto|]. split; [lia|]. split; [auto|]. split; [apply Hm; auto|].
    split; [auto|]. split; [auto|]. split; [apply Hm; auto|done].
  - exists s. split; [exact E|]. destruct (Hr 2%nat) as (l & Hl & _ & Hup). exists l. split; [exact Hl|].
    apply Hup. cbn [keeps_up chat_events].
    repeat (split; [intros p; reflexivity|]; intros s1 E1; vm_compute in E1; injection E1 as <-). done.
Defined.

Definition noon : Z := 1700000000000000000.
Definition ticking : list clock_event :=
  [ClientConnects 1; TimerFires noon; ClientConnects 2; TimerFires (noon + 8000000); ClientLeaves 1; TimerFires (noon + 16000000)].

Lemma time_server_ticks_witness :
  ∃ s : server hub, clock_server ticking (mkServer true (empty_hub 9)) = Ok s ∧
    received (hub_of s) 1%nat = [(BINARY, txt "2023-11-14 22:13:20.000000000"); (BINARY, txt "2023-11-14 22:13:20.008000000")].
Proof.
  destruct (time_server_ticks (empty_hub 9) 0 ticking) as (s & E & Hr).
  - done.
  - cbn [clock_proper ticking]. unfold noon, showable. change day_ticks with 86400000000000. set_unfold.
    split_and!; try lia; try tauto.
  - exists s. split; [exact E|]. destruct (Hr 1%nat) as (ts & -> & [_ Hup] & _). rewrite Hup; [vm_compute; reflexivity|].
    cbn [keeps_up ticking].
    repeat (split; [intros p; reflexivity|]; intros s1 E1; vm_compute in E1; injection E1 as <-). done.
Defined.

(** ** The broadcaster's thread *)
Module Broadcaster.
Section broadcaster.
Context {H : Type} `{PubSub H}.

(** [loop_] is not initialised ([None]), null or set.  The loop keeps the deferred functions;
    [app_] is the server of the thread. *)
Record ThreadedBroadcaster := mkBroadcaster {
  loop_ : option bool; deferred : list (text * payload); app_ : server H; finished_ : bool }.

(* @src third_party_examples/uwebsockets/src/threaded_broadcast.cpp 23-28 ThreadedBroadcaster::ThreadedBroadcaster *)
(** The constructor starts the thread and initialises no pointer. *)
Definition new (h : H) : ThreadedBroadcaster := mkBroadcaster None [] (mkServer true h) false.

(* @src third_party_examples/uwebsockets/src/threaded_broadcast.cpp 34-43 ThreadedBroadcaster::publish *)
Definition publish_later (t : text) (p : payload) (b : ThreadedBroadcaster) : outcome (bool * ThreadedBroadcaster) :=
  match loop_ b with
  | None => UB "loop_ is not initialised"
  | Some false => Ok (false, b)
  | Some true => Ok (true, mkBroadcaster (loop_ b) (deferred b ++ [(t, p)]) (app_ b) (finished_ b))
  end.

(* @src third_party_examples/uwebsockets/src/threaded_broadcast.cpp 64-69 ThreadedBroadcaster::work *)
Definition work_begins (b : ThreadedBroadcaster) : ThreadedBroadcaster :=
  mkBroadcaster (Some true) (deferred b) (app_ b) (finished_ b).

(** The loop runs the function deferred first, or handles an event. *)
Definition loop_turn (b : ThreadedBroadcaster) : outcome ThreadedBroadcaster :=
  match deferred b with
  | [] => Ok b
  | (t, p) :: rest => s ← app_publish t p (app_ b); Ok (mkBroadcaster (loop_ b) rest s (finished_ b))
  end.
Definition loop_event (e : event) (b : ThreadedBroadcaster) : outcome ThreadedBroadcaster :=
  s ← handle threaded_open threaded_message e (app_ b); Ok (mkBroadcaster (loop_ b) (deferred b) s (finished_ b)).

(* @src third_party_examples/uwebsockets/src/threaded_broadcast.cpp 119-119 ThreadedBroadcaster::work *)
Definition work_ends (b : ThreadedBroadcaster) : ThreadedBroadcaster :=
  mkBroadcaster (loop_ b) (deferred b) (app_ b) true.

(* @src third_party_examples/uwebsockets/src/threaded_broadcast.cpp 131-146 main *)
(** One round of the loop of [main], with what it prints. *)
Definition main_round (now : Z) (b : ThreadedBroadcaster) : outcome (ThreadedBroadcaster * list text) :=
  t ← show_sys_time now;
  '(ok, b) ← publish_later topic (BINARY, t) b;
  Ok (b, if (ok : bool) then [] else [txt "Broadcaster is not ready... Message discarded." ++ txt nl]).

(** The threads' steps after [work] has begun, in any order. *)
Inductive step := Round (now : Z) | Turn | Event (e : event).
Definition take_step (x : step) (b : ThreadedBroadcaster) : outcome ThreadedBroadcaster :=
  match x with
  | Round now => '(b, _) ← main_round now b; Ok b
  | Turn => loop_turn b
  | Event e => loop_event e b
  end.
Fixpoint take_steps (xs : list step) (b : ThreadedBroadcaster) : outcome ThreadedBroadcaster :=
  match xs with [] => Ok b | x :: xs => b ← take_step x b; take_steps xs b end.

(** The events of the server that the steps amount to, given what is deferred. *)
Fixpoint server_events (pending : list payload) (xs : list step) : list event :=
  match xs with
  | [] => []
  | Round now :: xs => server_events (pending ++ [(BINARY, time_text now)]) xs
  | Turn :: xs => match pending with [] => server_events [] xs | p :: rest => Publishes p :: server_events rest xs end
  | Event e :: xs => e :: server_events pending xs
  end.

(** The clock shows times that can be written. *)
Definition timely (x : step) : Prop := match x with Round now => showable now | _ => True end.

(** Once the thread has set [loop_], rounds of [main] and turns of the loop in any order do
    what the threaded server does with the publications in the order of the rounds. *)
Lemma broadcaster_publishes_in_order xs pending s f :
  Forall timely xs →
  (take_steps xs (mkBroadcaster (Some true) ((λ p, (topic, p)) <$> pending) s f) ≫= λ b, Ok (app_ b)) =
  threaded_server (server_events pending xs) s.
Proof.
  intros Hxs. revert pending s. induction Hxs as [|[now| |e] xs Hx _ IH]; intros pending s; cbn [take_steps server_events].
  - done.
  - cbn [take_step]. unfold main_round, publish_later. rewrite (show_time_text_ok now Hx). cbn [loop_ mbind outcome_bind deferred app_ finished_].
    rewrite <- IH. by rewrite fmap_app.
  - cbn [take_step]. unfold loop_turn. cbn [deferred]. destruct pending as [|p rest]; cbn [fmap list_fmap mbind outcome_bind].
    + apply (IH []).
    + apply (IH rest).
  - cbn [take_step]. unfold loop_event. cbn [app_ loop_ deferred finished_]. unfold threaded_server. cbn [handle_all].
    destruct (handle threaded_open threaded_message e s) as [s1| |]; cbn [mbind outcome_bind]; [|done|done]. apply IH.
Qed.

(** Before that, a round of [main] reads a pointer that nothing has initialised. *)
Lemma broadcaster_not_started h now : showable now → main_round now (new h) = UB "loop_ is not initialised".
Proof. intros Hn. unfold main_round. by rewrite (show_time_text_ok now Hn). Qed.
End broadcaster.
End Broadcaster.

(* @src third_party_examples/uwebsockets/src/threaded_multiple_broadcasters.cpp 130-151 main *)
(** The loop of [main] over the workers goes on while one of them runs; a worker without a
    loop is skipped.  [running] and [has_loop] are read from the workers. *)
Definition broadcasters_round (workers : list (bool * bool)) : option (list nat) :=
  if existsb fst workers then
    Some (omap (λ '(i, (_, has_loop)), if (has_loop : bool) then Some i else None)
            (imap (λ i w, (i, w)) workers))
  else None.

(** A [main] that gets to its test before the workers have set their flags leaves the loop
    without a publication. *)
Lemma broadcasters_stop_early n : broadcasters_round (replicate n (false, false)) = None.
Proof.
  unfold broadcasters_round. replace (existsb fst (replicate n (false, false))) with false; [done|].
  by induction n.
Qed.
