(* ===== verification/CsvReader.v ===== *)
(** The CSV reader: [src/utils/csv_reader/include/csv_reader/csv_reader.h],
    [include/print_tuple.h], [include/indices_trick_std.h] and the programs
    [src/csv_reader_tuple_ex.cpp] and [src/csv_reader_dlib_ex.cpp].

    A tuple type is a list of field types, a tuple a list of fields.  [operator>>] is modelled
    as the C++ library defines it for words, [int] and [double]; when a stream has nothing but
    white space it leaves an [int] or a [double] as it was, which is not initialised here.

    The theorems: each component of a row is read from the token at its own place, whatever
    the number of tokens; and a file made of rows, printed field by field with commas, is read
    back as these rows. *)
From Stdlib Require Import Floats.SpecFloat.
From S2P Require Import Prelude Text Float.
Local Open Scope Z_scope.
Local Open Scope list_scope.

(** ** [operator>>] *)

Fixpoint take_word (s : text) : text :=
  match s with c :: s => if isspace c then [] else c :: take_word s | [] => [] end.

(** A sign, if there is one, and what follows. *)
Definition take_sign (s : text) : bool * text :=
  match s with
  | c :: s' => if Ascii.eqb c "-" then (true, s') else if Ascii.eqb c "+" then (false, s') else (false, s)
  | [] => (false, s)
  end.

Fixpoint take_digits (s : text) : text * text :=
  match s with
  | c :: s' => if isdigit c then let '(ds, r) := take_digits s' in (c :: ds, r) else ([], s)
  | [] => ([], [])
  end.

(** [int]: what is out of range becomes the nearest bound; without digits the result is 0. *)
Definition int_value (s : text) : Z :=
  let '(neg, s) := take_sign s in
  let v := digits_value 0 (take_digits s).1 in
  Z.max int_min (Z.min int_max (if neg then - v else v)).

(** The [double] nearest to [m * 10 ^ k], with the largest one in place of an infinity. *)
Definition max_double (neg : bool) : double := S754_finite neg (2 ^ 53 - 1) 971.
Definition nearest (neg : bool) (m k : Z) : double :=
  match m with
  | Zpos p =>
      let v := if 0 <=? k then binary_normalize 53 1024 ((if neg then -1 else 1) * (m * 10 ^ k)) 0 neg
               else SFdiv 53 1024 (S754_finite neg p 0) (S754_finite false (Z.to_pos (10 ^ (- k))) 0) in
      match v with S754_infinity s => max_double s | _ => v end
  | _ => S754_zero neg
  end.

(** [double]: digits with a point and an exponent; a number that breaks off, as in [1e], is
    not converted and gives 0. *)
Definition double_value (s : text) : double :=
  let '(neg, s) := take_sign s in
  let '(whole, s) := take_digits s in
  let '(frac, s) := match s with "."%char :: s' => take_digits s' | _ => ([], s) end in
  let m := digits_value 0 (whole ++ frac) in
  let scale := - Z.of_nat (length frac) in
  match whole ++ frac with
  | [] => S754_zero false
  | _ =>
      match s with
      | c :: s' =>
          if Ascii.eqb c "e" || Ascii.eqb c "E" then
            let '(eneg, s') := take_sign s' in
            match (take_digits s').1 with
            | [] => S754_zero false
            | ds => let e := digits_value 0 ds in nearest neg m (scale + if eneg then - e else e)
            end
          else nearest neg m scale
      | [] => nearest neg m scale
      end
  end.

(** ** [csv_reader.h] *)

(** The element types of the tuples, and their values. *)
Inductive field_type := TyString | TyInt | TyDouble.
Inductive field := FString (t : text) | FInt (z : Z) | FDouble (d : double).

(** [T result; stoken >> result;] *)
Definition read_field (ty : field_type) (token : text) : outcome field :=
  let s := skip_space token in
  match ty with
  | TyString => Ok (FString (take_word s))
  | TyInt => match s with [] => UB "int is not initialised" | _ => Ok (FInt (int_value s)) end
  | TyDouble => match s with [] => UB "double is not initialised" | _ => Ok (FDouble (double_value s)) end
  end.

(** [std::getline(ss, token, sep)]: the token, and what is left in the stream. *)
Fixpoint getline_from (sep : ascii) (ss : text) : text * text :=
  match ss with
  | [] => ([], [])
  | c :: ss => if Ascii.eqb c sep then ([], ss) else let '(token, rest) := getline_from sep ss in (c :: token, rest)
  end.

(* @src utils/csv_reader/include/csv_reader/csv_reader.h 7-16 parse_token *)
Definition parse_token (ty : field_type) (ss : text) : outcome (field * text) :=
  let '(token, rest) := getline_from "," ss in
  result ← read_field ty token;
  Ok (result, rest).

(* @src utils/csv_reader/include/csv_reader/csv_reader.h 18-30 load_csv_file *)
(** [data] is the content of the file, or nothing when it cannot be opened; [T_of_line] is the
    constructor of the items. *)
Definition load_csv_file {T} (T_of_line : text → outcome T) (data : option text) (has_header : bool) :
    outcome (list T) :=
  let lines := getlines "010" [] (default [] data) in
  mapM T_of_line (if has_header then tail lines else lines).

(** ** [indices_trick_std.h] and [csv_reader_tuple_ex.cpp] *)

(* @src utils/csv_reader/include/indices_trick_std.h 11-19 execute_all *)
(** The operation on every element of a tuple, from the first to the last, as braces order
    their initialisers; [op] is [LineParser], whose state is the stream. *)
Fixpoint execute_all (op : field_type → text → outcome (field * text)) (t : list field_type) (iss : text) :
    outcome (list field) :=
  match t with
  | [] => Ok []
  | ty :: t => '(f, iss) ← op ty iss; fs ← execute_all op t iss; Ok (f :: fs)
  end.

(* @src utils/csv_reader/src/csv_reader_tuple_ex.cpp 30-43 SensorData *)
Definition sensor_types : list field_type := TyString :: TyInt :: TyInt :: replicate 10 TyDouble.

(* @src utils/csv_reader/src/csv_reader_tuple_ex.cpp 12-29 SensorData::SensorData *)
Definition SensorData (csv_line : text) : outcome (list field) := execute_all parse_token sensor_types csv_line.

(* @src utils/csv_reader/src/csv_reader_dlib_ex.cpp 9-19 MatrixData *)
Fixpoint MatrixData (num_rows : nat) (T : field_type) (iss : text) : outcome (list field) :=
  match num_rows with
  | O => Ok []
  | S n => '(f, iss) ← parse_token T iss; fs ← MatrixData n T iss; Ok (f :: fs)
  end.

(** [os << field] *)
Definition show_field (f : field) : text :=
  match f with FString t => t | FInt z => to_text z | FDouble d => show_float d end.

(* @src utils/csv_reader/include/print_tuple.h 7-18 print_tuple *)
Fixpoint print_tuple (n : nat) (tup : list field) : text :=
  match tup with
  | [] => []
  | f :: tup => (if (n =? 0)%nat then [] else txt ", ") ++ show_field f ++ print_tuple (S n) tup
  end.

(* @src utils/csv_reader/include/print_tuple.h 20-25 operator<< *)
Definition show_tuple (tup : list field) : text := txt "[" ++ print_tuple 0 tup ++ txt "]".

(* @src utils/csv_reader/src/csv_reader_tuple_ex.cpp 46-52 main *)
(** [files] are the files that can be opened. *)
Definition csv_main (files : text → option text) (argv : list text) : outcome text :=
  match argv !! 1%nat with
  | None => UB "argv[1] is a null pointer"
  | Some path =>
      sensor_data ← load_csv_file SensorData (files path) true;
      match sensor_data with
      | a :: b :: _ => Ok (show_tuple a ++ txt nl ++ show_tuple b ++ txt nl)
      | _ => UB "sensor_data out of range"
      end
  end.

Example double_values :
  double_value (txt "0.1") = decimal 1 10 ∧ double_value (txt "-2.5e3") = double_of_Z (-2500) ∧
  double_value (txt "1e") = S754_zero false ∧ double_value (txt "1e400") = max_double false ∧
  double_value (txt ".5x") = decimal 1 2 ∧ double_value (txt "123456789012345678901234567890") =
    S754_finite false 7017705969039166 44 ∧ int_value (txt "99999999999") = int_max.
Proof. vm_compute. repeat split; reflexivity. Qed.

(** ** Tokens *)

(** The texts between the separators. *)
Fixpoint split_on (sep : ascii) (s : text) : list text :=
  match s with
  | [] => [[]]
  | c :: s =>
      if Ascii.eqb c sep then [] :: split_on sep s
      else match split_on sep s with t :: ts => (c :: t) :: ts | [] => [[c]] end
  end.

Definition nth_token (line : text) (i : nat) : text := default [] (split_on "," line !! i).

(** One [getline] takes the first token and leaves the others. *)
Lemma getline_split sep s :
  ∃ ts, split_on sep s = (getline_from sep s).1 :: ts ∧
    ∀ i, default [] (ts !! i) = default [] (split_on sep (getline_from sep s).2 !! i).
Proof.
  induction s as [|c s (ts & Hs & Hi)]; cbn [split_on getline_from].
  - exists []. split; [done|]. by intros [|[|i]].
  - destruct (Ascii.eqb c sep); [by eexists|]. rewrite Hs.
    destruct (getline_from sep s) as [t r]. by exists ts.
Qed.

Lemma nth_token_next line :
  nth_token line 0 = (getline_from "," line).1 ∧ ∀ i, nth_token line (S i) = nth_token (getline_from "," line).2 i.
Proof.
  destruct (getline_split "," line) as (ts & Hs & Hi). unfold nth_token. rewrite Hs. split; [done|]. apply Hi.
Qed.

Lemma mapM_ext_outcome {A B} (f g : A → outcome B) l : (∀ a, f a = g a) → mapM f l = mapM g l.
Proof. intros Hfg. induction l as [|a l IH]; [done|]. cbn. by rewrite Hfg, IH. Qed.

Lemma parse_token_getline ty ss :
  parse_token ty ss =
  (result ← read_field ty (getline_from "," ss).1; Ok (result, (getline_from "," ss).2)).
Proof. unfold parse_token. by destruct (getline_from "," ss). Qed.

Lemma execute_all_tokens tys line :
  execute_all parse_token tys line = mapM (λ '(i, ty), read_field ty (nth_token line i)) (imap pair tys).
Proof.
  revert line. induction tys as [|ty tys IH]; intros line; [done|]. cbn [execute_all imap].
  destruct (nth_token_next line) as [H0 HS]. cbn [mapM]. rewrite H0, (parse_token_getline ty line).
  destruct (getline_from "," line) as [t r]. cbn [fst snd] in *.
  destruct (read_field ty t) as [f| |]; cbn [mbind outcome_bind]; [|done|done]. rewrite IH.
  assert (mapM (λ '(i, ty), read_field ty (nth_token line i)) (imap (pair ∘ S) tys) =
          mapM (λ '(i, ty), read_field ty (nth_token r i)) (imap pair tys)) as <-.
  { replace (imap (pair ∘ S) tys) with ((λ '(i, ty), (S i, ty)) <$> imap pair tys).
    - generalize (imap pair tys) as l. induction l as [|[i ty'] l IHl]; [done|]. cbn. by rewrite HS, IHl.
    - by rewrite fmap_imap. }
  done.
Qed.

(** ** Reading back *)

(** A field that is read back from the text it is printed as, which has no comma or newline. *)
Definition renderable (ty : field_type) (f : field) : Prop :=
  read_field ty (show_field f) = Ok f ∧ ","%char ∉ show_field f ∧ "010"%char ∉ show_field f.

Definition csv_line (fs : list field) : text :=
  match fs with [] => [] | f :: fs => show_field f ++ concat ((λ f, txt "," ++ show_field f) <$> fs) end.
Definition csv_text (header : text) (rows : list (list field)) : text :=
  concat ((λ l, l ++ txt nl) <$> header :: (csv_line <$> rows)).

Lemma getline_from_token sep t s : sep ∉ t → getline_from sep (t ++ sep :: s) = (t, s).
Proof.
  induction t as [|c t IH]; cbn [app getline_from]; [by rewrite Ascii.eqb_refl|].
  intros [Hc Ht]%not_elem_of_cons. rewrite (proj2 (Ascii.eqb_neq c sep)) by done. by rewrite IH.
Qed.
Lemma getline_from_last sep t : sep ∉ t → getline_from sep t = (t, []).
Proof.
  induction t as [|c t IH]; cbn [getline_from]; [done|].
  intros [Hc Ht]%not_elem_of_cons. rewrite (proj2 (Ascii.eqb_neq c sep)) by done. by rewrite IH.
Qed.

Lemma execute_all_line tys fs : Forall2 renderable tys fs → execute_all parse_token tys (csv_line fs) = Ok fs.
Proof.
  destruct 1 as [|ty f tys fs (Hr & Hc & _) Hfs]; [done|]. cbn [csv_line execute_all].
  revert ty f Hr Hc. induction Hfs as [|ty' f' tys fs (Hr' & Hc' & _) Hfs IH]; intros ty f Hr Hc;
    rewrite (parse_token_getline ty).
  - cbn [fmap list_fmap concat]. rewrite app_nil_r, getline_from_last by done. cbn [fst snd]. rewrite Hr. done.
  - rewrite fmap_cons. cbn [concat]. rewrite <- app_assoc. change (txt "," ++ ?s) with (","%char :: s).
    rewrite getline_from_token by done. cbn [fst snd]. rewrite Hr. cbn [mbind outcome_bind execute_all].
    change (execute_all parse_token (ty' :: tys) ?s) with
      ('(f, iss) ← parse_token ty' s; fs ← execute_all parse_token tys iss; Ok (f :: fs)).
    by rewrite IH.
Qed.

Lemma int_renderable z : int_min ≤ z ≤ int_max → renderable TyInt (FInt z).
Proof.
  intros Hz. unfold int_min, int_max in Hz.
  assert (∀ c, c ∈ to_text z → isdigit c = true ∨ c = "-"%char) as Hchars by apply to_text_chars.
  split; [|split; intros Hc; apply Hchars in Hc as [|]; done].
  assert (∀ ds, Forall (λ c, isdigit c = true) ds → take_digits ds = (ds, [])) as Htd.
  { intros ds. induction 1 as [|c ds Hc Hds IH]; [done|]. cbn. by rewrite Hc, IH. }
  assert (∀ n, 0 ≤ n ≤ 2 ^ 31 → take_digits (digits 20 n) = (digits 20 n, []) ∧ digits_value 0 (digits 20 n) = n) as Hd.
  { intros n Hn. split; [apply Htd, digits_isdigit; lia|]. rewrite <- (app_nil_r (digits 20 n)).
    apply digits_value_digits; [|by left]. lia. }
  unfold read_field. cbn [show_field]. unfold to_text. destruct (Z.ltb_spec z 0).
  - cbn [skip_space]. change (isspace "-") with false. cbn match. unfold int_value, take_sign.
    change (Ascii.eqb "-" "-") with true. cbn match. destruct (Hd (- z)) as [-> Hv]; [lia|]. cbn [fst]. rewrite Hv.
    do 2 f_equal. unfold int_min, int_max. lia.
  - rewrite skip_space_digits by (apply digits_isdigit; lia). destruct (digits_cons 19 z) as (c & s & Hc & Hcd); [lia|].
    destruct (Hd z) as [Ht Hv]; [lia|]. rewrite Hc in *. unfold int_value, take_sign.
    assert (Ascii.eqb c "-" = false ∧ Ascii.eqb c "+" = false) as [-> ->].
    { split; apply Ascii.eqb_neq; intros ->; done. }
    rewrite Ht. cbn [fst]. rewrite Hv. do 2 f_equal. unfold int_min, int_max. lia.
Qed.

Lemma word_renderable t :
  Forall (λ c, isspace c = false ∧ c ≠ ","%char) t → renderable TyString (FString t).
Proof.
  intros Ht. assert (∀ c, c ∈ t → isspace c = false ∧ c ≠ ","%char) as Hc by by apply Forall_forall.
  split; [|split; intros Hin; apply Hc in Hin as [? ?]; done].
  unfold read_field. cbn [show_field]. do 2 f_equal. clear Hc.
  assert (skip_space t = t) as -> by (destruct Ht as [|c t [Hc _]]; [done|]; cbn; by rewrite Hc).
  induction Ht as [|c t [Hc _] Ht IH]; [done|]. cbn. by rewrite Hc, IH.
Qed.

(** C37: the rows of a CSV file are read token by token.  Of every line, each component of the
    tuple is read from the token at its own place, and from an empty token when the line has
    too few; and a file of a header and rows, each field as [operator<<] prints it and with
    commas between the fields, is read back as these rows, when every field is one that is
    read back from its own text: all [int]s, all words without a comma, and the doubles that
    six digits give exactly. *)
Theorem csv_rows_read_back (tys : list field_type) (header : text) (rows : list (list field)) :
  "010"%char ∉ header → Forall (Forall2 renderable tys) rows →
  (∀ line, execute_all parse_token tys line =
     mapM (λ '(i, ty), read_field ty (nth_token line i)) (imap pair tys)) ∧
  load_csv_file (execute_all parse_token tys) (Some (csv_text header rows)) true = Ok rows ∧
  (∀ z, int_min ≤ z ≤ int_max → renderable TyInt (FInt z)) ∧
  (∀ t, Forall (λ c, isspace c = false ∧ c ≠ ","%char) t → renderable TyString (FString t)).
Proof.
  intros Hh Hrows. split; [apply execute_all_tokens|]. split; [|split; [apply int_renderable|apply word_renderable]].
  unfold load_csv_file. change (default [] (Some ?x)) with x. unfold csv_text. rewrite getlines_lines.
  - cbn [tail]. induction Hrows as [|fs rows Hfs Hrows IH]; [done|]. cbn [fmap list_fmap mapM].
    rewrite execute_all_line by done. cbn [mbind outcome_bind].
    change (list_fmap (list field) (list ascii) csv_line rows) with (csv_line <$> rows). by rewrite IH.
  - constructor; [done|]. apply Forall_fmap. eapply Forall_impl; [exact Hrows|]. intros fs Hfs.
    assert (∀ f, f ∈ fs → "010"%char ∉ show_field f) as Hf.
    { clear -Hfs. induction Hfs as [|ty f tys fs (_ & _ & Hf) Hfs IH]; [by intros f ?%elem_of_nil|].
      intros g [->|Hg]%elem_of_cons; [done|by apply IH]. }
    destruct fs as [|f fs]; [by intros ?%elem_of_nil|]. cbn. intros [Hin|Hin]%elem_of_app.
    + exact (Hf f (list_elem_of_here _ _) Hin).
    + apply list_elem_of_In, in_concat in Hin as (t & Ht & Hin). apply list_elem_of_In, list_elem_of_fmap in Ht as (g & -> & Hg).
      apply list_elem_of_In in Hin. apply elem_of_cons in Hin as [Heq|Hin]; [done|].
      exact (Hf g (list_elem_of_further _ _ _ Hg) Hin).
Qed.

Definition example_rows : list (list field) :=
  [[FString (txt "left"); FInt 1; FInt (-2); FDouble (decimal 5 10)];
   [FString (txt "right"); FInt 3; FInt 2147483647; FDouble (decimal 409146 10000)]].
Definition example_types : list field_type := [TyString; TyInt; TyInt; TyDouble].

Lemma csv_rows_read_back_witness :
  csv_text (txt "name,a,b,c") example_rows =
    txt "name,a,b,c" ++ txt nl ++ txt "left,1,-2,0.5" ++ txt nl ++ txt "right,3,2147483647,40.9146" ++ txt nl ∧
  load_csv_file (execute_all parse_token example_types) (Some (csv_text (txt "name,a,b,c") example_rows)) true =
    Ok example_rows.
Proof.
  split; [vm_compute; reflexivity|].
  assert (∀ (c : ascii) (t : text), bool_decide (c ∈ t) = false → c ∉ t) as Hd by (intros c t Hb; by apply bool_decide_eq_false_1 in Hb).
  apply (csv_rows_read_back example_types (txt "name,a,b,c") example_rows).
  - apply Hd. vm_compute. reflexivity.
  - repeat constructor; first [apply Hd; vm_compute; reflexivity | vm_compute; reflexivity].
Defined.

(** An empty field makes a row undefined: the [int] or [double] is never set; a text with a
    space is cut at the space. *)
Lemma empty_number_undefined ty :
  ty ≠ TyString → ∃ w, read_field ty [] = UB w.
Proof. destruct ty; [done|by eexists..]. Qed.

Example spaces_are_cut : read_field TyString (txt "two words") = Ok (FString (txt "two")).
Proof. reflexivity. Qed.
