(* ===== verification/Box2dDraw.v ===== *)
(** The drawing of the Box2D test bed:
    [src/third_party_examples/box2d_example/src/draw.cpp] with [include/draw/draw.h].

    The methods are computations over the list of the OpenGL calls made so far, the trace;
    what OpenGL answers (errors, the status of compilation and linking, logs) is a parameter,
    a function of the trace.  A name that OpenGL generates is the place in the trace of the
    call that generates it, with a number.  An assertion that fails throws.  Arrays of
    vertices hold [None] where nothing was written.  The arithmetic of [b2Vec2], the sine
    and the cosine and the constants of Box2D are parameters.

    The three renderers differ in the kind of primitive, the capacity, the bias of the
    projection and whether vertices have a size: they are one record with a [kind].

    The theorems: whatever is drawn, every vertex reaches OpenGL once and in order, in
    batches within the capacity that never split a line or a triangle; and creating and
    destroying the renderers gives every OpenGL object back but one buffer. *)
From Stdlib Require Import Floats.SpecFloat.
From S2P Require Import Prelude Text Float.
Local Open Scope Z_scope.
Local Open Scope list_scope.

(** ** OpenGL *)

Record b2Vec2 := Vec2 { vx : float; vy : float }.
Record b2Color := Color { r : float; g : float; b : float; a : float }.

Inductive kind := POINTS | LINES | TRIANGLES.
#[global] Instance kind_eq_dec : EqDecision kind.
Proof. solve_decision. Defined.

Abbreviation name := (nat * nat)%type.
Inductive upload := Positions (l : list (option b2Vec2)) | Colors (l : list (option b2Color))
  | Sizes (l : list (option float)).

Inductive gl_call :=
| CreateShader (vertex : bool) | CompileShader (s : name) | DeleteShader (s : name)
| CreateProgram | AttachShader (p s : name) | BindFragDataLocation (p : name) | LinkProgram (p : name)
| DeleteProgram (p : name) | GetUniformLocation (p : name)
| GenVertexArrays | GenBuffers (n : nat) | DeleteVertexArrays (v : name) | DeleteBuffers (bs : list name)
| BindVertexArray (v : option name) | BindBuffer (b : option name)
| EnableVertexAttribArray (i : Z) | VertexAttribPointer (i components : Z) | BufferData
| UseProgram (p : option name) | UniformMatrix (m : list float) | BufferSubData (u : upload)
| Enable (what : string) | Disable (what : string) | BlendFunc | DrawArrays (k : kind) (count : nat)
| GetError.

Abbreviation trace := (list gl_call).

Section draw.
(** What OpenGL answers: an error code, whether compilation and linking worked, and the log
    of a shader ([None] where its length is 0). *)
Context (gl_error : trace → Z) (compile_ok link_ok : trace → bool) (info_log : trace → option string).
(** The arithmetic of [b2Vec2]: sum, difference, product with a number; colours without
    transparency; the axes of a rotation. *)
Context (vec_add vec_sub : b2Vec2 → b2Vec2 → b2Vec2) (vec_mul : float → b2Vec2 → b2Vec2).
Context (opaque_color : float → float → float → b2Color).
Context {b2Rot : Type} (GetXAxis GetYAxis : b2Rot → b2Vec2).
Context (sinf cosf : float → float) (b2_pi : float).

Definition fopp : float → float := SFopp.
Definition emit (c : gl_call) : M trace unit := t ← get; put (t ++ [c]).
Fixpoint emits (cs : list gl_call) : M trace unit :=
  match cs with [] => mret tt | c :: cs => _ ← emit c; emits cs end.
(** A call that gives one name, or [n] of them. *)
Definition generate1 (c : gl_call) : M trace name := t ← get; _ ← put (t ++ [c]); mret (length t, 0%nat).
Definition generate (c : gl_call) (n : nat) : M trace (list name) :=
  t ← get; _ ← put (t ++ [c]); mret (pair (length t) <$> seq 0 n).

(** ** The camera *)

(* @src third_party_examples/box2d_example/include/draw/draw.h 44-60 DebugDraw::Camera *)
Record Camera := mkCamera { m_center : b2Vec2; m_zoom : float; m_width : Z; m_height : Z }.
Definition new_camera : Camera := mkCamera (Vec2 (float_of_Z 0) (float_of_Z 20)) (float_of_Z 1) 1280 800.

(** The corners of the view; every method of the camera computes them so. *)
Definition view_corners (cam : Camera) : b2Vec2 * b2Vec2 :=
  let w := float_of_Z (m_width cam) in
  let h := float_of_Z (m_height cam) in
  let ratio := fdiv w h in
  let extents := vec_mul (m_zoom cam) (Vec2 (fmul ratio (float_of_Z 25)) (float_of_Z 25)) in
  (vec_sub (m_center cam) extents, vec_add (m_center cam) extents).

(* @src third_party_examples/box2d_example/src/draw.cpp 37-54 DebugDraw::Camera::ConvertScreenToWorld *)
Definition ConvertScreenToWorld (cam : Camera) (ps : b2Vec2) : b2Vec2 :=
  let w := float_of_Z (m_width cam) in
  let h := float_of_Z (m_height cam) in
  let u := fdiv (vx ps) w in
  let v := fdiv (fsub h (vy ps)) h in
  let '(lower, upper) := view_corners cam in
  let one := float_of_Z 1 in
  Vec2 (fadd (fmul (fsub one u) (vx lower)) (fmul u (vx upper)))
       (fadd (fmul (fsub one v) (vy lower)) (fmul v (vy upper))).

(* @src third_party_examples/box2d_example/src/draw.cpp 57-74 DebugDraw::Camera::ConvertWorldToScreen *)
Definition ConvertWorldToScreen (cam : Camera) (pw : b2Vec2) : b2Vec2 :=
  let w := float_of_Z (m_width cam) in
  let h := float_of_Z (m_height cam) in
  let '(lower, upper) := view_corners cam in
  let u := fdiv (fsub (vx pw) (vx lower)) (fsub (vx upper) (vx lower)) in
  let v := fdiv (fsub (vy pw) (vy lower)) (fsub (vy upper) (vy lower)) in
  Vec2 (fmul u w) (fmul (fsub (float_of_Z 1) v) h).

(* @src third_party_examples/box2d_example/src/draw.cpp 76-107 DebugDraw::Camera::BuildProjectionMatrix *)
Definition BuildProjectionMatrix (cam : Camera) (zBias : float) : list float :=
  let '(lower, upper) := view_corners cam in
  let zero := float_of_Z 0 in
  let one := float_of_Z 1 in
  let two := float_of_Z 2 in
  [fdiv two (fsub (vx upper) (vx lower)); zero; zero; zero;
   zero; fdiv two (fsub (vy upper) (vy lower)); zero; zero;
   zero; zero; one; zero;
   fdiv (fopp (fadd (vx upper) (vx lower))) (fsub (vx upper) (vx lower));
   fdiv (fopp (fadd (vy upper) (vy lower))) (fsub (vy upper) (vy lower)); zBias; one].

(** ** Errors and shaders *)

(* @src third_party_examples/box2d_example/src/draw.cpp 110-116 sCheckGLError *)
Definition sCheckGLError : M trace unit :=
  _ ← emit GetError;
  t ← get;
  if gl_error t =? 0 then mret tt
  else _ ← print ("OpenGL error = " +:+ String.string_of_list_ascii (to_text (gl_error t)) +:+ nl); throw "assertion failed".

(* @src third_party_examples/box2d_example/src/draw.cpp 119-139 sPrintLog *)
(** Called for a shader.  A log of length 0 is printed from memory nobody wrote. *)
Definition sPrintLog : M trace unit :=
  t ← get;
  match info_log t with
  | Some log => print log
  | None => lift (UB "reading uninitialised memory")
  end.

(* @src third_party_examples/box2d_example/src/draw.cpp 142-157 sCreateShaderFromString *)
(** [None] is the name 0; the log is printed by [sPrintLog]. *)
Definition sCreateShaderFromString (vertex : bool) : M trace (option name) :=
  res ← generate1 (CreateShader vertex);
  _ ← emit (CompileShader res);
  t ← get;
  if compile_ok t then mret (Some res)
  else
    _ ← print ("Error compiling shader of type " +:+ (if vertex then "35633" else "35632") +:+ "!" +:+ nl);
    _ ← sPrintLog;
    _ ← emit (DeleteShader res);
    mret None.

(* @src third_party_examples/box2d_example/src/draw.cpp 160-179 sCreateShaderProgram *)
Definition sCreateShaderProgram : M trace name :=
  vsId ← sCreateShaderFromString true;
  fsId ← sCreateShaderFromString false;
  match vsId, fsId with
  | Some vsId, Some fsId =>
      programId ← generate1 CreateProgram;
      _ ← emit (AttachShader programId vsId);
      _ ← emit (AttachShader programId fsId);
      _ ← emit (BindFragDataLocation programId);
      _ ← emit (LinkProgram programId);
      _ ← emit (DeleteShader vsId);
      _ ← emit (DeleteShader fsId);
      t ← get;
      if link_ok t then mret programId else throw "assertion failed"
  | _, _ => throw "assertion failed"
  end.

(** ** The renderers *)

Definition e_maxVertices (k : kind) : nat :=
  match k with POINTS => 512 | LINES => 2 * 512 | TRIANGLES => 3 * 512 end%nat.

(* @src third_party_examples/box2d_example/src/draw.cpp 308-322 GLRenderPoints *)
(** A renderer after its [Create]; [None] is the name 0.  Lines and triangles have no
    [m_sizes]. *)
Record Renderer := mkRenderer {
  r_kind : kind;
  m_vertices : list (option b2Vec2);
  m_colors : list (option b2Color);
  m_sizes : list (option float);
  m_count : nat;
  m_vaoId : option name;
  m_vboIds : list name;
  m_programId : option name }.

Definition number_of_buffers (k : kind) : nat := match k with POINTS => 3 | _ => 2 end%nat.
Definition zBias (k : kind) : float :=
  match k with
  | POINTS => float_of_Z 0
  | LINES => to_float (decimal 1 10)
  | TRIANGLES => to_float (decimal 2 10)
  end.

(** Attribute [i] of the vertex array reads the buffer [b]. *)
Definition attribute (i components : Z) (vbo : option name) : list gl_call :=
  [BindBuffer vbo; VertexAttribPointer i components; BufferData].

(* @src third_party_examples/box2d_example/src/draw.cpp 189-248 GLRenderPoints::Create *)
Definition Renderer_Create (k : kind) : M trace Renderer :=
  programId ← sCreateShaderProgram;
  _ ← emit (GetUniformLocation programId);
  vaoId ← generate1 GenVertexArrays;
  vboIds ← generate (GenBuffers (number_of_buffers k)) (number_of_buffers k);
  _ ← emit (BindVertexArray (Some vaoId));
  _ ← emits (EnableVertexAttribArray <$> match k with POINTS => [0; 1; 2] | _ => [0; 1] end);
  _ ← emits (attribute 0 2 (vboIds !! 0%nat));
  _ ← emits (attribute 1 4 (vboIds !! 1%nat));
  _ ← match k with POINTS => emits (attribute 2 1 (vboIds !! 2%nat)) | _ => mret tt end;
  _ ← sCheckGLError;
  _ ← emits [BindBuffer None; BindVertexArray None];
  let n := e_maxVertices k in
  mret (mkRenderer k (replicate n None) (replicate n None)
          (match k with POINTS => replicate n None | _ => [] end) 0 (Some vaoId) vboIds (Some programId)).

(* @src third_party_examples/box2d_example/src/draw.cpp 250-261 GLRenderPoints::Destroy *)
Definition Renderer_Destroy (rd : Renderer) : M trace unit :=
  _ ← match m_vaoId rd with
      | Some v => emits [DeleteVertexArrays v; DeleteBuffers (take 2 (m_vboIds rd))]
      | None => mret tt
      end;
  match m_programId rd with Some p => emit (DeleteProgram p) | None => mret tt end.

(* @src third_party_examples/box2d_example/src/draw.cpp 273-306 GLRenderPoints::Flush *)
Definition Renderer_Flush (cam : Camera) (rd : Renderer) : M trace Renderer :=
  if (m_count rd =? 0)%nat then mret rd
  else
    _ ← emit (UseProgram (m_programId rd));
    _ ← emit (UniformMatrix (BuildProjectionMatrix cam (zBias (r_kind rd))));
    _ ← emit (BindVertexArray (m_vaoId rd));
    _ ← emits [BindBuffer (m_vboIds rd !! 0%nat); BufferSubData (Positions (take (m_count rd) (m_vertices rd)))];
    _ ← emits [BindBuffer (m_vboIds rd !! 1%nat); BufferSubData (Colors (take (m_count rd) (m_colors rd)))];
    _ ← emits match r_kind rd with
        | POINTS =>
            [BindBuffer (m_vboIds rd !! 2%nat); BufferSubData (Sizes (take (m_count rd) (m_sizes rd)));
             Enable "GL_PROGRAM_POINT_SIZE"; DrawArrays POINTS (m_count rd); Disable "GL_PROGRAM_POINT_SIZE"]
        | LINES => [DrawArrays LINES (m_count rd)]
        | TRIANGLES => [Enable "GL_BLEND"; BlendFunc; DrawArrays TRIANGLES (m_count rd); Disable "GL_BLEND"]
        end;
    _ ← sCheckGLError;
    _ ← emits [BindBuffer None; BindVertexArray None; UseProgram None];
    mret (mkRenderer (r_kind rd) (m_vertices rd) (m_colors rd) (m_sizes rd) 0
            (m_vaoId rd) (m_vboIds rd) (m_programId rd)).

(* @src third_party_examples/box2d_example/src/draw.cpp 263-271 GLRenderPoints::Vertex *)
(** [size] is given for points only.  Writing beyond the arrays is undefined. *)
Definition Renderer_Vertex (cam : Camera) (rd : Renderer) (v : b2Vec2) (c : b2Color) (size : option float)
    : M trace Renderer :=
  rd ← (if (m_count rd =? e_maxVertices (r_kind rd))%nat then Renderer_Flush cam rd else mret rd);
  let i := m_count rd in
  if (i <? e_maxVertices (r_kind rd))%nat then
    mret (mkRenderer (r_kind rd) (<[i := Some v]> (m_vertices rd)) (<[i := Some c]> (m_colors rd))
            (<[i := size]> (m_sizes rd)) (S i) (m_vaoId rd) (m_vboIds rd) (m_programId rd))
  else lift (UB "array index out of range").

(** The renderers of lines and of triangles do the same, less the sizes. *)
(* @src third_party_examples/box2d_example/src/draw.cpp 332-383 GLRenderLines::Create *)
Definition GLRenderLines_Create : M trace Renderer := Renderer_Create LINES.
(* @src third_party_examples/box2d_example/src/draw.cpp 459-510 GLRenderTriangles::Create *)
Definition GLRenderTriangles_Create : M trace Renderer := Renderer_Create TRIANGLES.
(* @src third_party_examples/box2d_example/src/draw.cpp 385-396 GLRenderLines::Destroy *)
Definition GLRenderLines_Destroy (rd : Renderer) : M trace unit := Renderer_Destroy rd.
(* @src third_party_examples/box2d_example/src/draw.cpp 512-523 GLRenderTriangles::Destroy *)
Definition GLRenderTriangles_Destroy (rd : Renderer) : M trace unit := Renderer_Destroy rd.
(* @src third_party_examples/box2d_example/src/draw.cpp 398-405 GLRenderLines::Vertex *)
Definition GLRenderLines_Vertex (cam : Camera) (rd : Renderer) (v : b2Vec2) (c : b2Color) : M trace Renderer :=
  Renderer_Vertex cam rd v c None.
(* @src third_party_examples/box2d_example/src/draw.cpp 525-532 GLRenderTriangles::Vertex *)
Definition GLRenderTriangles_Vertex (cam : Camera) (rd : Renderer) (v : b2Vec2) (c : b2Color) : M trace Renderer :=
  Renderer_Vertex cam rd v c None.
(* @src third_party_examples/box2d_example/src/draw.cpp 407-435 GLRenderLines::Flush *)
Definition GLRenderLines_Flush (cam : Camera) (rd : Renderer) : M trace Renderer := Renderer_Flush cam rd.
(* @src third_party_examples/box2d_example/src/draw.cpp 534-565 GLRenderTriangles::Flush *)
Definition GLRenderTriangles_Flush (cam : Camera) (rd : Renderer) : M trace Renderer := Renderer_Flush cam rd.

(** ** The drawing *)

Inductive imgui_call := Begin (title : string) | SetCursorPos (x y : float) | TextColored (text : string) | End_.

(* @src third_party_examples/box2d_example/include/draw/draw.h 93-97 DebugDraw *)
(** With the calls made to OpenGL and to ImGui. *)
Record DebugDraw := mkDraw {
  camera : Camera; m_showUI : bool;
  m_points : option Renderer; m_lines : option Renderer; m_triangles : option Renderer;
  gl : trace; imgui : list imgui_call }.

(* @src third_party_examples/box2d_example/src/draw.cpp 582-587 DebugDraw::DebugDraw *)
Definition new_draw (t : trace) : DebugDraw := mkDraw new_camera true None None None t [].

(* @src third_party_examples/box2d_example/src/draw.cpp 590-594 DebugDraw::~DebugDraw *)
Definition destruct_draw : M DebugDraw unit :=
  d ← get;
  match m_points d, m_lines d, m_triangles d with
  | None, None, None => mret tt
  | _, _, _ => throw "assertion failed"
  end.

Definition set_gl (t : trace) (d : DebugDraw) : DebugDraw :=
  mkDraw (camera d) (m_showUI d) (m_points d) (m_lines d) (m_triangles d) t (imgui d).
Definition in_gl {A} (m : M trace A) : M DebugDraw A := zoom gl set_gl m.

Definition renderer (k : kind) (d : DebugDraw) : option Renderer :=
  match k with POINTS => m_points d | LINES => m_lines d | TRIANGLES => m_triangles d end.
Definition set_renderer (k : kind) (rd : option Renderer) (d : DebugDraw) : DebugDraw :=
  mkDraw (camera d) (m_showUI d)
    (match k with POINTS => rd | _ => m_points d end)
    (match k with LINES => rd | _ => m_lines d end)
    (match k with TRIANGLES => rd | _ => m_triangles d end) (gl d) (imgui d).
Definition assign_renderer (k : kind) (rd : option Renderer) : M DebugDraw unit :=
  d ← get; put (set_renderer k rd d).

(** A member function of the renderer that [m_points], [m_lines] or [m_triangles] points to. *)
Definition on (k : kind) (f : Camera → Renderer → M trace Renderer) : M DebugDraw unit :=
  d ← get;
  match renderer k d with
  | Some rd => rd ← in_gl (f (camera d) rd); assign_renderer k (Some rd)
  | None => lift (UB "null pointer")
  end.

(* @src third_party_examples/box2d_example/src/draw.cpp 597-604 DebugDraw::Create *)
Definition DebugDraw_Create : M DebugDraw unit :=
  rd ← in_gl (Renderer_Create POINTS); _ ← assign_renderer POINTS (Some rd);
  rd ← in_gl GLRenderLines_Create; _ ← assign_renderer LINES (Some rd);
  rd ← in_gl GLRenderTriangles_Create; assign_renderer TRIANGLES (Some rd).

(** [delete] and [NULL]. *)
Definition destroy_with (k : kind) (f : Renderer → M trace unit) : M DebugDraw unit :=
  d ← get;
  match renderer k d with
  | Some rd => _ ← in_gl (f rd); assign_renderer k None
  | None => lift (UB "null pointer")
  end.

(* @src third_party_examples/box2d_example/src/draw.cpp 607-619 DebugDraw::Destroy *)
Definition DebugDraw_Destroy : M DebugDraw unit :=
  _ ← destroy_with POINTS Renderer_Destroy;
  _ ← destroy_with LINES GLRenderLines_Destroy;
  destroy_with TRIANGLES GLRenderTriangles_Destroy.

Definition points_vertex (v : b2Vec2) (c : b2Color) (size : float) : M DebugDraw unit :=
  on POINTS (λ cam rd, Renderer_Vertex cam rd v c (Some size)).
Definition lines_vertex (v : b2Vec2) (c : b2Color) : M DebugDraw unit :=
  on LINES (λ cam rd, GLRenderLines_Vertex cam rd v c).
Definition triangles_vertex (v : b2Vec2) (c : b2Color) : M DebugDraw unit :=
  on TRIANGLES (λ cam rd, GLRenderTriangles_Vertex cam rd v c).

(** [for (int32 i = from; ...)] that runs [n] times, over the variables [s]. *)
Fixpoint for_range {St} (n : nat) (i : Z) (body : Z → St → M DebugDraw St) (s : St) : M DebugDraw St :=
  match n with
  | O => mret s
  | S n => s ← body i s; for_range n (i + 1) body s
  end.

(** [vertices[i]] *)
Definition vertex_at (vertices : list b2Vec2) (i : Z) : M DebugDraw b2Vec2 :=
  lift (if i <? 0 then UB "array index out of range"
        else match vertices !! Z.to_nat i with Some v => Ok v | None => UB "array index out of range" end).

(* @src third_party_examples/box2d_example/src/draw.cpp 622-630 DebugDraw::DrawPolygon *)
Definition DrawPolygon (vertices : list b2Vec2) (vertexCount : Z) (color : b2Color) : M DebugDraw unit :=
  p1 ← vertex_at vertices (vertexCount - 1);
  _ ← for_range (Z.to_nat vertexCount) 0 (λ i p1,
        p2 ← vertex_at vertices i;
        _ ← lines_vertex p1 color;
        _ ← lines_vertex p2 color;
        mret p2) p1;
  mret tt.

Definition half : float := to_float (decimal 1 2).
Definition fill_color (c : b2Color) : b2Color :=
  Color (fmul half (r c)) (fmul half (g c)) (fmul half (b c)) half.

(* @src third_party_examples/box2d_example/src/draw.cpp 633-649 DebugDraw::DrawSolidPolygon *)
Definition DrawSolidPolygon (vertices : list b2Vec2) (vertexCount : Z) (color : b2Color) : M DebugDraw unit :=
  let fillColor := fill_color color in
  _ ← for_range (Z.to_nat (vertexCount - 2)) 1 (λ i _,
        v0 ← vertex_at vertices 0;
        _ ← triangles_vertex v0 fillColor;
        vi ← vertex_at vertices i;
        _ ← triangles_vertex vi fillColor;
        vj ← vertex_at vertices (i + 1);
        triangles_vertex vj fillColor) tt;
  p1 ← vertex_at vertices (vertexCount - 1);
  _ ← for_range (Z.to_nat vertexCount) 0 (λ i p1,
        p2 ← vertex_at vertices i;
        _ ← lines_vertex p1 color;
        _ ← lines_vertex p2 color;
        mret p2) p1;
  mret tt.

(** The rotation by one of the sixteen segments of a circle. *)
Definition k_increment : float := fdiv (fmul (float_of_Z 2) b2_pi) (float_of_Z 16).
Definition sinInc : float := sinf k_increment.
Definition cosInc : float := cosf k_increment.
Definition rotate (r1 : b2Vec2) : b2Vec2 :=
  Vec2 (fsub (fmul cosInc (vx r1)) (fmul sinInc (vy r1)))
       (fadd (fmul sinInc (vx r1)) (fmul cosInc (vy r1))).
Definition on_circle (center : b2Vec2) (radius : float) (r : b2Vec2) : b2Vec2 :=
  vec_add center (vec_mul radius r).
Definition e_x : b2Vec2 := Vec2 (float_of_Z 1) (float_of_Z 0).

(* @src third_party_examples/box2d_example/src/draw.cpp 652-670 DebugDraw::DrawCircle *)
Definition DrawCircle (center : b2Vec2) (radius : float) (color : b2Color) : M DebugDraw unit :=
  let v1 := on_circle center radius e_x in
  _ ← for_range 16 0 (λ _ '(r1, v1),
        let r2 := rotate r1 in
        let v2 := on_circle center radius r2 in
        _ ← lines_vertex v1 color;
        _ ← lines_vertex v2 color;
        mret (r2, v2)) (e_x, v1);
  mret tt.

(* @src third_party_examples/box2d_example/src/draw.cpp 673-715 DebugDraw::DrawSolidCircle *)
Definition DrawSolidCircle (center : b2Vec2) (radius : float) (axis : b2Vec2) (color : b2Color)
    : M DebugDraw unit :=
  let v0 := center in
  let r1 := Vec2 cosInc sinInc in
  let v1 := on_circle center radius r1 in
  let fillColor := fill_color color in
  _ ← for_range 16 0 (λ _ '(r1, v1),
        let r2 := rotate r1 in
        let v2 := on_circle center radius r2 in
        _ ← triangles_vertex v0 fillColor;
        _ ← triangles_vertex v1 fillColor;
        _ ← triangles_vertex v2 fillColor;
        mret (r2, v2)) (r1, v1);
  let v1 := on_circle center radius e_x in
  _ ← for_range 16 0 (λ _ '(r1, v1),
        let r2 := rotate r1 in
        let v2 := on_circle center radius r2 in
        _ ← lines_vertex v1 color;
        _ ← lines_vertex v2 color;
        mret (r2, v2)) (e_x, v1);
  let p := vec_add center (vec_mul radius axis) in
  _ ← lines_vertex center color;
  lines_vertex p color.

(* @src third_party_examples/box2d_example/src/draw.cpp 718-721 DebugDraw::DrawSegment *)
Definition DrawSegment (p1 p2 : b2Vec2) (color : b2Color) : M DebugDraw unit :=
  _ ← lines_vertex p1 color; lines_vertex p2 color.

Record b2Transform := Transform { xf_p : b2Vec2; xf_q : b2Rot }.

(* @src third_party_examples/box2d_example/src/draw.cpp 724-737 DebugDraw::DrawTransform *)
Definition DrawTransform (xf : b2Transform) : M DebugDraw unit :=
  let k_axisScale := to_float (decimal 4 10) in
  let red := opaque_color (float_of_Z 1) (float_of_Z 0) (float_of_Z 0) in
  let green := opaque_color (float_of_Z 0) (float_of_Z 1) (float_of_Z 0) in
  let p1 := xf_p xf in
  _ ← lines_vertex p1 red;
  _ ← lines_vertex (vec_add p1 (vec_mul k_axisScale (GetXAxis (xf_q xf)))) red;
  _ ← lines_vertex p1 green;
  lines_vertex (vec_add p1 (vec_mul k_axisScale (GetYAxis (xf_q xf)))) green.

(* @src third_party_examples/box2d_example/src/draw.cpp 740-742 DebugDraw::DrawPoint *)
Definition DrawPoint (p : b2Vec2) (size : float) (color : b2Color) : M DebugDraw unit :=
  points_vertex p color size.

(** The window [Overlay] with a text at a place of the screen. *)
Definition overlay (x y : float) (text : string) : M DebugDraw unit :=
  d ← get;
  put (mkDraw (camera d) (m_showUI d) (m_points d) (m_lines d) (m_triangles d) (gl d)
         (imgui d ++ [Begin "Overlay"; SetCursorPos x y; TextColored text; End_])).

(* @src third_party_examples/box2d_example/src/draw.cpp 745-759 DebugDraw::DrawString *)
(** [text] is the format with its arguments in place. *)
Definition DrawString (x y : Z) (text : string) : M DebugDraw unit :=
  d ← get;
  if m_showUI d then overlay (float_of_Z x) (float_of_Z y) text else mret tt.

(* @src third_party_examples/box2d_example/src/draw.cpp 762-774 DebugDraw::DrawString *)
Definition DrawString_world (pw : b2Vec2) (text : string) : M DebugDraw unit :=
  d ← get;
  let ps := ConvertWorldToScreen (camera d) pw in
  overlay (vx ps) (vy ps) text.

(* @src third_party_examples/box2d_example/src/draw.cpp 777-794 DebugDraw::DrawAABB *)
Definition DrawAABB (lowerBound upperBound : b2Vec2) (c : b2Color) : M DebugDraw unit :=
  let p1 := lowerBound in
  let p2 := Vec2 (vx upperBound) (vy lowerBound) in
  let p3 := upperBound in
  let p4 := Vec2 (vx lowerBound) (vy upperBound) in
  _ ← lines_vertex p1 c; _ ← lines_vertex p2 c;
  _ ← lines_vertex p2 c; _ ← lines_vertex p3 c;
  _ ← lines_vertex p3 c; _ ← lines_vertex p4 c;
  _ ← lines_vertex p4 c; lines_vertex p1 c.

(* @src third_party_examples/box2d_example/src/draw.cpp 797-801 DebugDraw::Flush *)
Definition DebugDraw_Flush : M DebugDraw unit :=
  _ ← on TRIANGLES GLRenderTriangles_Flush;
  _ ← on LINES GLRenderLines_Flush;
  on POINTS Renderer_Flush.

(** ** What reaches OpenGL

    A vertex with its colour and, for points, its size; [batches] reads off a trace what
    each [glDrawArrays] draws: the first vertices of what was uploaded last. *)
Definition vertex : Type := option b2Vec2 * option b2Color * option float.

Definition row (ps : list (option b2Vec2)) (cs : list (option b2Color)) (ss : list (option float)) (i : nat)
    : vertex := (mjoin (ps !! i), mjoin (cs !! i), mjoin (ss !! i)).
Definition rows ps cs ss (n : nat) : list vertex := row ps cs ss <$> seq 0 n.

Record reading := mkReading {
  up_positions : list (option b2Vec2); up_colors : list (option b2Color); up_sizes : list (option float);
  drawn : list (kind * list vertex) }.

Definition read_call (x : reading) (c : gl_call) : reading :=
  match c with
  | BufferSubData (Positions l) => mkReading l (up_colors x) (up_sizes x) (drawn x)
  | BufferSubData (Colors l) => mkReading (up_positions x) l (up_sizes x) (drawn x)
  | BufferSubData (Sizes l) => mkReading (up_positions x) (up_colors x) l (drawn x)
  | DrawArrays k n =>
      mkReading (up_positions x) (up_colors x) (up_sizes x)
        (drawn x ++ [(k, rows (up_positions x) (up_colors x)
                          (match k with POINTS => up_sizes x | _ => [] end) n)])
  | _ => x
  end.
Definition read_trace (t : trace) : reading := fold_left read_call t (mkReading [] [] [] []).
Definition batches (k : kind) (t : trace) : list (list vertex) :=
  omap (λ '(k', l), if decide (k = k') then Some l else None) (drawn (read_trace t)).

(** What a renderer holds back. *)
Definition pending (rd : Renderer) : list vertex :=
  rows (m_vertices rd) (m_colors rd) (m_sizes rd) (m_count rd).

(** Vertices of a primitive. *)
Definition arity (k : kind) : nat := match k with POINTS => 1 | LINES => 2 | TRIANGLES => 3 end%nat.

(** The objects of OpenGL that are alive after a trace: vertex arrays, buffers, programs
    and shaders, oldest first. *)
Inductive gl_object := VertexArray (x : name) | Buffer (x : name) | Program (x : name) | Shader (x : name).
#[local] Instance gl_object_eq_dec : EqDecision gl_object.
Proof. solve_decision. Defined.

Definition live_call (at_ : nat) (c : gl_call) (live : list gl_object) : list gl_object :=
  match c with
  | CreateShader _ => live ++ [Shader (at_, 0%nat)]
  | CreateProgram => live ++ [Program (at_, 0%nat)]
  | GenVertexArrays => live ++ [VertexArray (at_, 0%nat)]
  | GenBuffers n => live ++ (Buffer <$> (pair at_ <$> seq 0 n))
  | DeleteShader x => filter (.≠ Shader x) live
  | DeleteProgram x => filter (.≠ Program x) live
  | DeleteVertexArrays x => filter (.≠ VertexArray x) live
  | DeleteBuffers xs => filter (λ o, o ∉ Buffer <$> xs) live
  | _ => live
  end.
Fixpoint live_from (at_ : nat) (t : trace) (live : list gl_object) : list gl_object :=
  match t with [] => live | c :: t => live_from (S at_) t (live_call at_ c live) end.
Definition live (t : trace) : list gl_object := live_from 0 t [].

(** ** Commands *)

Inductive command :=
| Polygon (vertices : list b2Vec2) (color : b2Color)
| SolidPolygon (vertices : list b2Vec2) (color : b2Color)
| Circle (center : b2Vec2) (radius : float) (color : b2Color)
| SolidCircle (center : b2Vec2) (radius : float) (axis : b2Vec2) (color : b2Color)
| Segment (p1 p2 : b2Vec2) (color : b2Color)
| DrawXf (xf : b2Transform)
| Point (p : b2Vec2) (size : float) (color : b2Color)
| StringAt (x y : Z) (text : string)
| StringWorld (pw : b2Vec2) (text : string)
| AABB (lowerBound upperBound : b2Vec2) (color : b2Color)
| FlushAll
| MoveCamera (cam : Camera) | ShowUI (show : bool).

Definition perform (c : command) : M DebugDraw unit :=
  match c with
  | Polygon vs c => DrawPolygon vs (Z.of_nat (length vs)) c
  | SolidPolygon vs c => DrawSolidPolygon vs (Z.of_nat (length vs)) c
  | Circle o ra c => DrawCircle o ra c
  | SolidCircle o ra ax c => DrawSolidCircle o ra ax c
  | Segment p1 p2 c => DrawSegment p1 p2 c
  | DrawXf xf => DrawTransform xf
  | Point p s c => DrawPoint p s c
  | StringAt x y s => DrawString x y s
  | StringWorld p s => DrawString_world p s
  | AABB l u c => DrawAABB l u c
  | FlushAll => DebugDraw_Flush
  | MoveCamera cam => d ← get; put (mkDraw cam (m_showUI d) (m_points d) (m_lines d) (m_triangles d) (gl d) (imgui d))
  | ShowUI b => d ← get; put (mkDraw (camera d) b (m_points d) (m_lines d) (m_triangles d) (gl d) (imgui d))
  end.

Fixpoint perform_all (cs : list command) : M DebugDraw unit :=
  match cs with [] => mret tt | c :: cs => _ ← perform c; perform_all cs end.

(** The primitives of a shape: its lines, its triangles, its points. *)
Definition lines_of (c : b2Color) (es : list (b2Vec2 * b2Vec2)) : list vertex :=
  es ≫= λ '(p, q), [(Some p, Some c, None); (Some q, Some c, None)].
Definition triangles_of (c : b2Color) (ts : list (b2Vec2 * b2Vec2 * b2Vec2)) : list vertex :=
  ts ≫= λ '(p, q, r), [(Some p, Some c, None); (Some q, Some c, None); (Some r, Some c, None)].

(** The closed outline of a polygon, and the fan of triangles around its first corner. *)
Definition outline (vs : list b2Vec2) : list (b2Vec2 * b2Vec2) :=
  match last vs with Some p => zip (p :: vs) vs | None => [] end.
Definition fan (vs : list b2Vec2) : list (b2Vec2 * b2Vec2 * b2Vec2) :=
  match vs with v0 :: vs => zip (pair v0 <$> vs) (tail vs) | [] => [] end.

(** [n] points on a circle, each a rotation of the one before. *)
Definition corners (center : b2Vec2) (radius : float) (r1 : b2Vec2) (n : nat) : list b2Vec2 :=
  (λ i, on_circle center radius (Nat.iter i rotate r1)) <$> seq 0 n.
Definition chords (center : b2Vec2) (radius : float) (r1 : b2Vec2) : list (b2Vec2 * b2Vec2) :=
  let ps := corners center radius r1 17 in zip ps (tail ps).

Definition shape (k : kind) (c : command) : list vertex :=
  match k, c with
  | LINES, (Polygon vs c | SolidPolygon vs c) => lines_of c (outline vs)
  | TRIANGLES, SolidPolygon vs c => triangles_of (fill_color c) (fan vs)
  | LINES, Circle o ra c => lines_of c (chords o ra e_x)
  | LINES, SolidCircle o ra ax c => lines_of c (chords o ra e_x ++ [(o, vec_add o (vec_mul ra ax))])
  | TRIANGLES, SolidCircle o ra ax c =>
      triangles_of (fill_color c) ((λ '(p, q), (o, p, q)) <$> chords o ra (Vec2 cosInc sinInc))
  | LINES, Segment p q c => lines_of c [(p, q)]
  | LINES, DrawXf xf =>
      let axis e := vec_add (xf_p xf) (vec_mul (to_float (decimal 4 10)) e) in
      lines_of (opaque_color (float_of_Z 1) (float_of_Z 0) (float_of_Z 0)) [(xf_p xf, axis (GetXAxis (xf_q xf)))] ++
      lines_of (opaque_color (float_of_Z 0) (float_of_Z 1) (float_of_Z 0)) [(xf_p xf, axis (GetYAxis (xf_q xf)))]
  | POINTS, Point p s c => [(Some p, Some c, Some s)]
  | LINES, AABB l u c =>
      lines_of c (outline [Vec2 (vx u) (vy l); u; Vec2 (vx l) (vy u); l])
  | _, _ => []
  end.

(** A polygon has a corner. *)
Definition drawable (c : command) : Prop :=
  match c with Polygon vs _ | SolidPolygon vs _ => vs ≠ [] | _ => True end.

(** ** Runs of calls *)

Lemma emit_run c t : emit c t = (Ok tt, t ++ [c], []).
Proof. done. Qed.

Lemma emits_run cs t : emits cs t = (Ok tt, t ++ cs, []).
Proof.
  revert t. induction cs as [|c cs IH]; intros t; cbn [emits]; [by rewrite app_nil_r|].
  rewrite (bind_silent _ _ _ _ _ (emit_run c t)), IH. by rewrite <- app_assoc.
Qed.

Lemma read_trace_app t t' : read_trace (t ++ t') = fold_left read_call t' (read_trace t).
Proof. apply fold_left_app. Qed.

Lemma live_from_app t t' n l : live_from n (t ++ t') l = live_from (n + length t) t' (live_from n t l).
Proof.
  revert n l. induction t as [|c t IH]; intros n l; cbn [app live_from length]; [by rewrite Nat.add_0_r|].
  rewrite IH. f_equal. lia.
Qed.

Lemma live_app t t' : live (t ++ t') = live_from (length t) t' (live t).
Proof. apply live_from_app. Qed.

Lemma rows_take ps cs ss n : rows (take n ps) (take n cs) (take n ss) n = rows ps cs ss n.
Proof.
  apply list_fmap_ext. intros i x Hx. apply lookup_seq in Hx as [-> Hi]. unfold row.
  by rewrite !lookup_take_lt by lia.
Qed.

Lemma rows_length ps cs ss n : length (rows ps cs ss n) = n.
Proof. unfold rows. by rewrite length_fmap, length_seq. Qed.

Lemma rows_take_two ps cs n : rows (take n ps) (take n cs) [] n = rows ps cs [] n.
Proof. by rewrite <- (rows_take ps cs [] n), take_nil. Qed.

Context (no_error : ∀ t, gl_error t = 0).

Lemma check_run t : sCheckGLError t = (Ok tt, t ++ [GetError], []).
Proof.
  unfold sCheckGLError. rewrite (bind_silent _ _ _ _ _ (emit_run GetError t)).
  rewrite (bind_silent get _ _ _ _ eq_refl). by rewrite no_error.
Qed.

(** The arrays have their length and the renderer its kind. *)
Definition well_formed (k : kind) (rd : Renderer) : Prop :=
  r_kind rd = k ∧ length (m_vertices rd) = e_maxVertices k ∧ length (m_colors rd) = e_maxVertices k ∧
  length (m_sizes rd) = (match k with POINTS => e_maxVertices k | _ => 0%nat end) ∧
  (m_count rd ≤ e_maxVertices k)%nat.

Definition names_of (rd : Renderer) : option name * list name * option name :=
  (m_vaoId rd, m_vboIds rd, m_programId rd).

Definition emptied (rd : Renderer) : Renderer :=
  mkRenderer (r_kind rd) (m_vertices rd) (m_colors rd) (m_sizes rd) 0 (m_vaoId rd) (m_vboIds rd) (m_programId rd).

(** The calls of a flush. *)
Definition flush_calls (cam : Camera) (rd : Renderer) : trace :=
  [UseProgram (m_programId rd); UniformMatrix (BuildProjectionMatrix cam (zBias (r_kind rd)));
   BindVertexArray (m_vaoId rd);
   BindBuffer (m_vboIds rd !! 0%nat); BufferSubData (Positions (take (m_count rd) (m_vertices rd)));
   BindBuffer (m_vboIds rd !! 1%nat); BufferSubData (Colors (take (m_count rd) (m_colors rd)))] ++
  (match r_kind rd with
   | POINTS =>
       [BindBuffer (m_vboIds rd !! 2%nat); BufferSubData (Sizes (take (m_count rd) (m_sizes rd)));
        Enable "GL_PROGRAM_POINT_SIZE"; DrawArrays POINTS (m_count rd); Disable "GL_PROGRAM_POINT_SIZE"]
   | LINES => [DrawArrays LINES (m_count rd)]
   | TRIANGLES => [Enable "GL_BLEND"; BlendFunc; DrawArrays TRIANGLES (m_count rd); Disable "GL_BLEND"]
   end) ++ [GetError; BindBuffer None; BindVertexArray None; UseProgram None].

Lemma flush_run cam rd t :
  m_count rd ≠ 0%nat → Renderer_Flush cam rd t = (Ok (emptied rd), t ++ flush_calls cam rd, []).
Proof.
  intros Hn. unfold Renderer_Flush. rewrite (proj2 (Nat.eqb_neq _ _) Hn).
  repeat (rewrite (bind_silent _ _ _ _ _ (emit_run _ _)) || rewrite (bind_silent _ _ _ _ _ (emits_run _ _))
          || rewrite (bind_silent _ _ _ _ _ (check_run _))).
  unfold flush_calls. cbn [mret M_ret]. unfold emptied. f_equal. f_equal. by rewrite <- !app_assoc.
Qed.

Lemma flush_empty cam rd t : m_count rd = 0%nat → Renderer_Flush cam rd t = (Ok rd, t, []).
Proof. intros Hn. unfold Renderer_Flush. by rewrite Hn. Qed.

(** A flush draws what is pending and nothing else, and creates nothing. *)
Lemma flush_batches k cam rd t :
  well_formed k rd →
  batches k (t ++ flush_calls cam rd) = batches k t ++ [pending rd] ∧
  (∀ k', k' ≠ k → batches k' (t ++ flush_calls cam rd) = batches k' t) ∧
  live (t ++ flush_calls cam rd) = live t.
Proof.
  intros (<- & _ & _ & Hs & _).
  assert (drawn (read_trace (t ++ flush_calls cam rd)) = drawn (read_trace t) ++ [(r_kind rd, pending rd)]) as Hd.
  { rewrite read_trace_app. unfold flush_calls, pending.
    destruct (r_kind rd); cbn [app fold_left read_call drawn up_positions up_colors up_sizes];
      rewrite ?rows_take, ?rows_take_two; try done; by rewrite (nil_length_inv _ Hs). }
  unfold batches. rewrite Hd. split_and!.
  - rewrite omap_app. cbn. by rewrite decide_True.
  - intros k' Hk. rewrite omap_app. cbn. rewrite decide_False by done. apply app_nil_r.
  - rewrite live_app. unfold flush_calls. by destruct (r_kind rd).
Qed.

Lemma rows_snoc k rd v c sz :
  well_formed k rd → (m_count rd < e_maxVertices k)%nat → (k ≠ POINTS → sz = None) →
  rows (<[m_count rd := Some v]> (m_vertices rd)) (<[m_count rd := Some c]> (m_colors rd))
    (<[m_count rd := sz]> (m_sizes rd)) (S (m_count rd)) = pending rd ++ [(Some v, Some c, sz)].
Proof.
  intros (_ & Hv & Hc & Hs & _) Hi Hsz. unfold pending, rows. rewrite seq_S, fmap_app. f_equal.
  - apply list_fmap_ext. intros i x Hx. apply lookup_seq in Hx as [-> Hlt]. unfold row.
    by rewrite !list_lookup_insert_ne by lia.
  - cbn [fmap list_fmap]. unfold row. rewrite !list_lookup_insert_eq by lia.
    destruct (decide (k = POINTS)) as [-> |Hk].
    + by rewrite list_lookup_insert_eq by lia.
    + rewrite (Hsz Hk). replace (m_sizes rd) with (@nil (option float)); [done|].
      symmetry. apply nil_length_inv. by destruct k.
Qed.

(** ** The invariant

    The batches drawn so far and what is pending are the vertices submitted so far; the
    names of the renderers and the objects that live are those of the start. *)
Section invariant.
Context (names : kind → option name * list name * option name) (objects : list gl_object).

Definition whole (k : kind) (l : list vertex) : Prop :=
  (0 < length l ≤ e_maxVertices k)%nat ∧ Nat.divide (arity k) (length l).

Definition shows (subs : kind → list vertex) (d : DebugDraw) : Prop :=
  live (gl d) = objects ∧
  ∀ k, ∃ rd, renderer k d = Some rd ∧ well_formed k rd ∧ names_of rd = names k ∧
    concat (batches k (gl d)) ++ pending rd = subs k ∧ Forall (whole k) (batches k (gl d)).

Lemma renderer_set k rd k' d :
  renderer k' (set_renderer k rd d) = if decide (k' = k) then rd else renderer k' d.
Proof. by destruct k, k'. Qed.

Lemma renderer_set_gl k t d : renderer k (set_gl t d) = renderer k d.
Proof. by destruct k. Qed.

Lemma wp_zoom {S T A} E (view : S → T) (set : T → S → S) (m : M T A) Q s :
  wp E m (λ a t, Q a (set t s)) (view s) → wp E (zoom view set m) Q s.
Proof. unfold wp, zoom. by destruct (m (view s)) as [[[a|e|w] t] out]. Qed.

(** A member function that returns [rd'] after the calls [t]. *)
Lemma wp_on k f d rd rd' t (Q : unit → DebugDraw → Prop) :
  renderer k d = Some rd → f (camera d) rd (gl d) = (Ok rd', t, []) →
  Q tt (set_renderer k (Some rd') (set_gl t d)) → wp (λ _, False) (on k f) Q d.
Proof.
  intros Hr Hf HQ. unfold on. apply wp_bind, wp_get. rewrite Hr.
  apply wp_bind, wp_zoom. unfold wp at 1. rewrite Hf. done.
Qed.

(** How the invariant follows from what happens to one renderer. *)
Lemma shows_update k subs subs' d rd rd' t :
  shows subs d → renderer k d = Some rd → (∀ k', k' ≠ k → subs' k' = subs k' ∧ batches k' t = batches k' (gl d)) →
  live t = live (gl d) → well_formed k rd' → names_of rd' = names_of rd →
  concat (batches k t) ++ pending rd' = subs' k → Forall (whole k) (batches k t) →
  shows subs' (set_renderer k (Some rd') (set_gl t d)).
Proof.
  intros [HL Hk] Hrd Hother Hlive Hwf Hnames Hsubs Hall. split; [by rewrite <- HL|].
  intros k'. rewrite renderer_set, renderer_set_gl.
  destruct (Hk k') as (rd0 & Hrd0 & ? & ? & Hs0 & ?).
  destruct (decide (k' = k)) as [-> |Hne].
  - assert (rd0 = rd) as -> by congruence. exists rd'. cbn [gl set_gl set_renderer]. rewrite Hnames. auto.
  - destruct (Hother k' Hne) as [HS HB]. exists rd0. cbn [gl set_gl set_renderer].
    rewrite HS, HB. auto.
Qed.

Lemma emptied_wf k rd : well_formed k rd → well_formed k (emptied rd).
Proof. unfold well_formed. cbn. intuition lia. Qed.

Definition submit (k : kind) (v : vertex) (subs : kind → list vertex) (k' : kind) : list vertex :=
  if decide (k' = k) then subs k' ++ [v] else subs k'.

(** A full renderer draws, and then takes the vertex. *)
Lemma vertex_run k cam rd v c sz t :
  well_formed k rd → (k ≠ POINTS → sz = None) → Forall (whole k) (batches k t) →
  ∃ rd' t', Renderer_Vertex cam rd v c sz t = (Ok rd', t', []) ∧ well_formed k rd' ∧ names_of rd' = names_of rd ∧
    live t' = live t ∧ (∀ k', k' ≠ k → batches k' t' = batches k' t) ∧ Forall (whole k) (batches k t') ∧
    concat (batches k t') ++ pending rd' = concat (batches k t) ++ pending rd ++ [(Some v, Some c, sz)].
Proof.
  intros Hwf Hsz Hall. pose proof Hwf as (Hk & Hv & Hc & Hs & Hcount).
  unfold Renderer_Vertex. destruct (m_count rd =? e_maxVertices (r_kind rd))%nat eqn:Hfull.
  - apply Nat.eqb_eq in Hfull. rewrite Hk in Hfull.
    assert (m_count rd ≠ 0%nat) as Hne by (rewrite Hfull; by destruct k).
    rewrite (bind_silent _ _ _ _ _ (flush_run cam rd t Hne)). cbn [m_count emptied r_kind].
    rewrite Hk. replace (0 <? e_maxVertices k)%nat with true by (by destruct k).
    destruct (flush_batches k cam rd t Hwf) as (HB & Hother & HL).
    eexists _, _. split; [done|]. split_and!; [|done|done|done| |].
    + unfold well_formed. cbn. rewrite !length_insert. split_and!; try done. destruct k; cbn; lia.
    + rewrite HB. apply Forall_app_2, Forall_singleton; [done|]. unfold whole, pending. rewrite rows_length, Hfull.
      split; [destruct k; cbn; lia|]. exists 512%nat. by destruct k.
    + rewrite HB, concat_app. cbn [concat]. rewrite app_nil_r, <- app_assoc. f_equal. f_equal.
      exact (rows_snoc k (emptied rd) v c sz (emptied_wf k rd Hwf) ltac:(destruct k; cbn; lia) Hsz).
  - apply Nat.eqb_neq in Hfull. rewrite Hk in Hfull.
    rewrite (bind_silent (mret rd) _ t rd t eq_refl). rewrite Hk.
    replace (m_count rd <? e_maxVertices k)%nat with true by (symmetry; apply Nat.ltb_lt; lia).
    eexists _, _. split; [done|]. split_and!; [|done|done|done|done|].
    + unfold well_formed. cbn. rewrite !length_insert. split_and!; try done. lia.
    + f_equal. apply rows_snoc with k; [done|lia|done].
Qed.

(** ** Drawing commands

    [draws m l a]: run with a drawing that shows some vertices, [m] returns [a] and submits
    the vertices [l] in order. *)
Definition submit_all (l : list (kind * vertex)) (subs : kind → list vertex) : kind → list vertex :=
  fold_left (λ subs '(k, v), submit k v subs) l subs.

Definition draws {A} (m : M DebugDraw A) (l : list (kind * vertex)) (x : A) : Prop :=
  ∀ d subs, shows subs d → wp (λ _, False) m (λ y d', y = x ∧ shows (submit_all l subs) d') d.

Lemma draws_ret {A} (x : A) : draws (mret x) [] x.
Proof. by intros d subs Hd. Qed.

Lemma draws_bind {A B} (m : M DebugDraw A) (f : A → M DebugDraw B) l l' x y :
  draws m l x → draws (f x) l' y → draws (m ≫= f) (l ++ l') y.
Proof.
  intros Hm Hf d subs Hd. apply wp_bind. eapply wp_mono; [|by apply Hm].
  cbn. intros ? d' [-> Hd']. unfold submit_all. rewrite fold_left_app. by apply Hf.
Qed.

Lemma draws_on k v c sz :
  (k ≠ POINTS → sz = None) →
  draws (on k (λ cam rd, Renderer_Vertex cam rd v c sz)) [(k, (Some v, Some c, sz))] tt.
Proof.
  intros Hsz d subs Hd. pose proof Hd as [HL Hk].
  destruct (Hk k) as (rd & Hrd & Hwf & Hn & Hs & Hall).
  destruct (vertex_run k (camera d) rd v c sz (gl d) Hwf Hsz Hall)
    as (rd' & t & Hrun & Hwf' & Hn' & HL' & Hother & Hall' & Heq).
  eapply wp_on; [done|exact Hrun|]. split; [done|].
  eapply shows_update; [exact Hd|done| |done|done|done| |done].
  - intros k' Hne. split; [|by apply Hother]. cbn. unfold submit. by rewrite decide_False.
  - rewrite Heq, app_assoc, Hs. cbn. unfold submit. by rewrite decide_True.
Qed.

Definition line_vertex (c : b2Color) (v : b2Vec2) : kind * vertex := (LINES, (Some v, Some c, None)).
Definition triangle_vertex (c : b2Color) (v : b2Vec2) : kind * vertex := (TRIANGLES, (Some v, Some c, None)).

Lemma draws_lines v c : draws (lines_vertex v c) [line_vertex c v] tt.
Proof. by apply draws_on. Qed.
Lemma draws_triangles v c : draws (triangles_vertex v c) [triangle_vertex c v] tt.
Proof. by apply draws_on. Qed.
Lemma draws_points v c s : draws (points_vertex v c s) [(POINTS, (Some v, Some c, Some s))] tt.
Proof. by apply draws_on. Qed.

Lemma draws_vertex_at vs i v : vs !! i = Some v → draws (vertex_at vs (Z.of_nat i)) [] v.
Proof.
  intros Hi d subs Hd. unfold vertex_at. apply wp_lift.
  replace (Z.of_nat i <? 0) with false by (symmetry; apply Z.ltb_ge; lia). by rewrite Nat2Z.id, Hi.
Qed.

(** A loop, where round [i] starts with the variables [s i]. *)
Lemma draws_for {St} (body : Z → St → M DebugDraw St) (s : nat → St) (l : nat → list (kind * vertex)) n i :
  (∀ j, (i ≤ j < i + n)%nat → draws (body (Z.of_nat j) (s j)) (l j) (s (S j))) →
  draws (for_range n (Z.of_nat i) body (s i)) (seq i n ≫= l) (s (i + n)%nat).
Proof.
  revert i. induction n as [|n IH]; intros i Hb; cbn [for_range seq mbind list_bind].
  - rewrite Nat.add_0_r. apply draws_ret.
  - eapply draws_bind; [apply Hb; lia|]. replace (Z.of_nat i + 1) with (Z.of_nat (S i)) by lia.
    replace (i + S n)%nat with (S i + n)%nat by lia. apply IH. intros j Hj. apply Hb. lia.
Qed.

#[local] Hint Resolve draws_lines draws_triangles draws_points draws_ret draws_vertex_at : core.
(** Straight-line drawing. *)
Ltac draw_steps := repeat first [ done | eapply draws_bind; [eauto; fail|]; cbn beta iota | eauto; fail ].

(** The vertices of one kind among those submitted. *)
Definition of_kind (k : kind) (l : list (kind * vertex)) : list vertex :=
  omap (λ '(k', v), if decide (k = k') then Some v else None) l.

Lemma submit_all_kind l subs k : submit_all l subs k = subs k ++ of_kind k l.
Proof.
  revert subs. induction l as [|[k' v] l IH]; intros subs; cbn; [by rewrite app_nil_r|].
  rewrite IH. unfold submit. destruct (decide (k = k')); [|done]. by rewrite <- app_assoc.
Qed.

Lemma zip_next {A} (f : nat → A) i n :
  zip (f <$> seq i (S n)) (f <$> seq (S i) n) = (λ j, (f j, f (S j))) <$> seq i n.
Proof.
  revert i. induction n as [|n IH]; intros i; [done|].
  change (seq i (S (S n))) with (i :: seq (S i) (S n)). change (seq (S i) (S n)) with (S i :: seq (S (S i)) n) at 2.
  rewrite !fmap_cons. cbn [zip zip_with]. rewrite IH. done.
Qed.

Lemma list_as_seq {A} (x : A) (l : list A) i (f : nat → A) :
  (∀ j, (j < length l)%nat → f (i + j)%nat = nth j l x) → f <$> seq i (length l) = l.
Proof.
  revert i. induction l as [|y l IH]; intros i Hf; [done|]. cbn [length seq]. rewrite fmap_cons. f_equal.
  - specialize (Hf 0%nat). cbn in Hf. rewrite Nat.add_0_r in Hf. apply Hf. lia.
  - apply IH. intros j Hj. specialize (Hf (S j)). cbn in Hf. rewrite Nat.add_succ_r in Hf. apply Hf. lia.
Qed.

Lemma of_kind_bind {A} k (f : A → list (kind * vertex)) l : of_kind k (l ≫= f) = l ≫= λ x, of_kind k (f x).
Proof.
  induction l as [|x l IH]; [done|]. cbn. unfold of_kind at 1. rewrite omap_app. by f_equal.
Qed.

(** The vertices of lines and of triangles, as submitted. *)
Definition edges (c : b2Color) (es : list (b2Vec2 * b2Vec2)) : list (kind * vertex) :=
  es ≫= λ '(p, q), [line_vertex c p; line_vertex c q].
Definition faces (c : b2Color) (ts : list (b2Vec2 * b2Vec2 * b2Vec2)) : list (kind * vertex) :=
  ts ≫= λ '(p, q, r), [triangle_vertex c p; triangle_vertex c q; triangle_vertex c r].

Lemma edges_kind k c es : of_kind k (edges c es) = match k with LINES => lines_of c es | _ => [] end.
Proof.
  unfold edges, lines_of. rewrite of_kind_bind.
  destruct k; induction es as [|[p q] es IH]; try done; cbn; by rewrite IH.
Qed.

Lemma faces_kind k c ts : of_kind k (faces c ts) = match k with TRIANGLES => triangles_of c ts | _ => [] end.
Proof.
  unfold faces, triangles_of. rewrite of_kind_bind.
  destruct k; induction ts as [|[[p q] r] ts IH]; try done; cbn; by rewrite IH.
Qed.

Lemma of_kind_app k l l' : of_kind k (l ++ l') = of_kind k l ++ of_kind k l'.
Proof. apply omap_app. Qed.

Lemma lookup_nth {A} (l : list A) j x : (j < length l)%nat → l !! j = Some (nth j l x).
Proof. intros Hj. destruct (nth_lookup_or_length l j x); [done|lia]. Qed.

(** The loop over the outline of a polygon. *)
Lemma draws_outline vs c p :
  last vs = Some p →
  draws (p1 ← vertex_at vs (Z.of_nat (length vs) - 1);
         _ ← for_range (Z.to_nat (Z.of_nat (length vs))) 0 (λ i p1,
               p2 ← vertex_at vs i;
               _ ← lines_vertex p1 c;
               _ ← lines_vertex p2 c;
               mret p2) p1;
         mret tt) (edges c (outline vs)) tt.
Proof.
  intros Hp. pose proof Hp as Hp'. rewrite last_lookup in Hp'.
  assert (0 < length vs)%nat by (destruct vs; [done|cbn; lia]).
  replace (Z.of_nat (length vs) - 1) with (Z.of_nat (pred (length vs))) by lia.
  apply (draws_bind _ _ [] (edges c (outline vs)) p); [auto|]. rewrite Nat2Z.id, <- (app_nil_r (edges _ _)).
  set (s := λ j, nth j (p :: vs) p).
  apply (draws_bind _ _ _ _ (s (0 + length vs)%nat)); [|apply draws_ret].
  unfold edges, outline. rewrite Hp.
  assert (zip (p :: vs) vs = (λ j, (s j, s (S j))) <$> seq 0 (length vs)) as ->.
  { rewrite <- zip_next. f_equal; symmetry; [by apply (list_as_seq p (p :: vs))|].
    by apply (list_as_seq p vs). }
  rewrite list_fmap_bind. change p with (s 0%nat). change 0 with (Z.of_nat 0).
  apply (draws_for _ s (λ j, [line_vertex c (s j); line_vertex c (s (S j))])). intros j Hj.
  apply (draws_bind _ _ [] _ (s (S j))).
  { apply draws_vertex_at. unfold s. cbn [nth]. apply lookup_nth. lia. }
  apply (draws_bind _ _ [_] _ tt); [auto|]. apply (draws_bind _ _ [_] [] tt); auto.
Qed.

(** The loop over the triangles of a polygon. *)
Lemma draws_fan vs c :
  vs ≠ [] →
  draws (for_range (Z.to_nat (Z.of_nat (length vs) - 2)) 1 (λ i _,
           v0 ← vertex_at vs 0;
           _ ← triangles_vertex v0 c;
           vi ← vertex_at vs i;
           _ ← triangles_vertex vi c;
           vj ← vertex_at vs (i + 1);
           triangles_vertex vj c) tt) (faces c (fan vs)) tt.
Proof.
  destruct vs as [|v0 vs]; [done|]. intros _. unfold faces, fan. set (s := λ j, nth j (v0 :: vs) v0).
  replace (Z.to_nat (Z.of_nat (length (v0 :: vs)) - 2)) with (pred (length vs)) by (cbn [length]; lia).
  assert (zip (pair v0 <$> vs) (tail vs) = (λ j, (v0, s j, s (S j))) <$> seq 1 (pred (length vs))) as ->.
  { rewrite zip_with_fmap_l, zip_with_zip.
    assert (zip vs (tail vs) = (λ j, (s j, s (S j))) <$> seq 1 (pred (length vs))) as ->.
    { destruct vs as [|v1 vs]; [done|]. cbn [length pred tail]. rewrite <- zip_next.
      f_equal; symmetry; [by apply (list_as_seq v0 (v1 :: vs))|by apply (list_as_seq v0 vs)]. }
    by rewrite <- list_fmap_compose. }
  rewrite list_fmap_bind.
  apply (draws_for _ (λ _, tt) (λ j, [triangle_vertex c v0; triangle_vertex c (s j); triangle_vertex c (s (S j))]) _ 1).
  intros j Hj. apply (draws_bind _ _ [] _ v0); [by apply (draws_vertex_at _ 0)|].
  apply (draws_bind _ _ [_] _ tt); [auto|].
  apply (draws_bind _ _ [] _ (s j)); [apply draws_vertex_at, lookup_nth; cbn [length]; lia|].
  apply (draws_bind _ _ [_] _ tt); [auto|]. replace (Z.of_nat j + 1) with (Z.of_nat (S j)) by lia.
  apply (draws_bind _ _ [] _ (s (S j))); [apply draws_vertex_at, lookup_nth; cbn [length]; lia|]. auto.
Qed.

(** The loops around a circle: round [j] starts with the [j]th rotation. *)
Lemma draws_circle {St} (body : Z → St → M DebugDraw St) (s : b2Vec2 * b2Vec2 → St)
    (f : b2Vec2 * b2Vec2 → list (kind * vertex)) center radius r1 :
  (∀ i r1 v1, draws (body i (s (r1, v1))) (f (v1, on_circle center radius (rotate r1)))
     (s (rotate r1, on_circle center radius (rotate r1)))) →
  ∃ x, draws (for_range 16 0 body (s (r1, on_circle center radius r1))) (chords center radius r1 ≫= f) x.
Proof.
  intros Hb. set (P := λ j, on_circle center radius (Nat.iter j rotate r1)).
  unfold chords, corners. change (tail (?f <$> seq 0 17)) with (f <$> seq 1 16). rewrite zip_next, list_fmap_bind.
  eexists. refine (draws_for body (λ j, s (Nat.iter j rotate r1, P j)) _ 16 0 _).
  intros j Hj. apply Hb.
Qed.

Lemma draws_chords center radius c :
  ∃ x, draws (for_range 16 0 (λ _ '(r1, v1),
               let r2 := rotate r1 in
               let v2 := on_circle center radius r2 in
               _ ← lines_vertex v1 c;
               _ ← lines_vertex v2 c;
               mret (r2, v2)) (e_x, on_circle center radius e_x)) (edges c (chords center radius e_x)) x.
Proof.
  apply (draws_circle _ (λ x, x)). intros _ r1 v1.
  apply (draws_bind _ _ [_] [_] tt); [auto|]. apply (draws_bind _ _ [_] [] tt); auto.
Qed.

Lemma draws_disc center radius c :
  ∃ x, draws (for_range 16 0 (λ _ '(r1, v1),
               let r2 := rotate r1 in
               let v2 := on_circle center radius r2 in
               _ ← triangles_vertex center c;
               _ ← triangles_vertex v1 c;
               _ ← triangles_vertex v2 c;
               mret (r2, v2)) (Vec2 cosInc sinInc, on_circle center radius (Vec2 cosInc sinInc)))
         (faces c ((λ '(p, q), (center, p, q)) <$> chords center radius (Vec2 cosInc sinInc))) x.
Proof.
  unfold faces. rewrite list_fmap_bind.
  apply (draws_circle _ (λ x, x)). intros _ r1 v1.
  apply (draws_bind _ _ [_] [_; _] tt); [auto|]. apply (draws_bind _ _ [_] [_] tt); [auto|].
  apply (draws_bind _ _ [_] [] tt); auto.
Qed.

Lemma draws_overlay x y text : draws (overlay x y text) [] tt.
Proof. by intros d subs [HL Hd]. Qed.

(** Every command but the flush submits the vertices of its shape. *)
Lemma perform_draws c :
  drawable c → c ≠ FlushAll → ∃ l, draws (perform c) l tt ∧ ∀ k, of_kind k l = shape k c.
Proof.
  intros Hc Hf. destruct c as [vs c|vs c|o ra c|o ra ax c|p q c|xf|p s c|x y s|p s|l u c| |cam|b]; cbn [perform]; try done.
  - destruct (last vs) as [p|] eqn:Hp; [|by apply last_None in Hp].
    exists (edges c (outline vs)). split; [by apply draws_outline with p|].
    intros k. rewrite edges_kind. by destruct k.
  - destruct (last vs) as [p|] eqn:Hp; [|by apply last_None in Hp].
    exists (faces (fill_color c) (fan vs) ++ edges c (outline vs)). split.
    + eapply draws_bind; [by apply draws_fan|]. by apply draws_outline with p.
    + intros k. rewrite of_kind_app, edges_kind, faces_kind. destruct k; try done. apply app_nil_r.
  - destruct (draws_chords o ra c) as [x Hx]. exists (edges c (chords o ra e_x) ++ []). split.
    + eapply draws_bind; [exact Hx|auto].
    + intros k. rewrite app_nil_r, edges_kind. by destruct k.
  - destruct (draws_chords o ra c) as [x Hx]. destruct (draws_disc o ra (fill_color c)) as [y Hy].
    eexists. split.
    + eapply draws_bind; [exact Hy|]. eapply draws_bind; [exact Hx|]. eapply draws_bind; auto.
    + intros k. rewrite !of_kind_app, edges_kind, faces_kind. destruct k; cbn [shape]; [done| |by rewrite app_nil_r].
      unfold lines_of. by rewrite bind_app.
  - eexists. split; [eapply draws_bind; auto|]. by intros [].
  - eexists. split; [do 3 (eapply draws_bind; [auto|]); auto|]. by intros [].
  - eexists. split; [apply draws_points|]. by intros [].
  - exists []. split; [|by intros []]. intros d subs Hd. cbn. apply wp_bind, wp_get.
    destruct (m_showUI d); [by apply draws_overlay|done].
  - exists []. split; [|by intros []]. intros d subs Hd. cbn. apply wp_bind, wp_get. by apply draws_overlay.
  - eexists. split; [do 7 (eapply draws_bind; [auto|]); auto|]. by intros [].
  - exists []. split; [|by intros []]. by intros d subs [HL Hd].
  - exists []. split; [|by intros []]. by intros d subs [HL Hd].
Qed.

Lemma arity_shape k c : Nat.divide (arity k) (length (shape k c)).
Proof.
  assert (∀ c es, Nat.divide 2 (length (lines_of c es))) as Hl.
  { intros c0 es. exists (length es). induction es as [|[p q] es IH]; [done|].
    change (length (lines_of c0 ((p, q) :: es))) with (2 + length (lines_of c0 es))%nat. cbn [length]. lia. }
  assert (∀ c ts, Nat.divide 3 (length (triangles_of c ts))) as Ht.
  { intros c0 ts. exists (length ts). induction ts as [|[[p q] r] ts IH]; [done|].
    change (length (triangles_of c0 ((p, q, r) :: ts))) with (3 + length (triangles_of c0 ts))%nat. cbn [length]. lia. }
  destruct k; [apply Nat.divide_1_l| |]; destruct c; cbn [shape arity]; try apply Nat.divide_0_r; auto.
  rewrite length_app. by apply Nat.divide_add_r.
Qed.

(** ** Flushing and whole runs *)

Lemma whole_concat k ls : Forall (whole k) ls → Nat.divide (arity k) (length (concat ls)).
Proof.
  induction 1 as [|l ls [_ Hl] _ IH]; [apply Nat.divide_0_r|]. cbn [concat]. rewrite length_app.
  by apply Nat.divide_add_r.
Qed.

Definition flushed (k : kind) (d : DebugDraw) : Prop :=
  ∃ rd, renderer k d = Some rd ∧ m_count rd = 0%nat.

Lemma flush_on k subs d :
  shows subs d → Nat.divide (arity k) (length (subs k)) →
  wp (λ _, False) (on k Renderer_Flush) (λ _ d', shows subs d' ∧ flushed k d' ∧
    ∀ k', k' ≠ k → renderer k' d' = renderer k' d) d.
Proof.
  intros Hd Hsubs. pose proof Hd as [HL Hk]. destruct (Hk k) as (rd & Hrd & Hwf & Hn & Hs & Hall).
  assert (∀ rd' t, m_count rd' = 0%nat → flushed k (set_renderer k (Some rd') (set_gl t d)) ∧
    ∀ k', k' ≠ k → renderer k' (set_renderer k (Some rd') (set_gl t d)) = renderer k' d) as Hset.
  { intros rd' t Hz. split.
    - exists rd'. by rewrite renderer_set, decide_True.
    - intros k' Hne. by rewrite renderer_set, renderer_set_gl, decide_False. }
  destruct (decide (m_count rd = 0%nat)) as [Hz|Hz].
  - eapply wp_on; [done|by apply flush_empty|]. split; [|by apply Hset].
    eapply shows_update; [exact Hd|exact Hrd| | | | | |]; try done.
  - eapply wp_on; [done|by apply flush_run|]. split; [|by apply Hset].
    destruct (flush_batches k (camera d) rd (gl d) Hwf) as (HB & Hother & HL').
    eapply shows_update; [exact Hd|exact Hrd|auto|done|by apply emptied_wf|done| |].
    + rewrite HB, concat_app. cbn [concat]. unfold pending at 2. cbn [m_count emptied]. by rewrite !app_nil_r, <- Hs.
    + rewrite HB. apply Forall_app_2, Forall_singleton; [done|]. split.
      * unfold pending. rewrite rows_length. destruct Hwf as (_ & _ & _ & _ & ?). lia.
      * rewrite <- Hs, length_app in Hsubs. by eapply Nat.divide_add_cancel_r, Hsubs; apply whole_concat.
Qed.

Lemma flush_all subs d :
  shows subs d → (∀ k, Nat.divide (arity k) (length (subs k))) →
  wp (λ _, False) DebugDraw_Flush (λ _ d', shows subs d' ∧ ∀ k, flushed k d') d.
Proof.
  intros Hd Hsubs. unfold DebugDraw_Flush. apply wp_bind.
  eapply wp_mono; [|by apply (flush_on TRIANGLES subs)]. cbn beta. intros _ d1 (H1 & F1 & _).
  apply wp_bind. eapply wp_mono; [|by apply (flush_on LINES subs)]. cbn beta. intros _ d2 (H2 & F2 & K2).
  eapply wp_mono; [|by apply (flush_on POINTS subs)]. cbn beta. intros _ d3 (H3 & F3 & K3).
  split; [done|]. unfold flushed in *. intros []; [done| |].
  - by rewrite K3.
  - by rewrite K3, K2.
Qed.

Lemma shows_ext subs subs' d : (∀ k, subs k = subs' k) → shows subs d → shows subs' d.
Proof. intros He [HL Hk]. split; [done|]. intros k. rewrite <- He. apply Hk. Qed.

Lemma perform_shows c subs d :
  shows subs d → drawable c → (∀ k, Nat.divide (arity k) (length (subs k))) →
  wp (λ _, False) (perform c) (λ _ d', shows (λ k, subs k ++ shape k c) d') d.
Proof.
  intros Hd Hc Ha. assert (c = FlushAll ∨ c ≠ FlushAll) as [-> |Hne] by (destruct c; auto).
  - eapply wp_mono; [|by apply flush_all]. cbn beta. intros _ d' [Hd' _]. eapply shows_ext, Hd'.
    intros []; by rewrite app_nil_r.
  - destruct (perform_draws c Hc Hne) as (l & Hl & Hk). eapply wp_mono; [|by apply Hl].
    cbn beta. intros _ d' [_ Hd']. eapply shows_ext, Hd'. intros k. by rewrite submit_all_kind, Hk.
Qed.

Lemma perform_all_shows cs subs d :
  shows subs d → Forall drawable cs → (∀ k, Nat.divide (arity k) (length (subs k))) →
  wp (λ _, False) (perform_all cs) (λ _ d', shows (λ k, subs k ++ (cs ≫= shape k)) d') d.
Proof.
  intros Hd Hcs. revert subs d Hd. induction Hcs as [|c cs Hc _ IH]; intros subs d Hd Ha; cbn [perform_all].
  - eapply shows_ext, Hd. intros k. by rewrite app_nil_r.
  - apply wp_bind. eapply wp_mono; [|by apply perform_shows]. cbn beta. intros _ d' Hd'.
    eapply wp_mono; [|apply (IH _ _ Hd')].
    + cbn beta. intros _ d2. apply shows_ext. intros k. cbn. by rewrite <- app_assoc.
    + intros k. rewrite length_app. apply Nat.divide_add_r; [done|apply arity_shape].
Qed.
End invariant.

(** ** Creation and destruction *)

Context (compiles : ∀ t, compile_ok t = true) (links : ∀ t, link_ok t = true).

Lemma generate1_run c t : generate1 c t = (Ok (length t, 0%nat), t ++ [c], []).
Proof. done. Qed.
Lemma generate_run c n t : generate c n t = (Ok (pair (length t) <$> seq 0 n), t ++ [c], []).
Proof. done. Qed.

Lemma shader_run v t :
  sCreateShaderFromString v t =
  (Ok (Some (length t, 0%nat)), t ++ [CreateShader v; CompileShader (length t, 0%nat)], []).
Proof.
  unfold sCreateShaderFromString. rewrite (bind_silent _ _ _ _ _ (generate1_run _ _)).
  rewrite (bind_silent _ _ _ _ _ (emit_run _ _)), (bind_silent get _ _ _ _ eq_refl), compiles.
  by rewrite <- app_assoc.
Qed.

(** The calls of a creation that starts after [n] calls, and the renderer it gives. *)
Definition create_calls (k : kind) (n : nat) : trace :=
  let vs := (n, 0)%nat in let fs := (n + 2, 0)%nat in let prog := (n + 4, 0)%nat in
  let vbo i := Some (n + 13, i)%nat in
  [CreateShader true; CompileShader vs; CreateShader false; CompileShader fs; CreateProgram;
   AttachShader prog vs; AttachShader prog fs; BindFragDataLocation prog; LinkProgram prog;
   DeleteShader vs; DeleteShader fs; GetUniformLocation prog; GenVertexArrays;
   GenBuffers (number_of_buffers k); BindVertexArray (Some (n + 12, 0)%nat)] ++
  (EnableVertexAttribArray <$> match k with POINTS => [0; 1; 2] | _ => [0; 1] end) ++
  attribute 0 2 (vbo 0%nat) ++ attribute 1 4 (vbo 1%nat) ++
  (match k with POINTS => attribute 2 1 (vbo 2%nat) | _ => [] end) ++
  [GetError; BindBuffer None; BindVertexArray None].

Definition created (k : kind) (n : nat) : Renderer :=
  let m := e_maxVertices k in
  mkRenderer k (replicate m None) (replicate m None)
    (match k with POINTS => replicate m None | _ => [] end) 0 (Some (n + 12, 0)%nat)
    (pair (n + 13)%nat <$> seq 0 (number_of_buffers k)) (Some (n + 4, 0)%nat).

Lemma program_run t :
  sCreateShaderProgram t = (Ok (length t + 4, 0)%nat, t ++ take 11 (create_calls LINES (length t)), []).
Proof.
  unfold sCreateShaderProgram. rewrite !(bind_silent _ _ _ _ _ (shader_run _ _)).
  rewrite (bind_silent _ _ _ _ _ (generate1_run _ _)). rewrite !(bind_silent _ _ _ _ _ (emit_run _ _)).
  rewrite (bind_silent get _ _ _ _ eq_refl), links, <- !app_assoc, !length_app.
  reflexivity.
Qed.

Lemma create_run k t :
  Renderer_Create k t = (Ok (created k (length t)), t ++ create_calls k (length t), []).
Proof.
  unfold Renderer_Create. rewrite (bind_silent _ _ _ _ _ (program_run t)).
  rewrite (bind_silent _ _ _ _ _ (emit_run _ _)), (bind_silent _ _ _ _ _ (generate1_run _ _)).
  rewrite (bind_silent _ _ _ _ _ (generate_run _ _ _)), (bind_silent _ _ _ _ _ (emit_run _ _)).
  rewrite !(bind_silent _ _ _ _ _ (emits_run _ _)).
  set (n := length t).
  assert (∀ l, length (t ++ l) = (n + length l)%nat) as Hlen by (intros; apply length_app).
  destruct k.
  all: rewrite ?(bind_silent _ _ _ _ _ (emits_run _ _)), ?(bind_silent (mret tt) _ _ _ _ eq_refl).
  all: rewrite (bind_silent _ _ _ _ _ (check_run _)), ?(bind_silent _ _ _ _ _ (emits_run _ _)).
  all: cbn [mret M_ret]; unfold created; rewrite <- !app_assoc, !Hlen; cbn [length app take create_calls];
    reflexivity.
Qed.

(** A run on the state of OpenGL is a run of the drawing. *)
Lemma in_gl_run {A} (m : M trace A) d x t : m (gl d) = (Ok x, t, []) → in_gl m d = (Ok x, set_gl t d, []).
Proof. unfold in_gl, zoom. by intros ->. Qed.

Definition offset (k : kind) : nat := match k with POINTS => 0 | LINES => 30 | TRIANGLES => 56 end.
Definition creation : trace := create_calls POINTS 0 ++ create_calls LINES 30 ++ create_calls TRIANGLES 56.
Definition ready : DebugDraw :=
  mkDraw new_camera true (Some (created POINTS 0)) (Some (created LINES 30)) (Some (created TRIANGLES 56)) creation [].

Lemma draw_create_run : DebugDraw_Create (new_draw []) = (Ok tt, ready, []).
Proof.
  unfold DebugDraw_Create, GLRenderLines_Create, GLRenderTriangles_Create.
  rewrite (bind_silent _ _ _ _ _ (in_gl_run _ (new_draw []) _ _ (create_run POINTS []))).
  rewrite (bind_silent (assign_renderer POINTS _) _ _ _ _ eq_refl).
  rewrite (bind_silent _ _ _ _ _ (in_gl_run _ _ _ _ (create_run LINES _))).
  rewrite (bind_silent (assign_renderer LINES _) _ _ _ _ eq_refl).
  by rewrite (bind_silent _ _ _ _ _ (in_gl_run _ _ _ _ (create_run TRIANGLES _))).
Qed.

Definition first_names (k : kind) : option name * list name * option name := names_of (created k (offset k)).

Lemma ready_shows : shows first_names (live creation) (λ _, []) ready.
Proof.
  split; [done|]. intros k. exists (created k (offset k)).
  split_and!; [by destruct k| |done|by destruct k|by destruct k].
  unfold well_formed. destruct k; cbn [created m_vertices m_colors m_sizes m_count r_kind];
    rewrite ?length_replicate; cbn; split_and!; (done || lia).
Qed.

Definition destroy_calls (names : option name * list name * option name) : trace :=
  let '(vao, vbos, prog) := names in
  (match vao with Some v => [DeleteVertexArrays v; DeleteBuffers (take 2 vbos)] | None => [] end) ++
  (match prog with Some p => [DeleteProgram p] | None => [] end).

Lemma destroy_run rd t : Renderer_Destroy rd t = (Ok tt, t ++ destroy_calls (names_of rd), []).
Proof.
  unfold Renderer_Destroy, names_of, destroy_calls.
  destruct (m_vaoId rd) as [v|]; [rewrite (bind_silent _ _ _ _ _ (emits_run _ _))
    |rewrite (bind_silent (mret tt) _ _ _ _ eq_refl)];
    destruct (m_programId rd) as [p|]; cbn [app]; rewrite ?emit_run, <- ?app_assoc; try done.
  cbn. by rewrite app_nil_r.
Qed.

Lemma destroy_one k d rd t :
  renderer k d = Some rd → t = gl d ++ destroy_calls (names_of rd) →
  destroy_with k Renderer_Destroy d = (Ok tt, set_renderer k None (set_gl t d), []).
Proof.
  intros Hr ->. unfold destroy_with. rewrite (bind_silent get _ _ _ _ eq_refl), Hr.
  by rewrite (bind_silent _ _ _ _ _ (in_gl_run _ _ _ _ (destroy_run rd (gl d)))).
Qed.

Definition destruction : trace :=
  destroy_calls (first_names POINTS) ++ destroy_calls (first_names LINES) ++ destroy_calls (first_names TRIANGLES).

Lemma draw_destroy_run d subs :
  shows first_names (live creation) subs d →
  ∃ d', DebugDraw_Destroy d = (Ok tt, d', []) ∧ gl d' = gl d ++ destruction ∧ ∀ k, renderer k d' = None.
Proof.
  intros [_ Hk]. destruct (Hk POINTS) as (p & Hp & _ & Np & _). destruct (Hk LINES) as (l & Hl & _ & Nl & _).
  destruct (Hk TRIANGLES) as (tr & Ht & _ & Nt & _).
  unfold DebugDraw_Destroy, GLRenderLines_Destroy, GLRenderTriangles_Destroy. cbn in Hp, Hl, Ht.
  rewrite (bind_silent _ _ _ _ _ (destroy_one POINTS d p _ Hp eq_refl)).
  erewrite (bind_silent _ _ _ _ _ (destroy_one LINES _ l _ _ eq_refl)).
  erewrite (destroy_one TRIANGLES _ tr _ _ eq_refl).
  eexists. split; [done|]. split; [|by intros []].
  unfold destruction. rewrite <- Np, <- Nl, <- Nt. cbn [gl set_gl set_renderer]. by rewrite <- !app_assoc.
  Unshelve. all: done.
Qed.

(** A session: creation, drawing, a flush, destruction. *)
Definition drawing_session (cs : list command) : M DebugDraw unit :=
  _ ← DebugDraw_Create; _ ← perform_all cs; _ ← DebugDraw_Flush; _ ← DebugDraw_Destroy; destruct_draw.

Lemma read_destruction k t : batches k (t ++ destruction) = batches k t.
Proof. unfold batches. by rewrite read_trace_app. Qed.

Lemma live_destruction t : live t = live creation → live (t ++ destruction) = [Buffer (13, 2)%nat].
Proof. intros Ht. rewrite live_app, Ht. vm_compute. reflexivity. Qed.

Lemma wp_returns {S A} (m : M S A) (Q : A → S → Prop) s :
  wp (λ _, False) m Q s → ∃ a s' out, m s = (Ok a, s', out) ∧ Q a s'.
Proof. unfold wp. destruct (m s) as [[[x|e|w] s'] out]; [|done|done]. by exists x, s', out. Qed.

Lemma arity_shapes cs k : Nat.divide (arity k) (length ((λ _, []) k ++ (cs ≫= shape k))).
Proof.
  cbn. induction cs as [|c cs IH]; [apply Nat.divide_0_r|]. cbn. rewrite length_app.
  apply Nat.divide_add_r; [apply arity_shape|done].
Qed.

(** What is drawn, at the end of a session. *)
Lemma session_wp cs :
  Forall drawable cs →
  wp (λ _, False) (drawing_session cs) (λ _ d,
    live (gl d) = [Buffer (13, 2)%nat] ∧
    ∀ k, concat (batches k (gl d)) = cs ≫= shape k ∧ Forall (whole k) (batches k (gl d))) (new_draw []).
Proof.
  intros Hcs. unfold drawing_session. apply wp_bind. unfold wp at 1. rewrite draw_create_run. cbn beta iota.
  apply wp_bind. eapply wp_mono; [|apply (perform_all_shows _ _ _ _ _ ready_shows Hcs)];
    [|intros k; apply Nat.divide_0_r]. cbn beta. intros _ d Hd. apply wp_bind.
  eapply wp_mono; [|apply (flush_all _ _ _ _ Hd)].
  - cbn beta. intros _ d1 [H1 F1]. destruct (draw_destroy_run _ _ H1) as (d2 & Hrun & Hgl & Hnone).
    apply wp_bind. unfold wp at 1. rewrite Hrun. cbn beta iota. unfold destruct_draw.
    apply wp_bind, wp_get. pose proof (Hnone POINTS) as HP. pose proof (Hnone LINES) as HLi. pose proof (Hnone TRIANGLES) as HT.
    cbn in HP, HLi, HT. rewrite HP, HLi, HT. apply wp_ret. rewrite Hgl. destruct H1 as [HL Hk]. split; [by apply live_destruction|].
    intros k. rewrite read_destruction. destruct (Hk k) as (rd & Hrd & _ & _ & Hs & Hall). split; [|done].
    destruct (F1 k) as (rd' & Hrd' & Hz). assert (rd' = rd) as -> by congruence.
    unfold pending in Hs. by rewrite Hz, app_nil_r in Hs.
  - intros k. apply arity_shapes.
Qed.

(** C35: A session of drawing.  For any sequence of drawing commands, each with the polygons
    non-empty, and with flushes, camera movements and texts in between, where OpenGL reports
    no error and the shaders compile and link: the session runs to its end without failed
    assertion or undefined behaviour; the points, lines and triangles of the shapes reach
    [glDrawArrays] once each and in order; every batch fits the renderer's arrays and holds
    whole primitives, though renderers flush in the middle of shapes when they are full; and
    of all the OpenGL objects created one buffer is left, the third one of the points. *)
Theorem draws_every_primitive cs :
  Forall drawable cs →
  ∃ d out, drawing_session cs (new_draw []) = (Ok tt, d, out) ∧
    (∀ k, concat (batches k (gl d)) = cs ≫= shape k ∧
          Forall (λ l, 0 < length l ≤ e_maxVertices k ∧ Nat.divide (arity k) (length l))%nat (batches k (gl d))) ∧
    live (gl d) = [Buffer (13, 2)%nat].
Proof.
  intros Hcs. destruct (wp_returns _ _ _ (session_wp cs Hcs)) as ([] & d & out & Hrun & HL & Hk). eauto.
Qed.
End draw.

Lemma draws_every_primitive_witness :
  let add v w := Vec2 (fadd (vx v) (vx w)) (fadd (vy v) (vy w)) in
  let sub v w := Vec2 (fsub (vx v) (vx w)) (fsub (vy v) (vy w)) in
  let mul s v := Vec2 (fmul s (vx v)) (fmul s (vy v)) in
  let color r g b := Color r g b (float_of_Z 1) in
  let white := Color (float_of_Z 1) (float_of_Z 1) (float_of_Z 1) (float_of_Z 1) in
  let p x y := Vec2 (float_of_Z x) (float_of_Z y) in
  ∃ d out, drawing_session (λ _, 0) (λ _, true) (λ _, true) (λ _, None) add sub mul color
      (λ _ : unit, p 1 0) (λ _, p 0 1) (λ _, float_of_Z 0) (λ _, float_of_Z 1) (float_of_Z 3)
      [SolidPolygon [p 0 0; p 1 0; p 1 1] white; FlushAll; Point (p 2 2) (float_of_Z 5) white] (new_draw [])
      = (Ok tt, d, out) ∧
    length (concat (batches TRIANGLES (gl d))) = 3%nat ∧ length (concat (batches LINES (gl d))) = 6%nat ∧
    length (concat (batches POINTS (gl d))) = 1%nat.
Proof.
  intros add sub mul color white p.
  destruct (draws_every_primitive (λ _, 0) (λ _, true) (λ _, true) (λ _, None) add sub mul color
      (λ _ : unit, p 1 0) (λ _, p 0 1) (λ _, float_of_Z 0) (λ _, float_of_Z 1) (float_of_Z 3)
      (λ _, eq_refl) (λ _, eq_refl) (λ _, eq_refl)
      [SolidPolygon [p 0 0; p 1 0; p 1 1] white; FlushAll; Point (p 2 2) (float_of_Z 5) white])
    as (d & out & Hrun & Hk & _); [by repeat constructor|].
  exists d, out. split; [exact Hrun|]. clear Hrun.
  split; [rewrite (proj1 (Hk TRIANGLES)); vm_compute; reflexivity|].
  split; [rewrite (proj1 (Hk LINES)); vm_compute; reflexivity|].
  rewrite (proj1 (Hk POINTS)); vm_compute; reflexivity.
Defined.
