(* ===== verification/Box2dSim.v ===== *)
(** The simulation loop of the Box2D example:
    [src/third_party_examples/box2d_example/include/box2dsim/box2dsim.h].

    The window library, ImGui and the physics are the environment: whether the window and the
    loader could be set up, and for each turn of the loop until the window is closed the sizes,
    the times, and the shapes that the world draws.  The calls made to them are recorded; the
    drawing itself is that of [Box2dDraw], and each swap of the buffers is recorded with the
    OpenGL calls made so far.

    The theorems: the loop runs to its end, each swap shows what the world drew in the turns so
    far, and everything that was acquired is released; what is left behind when the setup
    fails or the step function throws. *)
From Stdlib Require Import Floats.SpecFloat.
From S2P Require Import Prelude Text Float Box2dSettings Box2dDraw.
Local Open Scope Z_scope.
Local Open Scope list_scope.

Inductive sim_call :=
| SetErrorCallback | GlfwInit | WindowHint (minor : bool) (value : Z) | CreateWindow (width height : Z)
| MakeContextCurrent | SwapInterval (n : Z) | LoaderInit
| CreateContext | StyleColorsDark | ImplGlfwInit | ImplOpenGL3Init (glsl_version : string) | SetDebugDraw
| Viewport (width height : Z) | Clear | NewFrame | Overlay (width height : float)
| WorldStep (timeStep : float) (velocityIterations positionIterations : Z) | SetFlags (flags : Z)
| RenderDrawData | SwapBuffers (so_far : trace) | PollEvents | SleepFor (seconds : double)
| ImplOpenGL3Shutdown | ImplGlfwShutdown | DestroyContext | DestroyWindow | GlfwTerminate.

Section sim.
Context (gl_error : trace → Z) (compile_ok link_ok : trace → bool) (info_log : trace → option string).
Context (vec_add vec_sub : b2Vec2 → b2Vec2 → b2Vec2) (vec_mul : float → b2Vec2 → b2Vec2).
Context (opaque_color : float → float → float → b2Color).
Context {b2Rot : Type} (GetXAxis GetYAxis : b2Rot → b2Vec2).
Context (sinf cosf : float → float) (b2_pi : float).
(** The bits of [b2Draw]. *)
Context (e_shapeBit e_jointBit e_aabbBit e_centerOfMassBit : Z).

(** A turn of the loop, as the environment has it: the sizes of the window and of the frame
    buffer, how the step function ends, what the world draws for given flags, and the three
    readings of the clock in nanoseconds. *)
Record turn := mkTurn {
  window_size : Z * Z; framebuffer_size : Z * Z; stepped : outcome unit;
  drawn : Z → list (@command b2Rot); t1 : Z; t2 : Z; t3 : Z }.

Record sim := mkSim { draw : DebugDraw; calls : list sim_call; sleepAdjust : double }.

Definition set_draw (d : DebugDraw) (s : sim) : sim := mkSim d (calls s) (sleepAdjust s).
Definition call (c : sim_call) : M sim unit := s ← get; put (mkSim (draw s) (calls s ++ [c]) (sleepAdjust s)).
Definition in_draw {A} (m : M DebugDraw A) : M sim A := zoom draw set_draw m.
Definition set_camera_size (size : Z * Z) : M DebugDraw unit :=
  d ← get;
  put (mkDraw (mkCamera (m_center (camera d)) (m_zoom (camera d)) size.1 size.2) (m_showUI d)
         (m_points d) (m_lines d) (m_triangles d) (gl d) (imgui d)).

(* @src third_party_examples/box2d_example/include/box2dsim/box2dsim.h 79-131 Box2DSim::run *)
(** The window and the loader; the code for Apple is left out. *)
Definition setup_window (init_ok window_ok loader_ok : bool) : M sim unit :=
  _ ← call SetErrorCallback;
  _ ← call GlfwInit;
  if negb init_ok then throw "glfw initialization failed!" else
  _ ← call (WindowHint false 3);
  _ ← call (WindowHint true 0);
  _ ← call (CreateWindow 1280 720);
  if negb window_ok then throw "Main windows cannot be constructed." else
  _ ← call MakeContextCurrent;
  _ ← call (SwapInterval 1);
  _ ← call LoaderInit;
  if negb loader_ok then throw "Failed to initialize OpenGL loader!" else
  mret tt.

(* @src third_party_examples/box2d_example/include/box2dsim/box2dsim.h 133-166 Box2DSim::run *)
Definition setup_drawing : M sim unit :=
  _ ← call CreateContext;
  _ ← call StyleColorsDark;
  _ ← call ImplGlfwInit;
  _ ← call (ImplOpenGL3Init "#version 130");
  _ ← in_draw (DebugDraw_Create gl_error compile_ok link_ok info_log);
  call SetDebugDraw.

Definition bit (b : bool) (v : Z) : Z := if b then v else 0.

(* @src third_party_examples/box2d_example/include/box2dsim/box2dsim.h 197-202 Box2DSim::run *)
Definition draw_flags (settings : Settings) : Z :=
  let flags := uwrap 32 (bit (m_drawShapes settings) e_shapeBit) in
  let flags := uwrap 32 (flags + bit (m_drawJoints settings) e_jointBit) in
  let flags := uwrap 32 (flags + bit (m_drawAABBs settings) e_aabbBit) in
  uwrap 32 (flags + bit (m_drawCOMs settings) e_centerOfMassBit).

(** Nanoseconds as [std::chrono::duration<double>]. *)
Definition seconds (ns : Z) : double := ddiv (double_of_Z ns) (double_of_Z 1000000000).

(* @src third_party_examples/box2d_example/include/box2dsim/box2dsim.h 212-225 Box2DSim::run *)
Definition throttle (t : turn) : M sim unit :=
  s ← get;
  let target := ddiv (double_of_Z 1) (double_of_Z 60) in
  let timeUsed := seconds (t2 t - t1 t) in
  let sleepTime := dadd (dsub target timeUsed) (sleepAdjust s) in
  _ ← (if SFltb (double_of_Z 0) sleepTime then call (SleepFor sleepTime) else mret tt);
  let frameTime := seconds (t3 t - t1 t) in
  s ← get;
  put (mkSim (draw s) (calls s)
         (dadd (dmul (decimal 9 10) (sleepAdjust s)) (dmul (decimal 1 10) (dsub target frameTime)))).

(* @src third_party_examples/box2d_example/include/box2dsim/box2dsim.h 169-210 Box2DSim::run *)
(** An exception of the step function destroys [debugDraw]. *)
Definition turn_of_loop (settings : Settings) (t : turn) : M sim unit :=
  _ ← in_draw (set_camera_size (window_size t));
  _ ← call (Viewport (framebuffer_size t).1 (framebuffer_size t).2);
  _ ← call Clear;
  _ ← call NewFrame;
  s ← get;
  _ ← (if m_showUI (draw s)
       then call (Overlay (float_of_Z (m_width (camera (draw s)))) (float_of_Z (m_height (camera (draw s)))))
       else mret tt);
  match stepped t with
  | Throw e => _ ← in_draw destruct_draw; throw e
  | UB w => lift (UB w)
  | Ok _ =>
      _ ← call (WorldStep (fdiv (float_of_Z 1) (float_of_Z 60)) 6 2);
      let flags := draw_flags settings in
      _ ← call (SetFlags flags);
      _ ← in_draw (perform_all gl_error vec_add vec_sub vec_mul opaque_color GetXAxis GetYAxis sinf cosf b2_pi (drawn t flags));
      _ ← in_draw (DebugDraw_Flush gl_error vec_add vec_sub vec_mul);
      _ ← call RenderDrawData;
      s ← get;
      _ ← call (SwapBuffers (gl (draw s)));
      _ ← call PollEvents;
      throttle t
  end.

(** The turns until the window is closed. *)
Fixpoint main_loop (settings : Settings) (ts : list turn) : M sim unit :=
  match ts with [] => mret tt | t :: ts => _ ← turn_of_loop settings t; main_loop settings ts end.

(* @src third_party_examples/box2d_example/include/box2dsim/box2dsim.h 228-236 Box2DSim::run *)
Definition cleanup : M sim unit :=
  _ ← in_draw DebugDraw_Destroy;
  _ ← call ImplOpenGL3Shutdown;
  _ ← call ImplGlfwShutdown;
  _ ← call DestroyContext;
  _ ← call DestroyWindow;
  _ ← call GlfwTerminate;
  in_draw destruct_draw.

(* @src third_party_examples/box2d_example/include/box2dsim/box2dsim.h 77-78 Box2DSim::run *)
Definition Box2DSim_run (init_ok window_ok loader_ok : bool) (ts : list turn) : M sim unit :=
  _ ← setup_window init_ok window_ok loader_ok;
  _ ← setup_drawing;
  _ ← main_loop Reset ts;
  cleanup.

Definition start : sim := mkSim (new_draw []) [] (double_of_Z 0).

(** ** What is shown and what is held *)

(** The OpenGL calls at each swap of the buffers. *)
Definition swaps (cs : list sim_call) : list trace :=
  omap (λ c, match c with SwapBuffers t => Some t | _ => None end) cs.

Inductive resource := Glfw | Window | ImGuiContext | GlfwBackend | OpenGLBackend.

(** What has been acquired and not been released, the newest first; [None] where something is
    released that is not the newest. *)
Definition hold (r : option (list resource)) (c : sim_call) : option (list resource) :=
  l ← r;
  match c, l with
  | GlfwInit, _ => Some (Glfw :: l)
  | CreateWindow _ _, _ => Some (Window :: l)
  | CreateContext, _ => Some (ImGuiContext :: l)
  | ImplGlfwInit, _ => Some (GlfwBackend :: l)
  | ImplOpenGL3Init _, _ => Some (OpenGLBackend :: l)
  | ImplOpenGL3Shutdown, OpenGLBackend :: l => Some l
  | ImplGlfwShutdown, GlfwBackend :: l => Some l
  | DestroyContext, ImGuiContext :: l => Some l
  | DestroyWindow, Window :: l => Some l
  | GlfwTerminate, Glfw :: l => Some l
  | (ImplOpenGL3Shutdown | ImplGlfwShutdown | DestroyContext | DestroyWindow | GlfwTerminate), _ => None
  | _, _ => Some l
  end.
Definition held (cs : list sim_call) : option (list resource) := foldl hold (Some []) cs.

(** The primitives that the world draws in a turn. *)
Definition pictures (k : kind) (t : turn) : list vertex :=
  drawn t (draw_flags Reset) ≫= shape vec_add vec_mul opaque_color GetXAxis GetYAxis sinf cosf b2_pi k.

Definition quiet (t : turn) : Prop := stepped t = Ok tt ∧ ∀ flags, Forall drawable (drawn t flags).

Lemma wp_call E c Q s : Q tt (mkSim (draw s) (calls s ++ [c]) (sleepAdjust s)) → wp E (call c) Q s.
Proof. intros H. apply wp_bind, wp_get, wp_put, H. Qed.

Lemma wp_in_draw {A} E (m : M DebugDraw A) Q s :
  wp E m (λ x d, Q x (mkSim d (calls s) (sleepAdjust s))) (draw s) → wp E (in_draw m) Q s.
Proof. exact (wp_zoom E draw set_draw m Q s). Qed.

Lemma pictures_whole k ts : Nat.divide (arity k) (length (ts ≫= pictures k)).
Proof.
  induction ts as [|t ts IH]; [apply Nat.divide_0_r|]. cbn. rewrite length_app. apply Nat.divide_add_r; [|done].
  apply (arity_shapes vec_add vec_mul opaque_color GetXAxis GetYAxis sinf cosf b2_pi).
Qed.

Context (no_error : ∀ t, gl_error t = 0) (compiles : ∀ t, compile_ok t = true) (links : ∀ t, link_ok t = true).

Abbreviation showing := (shows first_names (live creation)).

Lemma held_app cs cs' : held (cs ++ cs') = foldl hold (held cs) cs'.
Proof. apply foldl_app. Qed.

Lemma swaps_app cs cs' : swaps (cs ++ cs') = swaps cs ++ swaps cs'.
Proof. apply omap_app. Qed.

Lemma throttle_wp t Q s :
  (∀ s', draw s' = draw s → swaps (calls s') = swaps (calls s) → held (calls s') = held (calls s) → Q tt s') →
  wp (λ _, False) (throttle t) Q s.
Proof.
  intros HQ. unfold throttle. apply wp_bind, wp_get, wp_bind.
  destruct (SFltb _ _); [apply wp_call|apply wp_ret]; apply wp_bind, wp_get, wp_put; apply HQ; cbn [draw calls]; try done.
  - rewrite swaps_app. apply app_nil_r.
  - rewrite held_app. by destruct (held (calls s)).
Qed.

Lemma turn_wp t ts s l : quiet t → showing (λ k, ts ≫= pictures k) (draw s) → held (calls s) = Some l →
  wp (λ _, False) (turn_of_loop Reset t) (λ _ s', showing (λ k, (ts ++ [t]) ≫= pictures k) (draw s') ∧
    held (calls s') = Some l ∧
    ∃ tr, swaps (calls s') = swaps (calls s) ++ [tr] ∧ ∀ k, concat (batches k tr) = (ts ++ [t]) ≫= pictures k) s.
Proof.
  intros [Hstep Hdraw] Hs Hl. unfold turn_of_loop. apply wp_bind, wp_in_draw. unfold set_camera_size. apply wp_bind, wp_get, wp_put.
  do 3 (apply wp_bind, wp_call). apply wp_bind, wp_get. cbn [draw calls sleepAdjust m_showUI camera].
  apply wp_bind. rewrite Hstep.
  assert (∀ s1, showing (λ k, ts ≫= pictures k) (draw s1) → held (calls s1) = Some l → swaps (calls s1) = swaps (calls s) →
    wp (λ _, False)
      (_ ← call (WorldStep (fdiv (float_of_Z 1) (float_of_Z 60)) 6 2);
       let flags := draw_flags Reset in
       _ ← call (SetFlags flags);
       _ ← in_draw (perform_all gl_error vec_add vec_sub vec_mul opaque_color GetXAxis GetYAxis sinf cosf b2_pi (drawn t flags));
       _ ← in_draw (DebugDraw_Flush gl_error vec_add vec_sub vec_mul);
       _ ← call RenderDrawData;
       s ← get;
       _ ← call (SwapBuffers (gl (draw s)));
       _ ← call PollEvents;
       throttle t)
      (λ _ s', showing (λ k, (ts ++ [t]) ≫= pictures k) (draw s') ∧ held (calls s') = Some l ∧
        ∃ tr, swaps (calls s') = swaps (calls s) ++ [tr] ∧ ∀ k, concat (batches k tr) = (ts ++ [t]) ≫= pictures k) s1) as Hrest.
  { intros s1 H1 Hl1 Hsw1. cbn zeta. do 2 (apply wp_bind, wp_call). apply wp_bind, wp_in_draw. cbn [draw calls sleepAdjust].
    eapply wp_mono; [|eapply perform_all_shows; [exact no_error|exact H1|apply Hdraw|intros k; apply pictures_whole]].
    cbn beta. intros _ d1 Hd1.
    assert (showing (λ k, (ts ++ [t]) ≫= pictures k) d1) as Hd1'.
    { eapply shows_ext, Hd1. intros k. rewrite bind_app. cbn. by rewrite app_nil_r. }
    apply wp_bind, wp_in_draw. cbn [draw calls sleepAdjust].
    eapply wp_mono; [|eapply flush_all; try exact no_error; try exact Hd1'; try done; intros k; apply pictures_whole].
    cbn beta. intros _ d2 [Hd2 F2]. apply wp_bind, wp_call, wp_bind, wp_get.
    do 2 (apply wp_bind, wp_call). cbn [draw calls sleepAdjust].
    apply throttle_wp. cbn [draw calls]. intros s' Hd' Hsw' Hh'. rewrite Hd', Hsw', Hh'. split; [done|].
    rewrite <- !app_assoc. cbn [app]. rewrite held_app, swaps_app, Hl1, Hsw1. cbn. split; [done|].
    exists (gl d2). split; [done|]. intros k. destruct Hd2 as [_ Hk]. destruct (Hk k) as (rd & Hrd & _ & _ & Hcat & _).
    destruct (F2 k) as (rd' & Hrd' & Hz). assert (rd' = rd) as -> by congruence.
    unfold pending in Hcat. by rewrite Hz, app_nil_r in Hcat. }
  destruct (m_showUI (draw s)); [apply wp_call|apply wp_ret]; apply Hrest; cbn [draw calls sleepAdjust]; try done;
    rewrite <- !app_assoc; cbn [app]; rewrite ?held_app, ?swaps_app, ?Hl; try done; cbn; by rewrite app_nil_r.
Qed.

Lemma loop_wp ts before s l : Forall quiet ts → showing (λ k, before ≫= pictures k) (draw s) → held (calls s) = Some l →
  wp (λ _, False) (main_loop Reset ts) (λ _ s', showing (λ k, (before ++ ts) ≫= pictures k) (draw s') ∧
    held (calls s') = Some l ∧
    ∃ trs, swaps (calls s') = swaps (calls s) ++ trs ∧ length trs = length ts ∧
      ∀ i tr, trs !! i = Some tr → ∀ k, concat (batches k tr) = (before ++ take (S i) ts) ≫= pictures k) s.
Proof.
  intros Hts. revert before s. induction Hts as [|t ts Ht _ IH]; intros before s Hs Hl; cbn [main_loop].
  { apply wp_ret. rewrite app_nil_r. split; [done|]. split; [done|]. exists []. by rewrite app_nil_r. }
  apply wp_bind. eapply wp_mono; [|by apply (turn_wp t before s l Ht)]. cbn beta.
  intros _ s1 (Hs1 & Hl1 & tr & Hsw & Htr). eapply wp_mono; [|apply (IH _ _ Hs1 Hl1)]. cbn beta.
  intros _ s2 (Hs2 & Hl2 & trs & Hsw2 & Hlen & Htrs). rewrite <- app_assoc in Hs2. cbn [app] in Hs2.
  split; [done|]. split; [done|]. exists (tr :: trs). split; [by rewrite Hsw2, Hsw, <- app_assoc|].
  split; [cbn; by rewrite Hlen|]. intros [|i] tr' Hi k; cbn in Hi; simplify_eq.
  - rewrite Htr. done.
  - rewrite (Htrs i tr' Hi k), <- app_assoc. done.
Qed.

Lemma setup_run : ∃ s0 s1,
  setup_window true true true start = (Ok tt, s0, []) ∧ setup_drawing s0 = (Ok tt, s1, []) ∧
  draw s1 = ready ∧ swaps (calls s1) = [] ∧
  held (calls s1) = Some [OpenGLBackend; GlfwBackend; ImGuiContext; Window; Glfw].
Proof.
  eexists _, _. split; [reflexivity|]. split.
  - unfold setup_drawing. do 4 rewrite (bind_silent (call _) _ _ _ _ eq_refl). cbn [draw calls sleepAdjust start app].
    unfold in_draw. erewrite bind_silent; [reflexivity|]. unfold zoom. cbn [draw]. by rewrite draw_create_run.
  - done.
Qed.

Lemma setup_then E ts Q : (∀ s, draw s = ready → swaps (calls s) = [] →
    held (calls s) = Some [OpenGLBackend; GlfwBackend; ImGuiContext; Window; Glfw] →
    wp E (_ ← main_loop Reset ts; cleanup) Q s) →
  wp E (Box2DSim_run true true true ts) Q start.
Proof.
  intros H. destruct setup_run as (s0 & s1 & E0 & E1 & Hd & Hsw & Hh). unfold Box2DSim_run, wp.
  rewrite (bind_silent _ _ _ _ _ E0), (bind_silent _ _ _ _ _ E1). by apply H.
Qed.

(** C34: The simulation.  When the window and the loader can be set up, OpenGL reports no error,
    the shaders compile and link and the step function returns: for any turns of the loop until
    the window is closed, whatever shapes the world draws (with the flags of the default
    settings), the simulation returns.  It swaps the buffers once for each turn, and at each
    swap exactly the primitives of the turns so far have been drawn, each once and in order.
    All that was acquired of the libraries is released again, the newest first; of the OpenGL
    objects one buffer is left. *)
Theorem simulation_shows_world ts : Forall quiet ts →
  ∃ s out, Box2DSim_run true true true ts start = (Ok tt, s, out) ∧
    length (swaps (calls s)) = length ts ∧
    (∀ i tr, swaps (calls s) !! i = Some tr → ∀ k, concat (batches k tr) = take (S i) ts ≫= pictures k) ∧
    held (calls s) = Some [] ∧ live (gl (draw s)) = [Buffer (13, 2)%nat].
Proof.
  intros Hts. assert (wp (λ _, False) (Box2DSim_run true true true ts) (λ _ s,
    length (swaps (calls s)) = length ts ∧
    (∀ i tr, swaps (calls s) !! i = Some tr → ∀ k, concat (batches k tr) = take (S i) ts ≫= pictures k) ∧
    held (calls s) = Some [] ∧ live (gl (draw s)) = [Buffer (13, 2)%nat]) start) as Hrun.
  2: { destruct (wp_returns _ _ _ Hrun) as ([] & s & out & E & H). by exists s, out. }
  apply setup_then. intros s1 Hd Hsw Hh.
  apply wp_bind. eapply wp_mono; [|eapply (loop_wp ts [] s1); [exact Hts|rewrite Hd; apply ready_shows|exact Hh]].
  cbn beta. intros _ s2 (Hs2 & Hl2 & trs & Hsw2 & Hlen & Htrs). unfold cleanup. apply wp_bind, wp_in_draw.
  destruct (draw_destroy_run _ _ Hs2) as (d3 & E3 & Hgl & Hnone). unfold wp at 1. rewrite E3.
  do 5 (apply wp_bind, wp_call). apply wp_in_draw. cbn [draw calls sleepAdjust]. unfold destruct_draw. apply wp_bind, wp_get.
  pose proof (Hnone POINTS) as HP. pose proof (Hnone LINES) as HL. pose proof (Hnone TRIANGLES) as HT.
  cbn in HP, HL, HT. rewrite HP, HL, HT. apply wp_ret. cbn [draw calls]. rewrite <- !app_assoc. cbn [app].
  rewrite held_app, swaps_app, Hl2, Hsw2, Hsw, Hgl. cbn [app swaps omap list_omap]. rewrite app_nil_r.
  split; [done|]. split; [exact Htrs|]. split; [done|]. apply live_destruction. by destruct Hs2.
Qed.

(** When the setup fails, what was acquired before is not released: the window library is not
    terminated, and the window is not destroyed when the loader fails.  When the step function
    throws, the destructor of the drawing object fails its assertions. *)
Lemma simulation_failures ts :
  (∃ s, Box2DSim_run false true true ts start = (Throw "glfw initialization failed!", s, []) ∧ calls s = [SetErrorCallback; GlfwInit]) ∧
  (∃ s, Box2DSim_run true false true ts start = (Throw "Main windows cannot be constructed.", s, []) ∧ GlfwTerminate ∉ calls s) ∧
  (∃ s, Box2DSim_run true true false ts start = (Throw "Failed to initialize OpenGL loader!", s, []) ∧
    held (calls s) = Some [Window; Glfw]) ∧
  (∀ t ts e, stepped t = Throw e → ∃ s out, Box2DSim_run true true true (t :: ts) start = (Throw "assertion failed", s, out)).
Proof.
  split_and!.
  - by eexists.
  - eexists. split; [done|]. cbn [calls]. intros H. repeat (apply elem_of_cons in H as [H|H]; [done|]). by apply elem_of_nil in H.
  - by eexists.
  - clear ts. intros t ts e Ht.
    assert (wp (λ e, e = "assertion failed"%string) (Box2DSim_run true true true (t :: ts)) (λ _ _, False) start) as Hwp.
    { apply setup_then. intros s Hd _ _. cbn [main_loop]. apply wp_bind, wp_bind. unfold turn_of_loop.
      apply wp_bind, wp_in_draw. unfold set_camera_size. apply wp_bind, wp_get, wp_put.
      do 3 (apply wp_bind, wp_call). apply wp_bind, wp_get, wp_bind. rewrite Ht, Hd.
      cbn [draw calls sleepAdjust m_showUI camera ready]. apply wp_call. by apply wp_bind, wp_in_draw. }
    unfold wp in Hwp. destruct (Box2DSim_run true true true (t :: ts) start) as [[[x|e'|w] s'] out]; [done| |done].
    subst e'. by eexists _, _.
Qed.
End sim.

(** Three turns, in which the world draws a box, nothing, and a point. *)
Lemma simulation_shows_world_witness :
  let add v w := Vec2 (fadd (vx v) (vx w)) (fadd (vy v) (vy w)) in
  let sub v w := Vec2 (fsub (vx v) (vx w)) (fsub (vy v) (vy w)) in
  let mul s v := Vec2 (fmul s (vx v)) (fmul s (vy v)) in
  let color r g b := Color r g b (float_of_Z 1) in
  let white := Color (float_of_Z 1) (float_of_Z 1) (float_of_Z 1) (float_of_Z 1) in
  let p x y := Vec2 (float_of_Z x) (float_of_Z y) in
  let t i cs := mkTurn (1280, 720) (1280, 720) (Ok tt) (λ flags, if flags =? 3 then cs else []) (i * 16666667) (i * 16666667 + 5) (i * 16666667 + 16666666) in
  let ts := [t 0 [SolidPolygon [p 0 0; p 1 0; p 1 1] white]; t 1 []; t 2 [Point (p 2 2) (float_of_Z 5) white]] in
  ∃ s out, Box2DSim_run (λ _, 0) (λ _, true) (λ _, true) (λ _, None) add sub mul color
      (λ _ : unit, p 1 0) (λ _, p 0 1) (λ _, float_of_Z 0) (λ _, float_of_Z 1) (float_of_Z 3) 1 2 4 16 true true true ts start
      = (Ok tt, s, out) ∧
    length (swaps (calls s)) = 3%nat ∧ held (calls s) = Some [].
Proof.
  intros add sub mul color white p t ts.
  destruct (simulation_shows_world (λ _, 0) (λ _, true) (λ _, true) (λ _, None) add sub mul color
      (λ _ : unit, p 1 0) (λ _, p 0 1) (λ _, float_of_Z 0) (λ _, float_of_Z 1) (float_of_Z 3) 1 2 4 16
      (λ _, eq_refl) (λ _, eq_refl) (λ _, eq_refl) ts) as (s & out & Hrun & Hlen & _ & Hheld & _).
  - repeat constructor; intros flags; cbn [drawn t]; destruct (flags =? 3); repeat constructor; discriminate.
  - exists s, out. split; [exact Hrun|]. split; [exact Hlen|exact Hheld].
Defined.
