(* ===== verification/RectPack.v ===== *)
(** The rectangle packer of the vendored imgui:
    [src/third_party_examples/graphical_interface/imgui_example/imgui/imstb_rectpack.h], with which
    the font atlas is laid out.

    The skyline is a linked list of nodes in an array of the caller, with a free list; here the
    nodes are a list, an address is an index into it (0 and 1 are the two nodes of the context),
    and a pointer is an [option] of an address.  Coordinates are 16-bit unsigned ([STBRP_LARGE_RECTS]
    is not defined) and sums of them fit an [int]; the products of the waste area need not, and are
    checked.  A failed assertion is a [Throw], and so is a loop that runs out of fuel; [qsort] is a
    parameter.

    The theorems: a packed rectangle lies in the target and overlaps no other one, for both
    heuristics and over any number of calls, with the nodes of both lists accounted for; a
    rectangle is rejected only when there is no node at which it fits or no node is left; and
    two examples, of a waste area that overflows and of quantized widths that do not keep the
    nodes from running out. *)
From Stdlib Require Import Sorted.
From stdpp Require Import sorting.
From S2P Require Import Prelude Text.
Local Open Scope Z_scope.
Local Open Scope list_scope.

(* @src third_party_examples/graphical_interface/imgui_example/imgui/imstb_rectpack.h 175-179 stbrp_node *)
Record stbrp_node := mkNode { node_x : Z; node_y : Z; next : option nat }.

(* @src third_party_examples/graphical_interface/imgui_example/imgui/imstb_rectpack.h 115-127 stbrp_rect *)
Record stbrp_rect := mkRect { id : Z; w : Z; h : Z; x : Z; y : Z; was_packed : Z }.

(* @src third_party_examples/graphical_interface/imgui_example/imgui/imstb_rectpack.h 181-192 stbrp_context *)
(** [nodes] are [extra[0]], [extra[1]] and the array of the caller. *)
Record stbrp_context := mkContext {
  width : Z; height : Z; align : Z; heuristic : Z; num_nodes : Z;
  active_head : option nat; free_head : option nat; nodes : list stbrp_node }.

Definition BL_sortHeight : Z := 0.
Definition BF_sortHeight : Z := 1.
Definition stbrp_coord (z : Z) : Z := uwrap 16 z.
Definition MAXVAL : Z := 65535.

Definition stbrp_assert (b : bool) : outcome unit := if b then Ok tt else Throw "assertion failed".
Definition int_mul (a b : Z) : outcome Z := if in_int (a * b) then Ok (a * b) else UB "signed integer overflow".
Definition out_of_fuel {A} : outcome A := Throw "out of fuel".

(** [*p], with its address. *)
Definition deref (m : list stbrp_node) (p : option nat) : outcome (nat * stbrp_node) :=
  match p with
  | None => UB "null pointer"
  | Some a => match m !! a with Some n => Ok (a, n) | None => UB "invalid pointer" end
  end.

(** ** Setting up *)

(* @src third_party_examples/graphical_interface/imgui_example/imgui/imstb_rectpack.h 230-240 stbrp_setup_heuristic *)
(** The mode is always that of the skyline. *)
Definition stbrp_setup_heuristic (c : stbrp_context) (hr : Z) : outcome stbrp_context :=
  _ ← stbrp_assert ((hr =? BL_sortHeight) || (hr =? BF_sortHeight));
  Ok (mkContext (width c) (height c) (align c) hr (num_nodes c) (active_head c) (free_head c) (nodes c)).

(* @src third_party_examples/graphical_interface/imgui_example/imgui/imstb_rectpack.h 242-260 stbrp_setup_allow_out_of_mem *)
Definition stbrp_setup_allow_out_of_mem (c : stbrp_context) (allow_out_of_mem : bool) : outcome stbrp_context :=
  a ← (if allow_out_of_mem then Ok 1
       else if num_nodes c =? 0 then UB "division by zero"
       else s ← int_add (width c) (num_nodes c); Ok (Z.quot (s - 1) (num_nodes c)));
  Ok (mkContext (width c) (height c) a (heuristic c) (num_nodes c) (active_head c) (free_head c) (nodes c)).

(* @src third_party_examples/graphical_interface/imgui_example/imgui/imstb_rectpack.h 269-271 stbrp_init_target *)
(** [nodes[i]] has the address [i + 2]. *)
Definition free_nodes (n : nat) : list stbrp_node :=
  (λ i, mkNode 0 0 (if (S i =? n)%nat then None else Some (i + 3)%nat)) <$> seq 0 n.

(* @src third_party_examples/graphical_interface/imgui_example/imgui/imstb_rectpack.h 262-292 stbrp_init_target *)
(** The array must have a node: its last [next] is set. *)
Definition stbrp_init_target (w h : Z) (n : nat) : outcome stbrp_context :=
  _ ← stbrp_assert ((w <=? 65535) && (h <=? 65535));
  if (n =? 0)%nat then UB "write past the end of the array" else
  stbrp_setup_allow_out_of_mem
    (mkContext w h 0 BL_sortHeight (Z.of_nat n) (Some 0%nat) (Some 2%nat)
       (mkNode 0 0 (Some 1%nat) :: mkNode (stbrp_coord w) 65535 None :: free_nodes n)) false.

(** ** Looking for a place *)

(* @src third_party_examples/graphical_interface/imgui_example/imgui/imstb_rectpack.h 318-339 stbrp__skyline_find_min_y *)
(** The loop of [stbrp__skyline_find_min_y]. *)
Fixpoint min_y_loop (fuel : nat) (m : list stbrp_node) (x0 x1 width : Z) (node : nat * stbrp_node)
    (min_y visited_width waste_area : Z) : outcome (Z * Z) :=
  match fuel with
  | O => out_of_fuel
  | S fuel =>
      let n := node.2 in
      if node_x n <? x1 then
        node' ← deref m (next n);
        if min_y <? node_y n then
          a ← int_mul visited_width (node_y n - min_y);
          waste_area ← int_add waste_area a;
          let visited_width := visited_width +
            (if node_x n <? x0 then node_x node'.2 - x0 else node_x node'.2 - node_x n) in
          min_y_loop fuel m x0 x1 width node' (node_y n) visited_width waste_area
        else
          let under_width := node_x node'.2 - node_x n in
          let under_width := if width <? under_width + visited_width then width - visited_width else under_width in
          a ← int_mul under_width (min_y - node_y n);
          waste_area ← int_add waste_area a;
          min_y_loop fuel m x0 x1 width node' min_y (visited_width + under_width) waste_area
      else Ok (min_y, waste_area)
  end.

(* @src third_party_examples/graphical_interface/imgui_example/imgui/imstb_rectpack.h 295-343 stbrp__skyline_find_min_y *)
Definition stbrp__skyline_find_min_y (fuel : nat) (c : stbrp_context) (first : nat * stbrp_node) (x0 width : Z) : outcome (Z * Z) :=
  let x1 := x0 + width in
  _ ← stbrp_assert (node_x first.2 <=? x0);
  node' ← deref (nodes c) (next first.2);
  _ ← stbrp_assert (x0 <? node_x node'.2);
  min_y_loop fuel (nodes c) x0 x1 width first 0 0 0.

(** A pointer to a pointer to a node. *)
Inductive link := HeadLink | NextLink (a : nat).

(* @src third_party_examples/graphical_interface/imgui_example/imgui/imstb_rectpack.h 345-349 stbrp__findresult *)
Record findresult := mkFound { fr_x : Z; fr_y : Z; prev_link : option link }.

Definition follow (c : stbrp_context) (l : link) : outcome (nat * stbrp_node) :=
  match l with
  | HeadLink => deref (nodes c) (active_head c)
  | NextLink a => n ← deref (nodes c) (Some a); deref (nodes c) (next n.2)
  end.

(** What is best so far: the waste, the position and the link. *)
Record best := mkBest { best_waste : Z; best_x : Z; best_y : Z; best_link : option link }.

(* @src third_party_examples/graphical_interface/imgui_example/imgui/imstb_rectpack.h 371-393 stbrp__skyline_find_best_pos *)
(** The first loop: the rectangle starts at a node. *)
Fixpoint left_loop (fuel fuel' : nat) (c : stbrp_context) (wd ht : Z) (prev : link) (node : nat * stbrp_node) (b : best) : outcome best :=
  match fuel with
  | O => out_of_fuel
  | S fuel =>
      if node_x node.2 + wd <=? width c then
        '(yy, waste) ← stbrp__skyline_find_min_y fuel' c node (node_x node.2) wd;
        let b :=
          if heuristic c =? BL_sortHeight then
            if yy <? best_y b then mkBest (best_waste b) (best_x b) yy (Some prev) else b
          else if yy + ht <=? height c then
            if (yy <? best_y b) || ((yy =? best_y b) && (waste <? best_waste b))
            then mkBest waste (best_x b) yy (Some prev) else b
          else b in
        node' ← deref (nodes c) (next node.2);
        left_loop fuel fuel' c wd ht (NextLink node.1) node' b
      else Ok b
  end.

(* @src third_party_examples/graphical_interface/imgui_example/imgui/imstb_rectpack.h 419-420 stbrp__skyline_find_best_pos *)
(** [while (tail->x < width) tail = tail->next;] *)
Fixpoint first_tail (fuel : nat) (c : stbrp_context) (wd : Z) (tail : nat * stbrp_node) : outcome (nat * stbrp_node) :=
  match fuel with
  | O => out_of_fuel
  | S fuel => if node_x tail.2 <? wd then t ← deref (nodes c) (next tail.2); first_tail fuel c wd t else Ok tail
  end.

(* @src third_party_examples/graphical_interface/imgui_example/imgui/imstb_rectpack.h 426-429 stbrp__skyline_find_best_pos *)
(** [while (node->next->x <= xpos) { prev = &node->next; node = node->next; }] *)
Fixpoint left_of (fuel : nat) (c : stbrp_context) (xpos : Z) (prev : link) (node : nat * stbrp_node) : outcome (link * (nat * stbrp_node)) :=
  match fuel with
  | O => out_of_fuel
  | S fuel =>
      node' ← deref (nodes c) (next node.2);
      if node_x node'.2 <=? xpos then left_of fuel c xpos (NextLink node.1) node' else Ok (prev, node)
  end.

(* @src third_party_examples/graphical_interface/imgui_example/imgui/imstb_rectpack.h 421-444 stbrp__skyline_find_best_pos *)
(** The second loop: the rectangle ends at a node. *)
Fixpoint right_loop (fuel fuel' : nat) (c : stbrp_context) (wd ht : Z) (tail : option nat) (prev : link) (node : nat * stbrp_node)
    (b : best) : outcome best :=
  match tail with
  | None => Ok b
  | Some _ =>
      match fuel with
      | O => out_of_fuel
      | S fuel =>
          t ← deref (nodes c) tail;
          let xpos := node_x t.2 - wd in
          _ ← stbrp_assert (0 <=? xpos);
          '(prev, node) ← left_of fuel' c xpos prev node;
          node' ← deref (nodes c) (next node.2);
          _ ← stbrp_assert ((xpos <? node_x node'.2) && (node_x node.2 <=? xpos));
          '(yy, waste) ← stbrp__skyline_find_min_y fuel' c node xpos wd;
          let b :=
            if (yy + ht <=? height c) && (yy <=? best_y b) &&
               ((yy <? best_y b) || (waste <? best_waste b) || ((waste =? best_waste b) && (xpos <? best_x b)))
            then mkBest waste xpos yy (Some prev) else b in
          right_loop fuel fuel' c wd ht (next t.2) prev node b
      end
  end.

(* @src third_party_examples/graphical_interface/imgui_example/imgui/imstb_rectpack.h 351-451 stbrp__skyline_find_best_pos *)
Definition stbrp__skyline_find_best_pos (c : stbrp_context) (wd ht : Z) : outcome findresult :=
  let fuel := S (length (nodes c)) in
  let wd := wd + align c - 1 in
  if align c =? 0 then UB "division by zero" else
  let wd := wd - Z.rem wd (align c) in
  _ ← stbrp_assert (Z.rem wd (align c) =? 0);
  if (width c <? wd) || (height c <? ht) then Ok (mkFound 0 0 None) else
  head ← deref (nodes c) (active_head c);
  b ← left_loop fuel fuel c wd ht HeadLink head (mkBest (2 ^ 30) 0 (2 ^ 30) None);
  bx ← match best_link b with None => Ok 0 | Some l => n ← follow c l; Ok (node_x n.2) end;
  let b := mkBest (best_waste b) bx (best_y b) (best_link b) in
  b ← (if heuristic c =? BF_sortHeight
       then tail ← first_tail fuel c wd head; right_loop fuel fuel c wd ht (Some tail.1) HeadLink head b
       else Ok b);
  Ok (mkFound (best_x b) (best_y b) (best_link b)).

(** ** Packing one rectangle *)

Definition set_nodes (m : list stbrp_node) (c : stbrp_context) : stbrp_context :=
  mkContext (width c) (height c) (align c) (heuristic c) (num_nodes c) (active_head c) (free_head c) m.
Definition set_free_head (p : option nat) (c : stbrp_context) : stbrp_context :=
  mkContext (width c) (height c) (align c) (heuristic c) (num_nodes c) (active_head c) p (nodes c).
Definition set_active_head (p : option nat) (c : stbrp_context) : stbrp_context :=
  mkContext (width c) (height c) (align c) (heuristic c) (num_nodes c) p (free_head c) (nodes c).

(** [a->next = p] and [a->x = v], for an address that is valid. *)
Definition set_next (a : nat) (p : option nat) (c : stbrp_context) : outcome stbrp_context :=
  n ← deref (nodes c) (Some a); Ok (set_nodes (<[a := mkNode (node_x n.2) (node_y n.2) p]> (nodes c)) c).
Definition set_x (a : nat) (v : Z) (c : stbrp_context) : outcome stbrp_context :=
  n ← deref (nodes c) (Some a); Ok (set_nodes (<[a := mkNode v (node_y n.2) (next n.2)]> (nodes c)) c).
(** [*l = p] *)
Definition set_link (l : link) (p : option nat) (c : stbrp_context) : outcome stbrp_context :=
  match l with HeadLink => Ok (set_active_head p c) | NextLink a => set_next a p c end.

(* @src third_party_examples/graphical_interface/imgui_example/imgui/imstb_rectpack.h 491-497 stbrp__skyline_pack_rectangle *)
(** The loop that moves nodes to the free list; [x1] is the right edge of the rectangle. *)
Fixpoint free_loop (fuel : nat) (x1 : Z) (cur : nat) (c : stbrp_context) : outcome (nat * stbrp_context) :=
  match fuel with
  | O => out_of_fuel
  | S fuel =>
      n ← deref (nodes c) (Some cur);
      match next n.2 with
      | None => Ok (cur, c)
      | Some nx =>
          n' ← deref (nodes c) (Some nx);
          if node_x n'.2 <=? x1 then
            c ← set_next cur (free_head c) c;
            free_loop fuel x1 nx (set_free_head (Some cur) c)
          else Ok (cur, c)
      end
  end.

(* @src third_party_examples/graphical_interface/imgui_example/imgui/imstb_rectpack.h 489-503 stbrp__skyline_pack_rectangle *)
(** The nodes from [cur] on that are covered are freed, and the new node [f] is followed by the
    first that is not. *)
Definition stitch (fuel : nat) (x1 : Z) (f cur : nat) (c : stbrp_context) : outcome stbrp_context :=
  '(cur, c) ← free_loop fuel x1 cur c;
  c ← set_next f (Some cur) c;
  n ← deref (nodes c) (Some cur);
  if node_x n.2 <? x1 then set_x cur (stbrp_coord x1) c else Ok c.

(* @src third_party_examples/graphical_interface/imgui_example/imgui/imstb_rectpack.h 453-530 stbrp__skyline_pack_rectangle *)
(** The checks of debug builds are left out. *)
Definition stbrp__skyline_pack_rectangle (c : stbrp_context) (wd ht : Z) : outcome (findresult * stbrp_context) :=
  res ← stbrp__skyline_find_best_pos c wd ht;
  match prev_link res, free_head c with
  | Some l, Some node =>
      if height c <? fr_y res + ht then Ok (mkFound (fr_x res) (fr_y res) None, c) else
      n ← deref (nodes c) (Some node);
      let c := set_nodes (<[node := mkNode (stbrp_coord (fr_x res)) (stbrp_coord (fr_y res + ht)) (next n.2)]> (nodes c)) c in
      let c := set_free_head (next n.2) c in
      cur ← follow c l;
      '(cur, c) ←
        (if node_x cur.2 <? fr_x res then
           c ← set_next cur.1 (Some node) c;
           match next cur.2 with Some nx => Ok (nx, c) | None => UB "null pointer" end
         else c ← set_link l (Some node) c; Ok (cur.1, c));
      c ← stitch (S (length (nodes c))) (fr_x res + wd) node cur c;
      Ok (res, c)
  | _, _ => Ok (mkFound (fr_x res) (fr_y res) None, c)
  end.

(** ** Packing *)

(* @src third_party_examples/graphical_interface/imgui_example/imgui/imstb_rectpack.h 533-542 rect_height_compare *)
Definition rect_height_compare (p q : stbrp_rect) : Z :=
  if h q <? h p then -1
  else if h p <? h q then 1
  else if w q <? w p then -1 else if w p <? w q then 1 else 0.

(* @src third_party_examples/graphical_interface/imgui_example/imgui/imstb_rectpack.h 545-550 rect_original_order *)
Definition rect_original_order (p q : stbrp_rect) : Z :=
  if was_packed p <? was_packed q then -1 else if was_packed q <? was_packed p then 1 else 0.

Definition placed_at (r : stbrp_rect) (px py : Z) : stbrp_rect := mkRect (id r) (w r) (h r) px py (was_packed r).
Definition set_was_packed (r : stbrp_rect) (z : Z) : stbrp_rect := mkRect (id r) (w r) (h r) (x r) (y r) z.

(* @src third_party_examples/graphical_interface/imgui_example/imgui/imstb_rectpack.h 570-582 stbrp_pack_rects *)
(** The loop over the sorted rectangles. *)
Fixpoint pack_all (c : stbrp_context) (rects : list stbrp_rect) : outcome (list stbrp_rect * stbrp_context) :=
  match rects with
  | [] => Ok ([], c)
  | r :: rects =>
      '(r, c) ←
        (if (w r =? 0) || (h r =? 0) then Ok (placed_at r 0 0, c)
         else
           '(fr, c) ← stbrp__skyline_pack_rectangle c (w r) (h r);
           Ok (match prev_link fr with
               | Some _ => placed_at r (stbrp_coord (fr_x fr)) (stbrp_coord (fr_y fr))
               | None => placed_at r MAXVAL MAXVAL
               end, c));
      '(rects, c) ← pack_all c rects;
      Ok (r :: rects, c)
  end.

(** [STBRP_SORT]. *)
Section pack.
Context (qsort : (stbrp_rect → stbrp_rect → Z) → list stbrp_rect → list stbrp_rect).

Definition packed_flag (r : stbrp_rect) : bool := negb ((x r =? MAXVAL) && (y r =? MAXVAL)).

(* @src third_party_examples/graphical_interface/imgui_example/imgui/imstb_rectpack.h 558-596 stbrp_pack_rects *)
Definition stbrp_pack_rects (c : stbrp_context) (rects : list stbrp_rect) : outcome (Z * list stbrp_rect * stbrp_context) :=
  let rects := imap (λ i r, set_was_packed r (Z.of_nat i)) rects in
  let rects := qsort rect_height_compare rects in
  '(rects, c) ← pack_all c rects;
  let rects := qsort rect_original_order rects in
  let rects := (λ r, set_was_packed r (if packed_flag r then 1 else 0)) <$> rects in
  Ok (if forallb (λ r, was_packed r =? 1) rects then 1 else 0, rects, c).
End pack.

(** ** The lists in memory *)

(** From pointer [p] through the addresses [l] to the pointer [q]. *)
Fixpoint seg (m : list stbrp_node) (p : option nat) (l : list nat) (q : option nat) : Prop :=
  match l with
  | [] => p = q
  | a :: l => p = Some a ∧ ∃ n, m !! a = Some n ∧ seg m (next n) l q
  end.

Lemma seg_app m p l l' q : seg m p (l ++ l') q ↔ ∃ r, seg m p l r ∧ seg m r l' q.
Proof.
  revert p. induction l as [|a l IH]; intros p; cbn [seg app].
  - split; [by intros H; exists p|]. by intros (r & -> & H).
  - split.
    + intros (-> & n & Hn & (r & H1 & H2)%IH). by eauto 10.
    + intros (r & (-> & n & Hn & H1) & H2). split; [done|]. exists n. split; [done|]. apply IH. by eauto.
Qed.

Lemma seg_update m a n p l q : a ∉ l → seg m p l q → seg (<[a := n]> m) p l q.
Proof.
  revert p. induction l as [|b l IH]; intros p Ha; [done|]. apply not_elem_of_cons in Ha as [Hab Ha].
  cbn [seg]. intros (-> & nb & Hb & H). split; [done|]. exists nb. rewrite list_lookup_insert_ne by done. auto.
Qed.

Lemma seg_lookup m p l q a : seg m p l q → a ∈ l → ∃ n, m !! a = Some n.
Proof.
  revert p. induction l as [|b l IH]; intros p H Ha; [by apply elem_of_nil in Ha|]. destruct H as (_ & n & Hn & H).
  apply elem_of_cons in Ha as [-> |Ha]; [by eauto|by eapply IH].
Qed.

Lemma deref_ok m a n : m !! a = Some n → deref m (Some a) = Ok (a, n).
Proof. intros H. unfold deref. by rewrite H. Qed.

(** ** Skylines

    The nodes of a skyline, as points: they start at the left edge, go to the right, and end
    with the sentinel at the right edge. *)
Definition xy (m : list stbrp_node) (a : nat) : Z * Z :=
  match m !! a with Some n => (node_x n, node_y n) | None => (0, 0) end.

Fixpoint sky (W H x0 : Z) (ns : list (Z * Z)) : Prop :=
  match ns with
  | [] => False
  | (nx, ny) :: rest =>
      nx = x0 ∧
      match rest with
      | [] => x0 = W
      | (nx', _) :: _ => 0 ≤ ny ≤ H ∧ x0 < nx' ∧ sky W H nx' rest
      end
  end.

(** The height of the skyline at a column. *)
Fixpoint height_at (ns : list (Z * Z)) (px : Z) : Z :=
  match ns with
  | (_, ny) :: (((nx', _) :: _) as rest) => if px <? nx' then ny else height_at rest px
  | _ => 0
  end.

Lemma sky_cons W H x0 p ns : ns ≠ [] →
  sky W H x0 (p :: ns) ↔ p.1 = x0 ∧ 0 ≤ p.2 ≤ H ∧ ∃ x1, x0 < x1 ∧ sky W H x1 ns.
Proof.
  destruct p as [nx ny], ns as [|[nx' ny'] ns]; [done|]. intros _. cbn [sky fst snd]. split.
  - intros (-> & Hy & Hx & Hs). split; [done|]. split; [done|]. by exists nx'.
  - intros (-> & Hy & x1 & Hx & Hs). assert (nx' = x1) as -> by (exact (proj1 Hs)). done.
Qed.

Lemma sky_head W H x0 p ns : sky W H x0 (p :: ns) → p.1 = x0.
Proof. destruct p. exact (λ Hs, proj1 Hs). Qed.

Lemma sky_bound W H x0 ns : sky W H x0 ns → x0 ≤ W.
Proof.
  revert x0. induction ns as [|p ns IH]; intros x0 Hs; [done|]. destruct (decide (ns = [])) as [-> |Hne].
  - destruct p. cbn in Hs. lia.
  - apply sky_cons in Hs as (_ & _ & x1 & Hx & Hs); [|done]. apply IH in Hs. lia.
Qed.

Lemma sky_points W H x0 ns p : sky W H x0 ns → p ∈ ns → x0 ≤ p.1.
Proof.
  revert x0. induction ns as [|q ns IH]; intros x0 Hs Hp; [done|].
  apply elem_of_cons in Hp as [-> |Hp]; [by rewrite (sky_head _ _ _ _ _ Hs)|].
  assert (ns ≠ []) as Hne by (intros ->; by apply elem_of_nil in Hp).
  apply sky_cons in Hs as (_ & _ & x1 & Hx & Hs); [|done]. specialize (IH _ Hs Hp). lia.
Qed.

Lemma height_at_cons p q ns px : height_at (p :: q :: ns) px = if px <? q.1 then p.2 else height_at (q :: ns) px.
Proof. by destruct p, q. Qed.

(** ** The minimal height of a place *)
Section min_y.
Context (W H : Z) (area : W * H ≤ int_max) (x0 width n0 : Z).
Context (Hn0 : 0 ≤ n0 ≤ x0) (Hwidth : 0 < width) (Hx1 : x0 + width ≤ W) (HH : 0 ≤ H).

(** What the loop has computed when it is at a node at [cx].  The width visited may be more than
    that of the rectangle when its left end is inside of the first node. *)
Record min_inv (cx min_y visited waste : Z) : Prop := {
  inv_cx : n0 ≤ cx ≤ W;
  inv_min : 0 ≤ min_y ≤ H;
  inv_visited : 0 ≤ visited ≤ cx - n0;
  inv_exact : visited < width → waste ≤ visited * min_y;
  inv_above : waste ≤ W * min_y;
  inv_below : - H * (cx - n0) + H * Z.max 0 (visited - width) ≤ waste }.

Lemma area_int z : - (W * H) ≤ z ≤ W * H → in_int z = true.
Proof. intros Hz. apply in_int_spec. unfold int_min, int_max in *. lia. Qed.

Lemma min_inv_raise cx cx' my v wa yy d :
  min_inv cx my v wa → my < yy ≤ H → cx < cx' ≤ W → 0 ≤ d ≤ cx' - cx →
  in_int (v * (yy - my)) = true ∧ in_int (wa + v * (yy - my)) = true ∧ min_inv cx' yy (v + d) (wa + v * (yy - my)).
Proof.
  intros [[? ?] [? ?] [? ?] Hex Hab Hbe] [? ?] [? ?] [? ?].
  assert (0 ≤ v * (yy - my) ≤ W * (yy - my)) as Hp by nia.
  assert (0 ≤ H * Z.max 0 (v - width)) by nia.
  assert (wa + v * (yy - my) ≤ W * yy) by lia.
  assert (W * yy ≤ W * H) by nia. assert (H * (cx - n0) ≤ W * H) by nia.
  split; [apply area_int; nia|]. split; [apply area_int; lia|]. split; try lia.
  - intros Hv. nia.
  - assert (H * Z.max 0 (v + d - width) ≤ H * (Z.max 0 (v - width) + d)) by (apply Z.mul_le_mono_nonneg_l; lia).
    nia.
Qed.

Lemma min_inv_under cx cx' my v wa yy :
  min_inv cx my v wa → 0 ≤ yy ≤ my → cx < cx' ≤ W →
  let u := if width <? (cx' - cx) + v then width - v else cx' - cx in
  in_int (u * (my - yy)) = true ∧ in_int (wa + u * (my - yy)) = true ∧ min_inv cx' my (v + u) (wa + u * (my - yy)).
Proof.
  intros [[? ?] [? ?] [? ?] Hex Hab Hbe] [? ?] [? ?] u.
  assert (W * my ≤ W * H) by nia. assert (H * (cx - n0) ≤ W * H) by nia.
  destruct (Z.ltb_spec width (cx' - cx + v)) as [Hc|Hc]; unfold u; clear u.
  - replace (v + (width - v)) with width by lia.
    destruct (Z.le_gt_cases v width) as [Hv|Hv].
    + assert (0 ≤ (width - v) * (my - yy) ≤ (width - v) * my) by nia.
      assert (wa + (width - v) * (my - yy) ≤ W * my).
      { destruct (Z.eq_dec v width) as [-> |Hne]; [nia|]. assert (wa ≤ v * my) by (apply Hex; lia). nia. }
      assert (- (W * H) ≤ wa) by nia.
      split; [apply area_int; nia|]. split; [apply area_int; lia|]. split; try lia.
      rewrite Z.max_l in * by lia. nia.
    + rewrite Z.max_r in Hbe by lia.
      assert (- ((v - width) * H) ≤ (width - v) * (my - yy) ≤ 0) by nia.
      assert ((v - width) * H ≤ W * H) by nia.
      split; [apply area_int; lia|]. split; [apply area_int; nia|]. split; try lia. rewrite Z.max_l by lia. nia.
  - assert (0 ≤ (cx' - cx) * (my - yy) ≤ (cx' - cx) * my) by nia. rewrite Z.max_l in Hbe by lia.
    assert (wa ≤ v * my) as Hwa by (apply Hex; lia). assert ((v + (cx' - cx)) * my ≤ W * my) by nia.
    split; [apply area_int; nia|]. split; [apply area_int; nia|]. split; try lia; rewrite ?Z.max_l by lia; nia.
Qed.

Lemma int_mul_ok a b : in_int (a * b) = true → int_mul a b = Ok (a * b).
Proof. intros E. unfold int_mul. by rewrite E. Qed.

Lemma int_add_in a b : in_int (a + b) = true → int_add a b = Ok (a + b).
Proof. intros E. apply int_add_ok. by apply in_int_spec. Qed.

(** The columns of the rectangle from [cx] on are at most [B] high. *)
Definition columns_below (cx : Z) (ns : list (Z * Z)) (B : Z) : Prop :=
  ∀ px, cx ≤ px → x0 ≤ px < x0 + width → height_at ns px ≤ B.

Lemma columns_below_cons p q ns B : p.1 < q.1 → x0 < q.1 → p.1 < x0 + width →
  columns_below p.1 (p :: q :: ns) B ↔ p.2 ≤ B ∧ columns_below q.1 (q :: ns) B.
Proof.
  intros Hpq Hq Hp. unfold columns_below. setoid_rewrite height_at_cons. split.
  - intros HB. split.
    + specialize (HB (Z.max p.1 x0)). rewrite (proj2 (Z.ltb_lt _ _)) in HB by lia. apply HB; lia.
    + intros px ? ?. specialize (HB px). rewrite (proj2 (Z.ltb_ge _ _)) in HB by lia. apply HB; lia.
  - intros [HB1 HB2] px ? ?. destruct (Z.ltb_spec px q.1); [done|]. by apply HB2.
Qed.

(** The result is the least height that is at least that of every column of the rectangle. *)
Lemma min_y_loop_spec m l : ∀ fuel a n min_y visited waste,
  m !! a = Some n → seg m (next n) l None → (length l < fuel)%nat →
  sky W H (node_x n) (xy m <$> a :: l) → min_inv (node_x n) min_y visited waste →
  (node_x n ≤ x0 → visited = 0 ∧ ∀ p, head (xy m <$> l) = Some p → x0 < p.1) →
  ∃ y' waste', min_y_loop fuel m x0 (x0 + width) width (a, n) min_y visited waste = Ok (y', waste') ∧
    min_y ≤ y' ≤ H ∧ columns_below (node_x n) (xy m <$> a :: l) y' ∧
    ∀ B, min_y ≤ B → columns_below (node_x n) (xy m <$> a :: l) B → y' ≤ B.
Proof.
  induction l as [|b l IH]; intros fuel a n min_y visited waste Ha Hseg Hfuel Hsky Hinv Hfirst;
    (destruct fuel as [|fuel]; [cbn in Hfuel; lia|]); cbn [min_y_loop snd].
  { cbn in Hsky. unfold xy in Hsky. rewrite Ha in Hsky. destruct Hsky as [_ Hsky].
    rewrite (proj2 (Z.ltb_ge _ _)) by lia. exists min_y, waste. split; [done|]. split; [destruct Hinv; lia|].
    split; [intros px ? ?; lia|auto]. }
  destruct (Z.ltb_spec (node_x n) (x0 + width)) as [Hlt|Hge].
  2: { exists min_y, waste. split; [done|]. split; [destruct Hinv; lia|]. split; [intros px ? ?; lia|auto]. }
  destruct Hseg as (Hb & nb & Hnb & Hseg). rewrite Hb. rewrite (deref_ok _ _ _ Hnb). cbn [mbind outcome_bind snd].
  assert (xy m a = (node_x n, node_y n)) as Hxa by (unfold xy; by rewrite Ha).
  assert (xy m b = (node_x nb, node_y nb)) as Hxb by (unfold xy; by rewrite Hnb).
  pose proof Hsky as Hsky'. rewrite fmap_cons in Hsky'. apply sky_cons in Hsky' as (_ & Hy & x1 & Hx & Hsky'); [|done].
  assert (x1 = node_x nb) as -> by (pose proof (sky_head _ _ _ _ _ Hsky') as E; rewrite Hxb in E; done).
  rewrite Hxa in Hy. cbn [snd] in Hy. pose proof (sky_bound _ _ _ _ Hsky') as Hbound.
  assert (x0 < node_x nb) as Hxnb.
  { destruct (Z.le_gt_cases (node_x n) x0) as [Hle|?]; [|lia]. destruct (Hfirst Hle) as [_ Hp].
    specialize (Hp (xy m b) eq_refl). by rewrite Hxb in Hp. }
  assert (∀ B, columns_below (node_x n) (xy m <$> a :: b :: l) B ↔
    node_y n ≤ B ∧ columns_below (node_x nb) (xy m <$> b :: l) B) as Hcols.
  { intros B. pose proof (columns_below_cons (xy m a) (xy m b) (xy m <$> l) B) as Hc. rewrite Hxa, Hxb in Hc.
    cbn [fst snd] in Hc. rewrite !fmap_cons, Hxa, Hxb. apply Hc; lia. }
  destruct (Z.ltb_spec min_y (node_y n)) as [Hraise|Hunder].
  - destruct (min_inv_raise (node_x n) (node_x nb) min_y visited waste (node_y n)
      (if node_x n <? x0 then node_x nb - x0 else node_x nb - node_x n) Hinv) as (E1 & E2 & Hinv'); [lia|lia| |].
    { destruct (Z.ltb_spec (node_x n) x0); lia. }
    rewrite (int_mul_ok _ _ E1). cbn [mbind outcome_bind]. rewrite (int_add_in _ _ E2). cbn [mbind outcome_bind].
    destruct (IH fuel b nb _ _ _ Hnb Hseg ltac:(cbn in Hfuel; lia) Hsky' Hinv') as (y' & w' & -> & Hy' & Hc & Hleast); [lia|].
    exists y', w'. split; [done|]. split; [lia|]. split; [apply Hcols; split; [lia|done]|].
    intros B HB [? ?]%Hcols. by apply Hleast.
  - destruct (min_inv_under (node_x n) (node_x nb) min_y visited waste (node_y n) Hinv) as (E1 & E2 & Hinv'); [lia|lia|].
    rewrite (int_mul_ok _ _ E1). cbn [mbind outcome_bind]. rewrite (int_add_in _ _ E2). cbn [mbind outcome_bind].
    destruct (IH fuel b nb _ _ _ Hnb Hseg ltac:(cbn in Hfuel; lia) Hsky' Hinv') as (y' & w' & -> & Hy' & Hc & Hleast); [lia|].
    exists y', w'. split; [done|]. split; [lia|]. split; [apply Hcols; split; [lia|done]|].
    intros B HB [? ?]%Hcols. by apply Hleast.
Qed.
End min_y.

Lemma sky_suffix W H x0 pre p suf : sky W H x0 (pre ++ p :: suf) → x0 ≤ p.1 ∧ sky W H p.1 (p :: suf).
Proof.
  revert x0. induction pre as [|q pre IH]; intros x0 Hs; cbn [app] in Hs.
  - rewrite (sky_head _ _ _ _ _ Hs). split; [lia|done].
  - apply sky_cons in Hs as (_ & _ & x1 & Hx & Hs); [|by destruct pre]. apply IH in Hs. split; [lia|apply Hs].
Qed.

Lemma height_at_suffix W H x0 pre p suf px : sky W H x0 (pre ++ p :: suf) → p.1 ≤ px →
  height_at (pre ++ p :: suf) px = height_at (p :: suf) px.
Proof.
  revert x0. induction pre as [|q pre IH]; intros x0 Hs Hp; cbn [app] in *; [done|].
  apply sky_cons in Hs as (_ & _ & x1 & Hx & Hs); [|by destruct pre]. rewrite <- (IH x1 Hs Hp).
  destruct (pre ++ p :: suf) as [|q' rest] eqn:E; [by destruct pre|].
  rewrite height_at_cons. assert (q'.1 ≤ px) as Hq; [|by rewrite (proj2 (Z.ltb_ge _ _)) by lia].
  rewrite (sky_head _ _ _ _ _ Hs). rewrite <- E in Hs. apply sky_suffix in Hs. lia.
Qed.

(** A link is known by the nodes before it. *)
Definition link_to (pre : list nat) : link := match last pre with None => HeadLink | Some a => NextLink a end.

Lemma link_to_snoc pre a : link_to (pre ++ [a]) = NextLink a.
Proof. unfold link_to. by rewrite last_snoc. Qed.

(** A context in memory: [act] are the addresses of the skyline, [fs] those of the free list. *)
Record rep (c : stbrp_context) (act fs : list nat) : Prop := {
  rep_active : seg (nodes c) (active_head c) act None;
  rep_free : seg (nodes c) (free_head c) fs None;
  rep_nodup : NoDup (act ++ fs);
  rep_sky : sky (width c) (height c) 0 (xy (nodes c) <$> act);
  rep_width : 0 < width c ≤ 65535;
  rep_height : 0 ≤ height c ≤ 65535;
  rep_area : width c * height c ≤ int_max;
  rep_align : 1 ≤ align c;
  rep_heuristic : heuristic c = BL_sortHeight ∨ heuristic c = BF_sortHeight }.

(** The left edge of a node, and the height of the skyline at a column. *)
Definition left_edge (m : list stbrp_node) (a : nat) : Z := (xy m a).1.
Definition heights (m : list stbrp_node) (act : list nat) (col : Z) : Z := height_at (xy m <$> act) col.

Section find.
Context (c : stbrp_context) (act fs : list nat) (Hrep : rep c act fs).
Abbreviation X := (left_edge (nodes c)).

Lemma node_X a n : nodes c !! a = Some n → X a = node_x n.
Proof. intros H. unfold left_edge, xy. by rewrite H. Qed.

Lemma act_split pre a post : act = pre ++ a :: post →
  ∃ n, nodes c !! a = Some n ∧ seg (nodes c) (next n) post None ∧
    sky (width c) (height c) (X a) (xy (nodes c) <$> a :: post) ∧ 0 ≤ X a.
Proof.
  intros E. pose proof (rep_active _ _ _ Hrep) as Hs. rewrite E in Hs.
  apply seg_app in Hs as (q & _ & _ & n & Hn & Hseg). exists n. split; [done|]. split; [done|].
  pose proof (rep_sky _ _ _ Hrep) as Hk. rewrite E, fmap_app in Hk. apply sky_suffix in Hk. split; apply Hk.
Qed.

Lemma follow_link pre a post : act = pre ++ a :: post →
  ∃ n, nodes c !! a = Some n ∧ follow c (link_to pre) = Ok (a, n).
Proof.
  intros E. destruct (act_split pre a post E) as (n & Hn & _). exists n. split; [done|].
  pose proof (rep_active _ _ _ Hrep) as Hs. rewrite E in Hs. apply seg_app in Hs as (q & Hpre & -> & _).
  destruct (decide (pre = [])) as [-> |Hne].
  - cbn [seg] in Hpre. cbn. rewrite Hpre. by apply deref_ok.
  - destruct (exists_last Hne) as (pre' & b & ->). rewrite link_to_snoc. cbn [follow].
    apply seg_app in Hpre as (q & _ & -> & nb & Hnb & Hnext). cbn [seg] in Hnext.
    rewrite (deref_ok _ _ _ Hnb). cbn [mbind outcome_bind snd]. rewrite Hnext. by apply deref_ok.
Qed.

Lemma act_length : (length act ≤ length (nodes c))%nat.
Proof.
  rewrite <- (length_seq (length (nodes c)) 0). apply submseteq_length, NoDup_submseteq.
  - pose proof (rep_nodup _ _ _ Hrep) as Hd. by apply NoDup_app in Hd as [? _].
  - intros a Ha. destruct (seg_lookup _ _ _ _ a (rep_active _ _ _ Hrep) Ha) as [n Hn].
    apply elem_of_seq. apply lookup_lt_Some in Hn. lia.
Qed.

(** A rectangle of width [wd] whose lower left corner is at [px], [py] is above the skyline. *)
Definition above (wd px py : Z) : Prop := ∀ col, px ≤ col < px + wd → heights (nodes c) act col ≤ py.

(** A place for a rectangle of width [wd]: its left edge is in the node to which the link
    leads, and it is above the skyline. *)
Definition place (wd : Z) (l : link) (px py : Z) : Prop :=
  ∃ pre a b post, act = pre ++ a :: b :: post ∧ link_to pre = l ∧ X a ≤ px < X b ∧
    px + wd ≤ width c ∧ 0 ≤ py ≤ height c ∧ above wd px py.

Lemma find_min_y_spec fuel wd px pre a b post n :
  act = pre ++ a :: b :: post → nodes c !! a = Some n → X a ≤ px < X b → 0 < wd → px + wd ≤ width c →
  (length act < fuel)%nat →
  ∃ py waste, stbrp__skyline_find_min_y fuel c (a, n) px wd = Ok (py, waste) ∧ place wd (link_to pre) px py ∧
    ∀ B, 0 ≤ B → above wd px B → py ≤ B.
Proof.
  intros E Hn Hpx Hwd Hfit Hfuel. destruct (act_split pre a (b :: post) E) as (n' & Hn' & Hseg & Hsky & HX).
  assert (n' = n) as -> by congruence. pose proof Hseg as (Hb & nb & Hnb & _).
  rewrite (node_X a n Hn) in *. rewrite (node_X b nb Hnb) in *.
  unfold stbrp__skyline_find_min_y. cbn [snd]. rewrite (proj2 (Z.leb_le _ _)) by lia. cbn [stbrp_assert mbind outcome_bind].
  rewrite Hb, (deref_ok _ _ _ Hnb). cbn [mbind outcome_bind snd]. rewrite (proj2 (Z.ltb_lt _ _)) by lia.
  cbn [stbrp_assert mbind outcome_bind].
  destruct (min_y_loop_spec (width c) (height c) (rep_area _ _ _ Hrep) px wd (node_x n) ltac:(lia) Hwd Hfit
    ltac:(pose proof (rep_height _ _ _ Hrep); lia) (nodes c) (b :: post) fuel a n 0 0 0 Hn Hseg) as (py & waste & Ey & Hy & Hcols & Hleast).
  - rewrite E, length_app in Hfuel. cbn in *. lia.
  - done.
  - pose proof (rep_height _ _ _ Hrep). split; lia.
  - intros _. split; [done|]. intros p [= <-]. fold (left_edge (nodes c) b). rewrite (node_X b nb Hnb). lia.
  - assert (∀ B, above wd px B ↔ columns_below px wd (node_x n) (xy (nodes c) <$> a :: b :: post) B) as Hab.
    { intros B. unfold above, columns_below, heights. assert (∀ col, px ≤ col →
        height_at (xy (nodes c) <$> act) col = height_at (xy (nodes c) <$> a :: b :: post) col) as Hh.
      { intros col Hcol. rewrite E, fmap_app, fmap_cons. apply (height_at_suffix (width c) (height c) 0).
        - rewrite <- fmap_cons, <- fmap_app, <- E. apply (rep_sky _ _ _ Hrep).
        - fold (left_edge (nodes c) a). rewrite (node_X a n Hn). lia. }
      split; intros HB col; [intros _ Hcol|intros Hcol]; specialize (HB col);
        rewrite Hh in * by lia; apply HB; lia. }
    exists py, waste. split; [done|]. split; [|by intros B HB Hcol%Hab; apply Hleast].
    exists pre, a, b, post. rewrite (node_X a n Hn), (node_X b nb Hnb). split_and!; try done; try lia. by apply Hab.
Qed.

(** The sentinel is the only node at the right edge. *)
Lemma act_next pre a post : act = pre ++ a :: post → X a < width c → ∃ b post', post = b :: post' ∧ X a < X b.
Proof.
  intros E Ha. destruct (act_split pre a post E) as (n & Hn & _ & Hsky & _). destruct post as [|b post].
  - cbn in Hsky. destruct (xy (nodes c) a). lia.
  - exists b, post. split; [done|]. rewrite fmap_cons in Hsky. apply sky_cons in Hsky as (_ & _ & x1 & Hx & Hs); [|done].
    apply sky_head in Hs. unfold left_edge in *. lia.
Qed.

Lemma act_increases pre a post b : act = pre ++ a :: post → b ∈ post → X a < X b.
Proof.
  intros E Hb. destruct (act_split pre a post E) as (n & Hn & _ & Hsky & _). rewrite fmap_cons in Hsky.
  assert (post ≠ []) as Hne by (intros ->; by apply elem_of_nil in Hb).
  apply sky_cons in Hsky as (_ & _ & x1 & Hx & Hs); [|by destruct post].
  apply (sky_points _ _ _ _ (xy (nodes c) b)) in Hs; [unfold left_edge in *; lia|]. by apply list_elem_of_fmap_2.
Qed.

Section size.
Context (wd ht : Z) (Hwd : 0 < wd ≤ width c) (fuel' : nat) (Hfuel' : (length act < fuel')%nat).

(** The best position of the first loop is that of the node. *)
Definition left_best (b : best) : Prop :=
  ∀ l, best_link b = Some l → ∃ pre a rest, act = pre ++ a :: rest ∧ link_to pre = l ∧ place wd l (X a) (best_y b).

(** The rectangle fits with its left edge at [px]. *)
Definition fits (px : Z) : Prop := px + wd ≤ width c ∧ ht ≤ height c ∧ above wd px (height c - ht).
(** A position has been found, or none has been looked at that is low enough. *)
Definition found (b : best) : Prop := best_link b ≠ None ∧ best_y b + ht ≤ height c.
Definition fresh (b : best) : Prop := best_link b = None → best_y b = 2 ^ 30.

(** What the body of the first loop makes of a position of height [yy]. *)
Definition left_step (prev : link) (yy waste : Z) (b : best) : best :=
  if heuristic c =? BL_sortHeight then
    if yy <? best_y b then mkBest (best_waste b) (best_x b) yy (Some prev) else b
  else if yy + ht <=? height c then
    if (yy <? best_y b) || ((yy =? best_y b) && (waste <? best_waste b))
    then mkBest waste (best_x b) yy (Some prev) else b
  else b.

Lemma left_step_found prev yy waste b : fresh b → yy ≤ height c →
  fresh (left_step prev yy waste b) ∧ (found b ∨ yy + ht ≤ height c → found (left_step prev yy waste b)).
Proof.
  intros Hb Hyy. pose proof (rep_height _ _ _ Hrep). unfold left_step, found, fresh in *.
  assert (best_y b ≤ yy → best_link b ≠ None) as Hl by (intros ? E; specialize (Hb E); lia).
  destruct (heuristic c =? BL_sortHeight), (Z.leb_spec (yy + ht) (height c)), (Z.ltb_spec yy (best_y b));
    cbn [orb]; try destruct (_ && _) eqn:E; cbn [best_link best_y]; split; try done; intros [[? ?]|?]; split; try done; try lia; auto.
Qed.

Lemma left_loop_spec post : ∀ fuel pre a n b, act = pre ++ a :: post → nodes c !! a = Some n → (length post < fuel)%nat →
  left_best b → fresh b → ∃ b', left_loop fuel fuel' c wd ht (link_to pre) (a, n) b = Ok b' ∧ left_best b' ∧
    (found b ∨ (∃ a', a' ∈ a :: post ∧ fits (X a')) → found b').
Proof.
  induction post as [|a1 post IH]; intros fuel pre a n b E Hn Hfuel Hb Hfr; (destruct fuel as [|fuel]; [lia|]); cbn [left_loop snd fst];
    rewrite <- (node_X a n Hn); (destruct (Z.leb_spec (X a + wd) (width c)) as [Hle|Hgt]);
    try (exists b; split; [done|]; split; [done|]; intros [?|(a' & Ha' & Hf & _)]; [done|];
      apply elem_of_cons in Ha' as [-> |Ha']; [lia|]; pose proof (act_increases _ _ _ _ E Ha'); lia).
  - destruct (act_next pre a [] E ltac:(lia)) as (? & ? & ? & _). done.
  - pose proof (act_increases pre a (a1 :: post) a1 E ltac:(left)) as Hlt.
    destruct (find_min_y_spec fuel' wd (X a) pre a a1 post n E Hn ltac:(lia) ltac:(lia) Hle Hfuel')
      as (py & waste & -> & Hplace & Hleast).
    cbn [mbind outcome_bind]. destruct (act_split pre a (a1 :: post) E) as (n1 & Hn1 & (Hnext & n' & Hn' & _) & _).
    assert (n1 = n) as -> by congruence. rewrite Hnext, (deref_ok _ _ _ Hn'). cbn [mbind outcome_bind].
    fold (left_step (link_to pre) py waste b).
    assert (left_best (left_step (link_to pre) py waste b)) as Hb1.
    { assert (∀ w', left_best (mkBest w' (best_x b) py (Some (link_to pre)))) as Hnew.
      { intros w' l [= <-]. by exists pre, a, (a1 :: post). }
      unfold left_step. repeat case_match; done. }
    destruct (left_step_found (link_to pre) py waste b Hfr) as [Hfr1 Hfound1].
    { destruct Hplace as (? & ? & ? & ? & _ & _ & _ & _ & Hy & _). lia. }
    rewrite <- (link_to_snoc pre a).
    destruct (IH fuel (pre ++ [a]) a1 n' (left_step (link_to pre) py waste b)) as (b' & -> & Hb' & Hfound'); try done.
    { by rewrite <- app_assoc. } { cbn in Hfuel. lia. }
    exists b'. split; [done|]. split; [done|]. intros [Hf|(a' & Ha' & Hf)]; [by apply Hfound'; left; apply Hfound1; left|].
    apply Hfound'. apply elem_of_cons in Ha' as [-> |Ha']; [|by eauto]. left. apply Hfound1. right.
    destruct Hf as (_ & ? & Hf). specialize (Hleast (height c - ht) ltac:(lia) Hf). lia.
Qed.

Lemma first_tail_spec post : ∀ fuel pre a n, act = pre ++ a :: post → nodes c !! a = Some n → (length post < fuel)%nat →
  ∃ pre' t nt post', first_tail fuel c wd (a, n) = Ok (t, nt) ∧ act = pre' ++ t :: post' ∧ wd ≤ X t.
Proof.
  induction post as [|a' post IH]; intros fuel pre a n E Hn Hfuel; (destruct fuel as [|fuel]; [lia|]); cbn [first_tail snd];
    rewrite <- (node_X a n Hn); (destruct (Z.ltb_spec (X a) wd) as [Hlt|Hge]; [|by exists pre, a, n; eauto]).
  - destruct (act_next pre a [] E ltac:(lia)) as (? & ? & ? & _). done.
  - destruct (act_split pre a (a' :: post) E) as (n1 & Hn1 & (Hnext & n' & Hn' & _) & _).
    assert (n1 = n) as -> by congruence. rewrite Hnext, (deref_ok _ _ _ Hn'). cbn [mbind outcome_bind].
    apply (IH fuel (pre ++ [a])); [by rewrite <- app_assoc|done|cbn in Hfuel; lia].
Qed.

Lemma left_of_spec px post : ∀ fuel pre a n, act = pre ++ a :: post → nodes c !! a = Some n → (length post < fuel)%nat →
  X a ≤ px < width c →
  ∃ pre' a' n' b' post', left_of fuel c px (link_to pre) (a, n) = Ok (link_to pre', (a', n')) ∧
    act = pre' ++ a' :: b' :: post' ∧ nodes c !! a' = Some n' ∧ X a' ≤ px < X b'.
Proof.
  induction post as [|a1 post IH]; intros fuel pre a n E Hn Hfuel Hpx; (destruct fuel as [|fuel]; [lia|]); cbn [left_of snd fst].
  - destruct (act_next pre a [] E ltac:(lia)) as (? & ? & ? & _). done.
  - destruct (act_split pre a (a1 :: post) E) as (n0 & Hn0 & (Hnext & n1 & Hn1 & _) & _).
    assert (n0 = n) as -> by congruence. rewrite Hnext, (deref_ok _ _ _ Hn1). cbn [mbind outcome_bind snd].
    rewrite <- (node_X a1 n1 Hn1). destruct (Z.leb_spec (X a1) px) as [Hle|Hgt].
    + rewrite <- (link_to_snoc pre a). apply (IH fuel (pre ++ [a])); [by rewrite <- app_assoc|done|cbn in Hfuel; lia|lia].
    + exists pre, a, n, a1, post. split_and!; done || lia.
Qed.

(** The best position after the first loop. *)
Definition any_best (b : best) : Prop := ∀ l, best_link b = Some l → place wd l (best_x b) (best_y b).

Lemma right_loop_spec ts : ∀ fuel pret pre a n post b,
  act = pret ++ ts → (length ts ≤ fuel)%nat → act = pre ++ a :: post → nodes c !! a = Some n →
  (∀ t, t ∈ ts → wd ≤ X t ∧ X a ≤ X t - wd) → any_best b →
  ∃ b', right_loop fuel fuel' c wd ht (head ts) (link_to pre) (a, n) b = Ok b' ∧ any_best b' ∧ (found b → found b').
Proof.
  induction ts as [|t ts IH]; intros fuel pret pre a n post b Et Hfuel E Hn Hts Hb.
  { exists b. by destruct fuel. }
  destruct fuel as [|fuel]; [cbn in Hfuel; lia|]. cbn [head right_loop].
  destruct (act_split pret t ts Et) as (nt & Hnt & Hseg & Hskyt & _). rewrite (deref_ok _ _ _ Hnt). cbn [mbind outcome_bind snd].
  rewrite <- (node_X t nt Hnt). destruct (Hts t ltac:(left)) as [Ht1 Ht2].
  rewrite (proj2 (Z.leb_le _ _)) by lia. cbn [stbrp_assert mbind outcome_bind].
  assert (X t ≤ width c) as HtW by (by eapply sky_bound).
  destruct (left_of_spec (X t - wd) post fuel' pre a n E Hn) as (pre' & a' & n' & b' & post' & El & E' & Hn' & Hx'); [|lia|].
  { rewrite E, length_app in Hfuel'. cbn in Hfuel'. lia. }
  rewrite El. cbn [mbind outcome_bind snd].
  destruct (act_split pre' a' (b' :: post') E') as (n0 & Hn0 & (Hnext & nb & Hnb & _) & _).
  assert (n0 = n') as -> by congruence. rewrite Hnext, (deref_ok _ _ _ Hnb). cbn [mbind outcome_bind snd].
  rewrite <- (node_X b' nb Hnb), <- (node_X a' n' Hn').
  rewrite (proj2 (Z.ltb_lt (X t - wd) (X b'))), (proj2 (Z.leb_le (X a') (X t - wd))) by lia. cbn [andb stbrp_assert mbind outcome_bind].
  destruct (find_min_y_spec fuel' wd (X t - wd) pre' a' b' post' n' E' Hn' ltac:(lia) ltac:(lia) ltac:(lia) Hfuel')
    as (py & waste & -> & Hplace & _). cbn [mbind outcome_bind].
  assert (next nt = head ts) as ->.
  { destruct ts as [|t' ts]; cbn [seg head] in *; [done|]. by destruct Hseg as [-> _]. }
  match goal with |- context [right_loop _ _ _ _ _ _ _ _ ?b1] => set (b2 := b1) end.
  assert (any_best b2 ∧ (found b → found b2)) as [Hb2 Hf2].
  { unfold b2. destruct (Z.leb_spec (py + ht) (height c)); [|done]. cbn [andb]. destruct (_ && _); [|done].
    split; [by intros l [= <-]|done]. }
  destruct (IH fuel (pret ++ [t]) pre' a' n' (b' :: post') b2) as (b3 & -> & Hb3 & Hf3); try done.
  - by rewrite <- app_assoc.
  - cbn in Hfuel. lia.
  - intros t' Ht'. pose proof (act_increases pret t ts t' Et Ht'). split; lia.
  - exists b3. auto.
Qed.
End size.
End find.

(** The width of a rectangle, rounded up to the alignment of the target. *)
Definition aligned (c : stbrp_context) (wd : Z) : Z := wd + align c - 1 - (wd + align c - 1) mod align c.

(** There is a node at which a rectangle fits. *)
Definition room (c : stbrp_context) (act : list nat) (wd ht : Z) : Prop :=
  ∃ a, a ∈ act ∧ fits c act (aligned c wd) ht (left_edge (nodes c) a).

Lemma aligned_spec c wd : 1 ≤ align c → 0 < wd → wd ≤ aligned c wd ∧ Z.rem (aligned c wd) (align c) = 0.
Proof.
  intros Hal Hwd. unfold aligned. set (v := wd + align c - 1). pose proof (Z.mod_pos_bound v (align c) ltac:(lia)) as Hmod.
  split; [lia|]. rewrite Z.rem_mod_nonneg by lia. pose proof (Z.div_mod v (align c) ltac:(lia)).
  replace (v - v mod align c) with (v / align c * align c) by lia. by apply Z.mod_mul; lia.
Qed.

(** Following the best link of the first loop. *)
Lemma best_follow c act fs wa b : rep c act fs → left_best c act wa b →
  ∃ bx, match best_link b with Some l => n ← follow c l; Ok (node_x n.2) | None => Ok 0 end = Ok bx ∧
    any_best c act wa (mkBest (best_waste b) bx (best_y b) (best_link b)).
Proof.
  intros Hrep Hb. destruct (best_link b) as [l|] eqn:El; [|by exists 0]. destruct (Hb l El) as (pre & a & rest & E & <- & Hp).
  destruct (follow_link c act fs Hrep pre a rest E) as (n & Hn & Ef). rewrite Ef. cbn [mbind outcome_bind snd].
  exists (node_x n). split; [done|]. intros l' [= <-]. cbn. by rewrite <- (node_X c _ _ Hn).
Qed.

Lemma find_best_pos_spec c act fs wd ht : rep c act fs → 0 < wd → 0 < ht →
  ∃ fr, stbrp__skyline_find_best_pos c wd ht = Ok fr ∧
    (∀ l, prev_link fr = Some l → place c act wd l (fr_x fr) (fr_y fr)) ∧
    (room c act wd ht → prev_link fr ≠ None ∧ fr_y fr + ht ≤ height c).
Proof.
  intros Hrep Hwd Hht. unfold stbrp__skyline_find_best_pos. pose proof (rep_align _ _ _ Hrep) as Hal.
  rewrite (proj2 (Z.eqb_neq (align c) 0)) by lia. rewrite (Z.rem_mod_nonneg (wd + align c - 1)) by lia.
  fold (aligned c wd). destruct (aligned_spec c wd Hal Hwd) as [Hge ->].
  cbn [Z.eqb stbrp_assert mbind outcome_bind]. unfold room. set (wa := aligned c wd) in *.
  assert ((∃ a, a ∈ act ∧ fits c act wa ht (left_edge (nodes c) a)) → wa ≤ width c ∧ ht ≤ height c) as Hroom.
  { intros (a & (pre & post & E)%list_elem_of_split & Hf1 & Hf2 & _). destruct (act_split c act fs Hrep pre a post E) as (_ & _ & _ & _ & ?).
    lia. }
  destruct (Z.ltb_spec (width c) wa) as [?|Hwa]; [exists (mkFound 0 0 None); split_and!; try done; intros ?%Hroom; lia|].
  destruct (Z.ltb_spec (height c) ht) as [?|Hh]; [exists (mkFound 0 0 None); split_and!; try done; intros ?%Hroom; lia|].
  clear Hroom. cbn [orb]. pose proof (act_length c act fs Hrep) as Hlen.
  destruct act as [|a0 act']; [by destruct (rep_sky _ _ _ Hrep)|].
  destruct (act_split c (a0 :: act') fs Hrep [] a0 act' eq_refl) as (n0 & Hn0 & _ & Hsky0 & _).
  destruct (rep_active _ _ _ Hrep) as [Hhead _]. rewrite Hhead, (deref_ok _ _ _ Hn0). cbn [mbind outcome_bind].
  assert (left_edge (nodes c) a0 = 0) as Hx0 by (exact (sky_head _ _ _ _ _ (rep_sky _ _ _ Hrep))).
  assert (length (a0 :: act') < S (length (nodes c)))%nat as Hfuel by lia.
  assert (0 < wa ≤ width c) as Hwa' by lia.
  destruct (left_loop_spec c (a0 :: act') fs Hrep wa ht Hwa' _ Hfuel act' (S (length (nodes c))) [] a0 n0
    (mkBest (2 ^ 30) 0 (2 ^ 30) None) eq_refl Hn0) as (b & Eb & Hb & Hfound); [cbn in Hlen; lia|done|done|].
  change (link_to []) with HeadLink in Eb. rewrite Eb. cbn [mbind outcome_bind].
  destruct (best_follow c (a0 :: act') fs wa b Hrep Hb) as (bx & -> & Hbx). cbn [mbind outcome_bind]. cbn zeta.
  set (b1 := mkBest (best_waste b) bx (best_y b) (best_link b)) in *.
  assert (∃ b2, (if heuristic c =? BF_sortHeight
       then tail ← first_tail (S (length (nodes c))) c wa (a0, n0);
            right_loop (S (length (nodes c))) (S (length (nodes c))) c wa ht (Some tail.1) HeadLink (a0, n0) b1
       else Ok b1) = Ok b2 ∧ any_best c (a0 :: act') wa b2 ∧ (found c ht b1 → found c ht b2)) as (b2 & -> & Hb2 & Hf2).
  { destruct (heuristic c =? BF_sortHeight); [|by eauto].
    destruct (first_tail_spec c (a0 :: act') fs Hrep wa Hwa' _ Hfuel act' (S (length (nodes c))) [] a0 n0 eq_refl Hn0)
      as (pre & t & nt & post & Et & E & Hxt); [cbn in Hlen; lia|]. rewrite Et. cbn [mbind outcome_bind fst].
    change (Some t) with (head (t :: post)).
    apply (right_loop_spec c (a0 :: act') fs Hrep wa ht Hwa' _ Hfuel (t :: post) (S (length (nodes c))) pre [] a0 n0 act' _ E); try done.
    - rewrite E, length_app in Hlen. lia.
    - intros t' Ht'. rewrite Hx0. apply elem_of_cons in Ht' as [-> |Ht']; [lia|].
      pose proof (act_increases c (a0 :: act') fs Hrep pre t post t' E Ht'). lia. }
  cbn [mbind outcome_bind]. eexists. split; [done|]. cbn [prev_link fr_x fr_y]. split.
  - intros l Hl. destruct (Hb2 l Hl) as (pre & a & b3 & post & H1 & H2 & H3 & H4 & H5 & H6). exists pre, a, b3, post.
    split_and!; try done; try lia. intros col Hcol. apply H6. lia.
  - intros Hr. apply Hf2, Hfound. by right.
Qed.

(** ** Raising the skyline *)

(** The points [f] and the part of [q] left of [x1] are covered by a node at [px] with height
    [yt]. *)
Lemma suffix_raise W H xs f q r px x1 yt :
  sky W H xs (f ++ q :: r) → px ≤ xs → px < x1 ≤ W → 0 ≤ yt ≤ H →
  (∀ p, p ∈ tail (f ++ [q]) → p.1 ≤ x1) → (∀ p, head r = Some p → x1 < p.1) →
  let new := (px, yt) :: (Z.max q.1 x1, q.2) :: r in
  sky W H px new ∧
  ∀ col, height_at new col = if col <? Z.max q.1 x1 then yt else height_at (f ++ q :: r) col.
Proof.
  intros Hs Hpx Hx1 Hyt Hf Hr new. pose proof (sky_suffix _ _ _ _ _ _ Hs) as [Hq Hsq].
  assert (sky W H (Z.max q.1 x1) ((Z.max q.1 x1, q.2) :: r)) as Hs'.
  { destruct r as [|r0 r].
    - destruct q as [qx qy]. cbn in Hsq |- *. lia.
    - apply sky_cons in Hsq as (_ & Hy & x2 & Hx2 & Hsr); [|done]. apply sky_cons; [done|]. cbn [fst snd].
      split; [done|]. split; [done|]. exists x2. split; [|done]. specialize (Hr r0 eq_refl).
      rewrite (sky_head _ _ _ _ _ Hsr) in Hr. lia. }
  split.
  - apply sky_cons; [done|]. cbn [fst snd]. split; [done|]. split; [done|]. exists (Z.max q.1 x1). split; [lia|done].
  - intros col. unfold new. rewrite height_at_cons. cbn [fst snd]. destruct (Z.ltb_spec col (Z.max q.1 x1)) as [|Hcol]; [done|].
    rewrite (height_at_suffix W H xs f q r col Hs) by lia. by destruct r as [|r0 r], q.
Qed.

Lemma height_at_prefix W H x0 pre p s s' p' col :
  sky W H x0 (pre ++ p :: s) → p'.1 = p.1 → x0 ≤ col < p.1 →
  height_at (pre ++ p :: s) col = height_at (pre ++ p' :: s') col.
Proof.
  intros Hs Hp. revert x0 Hs. induction pre as [|q pre IH]; intros x0 Hs Hcol.
  - cbn [app] in Hs. apply sky_head in Hs. lia.
  - cbn [app] in *. apply sky_cons in Hs as (_ & _ & x1 & Hx1 & Hs); [|by destruct pre].
    destruct pre as [|q' pre]; cbn [app] in *.
    + rewrite !height_at_cons, Hp. by rewrite !(proj2 (Z.ltb_lt _ _)) by lia.
    + rewrite !height_at_cons. destruct (Z.ltb_spec col q'.1) as [|Hge]; [done|]. apply (IH x1); [done|].
      rewrite (sky_head _ _ _ _ _ Hs) in Hge. lia.
Qed.

Lemma sky_prefix W H x0 pre p s s' : sky W H x0 (pre ++ p :: s) → sky W H p.1 s' → sky W H x0 (pre ++ s').
Proof.
  intros Hs Hs'. revert x0 Hs. induction pre as [|q pre IH]; intros x0 Hs; cbn [app] in *.
  - by rewrite <- (sky_head _ _ _ _ _ Hs).
  - apply sky_cons in Hs as (H1 & H2 & x1 & Hx1 & Hs); [|by destruct pre].
    apply sky_cons; [by destruct pre, s'|]. split; [done|]. split; [done|]. exists x1. split; [done|]. by apply IH.
Qed.

(** ** The memory operations *)

Lemma seg_ext m m' p l q : (∀ a, a ∈ l → m' !! a = m !! a) → seg m p l q → seg m' p l q.
Proof.
  revert p. induction l as [|b l IH]; intros p Hm; [done|]. cbn [seg]. intros (-> & nb & Hb & H). split; [done|].
  exists nb. rewrite Hm by left. split; [done|]. apply IH; [|done]. intros a Ha. apply Hm. by right.
Qed.

Lemma xy_insert m a n b : m !! a ≠ None → xy (<[a := n]> m) b = if decide (b = a) then (node_x n, node_y n) else xy m b.
Proof.
  intros Ha. unfold xy. case_decide as E.
  - subst b. rewrite list_lookup_insert_eq; [done|]. apply lookup_lt_is_Some. by destruct (m !! a).
  - by rewrite list_lookup_insert_ne.
Qed.

(** The fields that packing does not change. *)
Definition same_target (c c' : stbrp_context) : Prop :=
  width c' = width c ∧ height c' = height c ∧ align c' = align c ∧ heuristic c' = heuristic c ∧
  num_nodes c' = num_nodes c ∧ length (nodes c') = length (nodes c).

Lemma same_target_trans c c' c'' : same_target c c' → same_target c' c'' → same_target c c''.
Proof. unfold same_target. intros. destruct_and!. split_and!; congruence. Qed.

Lemma follow_seg c pre a post q : seg (nodes c) (active_head c) (pre ++ a :: post) q →
  ∃ n, nodes c !! a = Some n ∧ follow c (link_to pre) = Ok (a, n) ∧ seg (nodes c) (next n) post q.
Proof.
  intros (r & Hpre & -> & n & Hn & Hpost)%seg_app. exists n. split; [done|]. split; [|done].
  destruct (decide (pre = [])) as [-> |Hne].
  - cbn [seg] in Hpre. cbn. rewrite Hpre. by apply deref_ok.
  - destruct (exists_last Hne) as (pre' & b & ->). rewrite link_to_snoc. cbn [follow].
    apply seg_app in Hpre as (r & _ & -> & nb & Hnb & Hnext). cbn [seg] in Hnext.
    rewrite (deref_ok _ _ _ Hnb). cbn [mbind outcome_bind snd]. rewrite Hnext. by apply deref_ok.
Qed.

(** Setting the pointer at the end of a part of the list. *)
Lemma set_link_seg c pre q p : seg (nodes c) (active_head c) pre q → NoDup pre →
  ∃ c', set_link (link_to pre) p c = Ok c' ∧ same_target c c' ∧ free_head c' = free_head c ∧
    seg (nodes c') (active_head c') pre p ∧
    (∀ a, a ∉ pre → nodes c' !! a = nodes c !! a) ∧ ∀ a, xy (nodes c') a = xy (nodes c) a.
Proof.
  intros Hpre Hnd. destruct (decide (pre = [])) as [-> |Hne].
  - by exists (set_active_head p c).
  - destruct (exists_last Hne) as (pre' & b & ->). rewrite link_to_snoc. cbn [set_link]. unfold set_next.
    apply seg_app in Hpre as (r & Hpre & -> & nb & Hnb & _). rewrite (deref_ok _ _ _ Hnb). cbn [mbind outcome_bind snd].
    eexists. split; [reflexivity|]. unfold same_target. cbn [set_nodes width height align heuristic num_nodes nodes free_head active_head].
    rewrite length_insert. apply NoDup_app in Hnd as (_ & Hb & _).
    assert (length (nodes c) > b)%nat as Hlen by (apply lookup_lt_Some in Hnb; lia).
    split; [done|]. split; [done|]. split; [|split].
    + apply seg_app. exists (Some b). split.
      * eapply seg_ext, Hpre. intros a Ha. apply list_lookup_insert_ne. intros ->. apply (Hb a Ha). by left.
      * split; [done|]. eexists. split; [by apply list_lookup_insert_eq|done].
    + intros a Ha. apply list_lookup_insert_ne. intros ->. apply Ha. apply elem_of_app. right. by left.
    + intros a. rewrite xy_insert by (by rewrite Hnb). case_decide as E; [|done]. subst a. unfold xy. by rewrite Hnb.
Qed.

Lemma free_loop_spec x1 l : ∀ fuel cur c fs,
  seg (nodes c) (Some cur) (cur :: l) None → seg (nodes c) (free_head c) fs None → NoDup (cur :: l ++ fs) → (length l < fuel)%nat →
  ∃ f cur' r c', free_loop fuel x1 cur c = Ok (cur', c') ∧ cur :: l = f ++ cur' :: r ∧
    (∀ b, b ∈ tail (f ++ [cur']) → left_edge (nodes c) b ≤ x1) ∧ (∀ b, head r = Some b → x1 < left_edge (nodes c) b) ∧
    seg (nodes c') (free_head c') (rev f ++ fs) None ∧ active_head c' = active_head c ∧ same_target c c' ∧
    (∀ a, a ∉ f → nodes c' !! a = nodes c !! a) ∧ ∀ a, xy (nodes c') a = xy (nodes c) a.
Proof.
  induction l as [|b l IH]; intros fuel cur c fs (_ & n & Hn & Hl) Hfs Hnd Hfuel; (destruct fuel as [|fuel]; [lia|]);
    cbn [free_loop]; rewrite (deref_ok _ _ _ Hn); cbn [mbind outcome_bind snd].
  { cbn [seg] in Hl. rewrite Hl. exists [], cur, [], c. split_and!; try done. intros b Hb. by apply elem_of_nil in Hb. }
  destruct Hl as (Hnext & nb & Hnb & Hl). rewrite Hnext, (deref_ok _ _ _ Hnb). cbn [mbind outcome_bind snd].
  assert (left_edge (nodes c) b = node_x nb) as Hxb by (unfold left_edge, xy; by rewrite Hnb).
  rewrite <- Hxb. destruct (Z.leb_spec (left_edge (nodes c) b) x1) as [Hle|Hgt].
  2: { exists [], cur, (b :: l), c. split_and!; try done; [intros b' Hb; by apply elem_of_nil in Hb|by intros b' [= <-]]. }
  unfold set_next. rewrite (deref_ok _ _ _ Hn). cbn [mbind outcome_bind snd].
  set (c1 := set_free_head (Some cur) (set_nodes (<[cur := mkNode (node_x n) (node_y n) (free_head c)]> (nodes c)) c)).
  apply NoDup_cons in Hnd as [Hcur Hnd].
  assert (∀ a, a ∈ (b :: l) ++ fs → nodes c1 !! a = nodes c !! a) as Hsame.
  { intros a Ha. apply list_lookup_insert_ne. by intros ->. }
  assert (length (nodes c) > cur)%nat as Hlen by (apply lookup_lt_Some in Hn; lia).
  assert (∀ a, xy (nodes c1) a = xy (nodes c) a) as Hxy.
  { intros a. cbn [c1 nodes set_free_head set_nodes]. rewrite xy_insert by (by rewrite Hn). case_decide as E; [|done].
    subst a. unfold xy. by rewrite Hn. }
  destruct (IH fuel b c1 (cur :: fs)) as (f & cur' & r & c' & E & Hsplit & Hf & Hr & Hfree & Hact & Htar & Hsame' & Hxy').
  - split; [done|]. exists nb. rewrite Hsame by set_solver. split; [done|]. eapply seg_ext, Hl. intros a Ha. apply Hsame. set_solver.
  - split; [done|]. eexists. split; [by apply list_lookup_insert_eq|]. cbn [next]. eapply seg_ext, Hfs. intros a Ha. apply Hsame. set_solver.
  - change (NoDup ((b :: l) ++ cur :: fs)). rewrite <- (Permutation_middle (b :: l) fs cur). by apply NoDup_cons.
  - cbn in Hfuel. lia.
  - exists (cur :: f), cur', r, c'. split; [done|]. split; [by rewrite Hsplit|]. split_and!.
    + intros b' Hb'. cbn [app tail] in Hb'.
      destruct f as [|f0 f]; cbn [app] in *; simplify_eq.
      * apply elem_of_cons in Hb' as [-> |Hb']; [done|by apply elem_of_nil in Hb'].
      * apply elem_of_cons in Hb' as [-> |Hb']; [done|]. specialize (Hf b' Hb'). unfold left_edge in *. by rewrite Hxy in Hf.
    + intros b' Hb'. specialize (Hr b' Hb'). unfold left_edge in *. by rewrite Hxy in Hr.
    + cbn [rev]. by rewrite <- app_assoc.
    + done.
    + eapply same_target_trans, Htar. unfold same_target. cbn [c1 set_free_head set_nodes width height align heuristic num_nodes nodes].
      by rewrite length_insert.
    + intros a Ha. apply not_elem_of_cons in Ha as [? Ha]. rewrite Hsame' by done. by apply list_lookup_insert_ne.
    + intros a. by rewrite Hxy'.
Qed.

(** ** The new skyline *)
Lemma covered_first (F : list (Z * Z)) (q : Z * Z) x1 col :
  (∀ p, p ∈ tail (F ++ [q]) → p.1 ≤ x1) → x1 ≤ col < q.1 → F = [].
Proof. intros HF Hcol. destruct F as [|p F']; [done|]. specialize (HF q ltac:(cbn; set_solver)). lia. Qed.

Lemma suffix_split W H A F q r : sky W H 0 (A ++ F ++ q :: r) →
  ∃ s0 S, F ++ q :: r = s0 :: S ∧ sky W H s0.1 (F ++ q :: r).
Proof.
  intros Hsky. destruct (F ++ q :: r) as [|s0 S] eqn:E; [by destruct F|]. exists s0, S. split; [done|].
  exact (proj2 (sky_suffix _ _ _ _ _ _ Hsky)).
Qed.

Section raise.
Context (W H : Z) (A F : list (Z * Z)) (q : Z * Z) (r : list (Z * Z)) (px x1 py yt : Z).
Context (Hsky : sky W H 0 (A ++ F ++ q :: r)) (Hx1 : px < x1 ≤ W) (Hyt : py ≤ yt ≤ H) (Hpy : 0 ≤ py).
Context (Habove : ∀ col, px ≤ col < x1 → height_at (A ++ F ++ q :: r) col ≤ py).
Context (HF : ∀ p, p ∈ tail (F ++ [q]) → p.1 ≤ x1) (Hr : ∀ p, head r = Some p → x1 < p.1).

Definition raised : list (Z * Z) := (px, yt) :: (Z.max q.1 x1, q.2) :: r.
Definition raises (old new : list (Z * Z)) : Prop :=
  sky W H 0 new ∧
  ∀ col, 0 ≤ col < W → height_at old col ≤ height_at new col ∧ (px ≤ col < x1 → yt ≤ height_at new col).

(** The rectangle starts where a node starts. *)
Lemma raise_at s0 S : F ++ q :: r = s0 :: S → s0.1 = px → raises (A ++ F ++ q :: r) (A ++ raised).
Proof.
  intros E Hs0. destruct (suffix_split W H A F q r Hsky) as (s0' & S' & E' & Hs). rewrite E in E'. simplify_eq.
  destruct (suffix_raise W H s0'.1 F q r px x1 yt Hs ltac:(lia) Hx1 ltac:(lia) HF Hr) as [Hnew Hcols].
  fold raised in Hnew, Hcols. rewrite E in Hsky, Habove, Hcols |- *.
  assert (sky W H 0 (A ++ raised)) as Hsky' by (eapply sky_prefix; [exact Hsky|by rewrite Hs0]). split; [done|]. intros col Hcol.
  destruct (Z.lt_ge_cases col s0'.1) as [Hlt|Hge].
  { unfold raised. rewrite <- (height_at_prefix W H 0 A s0' S' _ (px, yt) col Hsky) by (done || cbn; lia). split; lia. }
  unfold raised in *. rewrite (height_at_suffix W H 0 A (px, yt) _ col Hsky') by (cbn; lia). rewrite Hcols.
  destruct (Z.ltb_spec col (Z.max q.1 x1)) as [Hmax|Hmax].
  - split; [|lia]. destruct (Z.lt_ge_cases col x1); [specialize (Habove col); lia|].
    rewrite (covered_first F q x1 col HF ltac:(lia)) in E. cbn in E. simplify_eq. lia.
  - split; [|lia]. by rewrite (height_at_suffix W H 0 A s0' S' col Hsky) by lia.
Qed.
End raise.

(** The rectangle starts inside of a node [pa], which is kept. *)
Lemma raise_inside W H A pa F q r px x1 py yt s0 S :
  sky W H 0 ((A ++ [pa]) ++ F ++ q :: r) → px < x1 ≤ W → py ≤ yt ≤ H → 0 ≤ py →
  (∀ col, px ≤ col < x1 → height_at ((A ++ [pa]) ++ F ++ q :: r) col ≤ py) →
  (∀ p, p ∈ tail (F ++ [q]) → p.1 ≤ x1) → (∀ p, head r = Some p → x1 < p.1) →
  F ++ q :: r = s0 :: S → pa.1 < px < s0.1 →
  raises W H px x1 yt ((A ++ [pa]) ++ F ++ q :: r) ((A ++ [pa]) ++ raised q r px x1 yt).
Proof.
  intros Hsky Hx1 Hyt Hpy Habove HF Hr E Hpa.
  destruct (suffix_split W H (A ++ [pa]) F q r Hsky) as (s0' & S' & E' & Hs). rewrite E in E'. simplify_eq.
  destruct (suffix_raise W H s0'.1 F q r px x1 yt Hs ltac:(lia) Hx1 ltac:(lia) HF Hr) as [Hnew Hcols].
  fold (raised q r px x1 yt) in Hnew, Hcols. rewrite <- !app_assoc in *. cbn [app] in *. rewrite E in Hsky, Habove, Hcols |- *.
  assert (0 ≤ pa.1 ∧ sky W H pa.1 (pa :: s0' :: S')) as [Hpa0 Hspa] by (by eapply sky_suffix).
  assert (sky W H pa.1 (pa :: raised q r px x1 yt)) as Hspa'.
  { apply sky_cons in Hspa as (_ & Hy & _); [|done]. apply sky_cons; [done|]. split; [done|]. split; [done|].
    exists px. split; [lia|done]. }
  assert (sky W H 0 (A ++ pa :: raised q r px x1 yt)) as Hsky' by (by eapply sky_prefix). split; [done|]. intros col Hcol.
  destruct (Z.lt_ge_cases col pa.1) as [Hlt|Hge].
  { rewrite (height_at_prefix W H 0 A pa (s0' :: S') (raised q r px x1 yt) pa col Hsky) by (done || lia). split; lia. }
  assert (pa.2 ≤ py) as Hpay.
  { specialize (Habove px ltac:(lia)). rewrite (height_at_suffix W H 0 A pa _ px Hsky) in Habove by lia.
    rewrite height_at_cons in Habove. by rewrite (proj2 (Z.ltb_lt _ _)) in Habove by lia. }
  rewrite (height_at_suffix W H 0 A pa _ col Hsky) by lia. rewrite (height_at_suffix W H 0 A pa _ col Hsky') by lia.
  assert (height_at (pa :: raised q r px x1 yt) col = if col <? px then pa.2 else height_at (raised q r px x1 yt) col) as ->
    by (unfold raised; apply height_at_cons).
  rewrite height_at_cons, Hcols. destruct (Z.ltb_spec col px) as [Hlt|Hge'].
  { rewrite (proj2 (Z.ltb_lt _ _)) by lia. split; lia. }
  destruct (Z.ltb_spec col (Z.max q.1 x1)) as [Hmax|Hmax].
  - split; [|lia]. destruct (Z.lt_ge_cases col x1) as [Hc|Hc].
    + specialize (Habove col ltac:(lia)). rewrite (height_at_suffix W H 0 A pa _ col Hsky), height_at_cons in Habove by lia. lia.
    + rewrite (covered_first F q x1 col HF ltac:(lia)) in E. cbn in E. simplify_eq. rewrite (proj2 (Z.ltb_lt _ _)) by lia. lia.
  - rewrite (proj2 (Z.ltb_ge _ _)); [split; [done|lia]|]. pose proof (sky_suffix _ _ _ _ _ _ Hs). lia.
Qed.

(** ** Inserting the new node *)

Lemma stitch_spec fuel x1 f cur l pre fs c nf :
  seg (nodes c) (active_head c) pre (Some f) → nodes c !! f = Some nf →
  seg (nodes c) (Some cur) (cur :: l) None → seg (nodes c) (free_head c) fs None →
  NoDup (pre ++ f :: (cur :: l) ++ fs) → (length l < fuel)%nat → 0 ≤ x1 ≤ 65535 →
  ∃ F cur' r c', stitch fuel x1 f cur c = Ok c' ∧ cur :: l = F ++ cur' :: r ∧
    (∀ b, b ∈ tail (F ++ [cur']) → left_edge (nodes c) b ≤ x1) ∧ (∀ b, head r = Some b → x1 < left_edge (nodes c) b) ∧
    same_target c c' ∧ seg (nodes c') (active_head c') (pre ++ f :: cur' :: r) None ∧
    seg (nodes c') (free_head c') (rev F ++ fs) None ∧
    ∀ a, xy (nodes c') a = if decide (a = cur') then (Z.max (left_edge (nodes c) cur') x1, (xy (nodes c) cur').2) else xy (nodes c) a.
Proof.
  intros Hpre Hf Hcur Hfs Hnd Hfuel Hx1. unfold stitch.
  apply NoDup_app in Hnd as (Hnd1 & Hdis & Hnd2). apply NoDup_cons in Hnd2 as [Hfn Hnd2].
  destruct (free_loop_spec x1 l fuel cur c fs Hcur Hfs Hnd2 Hfuel)
    as (F & cur' & r & c1 & -> & Hsplit & HF & Hr & Hfree & Hact & Htar & Hsame & Hxy). cbn [mbind outcome_bind].
  rewrite Hsplit in Hcur, Hnd2, Hdis, Hfn. rewrite <- !app_assoc in Hnd2, Hdis, Hfn. cbn [app] in Hnd2, Hdis, Hfn.
  apply NoDup_app in Hnd2 as (HndF & HdisF & Hnd3).
  assert (f ∉ F ∧ f ≠ cur' ∧ f ∉ r ∧ f ∉ fs) as (HfF & Hfc & Hfr & Hffs) by set_solver.
  assert (cur' ∉ F ∧ cur' ∉ r ∧ cur' ∉ fs) as (HcF & Hcr & Hcfs).
  { apply NoDup_cons in Hnd3 as [? _]. split_and!; set_solver. }
  apply seg_app in Hcur as (q & _ & Hq & ncur & Hncur & Hr').
  unfold set_next. rewrite (deref_ok _ f nf) by (by rewrite Hsame). cbn [mbind outcome_bind snd].
  set (c2 := set_nodes (<[f := mkNode (node_x nf) (node_y nf) (Some cur')]> (nodes c1)) c1).
  assert (length (nodes c1) = length (nodes c)) as Hlen1 by apply Htar.
  assert (nodes c2 !! cur' = Some ncur) as Hc2 by (cbn [c2 set_nodes nodes]; by rewrite list_lookup_insert_ne, Hsame by done).
  rewrite (deref_ok _ _ _ Hc2). cbn [mbind outcome_bind snd].
  assert (left_edge (nodes c) cur' = node_x ncur) as Hedge by (unfold left_edge, xy; by rewrite Hncur).
  assert ((xy (nodes c) cur').2 = node_y ncur) as Hyc by (unfold xy; by rewrite Hncur).
  assert (∀ a, xy (nodes c2) a = xy (nodes c) a) as Hxy2.
  { intros a. cbn [c2 set_nodes nodes]. rewrite xy_insert by (by rewrite Hsame, Hf). case_decide as E; [|done].
    subst a. unfold xy. by rewrite Hf. }
  set (c3 := set_nodes (<[cur' := mkNode (Z.max (node_x ncur) x1) (node_y ncur) (next ncur)]> (nodes c2)) c2).
  assert ((if node_x ncur <? x1 then set_x cur' (stbrp_coord x1) c2 else Ok c2) = Ok c3) as ->.
  { unfold c3. destruct (Z.ltb_spec (node_x ncur) x1) as [Hlt|Hge].
    - unfold set_x. rewrite (deref_ok _ _ _ Hc2). cbn [mbind outcome_bind snd]. unfold stbrp_coord.
      rewrite uwrap_small by (cbn; lia). by rewrite Z.max_r by lia.
    - rewrite Z.max_l by lia. destruct ncur as [xc yc pc]. cbn [node_x node_y next]. rewrite (list_insert_id _ _ _ Hc2). by destruct c2. }
  exists F, cur', r, c3. split; [done|]. split; [done|]. split; [done|]. split; [done|].
  assert (∀ a, a ≠ f → a ≠ cur' → a ∉ F → nodes c3 !! a = nodes c !! a) as Hsame3.
  { intros a ? ? ?. cbn [c3 c2 set_nodes nodes]. rewrite !list_lookup_insert_ne by done. by apply Hsame. }
  split; [|split; [|split]].
  - eapply same_target_trans; [exact Htar|]. unfold same_target. cbn [c3 c2 set_nodes width height align heuristic num_nodes nodes].
    by rewrite !length_insert.
  - apply seg_app. exists (Some f). assert (active_head c3 = active_head c) as -> by exact Hact. split.
    + eapply seg_ext, Hpre. intros a Ha. apply Hsame3; intros ?; apply (Hdis a Ha); set_solver.
    + split; [done|]. exists (mkNode (node_x nf) (node_y nf) (Some cur')). split.
      { cbn [c3 set_nodes nodes]. rewrite list_lookup_insert_ne by done. apply list_lookup_insert_eq.
        rewrite Hlen1. by eapply lookup_lt_Some. }
      split; [done|]. eexists. split; [apply list_lookup_insert_eq; by eapply lookup_lt_Some|]. cbn [next].
      eapply seg_ext, Hr'. intros a Ha. apply Hsame3; [by intros ->|by intros ->|]. intros HaF. apply (HdisF a HaF). set_solver.
  - assert (free_head c3 = free_head c1) as -> by done. eapply seg_ext, Hfree. intros a Ha.
    cbn [c3 c2 set_nodes nodes]. rewrite elem_of_app, list_elem_of_In, <- in_rev, <- list_elem_of_In in Ha. rewrite !list_lookup_insert_ne; [done| |]; intros ->; tauto.
  - intros a. cbn [c3 set_nodes nodes]. rewrite xy_insert by (by rewrite Hc2). cbn [node_x node_y]. rewrite Hedge, Hyc.
    case_decide; [done|]. apply Hxy2.
Qed.

Lemma NoDup_perm {A} (l l' : list A) : l ≡ₚ l' → NoDup l → NoDup l'.
Proof. by intros ->. Qed.

Lemma NoDup_move {A} (pre l fs : list A) f : NoDup ((pre ++ l) ++ f :: fs) → NoDup (pre ++ f :: l ++ fs).
Proof. apply NoDup_perm. rewrite <- !app_assoc. apply Permutation_app_head. by rewrite Permutation_middle. Qed.

Lemma moved_nodes {A} (pre F r fs : list A) f a :
  (pre ++ f :: a :: r) ++ rev F ++ fs ≡ₚ (pre ++ F ++ a :: r) ++ f :: fs.
Proof.
  rewrite <- (Permutation_rev F), <- !app_assoc. apply Permutation_app_head.
  rewrite (app_assoc F), <- (Permutation_middle (F ++ a :: r) fs f), (Permutation_app_comm F (a :: r)).
  cbn [app]. by rewrite <- app_assoc.
Qed.

Lemma heights_raised m act px x1 yt W H m' act' : raises W H px x1 yt (xy m <$> act) (xy m' <$> act') →
  ∀ col, 0 ≤ col < W → heights m act col ≤ heights m' act' col ∧ (px ≤ col < x1 → yt ≤ heights m' act' col).
Proof. intros [_ Hc]. exact Hc. Qed.

(** What packing a rectangle at [px], [py] does. *)
Definition packs (c : stbrp_context) (act fs : list nat) (wd ht px py : Z) (c' : stbrp_context) : Prop :=
  0 ≤ px ∧ px + wd ≤ width c ∧ 0 ≤ py ∧ py + ht ≤ height c ∧ same_target c c' ∧
  (∀ col, px ≤ col < px + wd → heights (nodes c) act col ≤ py) ∧
  ∃ act' fs', rep c' act' fs' ∧ act' ++ fs' ≡ₚ act ++ fs ∧
    ∀ col, 0 ≤ col < width c → heights (nodes c) act col ≤ heights (nodes c') act' col ∧
      (px ≤ col < px + wd → py + ht ≤ heights (nodes c') act' col).

(** From the point where the new node is linked in. *)
Lemma stitch_packs c c2 pre L f fs wd ht px py nf :
  rep c (pre ++ L) (f :: fs) → same_target c c2 →
  seg (nodes c2) (active_head c2) pre (Some f) → nodes c2 !! f = Some nf → node_x nf = px → node_y nf = py + ht →
  seg (nodes c2) (head L) L None → seg (nodes c2) (free_head c2) fs None →
  (∀ a, a ≠ f → xy (nodes c2) a = xy (nodes c) a) →
  0 ≤ px → 0 < wd → px + wd ≤ width c → 0 ≤ py → 0 < ht → py + ht ≤ height c →
  (∀ col, px ≤ col < px + wd → heights (nodes c) (pre ++ L) col ≤ py) →
  (∃ a L', L = a :: L' ∧ left_edge (nodes c) a = px) ∨
  (∃ pre' a b L', pre = pre' ++ [a] ∧ L = b :: L' ∧ left_edge (nodes c) a < px < left_edge (nodes c) b) →
  ∃ cur c', head L = Some cur ∧ stitch (S (length (nodes c2))) (px + wd) f cur c2 = Ok c' ∧
    packs c (pre ++ L) (f :: fs) wd ht px py c'.
Proof.
  intros Hrep Htar Hpre Hf Hfx Hfy HL Hfs Hxy Hpx Hwd Hfit Hpy Hht Hfit' Habove Hcase.
  assert (∃ cur l, L = cur :: l) as (cur & l & ->) by (destruct Hcase as [(a & L' & -> & _)|(? & ? & b & L' & _ & -> & _)]; eauto).
  pose proof (rep_nodup _ _ _ Hrep) as Hnd. pose proof (NoDup_move _ _ _ _ Hnd) as Hnd'.
  pose proof (rep_width _ _ _ Hrep) as HW. pose proof (act_length _ _ _ Hrep) as Hlen.
  assert (length (nodes c2) = length (nodes c)) as Hlen2 by apply Htar.
  destruct (stitch_spec (S (length (nodes c2))) (px + wd) f cur l pre fs c2 nf Hpre Hf HL Hfs Hnd')
    as (F & cur' & r & c' & E & Hsplit & HF & Hr & Htar' & Hact' & Hfree' & Hxy').
  { rewrite length_app in Hlen. cbn in Hlen. lia. } { lia. }
  exists cur, c'. split; [done|]. split; [done|]. assert (same_target c c') as Htc by (by eapply same_target_trans).
  do 4 (split; [lia|]). split; [done|]. split; [done|]. rewrite Hsplit in *.
  assert (∀ a, a ∈ pre ++ F ++ cur' :: r → a ≠ f) as Hne.
  { intros a Ha ->. apply NoDup_app in Hnd as (_ & Hd & _). apply (Hd f Ha). by left. }
  exists (pre ++ f :: cur' :: r), (rev F ++ fs).
  (* the points of the new skyline *)
  assert (xy (nodes c') <$> pre ++ f :: cur' :: r =
    (xy (nodes c) <$> pre) ++ raised (xy (nodes c) cur') (xy (nodes c) <$> r) px (px + wd) (py + ht)) as Hpoints.
  { assert (cur' ∉ pre ∧ cur' ∉ r ∧ f ≠ cur') as (Hcp & Hcr & Hfc).
    { apply NoDup_app in Hnd as (Hnd & _ & _). apply NoDup_app in Hnd as (_ & Hd & Hnd).
      apply NoDup_app in Hnd as (_ & _ & Hnd). apply NoDup_cons in Hnd as [? _].
      split; [|split; [done|intros ->; apply (Hne cur'); set_solver]]. intros Hin. apply (Hd _ Hin). set_solver. }
    rewrite fmap_app, !fmap_cons. f_equal.
    - apply list_fmap_ext. intros i a Ha%list_elem_of_lookup_2. rewrite Hxy', decide_False by (by intros ->).
      apply Hxy, Hne. set_solver.
    - unfold raised. rewrite (Hxy' f), decide_False by done. f_equal; [unfold xy; rewrite Hf; congruence|].
      rewrite (Hxy' cur'), decide_True by done. unfold left_edge. rewrite Hxy by done. f_equal.
      apply list_fmap_ext. intros i a Ha%list_elem_of_lookup_2. rewrite Hxy', decide_False by (by intros ->).
      apply Hxy, Hne. set_solver. }
  pose proof (rep_sky _ _ _ Hrep) as Hsky. rewrite !fmap_app, fmap_cons in Hsky.
  unfold heights in Habove. rewrite !fmap_app, fmap_cons in Habove.
  assert (∀ p, p ∈ tail ((xy (nodes c) <$> F) ++ [xy (nodes c) cur']) → p.1 ≤ px + wd) as HF'.
  { intros p Hp. assert ((xy (nodes c) <$> F) ++ [xy (nodes c) cur'] = xy (nodes c) <$> F ++ [cur']) as Eq by (by rewrite fmap_app).
    rewrite Eq in Hp. assert (p ∈ xy (nodes c) <$> tail (F ++ [cur'])) as Hp' by (by destruct (F ++ [cur'])).
    apply list_elem_of_fmap in Hp' as (b & -> & Hb). specialize (HF b Hb). unfold left_edge in HF. rewrite Hxy in HF; [done|].
    apply Hne. destruct F; cbn in Hb; set_solver. }
  assert (∀ p, head (xy (nodes c) <$> r) = Some p → px + wd < p.1) as Hr'.
  { intros p Hp. destruct r as [|b r]; [done|]. cbn in Hp. injection Hp as <-. specialize (Hr b eq_refl). unfold left_edge in Hr.
    rewrite Hxy in Hr; [done|]. apply Hne. set_solver. }
  assert (raises (width c) (height c) px (px + wd) (py + ht) (xy (nodes c) <$> pre ++ F ++ cur' :: r)
    (xy (nodes c') <$> pre ++ f :: cur' :: r)) as Hraise.
  { rewrite Hpoints, !fmap_app, fmap_cons. destruct Hcase as [(a & L' & Ea & Ha)|(pre' & a & b & L' & -> & Eb & Hab)].
    - eapply (raise_at _ _ _ _ _ _ _ _ py) with (s0 := xy (nodes c) a) (S := xy (nodes c) <$> L'); try done; try lia.
      by rewrite <- fmap_cons, <- fmap_app, Ea.
    - rewrite !fmap_app in *. cbn [fmap list_fmap] in *.
      eapply (raise_inside _ _ _ _ _ _ _ _ _ py) with (s0 := xy (nodes c) b) (S := xy (nodes c) <$> L'); try done; try lia.
      by rewrite <- fmap_cons, <- fmap_app, Eb. }
  split; [|split; [|by eapply heights_raised]].
  - destruct Htc as (E1 & E2 & E3 & E4 & E5 & E6). destruct Hrep. split; rewrite ?E1, ?E2, ?E3, ?E4; try done; [|by apply Hraise].
    eapply NoDup_perm, Hnd. symmetry. apply moved_nodes.
  - apply moved_nodes.
Qed.

Lemma pack_rectangle_spec c act fs wd ht : rep c act fs → 0 < wd → 0 < ht →
  ∃ fr c', stbrp__skyline_pack_rectangle c wd ht = Ok (fr, c') ∧
    match prev_link fr with
    | None => c' = c ∧ (fs ≠ [] → ¬ room c act wd ht)
    | Some _ => packs c act fs wd ht (fr_x fr) (fr_y fr) c'
    end.
Proof.
  intros Hrep Hwd Hht. unfold stbrp__skyline_pack_rectangle.
  destruct (find_best_pos_spec c act fs wd ht Hrep Hwd Hht) as (fr & -> & Hfr & Hroom). cbn [mbind outcome_bind].
  destruct (prev_link fr) as [lk|] eqn:Elk; [|eexists _, c; split; [done|]; split; [done|]; by intros _ [? _]%Hroom].
  destruct (free_head c) as [f|] eqn:Ef.
  2: { eexists _, c. split; [done|]. split; [done|]. intros Hfs. pose proof (rep_free _ _ _ Hrep) as Hfree.
    rewrite Ef in Hfree. by destruct fs as [|f fs], Hfree. }
  destruct (Z.ltb_spec (height c) (fr_y fr + ht)) as [?|Hfit].
  { eexists _, c. split; [done|]. split; [done|]. intros _ [_ ?]%Hroom. lia. }
  destruct (Hfr lk eq_refl) as (pre & a & b & post & -> & <- & Hab & Hpx & Hpy & Habove).
  set (px := fr_x fr) in *. set (py := fr_y fr) in *.
  pose proof (rep_free _ _ _ Hrep) as Hfree. rewrite Ef in Hfree.
  destruct fs as [|f' fs]; [done|]. destruct Hfree as ([= <-] & nf & Hnf & Hfree).
  pose proof (rep_width _ _ _ Hrep) as HW. pose proof (rep_height _ _ _ Hrep) as HH.
  destruct (act_split _ _ _ Hrep pre a (b :: post) eq_refl) as (_ & _ & _ & _ & HXa).
  rewrite (deref_ok _ _ _ Hnf). cbn [mbind outcome_bind snd]. unfold stbrp_coord. rewrite !uwrap_small by (cbn; lia).
  set (new := mkNode px (py + ht) (next nf)).
  set (c1 := set_free_head (next nf) (set_nodes (<[f := new]> (nodes c)) c)).
  pose proof (rep_nodup _ _ _ Hrep) as Hnd. apply NoDup_app in Hnd as (Hnd & Hdis & Hndf). apply NoDup_cons in Hndf as [Hff Hndf].
  assert (∀ x, x ≠ f → nodes c1 !! x = nodes c !! x) as Hsame by (intros; by apply list_lookup_insert_ne).
  assert (∀ x, x ≠ f → xy (nodes c1) x = xy (nodes c) x) as Hxy1 by (intros x Hx; unfold xy; by rewrite Hsame).
  assert (∀ x, x ∈ pre ++ a :: b :: post → x ≠ f) as Hactf by (intros x Hx ->; apply (Hdis f Hx); by left).
  assert (nodes c1 !! f = Some new) as Hf1 by (apply list_lookup_insert_eq; by eapply lookup_lt_Some).
  assert (seg (nodes c1) (active_head c1) (pre ++ a :: b :: post) None) as Hact1.
  { eapply seg_ext, (rep_active _ _ _ Hrep). intros x Hx. by apply Hsame, Hactf. }
  assert (seg (nodes c1) (free_head c1) fs None) as Hfree1.
  { eapply seg_ext, Hfree. intros x Hx. apply Hsame. by intros ->. }
  assert (same_target c c1) as Htar1.
  { unfold same_target, c1. cbn [set_free_head set_nodes width height align heuristic num_nodes nodes]. by rewrite length_insert. }
  destruct (follow_seg c1 pre a (b :: post) None Hact1) as (n & Hn & -> & Hpost). cbn [mbind outcome_bind snd fst].
  assert (node_x n = left_edge (nodes c) a) as HnX.
  { unfold left_edge. rewrite <- Hxy1 by (apply Hactf; set_solver). unfold xy. by rewrite Hn. }
  assert (∀ pre2 L, pre2 ++ L = pre ++ a :: b :: post → (∃ q, head L = Some q) →
    (∃ a L', L = a :: L' ∧ left_edge (nodes c) a = px) ∨
    (∃ pre' a b L', pre2 = pre' ++ [a] ∧ L = b :: L' ∧ left_edge (nodes c) a < px < left_edge (nodes c) b) →
    ∃ c2 cur c', set_link (link_to pre2) (Some f) c1 = Ok c2 ∧ head L = Some cur ∧
      stitch (S (length (nodes c2))) (px + wd) f cur c2 = Ok c' ∧
      packs c (pre ++ a :: b :: post) (f :: fs) wd ht px py c') as Hrest.
  { intros pre2 L HL _ Hcase. rewrite <- HL in *. apply seg_app in Hact1 as (q & Hpre2 & HL2).
    destruct (set_link_seg c1 pre2 q (Some f) Hpre2) as (c2 & E2 & Htar2 & Hfh & Hpre2' & Hsame2 & Hxy2).
    { by apply NoDup_app in Hnd as [? _]. }
    assert (∀ x, x ∈ L → nodes c2 !! x = nodes c1 !! x) as HsameL.
    { intros x Hx. apply Hsame2. intros Hx'. apply NoDup_app in Hnd as (_ & Hd & _). by apply (Hd x). }
    assert (f ∉ pre2 ∧ f ∉ L) as [Hfp HfL] by (split; intros Hf; apply (Hactf f); try done; set_solver).
    destruct (stitch_packs c c2 pre2 L f fs wd ht px py new) as (cur & c' & Hcur & Est & Hp); try done; try lia.
    - by eapply same_target_trans.
    - by rewrite Hsame2.
    - destruct L as [|x L]; [done|]. destruct HL2 as [-> HL2]. eapply seg_ext; [done|]. by split.
    - rewrite Hfh. eapply seg_ext, Hfree1. intros x Hx. apply Hsame2. intros Hx'. apply (Hdis x); [set_solver|by right].
    - intros x Hx. rewrite Hxy2. by apply Hxy1.
    - by exists c2, cur, c'. }
  rewrite HnX. destruct (Z.ltb_spec (left_edge (nodes c) a) px) as [Hlt|Hge].
  - destruct Hpost as (Hnext & _). rewrite Hnext.
    destruct (Hrest (pre ++ [a]) (b :: post)) as (c2 & cur & c' & E2 & Hcur & Est & Hp).
    + by rewrite <- app_assoc.
    + by exists b.
    + right. exists pre, a, b, post. split_and!; try done; lia.
    + rewrite link_to_snoc in E2. cbn [set_link] in E2. rewrite E2. cbn [mbind outcome_bind]. cbn in Hcur. injection Hcur as <-.
      rewrite Est. cbn [mbind outcome_bind]. exists fr, c'. split; [done|]. by rewrite Elk.
  - destruct (Hrest pre (a :: b :: post)) as (c2 & cur & c' & E2 & Hcur & Est & Hp).
    + done.
    + by exists a.
    + left. exists a, (b :: post). split; [done|lia].
    + rewrite E2. cbn [mbind outcome_bind]. cbn in Hcur. injection Hcur as <-.
      rewrite Est. cbn [mbind outcome_bind]. exists fr, c'. split; [done|]. by rewrite Elk.
Qed.

(** ** All rectangles *)

Definition inside (W H : Z) (r : stbrp_rect) : Prop :=
  0 < w r ∧ 0 < h r ∧ 0 ≤ x r ∧ x r + w r ≤ W ∧ 0 ≤ y r ∧ y r + h r ≤ H.
Definition disjoint_rects (p q : stbrp_rect) : Prop :=
  x p + w p ≤ x q ∨ x q + w q ≤ x p ∨ y p + h p ≤ y q ∨ y q + h q ≤ y p.

(** A target into which the rectangles [rs] have been packed: they are in it, do not overlap and
    are below the skyline; and every node is in exactly one of the two lists. *)
Definition packing (c : stbrp_context) (rs : list stbrp_rect) : Prop :=
  ∃ act fs, rep c act fs ∧ act ++ fs ≡ₚ seq 0 (length (nodes c)) ∧
    Forall (inside (width c) (height c)) rs ∧ ForallOrdPairs disjoint_rects rs ∧
    ∀ r, r ∈ rs → ∀ col, x r ≤ col < x r + w r → y r + h r ≤ heights (nodes c) act col.

Definition packed (r : stbrp_rect) : Prop := 0 < w r ∧ 0 < h r ∧ packed_flag r = true.
#[global] Instance packed_dec r : Decision (packed r).
Proof. unfold packed. apply _. Defined.

Lemma disjoint_rects_sym p q : disjoint_rects p q → disjoint_rects q p.
Proof. unfold disjoint_rects. lia. Qed.

Lemma ForallOrdPairs_perm l l' : l ≡ₚ l' → ForallOrdPairs disjoint_rects l → ForallOrdPairs disjoint_rects l'.
Proof.
  induction 1 as [|p l l' Hl IH|p q l|l l' l'' _ IH1 _ IH2]; intros H; [done| | |auto].
  - inversion H as [|? ? Hp Hr]; subst. constructor; [by rewrite <- Hl|auto].
  - inversion H as [|? ? Hq Hr]; subst. inversion Hr as [|? ? Hp Hr']; subst. inversion Hq as [|? ? Hqp Hq']; subst.
    constructor; [constructor; [by apply disjoint_rects_sym|done]|]. by constructor.
Qed.

(** Packing one more rectangle. *)
Lemma packing_cons c rs r fr c' act fs :
  rep c act fs → act ++ fs ≡ₚ seq 0 (length (nodes c)) → Forall (inside (width c) (height c)) rs → ForallOrdPairs disjoint_rects rs →
  (∀ r, r ∈ rs → ∀ col, x r ≤ col < x r + w r → y r + h r ≤ heights (nodes c) act col) →
  0 < w r → 0 < h r → packs c act fs (w r) (h r) (fr_x fr) (fr_y fr) c' →
  packing c' (placed_at r (fr_x fr) (fr_y fr) :: rs).
Proof.
  intros Hrep Hperm Hin Hdis Hbelow Hw Hh (Hx & Hxw & Hy & Hyh & Htar & Habove & act' & fs' & Hrep' & Hperm' & Hcols).
  pose proof Htar as (EW & EH & _ & _ & _ & Elen). exists act', fs'. split; [done|]. split; [by rewrite Hperm', Hperm, Elen|].
  split; [|split].
  - constructor.
    + unfold inside, placed_at. cbn. rewrite EW, EH. lia.
    + eapply Forall_impl; [exact Hin|]. unfold inside. intros q. by rewrite EW, EH.
  - constructor; [|done]. apply Forall_forall. intros q Hq. unfold disjoint_rects, placed_at. cbn [x y w h].
    eapply Forall_forall in Hin; [|exact Hq]. unfold inside in Hin.
    destruct (Z.le_gt_cases (fr_x fr + w r) (x q)) as [?|H1]; [by left|].
    destruct (Z.le_gt_cases (x q + w q) (fr_x fr)) as [?|H2]; [by right; left|]. right; right; right.
    assert (∃ col, fr_x fr ≤ col < fr_x fr + w r ∧ x q ≤ col < x q + w q) as (col & Hc1 & Hc2).
    { exists (Z.max (fr_x fr) (x q)). lia. }
    specialize (Hbelow q Hq col Hc2). specialize (Habove col Hc1). lia.
  - intros q Hq col Hcol. apply elem_of_cons in Hq as [-> |Hq].
    + unfold placed_at in *. cbn [x y w h] in *. apply Hcols; lia.
    + eapply Forall_forall in Hin; [|exact Hq]. unfold inside in Hin. specialize (Hbelow q Hq col Hcol).
      destruct (Hcols col) as [? _]; lia.
Qed.

(** What packing keeps of a rectangle. *)
Definition same_rect (r r' : stbrp_rect) : Prop := id r' = id r ∧ w r' = w r ∧ h r' = h r ∧ was_packed r' = was_packed r.

Definition small (r : stbrp_rect) : Prop := 0 ≤ w r ≤ 65535 ∧ 0 ≤ h r ≤ 65535.

Lemma packing_coord c r act fs c' px py : rep c act fs → packs c act fs (w r) (h r) px py c' → 0 < w r → 0 < h r →
  stbrp_coord px = px ∧ stbrp_coord py = py ∧ packed (placed_at r px py).
Proof.
  intros Hrep (Hx & Hxw & Hy & Hyh & _) Hw Hh. pose proof (rep_width _ _ _ Hrep). pose proof (rep_height _ _ _ Hrep).
  unfold stbrp_coord. rewrite !uwrap_small by (cbn; lia). split; [done|]. split; [done|].
  unfold packed, packed_flag, placed_at, MAXVAL. cbn [w h x y]. split; [done|]. split; [done|].
  by rewrite (proj2 (Z.eqb_neq px 65535)) by lia.
Qed.

Lemma pack_all_spec rects : ∀ c rs, packing c rs → Forall small rects →
  ∃ rects' c', pack_all c rects = Ok (rects', c') ∧ Forall2 same_rect rects rects' ∧
    Forall (λ r, packed_flag r = true ∨ x r = MAXVAL ∧ y r = MAXVAL) rects' ∧ same_target c c' ∧
    ∃ rs', packing c' rs' ∧ rs' ≡ₚ rs ++ filter packed rects'.
Proof.
  induction rects as [|r rects IH]; intros c rs Hp Hsm; cbn [pack_all].
  { exists [], c. split_and!; try done. exists rs. split; [done|]. by rewrite app_nil_r. }
  inversion Hsm as [|? ? Hr Hsm']; subst.
  assert (∃ r' c1, (if (w r =? 0) || (h r =? 0) then Ok (placed_at r 0 0, c)
      else '(fr, c) ← stbrp__skyline_pack_rectangle c (w r) (h r);
        Ok (match prev_link fr with
            | Some _ => placed_at r (stbrp_coord (fr_x fr)) (stbrp_coord (fr_y fr))
            | None => placed_at r MAXVAL MAXVAL
            end, c)) = Ok (r', c1) ∧ same_rect r r' ∧ (packed_flag r' = true ∨ x r' = MAXVAL ∧ y r' = MAXVAL) ∧
      same_target c c1 ∧ packing c1 (filter packed [r'] ++ rs)) as (r' & c1 & -> & Hsame & Hflag & Htar & Hp1).
  { destruct ((w r =? 0) || (h r =? 0)) eqn:Ez.
    { exists (placed_at r 0 0), c. split_and!; try done; [by left|]. rewrite filter_cons_False; [done|].
      unfold packed, placed_at. cbn. apply orb_true_iff in Ez. rewrite !Z.eqb_eq in Ez. lia. }
    apply orb_false_iff in Ez as [Hw%Z.eqb_neq Hh%Z.eqb_neq]. unfold small in Hr.
    destruct Hp as (act & fs & Hrep & Hperm & Hin & Hdis & Hbelow).
    destruct (pack_rectangle_spec c act fs (w r) (h r) Hrep ltac:(lia) ltac:(lia)) as (fr & c1 & -> & Hfr). cbn [mbind outcome_bind].
    eexists _, c1. split; [done|]. destruct (prev_link fr) as [lk|].
    - destruct (packing_coord c r act fs c1 _ _ Hrep Hfr ltac:(lia) ltac:(lia)) as (-> & -> & Hpk).
      split; [done|]. split; [left; apply Hpk|]. split; [apply Hfr|]. rewrite filter_cons_True by done. cbn [filter list_filter app].
      eapply packing_cons; try done; lia.
    - destruct Hfr as [-> _]. split; [done|]. split; [by right|]. split; [done|]. rewrite filter_cons_False; [by exists act, fs|].
      unfold packed. intros (_ & _ & Hpk). done. }
  cbn [mbind outcome_bind]. destruct (IH c1 _ Hp1 Hsm') as (rects' & c2 & -> & H2 & Hf & Htar2 & rs' & Hp2 & Hperm).
  cbn [mbind outcome_bind]. exists (r' :: rects'), c2. split; [done|]. split; [by constructor|]. split; [by constructor|].
  split; [by eapply same_target_trans|]. exists rs'. split; [done|]. rewrite Hperm, (filter_cons packed r' rects'), filter_cons, filter_nil.
  case_decide; [|done]. cbn [app]. apply Permutation_middle.
Qed.

Lemma packing_perm c rs rs' : rs ≡ₚ rs' → packing c rs → packing c rs'.
Proof.
  intros Hrs (act & fs & Hrep & Hperm & Hin & Hdis & Hbelow). exists act, fs. split; [done|]. split; [done|].
  split; [by rewrite <- Hrs|]. split; [by eapply ForallOrdPairs_perm|]. intros r Hr. apply Hbelow. by rewrite Hrs.
Qed.

(** ** Sorting and sorting back *)

(** A comparison function that [qsort] may be given, and what [qsort] does. *)
Definition comparator (cmp : stbrp_rect → stbrp_rect → Z) : Prop :=
  (∀ p q, cmp p q ≤ 0 ∨ cmp q p ≤ 0) ∧ ∀ p q r, cmp p q ≤ 0 → cmp q r ≤ 0 → cmp p r ≤ 0.
Definition sorts (qsort : (stbrp_rect → stbrp_rect → Z) → list stbrp_rect → list stbrp_rect) : Prop :=
  ∀ cmp, comparator cmp → ∀ l, qsort cmp l ≡ₚ l ∧ Sorted (λ p q, cmp p q ≤ 0) (qsort cmp l).

Lemma rect_height_comparator : comparator rect_height_compare.
Proof.
  unfold comparator, rect_height_compare. split; intros;
    repeat match goal with
      | |- context [?a <? ?b] => destruct (Z.ltb_spec a b)
      | H : context [?a <? ?b] |- _ => destruct (Z.ltb_spec a b)
      end; lia.
Qed.

Lemma rect_original_le p q : rect_original_order p q ≤ 0 ↔ was_packed p ≤ was_packed q.
Proof. unfold rect_original_order. destruct (Z.ltb_spec (was_packed p) (was_packed q)), (Z.ltb_spec (was_packed q) (was_packed p)); lia. Qed.

Lemma rect_original_comparator : comparator rect_original_order.
Proof. split; intros *; rewrite !rect_original_le; lia. Qed.

(** Rectangles numbered by [was_packed] come back in their order. *)
Lemma sorted_back (rects l : list stbrp_rect) :
  Sorted (λ p q, rect_original_order p q ≤ 0) l →
  (was_packed <$> l) ≡ₚ (Z.of_nat <$> seq 0 (length rects)) →
  (∀ r, r ∈ l → ∃ i r0, rects !! i = Some r0 ∧ was_packed r = Z.of_nat i ∧ id r = id r0 ∧ w r = w r0 ∧ h r = h r0) →
  Forall2 (λ r0 r, id r = id r0 ∧ w r = w r0 ∧ h r = h r0) rects l.
Proof.
  intros Hs Hperm Hl. assert (was_packed <$> l = Z.of_nat <$> seq 0 (length rects)) as Hnum.
  { apply (Sorted_unique Z.le); [| |done].
    - clear -Hs. induction Hs as [|r l Hs IH Hhd]; [constructor|]. cbn. constructor; [done|].
      destruct Hhd as [|q l Hq]; cbn; constructor. by apply rect_original_le.
    - clear. generalize 0%nat. induction (length rects) as [|n IH]; intros i; [constructor|]. cbn. constructor; [apply IH|].
      destruct n as [|n]; cbn; constructor; lia. }
  apply Forall2_same_length_lookup. assert (length l = length rects) as Hlen.
  { apply (f_equal length) in Hnum. by rewrite !length_fmap, length_seq in Hnum. }
  split; [done|]. intros i r0 r Hr0 Hr. destruct (Hl r ltac:(by eapply list_elem_of_lookup_2)) as (j & r1 & Hr1 & Hj & H).
  assert (was_packed r = Z.of_nat i) as Hi.
  { assert ((was_packed <$> l) !! i = Some (was_packed r)) as E by (by rewrite list_lookup_fmap, Hr).
    rewrite Hnum, list_lookup_fmap, lookup_seq_lt in E by (by apply lookup_lt_Some in Hr0). cbn in E. congruence. }
  assert (j = i) as -> by lia. by simplify_eq.
Qed.

(** The flags are not part of a packing. *)
Definition flagged (r : stbrp_rect) : stbrp_rect := set_was_packed r (if packed_flag r then 1 else 0).

Lemma flagged_filter (l : list stbrp_rect) : filter (λ r, was_packed r = 1 ∧ 0 < w r ∧ 0 < h r) (flagged <$> l) = flagged <$> filter packed l.
Proof.
  induction l as [|r l IH]; [done|]. rewrite fmap_cons, !filter_cons, IH.
  assert ((was_packed (flagged r) = 1 ∧ 0 < w (flagged r) ∧ 0 < h (flagged r)) ↔ packed r) as Hiff.
  { unfold packed, flagged, set_was_packed. cbn. destruct (packed_flag r); naive_solver. }
  by repeat case_decide; try tauto.
Qed.

Lemma packing_flagged c rs l : packing c (rs ++ l) → packing c (rs ++ (flagged <$> l)).
Proof.
  intros (act & fs & Hrep & Hperm & Hin & Hdis & Hbelow). exists act, fs. split; [done|]. split; [done|].
  split; [|split].
  - apply Forall_app in Hin as [H1 H2]. apply Forall_app. split; [done|]. by apply Forall_fmap.
  - clear -Hdis. induction rs as [|r rs IH]; cbn [app] in *.
    + induction l as [|q l IH]; [done|]. inversion Hdis as [|? ? Hq Hl]; subst. constructor; [|by apply IH]. by apply Forall_fmap.
    + inversion Hdis as [|? ? Hr Hl]; subst. constructor; [|by apply IH].
      apply Forall_app in Hr as [H1 H2]. apply Forall_app. split; [done|]. by apply Forall_fmap.
  - intros r Hr. apply elem_of_app in Hr as [Hr|Hr]; [apply Hbelow; set_solver|].
    apply list_elem_of_fmap in Hr as (q & -> & Hq). apply (Hbelow q). set_solver.
Qed.

Section pack_rects.
Context (qsort : (stbrp_rect → stbrp_rect → Z) → list stbrp_rect → list stbrp_rect) (Hqsort : sorts qsort).

Lemma numbered_lookup rects r : r ∈ imap (λ i r, set_was_packed r (Z.of_nat i)) rects →
  ∃ i r0, rects !! i = Some r0 ∧ was_packed r = Z.of_nat i ∧ id r = id r0 ∧ w r = w r0 ∧ h r = h r0.
Proof.
  intros (i & Hi)%list_elem_of_lookup_1. rewrite list_lookup_imap in Hi.
  destruct (rects !! i) as [r0|] eqn:E; [|done]. cbn in Hi. simplify_eq. by exists i, r0.
Qed.

Lemma numbered_numbers rects : was_packed <$> imap (λ i r, set_was_packed r (Z.of_nat i)) rects = Z.of_nat <$> seq 0 (length rects).
Proof.
  apply list_eq. intros i. rewrite !list_lookup_fmap, list_lookup_imap.
  destruct (rects !! i) as [r|] eqn:E; cbn.
  - by rewrite lookup_seq_lt by (by eapply lookup_lt_Some).
  - rewrite lookup_seq_ge; [done|]. by apply lookup_ge_None.
Qed.

Lemma pack_rects_spec c rs rects : packing c rs → Forall small rects →
  ∃ all rects' c', stbrp_pack_rects qsort c rects = Ok (all, rects', c') ∧
    Forall2 (λ r r', id r' = id r ∧ w r' = w r ∧ h r' = h r) rects rects' ∧
    Forall (λ r, was_packed r = 1 ∨ was_packed r = 0 ∧ x r = MAXVAL ∧ y r = MAXVAL) rects' ∧
    all = (if forallb (λ r, was_packed r =? 1) rects' then 1 else 0) ∧ same_target c c' ∧
    packing c' (rs ++ filter (λ r, was_packed r = 1 ∧ 0 < w r ∧ 0 < h r) rects').
Proof.
  intros Hp Hsm. unfold stbrp_pack_rects. set (num := imap _ rects).
  destruct (Hqsort _ rect_height_comparator num) as [Hperm1 _].
  assert (Forall small (qsort rect_height_compare num)) as Hsm1.
  { rewrite Hperm1. apply Forall_forall. intros r (i & r0 & Hr0 & _ & _ & Hw & Hh)%numbered_lookup.
    apply list_elem_of_lookup_2 in Hr0. eapply Forall_forall in Hsm; [|exact Hr0]. unfold small in *. by rewrite Hw, Hh. }
  destruct (pack_all_spec _ c rs Hp Hsm1) as (l & c' & -> & H2 & Hf & Htar & rs' & Hp' & Hrs'). cbn [mbind outcome_bind].
  destruct (Hqsort _ rect_original_comparator l) as [Hperm2 Hsorted2]. set (l2 := qsort rect_original_order l) in *.
  assert (was_packed <$> l = was_packed <$> qsort rect_height_compare num) as Hwp.
  { clear -H2. induction H2 as [|r r' l l' Hr _ IH]; [done|]. cbn. rewrite IH. f_equal. by destruct Hr as (_ & _ & _ & ->). }
  assert (Forall2 (λ r0 r, id r = id r0 ∧ w r = w r0 ∧ h r = h r0) rects l2) as Hback.
  { apply sorted_back; [done| |].
    - rewrite Hperm2, Hwp, Hperm1. unfold num. by rewrite numbered_numbers.
    - intros r Hr. rewrite Hperm2 in Hr. apply list_elem_of_lookup_1 in Hr as (i & Hi).
      destruct (Forall2_lookup_r _ _ _ _ _ H2 Hi) as (r1 & Hr1 & E1 & E2 & E3 & E4).
      apply list_elem_of_lookup_2 in Hr1. rewrite Hperm1 in Hr1.
      destruct (numbered_lookup rects r1 Hr1) as (j & r0 & Hr0 & ? & ? & ? & ?). exists j, r0. split_and!; congruence. }
  eexists _, _, c'. split; [done|]. split; [|split; [|split; [done|split; [done|]]]].
  - apply Forall2_fmap_r. eapply Forall2_impl; [exact Hback|]. done.
  - apply Forall_fmap. assert (Forall (λ r, packed_flag r = true ∨ x r = MAXVAL ∧ y r = MAXVAL) l2) as Hf2 by (by rewrite Hperm2).
    eapply Forall_impl; [exact Hf2|]. cbn. intros r Hr. destruct (packed_flag r) eqn:E; [by left|]. right. split; [done|].
    by destruct Hr.
  - rewrite flagged_filter. apply packing_flagged. eapply packing_perm, Hp'. by rewrite Hrs', Hperm2.
Qed.
End pack_rects.

(** ** A target from its start *)

Definition set_up (wd ht : Z) (n : nat) (hr : Z) (oom : bool) : outcome stbrp_context :=
  c ← stbrp_init_target wd ht n;
  c ← stbrp_setup_heuristic c hr;
  stbrp_setup_allow_out_of_mem c oom.

Lemma free_nodes_seg p q n k : ∀ i, (i + S k = n)%nat →
  seg (p :: q :: free_nodes n) (Some (i + 2)%nat) (seq (i + 2) (S k)) None.
Proof.
  induction k as [|k IH]; intros i Hi; rewrite <- cons_seq; cbn [seg]; (split; [done|]);
    exists (mkNode 0 0 (if (S i =? n)%nat then None else Some (i + 3)%nat)).
  all: split; [rewrite (Nat.add_comm i 2); change ((p :: q :: free_nodes n) !! (2 + i)%nat) with (free_nodes n !! i); unfold free_nodes; rewrite list_lookup_fmap, lookup_seq_lt by lia; done|].
  - rewrite (proj2 (Nat.eqb_eq _ _)) by lia. done.
  - rewrite (proj2 (Nat.eqb_neq _ _)) by lia. cbn [next]. replace (i + 3)%nat with (S i + 2)%nat by lia.
    replace (S (i + 2)) with (S i + 2)%nat by lia. apply IH. lia.
Qed.

Lemma set_up_spec wd ht n hr oom : 0 < wd ≤ 65535 → 0 ≤ ht ≤ 65535 → wd * ht ≤ int_max → (1 ≤ n)%nat →
  wd + Z.of_nat n ≤ int_max → hr = BL_sortHeight ∨ hr = BF_sortHeight →
  ∃ c, set_up wd ht n hr oom = Ok c ∧ width c = wd ∧ height c = ht ∧ rep c [0%nat; 1%nat] (seq 2 n) ∧ packing c [].
Proof.
  intros Hw Hh Harea Hn Hint Hhr. unfold set_up, stbrp_init_target.
  rewrite (proj2 (Z.leb_le wd 65535)), (proj2 (Z.leb_le ht 65535)) by lia. cbn [andb stbrp_assert mbind outcome_bind].
  rewrite (proj2 (Nat.eqb_neq n 0)) by lia.
  unfold stbrp_setup_heuristic, stbrp_setup_allow_out_of_mem. cbn [num_nodes width].
  rewrite (proj2 (Z.eqb_neq (Z.of_nat n) 0)) by lia.
  rewrite int_add_ok by (unfold int_min; lia). cbn [mbind outcome_bind].
  assert ((hr =? BL_sortHeight) || (hr =? BF_sortHeight) = true) as -> by (destruct Hhr as [-> | ->]; done).
  cbn [stbrp_assert mbind outcome_bind width height align heuristic num_nodes active_head free_head nodes].
  rewrite (proj2 (Z.eqb_neq (Z.of_nat n) 0)) by lia. rewrite int_add_ok by (unfold int_min; lia). cbn [mbind outcome_bind].
  set (m := mkNode 0 0 (Some 1%nat) :: mkNode (stbrp_coord wd) 65535 None :: free_nodes n).
  assert (∀ a, 1 ≤ a → rep (mkContext wd ht a hr (Z.of_nat n) (Some 0%nat) (Some 2%nat) m) [0%nat; 1%nat] (seq 2 n)) as Hrep.
  { intros a Ha. split; cbn [width height align heuristic num_nodes active_head free_head nodes]; try done.
    - split; [done|]. eexists. split; [done|]. split; [done|]. by eexists.
    - destruct n as [|n]; [lia|]. apply (free_nodes_seg _ _ (S n) n 0). lia.
    - change ([0; 1] ++ seq 2 n)%nat with (seq 0 (S (S n))). apply NoDup_seq.
    - cbn. unfold stbrp_coord. rewrite uwrap_small by (cbn; lia). lia. }
  assert (∃ c, (a ← (if oom then Ok 1 else Ok (Z.quot (wd + Z.of_nat n - 1) (Z.of_nat n)));
    Ok (mkContext wd ht a hr (Z.of_nat n) (Some 0%nat) (Some 2%nat) m)) = Ok c ∧ width c = wd ∧ height c = ht ∧
      nodes c = m ∧ rep c [0%nat; 1%nat] (seq 2 n)) as (c & E & EW & EH & Em & Hc).
  { destruct oom; cbn [mbind outcome_bind]; eexists; (split; [done|]); split_and!; try done; apply Hrep; [lia|].
    apply Z.quot_le_lower_bound; lia. }
  exists c. split; [exact E|]. split_and!; try done. exists [0%nat; 1%nat], (seq 2 n). split; [done|].
  split; [|by split_and!; [constructor|constructor|intros r Hr; by apply elem_of_nil in Hr]].
  rewrite Em. unfold m, free_nodes. cbn [length]. by rewrite length_fmap, length_seq.
Qed.

(** Calls of [stbrp_pack_rects] on one target, each with what it returns and its rectangles. *)
Section calls.
Context (qsort : (stbrp_rect → stbrp_rect → Z) → list stbrp_rect → list stbrp_rect).

Fixpoint pack_calls (c : stbrp_context) (calls : list (list stbrp_rect)) : outcome (list (Z * list stbrp_rect) * stbrp_context) :=
  match calls with
  | [] => Ok ([], c)
  | rects :: calls =>
      '(all, rects, c) ← stbrp_pack_rects qsort c rects;
      '(results, c) ← pack_calls c calls;
      Ok ((all, rects) :: results, c)
  end.

(** What a call makes of its rectangles: they stay in their order, with their numbers and sizes,
    each is marked as packed or as not packed, and all of them are packed if and only if 1 is
    returned. *)
Definition call_answers (rects : list stbrp_rect) (res : Z * list stbrp_rect) : Prop :=
  Forall2 (λ r r', id r' = id r ∧ w r' = w r ∧ h r' = h r) rects res.2 ∧
  Forall (λ r, was_packed r = 1 ∨ was_packed r = 0 ∧ x r = MAXVAL ∧ y r = MAXVAL) res.2 ∧
  res.1 = (if forallb (λ r, was_packed r =? 1) res.2 then 1 else 0).

(** The rectangles that take room. *)
Definition placed_rects (results : list (Z * list stbrp_rect)) : list stbrp_rect :=
  filter (λ r, was_packed r = 1 ∧ 0 < w r ∧ 0 < h r) (results ≫= snd).

Lemma pack_calls_spec (Hqsort : sorts qsort) calls : ∀ c rs, packing c rs → Forall (Forall small) calls →
  ∃ results c', pack_calls c calls = Ok (results, c') ∧ Forall2 call_answers calls results ∧ same_target c c' ∧
    packing c' (rs ++ placed_rects results).
Proof.
  induction calls as [|rects calls IH]; intros c rs Hp Hsm; cbn [pack_calls].
  { exists [], c. split_and!; try done. by rewrite app_nil_r. }
  inversion Hsm as [|? ? Hsm1 Hsm2]; subst.
  destruct (pack_rects_spec qsort Hqsort c rs rects Hp Hsm1) as (all & rects' & c1 & -> & H1 & H2 & H3 & Htar1 & Hp1).
  cbn [mbind outcome_bind]. destruct (IH c1 _ Hp1 Hsm2) as (results & c' & -> & Hr & Htar & Hp').
  cbn [mbind outcome_bind]. exists ((all, rects') :: results), c'. split; [done|]. split; [by constructor|].
  split; [by eapply same_target_trans|]. unfold placed_rects. rewrite bind_cons, filter_app, app_assoc. exact Hp'.
Qed.
End calls.

(** C9: packed rectangles do not overlap.  With any [qsort] that sorts, for a target of at least
    one column whose area fits an [int], at least one node, either heuristic and either treatment of memory:
    setting up the target and any number of calls of [stbrp_pack_rects] on it, with any sizes,
    zero included, end without undefined behaviour, failed assertion or endless loop.  Each call
    keeps its rectangles in their order and with their sizes, marks each as packed or not, and
    returns whether all are.  And all the rectangles of all the calls that are packed and not
    empty lie inside the target and are pairwise disjoint. *)
Theorem packed_rectangles_disjoint qsort wd ht n hr oom calls :
  sorts qsort → 0 < wd ≤ 65535 → 0 ≤ ht ≤ 65535 → wd * ht ≤ int_max → (1 ≤ n)%nat → wd + Z.of_nat n ≤ int_max →
  hr = BL_sortHeight ∨ hr = BF_sortHeight → Forall (Forall small) calls →
  ∃ c results c', set_up wd ht n hr oom = Ok c ∧ pack_calls qsort c calls = Ok (results, c') ∧
    Forall2 call_answers calls results ∧
    Forall (inside wd ht) (placed_rects results) ∧ ForallOrdPairs disjoint_rects (placed_rects results).
Proof.
  intros Hq Hw Hh Harea Hn Hint Hhr Hsm.
  destruct (set_up_spec wd ht n hr oom Hw Hh Harea Hn Hint Hhr) as (c & Ec & <- & <- & _ & Hp).
  destruct (pack_calls_spec qsort Hq calls c [] Hp Hsm) as (results & c' & Er & Hans & (EW & EH & _) & Hp').
  exists c, results, c'. split; [done|]. split; [done|]. split; [done|]. cbn [app] in Hp'. rewrite <- EW, <- EH.
  by destruct Hp' as (_ & _ & _ & _ & ? & ? & _).
Qed.

(** A sorting function for examples. *)
Definition sort_rects (cmp : stbrp_rect → stbrp_rect → Z) : list stbrp_rect → list stbrp_rect :=
  @merge_sort _ (λ p q, cmp p q ≤ 0) (λ p q, decide (cmp p q ≤ 0)).

Lemma sort_rects_sorts : sorts sort_rects.
Proof.
  intros cmp [Htot _] l. split; [apply merge_sort_Permutation|]. apply Sorted_merge_sort. exact Htot.
Qed.

Definition rect (i wd ht : Z) : stbrp_rect := mkRect i wd ht 0 0 0.

Lemma packed_rectangles_disjoint_witness :
  ∃ c results c', set_up 20 20 20 BF_sortHeight false = Ok c ∧
    pack_calls sort_rects c [[rect 1 5 5; rect 2 8 9]; [rect 3 30 1; rect 4 20 10; rect 5 0 3]] = Ok (results, c') ∧
    Forall2 call_answers [[rect 1 5 5; rect 2 8 9]; [rect 3 30 1; rect 4 20 10; rect 5 0 3]] results ∧
    Forall (inside 20 20) (placed_rects results) ∧ ForallOrdPairs disjoint_rects (placed_rects results).
Proof.
  apply (packed_rectangles_disjoint sort_rects 20 20 20 BF_sortHeight false).
  - exact sort_rects_sorts.
  - lia.
  - lia.
  - unfold int_max. lia.
  - lia.
  - unfold int_max. lia.
  - by right.
  - repeat constructor; cbn; lia.
Defined.

(** C30: a rectangle is rejected only when there is no room for it.  On a target with the skyline
    [act] and the free nodes [fs], [stbrp__skyline_pack_rectangle] returns; if it finds no place
    the target is as before, and no node is free or there is no node of the skyline at which the
    rectangle, with its width rounded up to the alignment, is below the top edge and left of the
    right edge.  Otherwise the place is in the target and above the skyline, the nodes are
    still accounted for, and the new skyline is nowhere lower than the old one and at least at the top of
    the rectangle where the rectangle is. *)
Theorem rejected_without_room c act fs wd ht : rep c act fs → 0 < wd → 0 < ht →
  ∃ fr c', stbrp__skyline_pack_rectangle c wd ht = Ok (fr, c') ∧
    match prev_link fr with
    | None => c' = c ∧ (fs = [] ∨ ¬ room c act wd ht)
    | Some _ => packs c act fs wd ht (fr_x fr) (fr_y fr) c'
    end.
Proof.
  intros Hrep Hwd Hht. destruct (pack_rectangle_spec c act fs wd ht Hrep Hwd Hht) as (fr & c' & E & H).
  exists fr, c'. split; [done|]. destruct (prev_link fr); [done|]. destruct H as [-> H]. split; [done|].
  destruct (decide (fs = [])) as [?|Hfs]; [by left|right; auto].
Qed.

Lemma rejected_without_room_witness :
  ∃ c, set_up 20 20 20 BL_sortHeight false = Ok c ∧ room c [0%nat; 1%nat] 20 20 ∧
  ∃ fr c', stbrp__skyline_pack_rectangle c 20 20 = Ok (fr, c') ∧
    match prev_link fr with
    | None => c' = c ∧ (seq 2 20 = [] ∨ ¬ room c [0%nat; 1%nat] 20 20)
    | Some _ => packs c [0%nat; 1%nat] (seq 2 20) 20 20 (fr_x fr) (fr_y fr) c'
    end.
Proof.
  destruct (set_up_spec 20 20 20 BL_sortHeight false ltac:(lia) ltac:(lia) ltac:(unfold int_max; lia) ltac:(lia)
    ltac:(unfold int_max; lia) ltac:(by left)) as (c & Ec & _ & _ & Hrep & _).
  exists c. split; [done|]. vm_compute in Ec. injection Ec as <-. split.
  - exists 0%nat. split; [by left|]. split; [done|]. split; [done|]. intros col Hcol. cbn in Hcol |- *.
    by destruct (col <? 20).
  - apply (rejected_without_room _ [0%nat; 1%nat] (seq 2 20) 20 20 Hrep); lia.
Defined.

(** ** Two limits *)

(** The waste area overflows for targets with a larger area, although the sizes are allowed. *)
Lemma waste_area_overflows :
  (c ← set_up 65535 65535 100 BL_sortHeight true; stbrp_pack_rects sort_rects c [rect 1 1 65535; rect 2 60000 8]) =
  UB "signed integer overflow".
Proof. vm_compute. reflexivity. Qed.

(** With quantized widths the nodes run out all the same: in a target of width 10, with five
    nodes and so the alignment 2, five columns of width 1 use up the nodes. *)
Lemma quantized_runs_out :
  (c ← set_up 10 100 5 BL_sortHeight false;
   '(all, rects, _) ← stbrp_pack_rects sort_rects c (map (λ i, rect i 1 (20 - i)) [1; 2; 3; 4; 5; 6]);
   Ok (all, map was_packed rects)) = Ok (0, [1; 1; 1; 1; 1; 0]).
Proof. vm_compute. reflexivity. Qed.
