(* ===== verification/ImText.v ===== *)
(** The UTF-8 conversions of the vendored imgui, with which its text fields read and write the
    user's buffers: [src/third_party_examples/graphical_interface/imgui_example/imgui/imgui.cpp].

    Bytes are [Z]s below 256 and a [char*] is the memory from it on, as a list; what is read
    past the end of the list is undefined behaviour.  The end of a text is given as the number
    of bytes up to it, [None] for a null pointer, or by a zero byte.  A buffer is given by its
    size, and what is written into it is returned.

    The theorems: the decoder accepts exactly the sequences of RFC 3629 and is the inverse of
    the encoder; a text of 16-bit characters that are not surrogates survives the conversion to
    UTF-8 and back, in a buffer of the size that the counting function gives. *)
From S2P Require Import Prelude.
Local Open Scope Z_scope.
Local Open Scope list_scope.

(* @src third_party_examples/graphical_interface/imgui_example/imgui/imgui.h 83-83 IM_UNICODE_CODEPOINT_MAX *)
Definition IM_UNICODE_CODEPOINT_MAX : Z := 0xFFFF.
(* @src third_party_examples/graphical_interface/imgui_example/imgui/imgui.h 84-84 IM_UNICODE_CODEPOINT_INVALID *)
Definition IM_UNICODE_CODEPOINT_INVALID : Z := 0xFFFD.

(** [p[i]] *)
Definition read (p : list Z) (i : nat) : outcome Z :=
  match p !! i with Some b => Ok b | None => UB "read past the end of the memory" end.

(** [in_text_end && in_text_end - str < n] *)
Definition shorter (in_text_end : option Z) (n : Z) : bool :=
  match in_text_end with Some k => k <? n | None => false end.

(* @src third_party_examples/graphical_interface/imgui_example/imgui/imgui.cpp 1476-1532 ImTextCharFromUtf8 *)
(** The character and the number of bytes. *)
Definition ImTextCharFromUtf8 (str : list Z) (in_text_end : option Z) : outcome (Z * nat) :=
  let invalid := IM_UNICODE_CODEPOINT_INVALID in
  b0 ← read str 0;
  if Z.land b0 0x80 =? 0 then Ok (b0, 1%nat)
  else if Z.land b0 0xe0 =? 0xc0 then
    if shorter in_text_end 2 then Ok (invalid, 1%nat) else
    if b0 <? 0xc2 then Ok (invalid, 2%nat) else
    let c := Z.shiftl (Z.land b0 0x1f) 6 in
    b1 ← read str 1;
    if negb (Z.land b1 0xc0 =? 0x80) then Ok (invalid, 2%nat) else
    Ok (c + Z.land b1 0x3f, 2%nat)
  else if Z.land b0 0xf0 =? 0xe0 then
    if shorter in_text_end 3 then Ok (invalid, 1%nat) else
    b1 ← read str 1;
    if (b0 =? 0xe0) && ((b1 <? 0xa0) || (0xbf <? b1)) then Ok (invalid, 3%nat) else
    if (b0 =? 0xed) && (0x9f <? b1) then Ok (invalid, 3%nat) else
    let c := Z.shiftl (Z.land b0 0x0f) 12 in
    if negb (Z.land b1 0xc0 =? 0x80) then Ok (invalid, 3%nat) else
    let c := c + Z.shiftl (Z.land b1 0x3f) 6 in
    b2 ← read str 2;
    if negb (Z.land b2 0xc0 =? 0x80) then Ok (invalid, 3%nat) else
    Ok (c + Z.land b2 0x3f, 3%nat)
  else if Z.land b0 0xf8 =? 0xf0 then
    if shorter in_text_end 4 then Ok (invalid, 1%nat) else
    if 0xf4 <? b0 then Ok (invalid, 4%nat) else
    b1 ← read str 1;
    if (b0 =? 0xf0) && ((b1 <? 0x90) || (0xbf <? b1)) then Ok (invalid, 4%nat) else
    if (b0 =? 0xf4) && (0x8f <? b1) then Ok (invalid, 4%nat) else
    let c := Z.shiftl (Z.land b0 0x07) 18 in
    if negb (Z.land b1 0xc0 =? 0x80) then Ok (invalid, 4%nat) else
    let c := c + Z.shiftl (Z.land b1 0x3f) 12 in
    b2 ← read str 2;
    if negb (Z.land b2 0xc0 =? 0x80) then Ok (invalid, 4%nat) else
    let c := c + Z.shiftl (Z.land b2 0x3f) 6 in
    b3 ← read str 3;
    if negb (Z.land b3 0xc0 =? 0x80) then Ok (invalid, 4%nat) else
    let c := c + Z.land b3 0x3f in
    if Z.land c 0xFFFFF800 =? 0xD800 then Ok (invalid, 4%nat) else
    Ok (c, 4%nat)
  else Ok (0, 0%nat).

(** [!in_text_end || in_text < in_text_end] *)
Definition before_end (in_text_end : option Z) : bool :=
  match in_text_end with Some k => 0 <? k | None => true end.
Definition past (n : nat) (in_text_end : option Z) : option Z := (λ k, k - Z.of_nat n) <$> in_text_end.

(** The loop of [ImTextStrFromUtf8]; [room] is [buf_end - 1 - buf_out].  The characters, and
    how many bytes have been read. *)
Fixpoint from_utf8_loop (fuel : nat) (room : Z) (in_text : list Z) (in_text_end : option Z) : outcome (list Z * nat) :=
  match fuel with
  | O => Throw "out of fuel"
  | S fuel =>
      if (0 <? room) && before_end in_text_end then
        b ← read in_text 0;
        if b =? 0 then Ok ([], 0%nat) else
        '(c, n) ← ImTextCharFromUtf8 in_text in_text_end;
        if c =? 0 then Ok ([], n) else
        let kept := c <=? IM_UNICODE_CODEPOINT_MAX in
        '(cs, k) ← from_utf8_loop fuel (if kept then room - 1 else room) (drop n in_text) (past n in_text_end);
        Ok (if kept then c :: cs else cs, (n + k)%nat)
      else Ok ([], 0%nat)
  end.

(* @src third_party_examples/graphical_interface/imgui_example/imgui/imgui.cpp 1534-1552 ImTextStrFromUtf8 *)
(** The characters that are written, without the zero at their end, and the number of bytes
    read. *)
Definition ImTextStrFromUtf8 (buf_size : Z) (in_text : list Z) (in_text_end : option Z) : outcome (list Z * nat) :=
  if buf_size <=? 0 then UB "write past the end of the buffer" else
  from_utf8_loop (S (length in_text)) (buf_size - 1) in_text in_text_end.

Fixpoint count_chars_loop (fuel : nat) (in_text : list Z) (in_text_end : option Z) : outcome Z :=
  match fuel with
  | O => Throw "out of fuel"
  | S fuel =>
      if before_end in_text_end then
        b ← read in_text 0;
        if b =? 0 then Ok 0 else
        '(c, n) ← ImTextCharFromUtf8 in_text in_text_end;
        if c =? 0 then Ok 0 else
        k ← count_chars_loop fuel (drop n in_text) (past n in_text_end);
        Ok (if c <=? IM_UNICODE_CODEPOINT_MAX then k + 1 else k)
      else Ok 0
  end.

(* @src third_party_examples/graphical_interface/imgui_example/imgui/imgui.cpp 1554-1567 ImTextCountCharsFromUtf8 *)
Definition ImTextCountCharsFromUtf8 (in_text : list Z) (in_text_end : option Z) : outcome Z :=
  count_chars_loop (S (length in_text)) in_text in_text_end.

(** [(char)z], as the byte that is stored. *)
Definition byte (z : Z) : Z := uwrap 8 z.

(* @src third_party_examples/graphical_interface/imgui_example/imgui/imgui.cpp 1570-1604 ImTextCharToUtf8 *)
(** The bytes that are written. *)
Definition ImTextCharToUtf8 (buf_size c : Z) : list Z :=
  if c <? 0x80 then [byte c]
  else if c <? 0x800 then
    if buf_size <? 2 then [] else
    [byte (0xc0 + Z.shiftr c 6); byte (0x80 + Z.land c 0x3f)]
  else if (0xdc00 <=? c) && (c <? 0xe000) then []
  else if (0xd800 <=? c) && (c <? 0xdc00) then
    if buf_size <? 4 then [] else
    [byte (0xf0 + Z.shiftr c 18); byte (0x80 + Z.land (Z.shiftr c 12) 0x3f);
     byte (0x80 + Z.land (Z.shiftr c 6) 0x3f); byte (0x80 + Z.land c 0x3f)]
  else
    if buf_size <? 3 then [] else
    [byte (0xe0 + Z.shiftr c 12); byte (0x80 + Z.land (Z.shiftr c 6) 0x3f); byte (0x80 + Z.land c 0x3f)].

(* @src third_party_examples/graphical_interface/imgui_example/imgui/imgui.cpp 1613-1620 ImTextCountUtf8BytesFromChar *)
Definition ImTextCountUtf8BytesFromChar (c : Z) : Z :=
  if c <? 0x80 then 1
  else if c <? 0x800 then 2
  else if (0xdc00 <=? c) && (c <? 0xe000) then 0
  else if (0xd800 <=? c) && (c <? 0xdc00) then 4
  else 3.

(** The loop of [ImTextStrToUtf8]; [room] is [buf_end - 1 - buf_out]. *)
Fixpoint to_utf8_loop (room : Z) (in_text : list Z) : list Z :=
  match in_text with
  | [] => []
  | c :: in_text =>
      if (0 <? room) && negb (c =? 0) then
        let out := if c <? 0x80 then [byte c] else ImTextCharToUtf8 room c in
        out ++ to_utf8_loop (room - Z.of_nat (length out)) in_text
      else []
  end.

(* @src third_party_examples/graphical_interface/imgui_example/imgui/imgui.cpp 1622-1636 ImTextStrToUtf8 *)
(** The text is the memory from [in_text] to [in_text_end], which is given.  The bytes that are
    written, without the zero at their end. *)
Definition ImTextStrToUtf8 (buf_size : Z) (in_text : list Z) : outcome (list Z) :=
  if buf_size <=? 0 then UB "write past the end of the buffer" else Ok (to_utf8_loop (buf_size - 1) in_text).

(* @src third_party_examples/graphical_interface/imgui_example/imgui/imgui.cpp 1638-1650 ImTextCountUtf8BytesFromStr *)
Fixpoint ImTextCountUtf8BytesFromStr (in_text : list Z) : Z :=
  match in_text with
  | [] => 0
  | c :: in_text =>
      if c =? 0 then 0
      else (if c <? 0x80 then 1 else ImTextCountUtf8BytesFromChar c) + ImTextCountUtf8BytesFromStr in_text
  end.

(** ** RFC 3629 *)

(** The Unicode scalar values and their encoding. *)
Definition scalar (c : Z) : Prop := 0 ≤ c ≤ 0x10FFFF ∧ ¬ (0xD800 ≤ c ≤ 0xDFFF).
Definition utf8 (c : Z) : list Z :=
  if c <? 0x80 then [c]
  else if c <? 0x800 then [0xc0 + c / 64; 0x80 + c mod 64]
  else if c <? 0x10000 then [0xe0 + c / 4096; 0x80 + c / 64 mod 64; 0x80 + c mod 64]
  else [0xf0 + c / 262144; 0x80 + c / 4096 mod 64; 0x80 + c / 64 mod 64; 0x80 + c mod 64].

Definition is_byte (b : Z) : Prop := 0 ≤ b < 256.

(** The masks, as ranges. *)
Definition mask_ranges (b : Z) : bool :=
  Bool.eqb (Z.land b 0x80 =? 0) (b <? 0x80) &&
  Bool.eqb (Z.land b 0xe0 =? 0xc0) ((0xc0 <=? b) && (b <? 0xe0)) &&
  Bool.eqb (Z.land b 0xf0 =? 0xe0) ((0xe0 <=? b) && (b <? 0xf0)) &&
  Bool.eqb (Z.land b 0xf8 =? 0xf0) ((0xf0 <=? b) && (b <? 0xf8)) &&
  Bool.eqb (Z.land b 0xc0 =? 0x80) ((0x80 <=? b) && (b <? 0xc0)).

Lemma mask_ranges_all b : is_byte b → mask_ranges b = true.
Proof.
  intros Hb. assert (forallb mask_ranges (seqZ 0 256) = true) as H by (vm_compute; reflexivity).
  rewrite forallb_forall in H. apply H. apply list_elem_of_In, elem_of_seqZ. unfold is_byte in Hb. lia.
Qed.

Lemma masks b : is_byte b →
  (Z.land b 0x80 =? 0) = (b <? 0x80) ∧
  (Z.land b 0xe0 =? 0xc0) = ((0xc0 <=? b) && (b <? 0xe0)) ∧
  (Z.land b 0xf0 =? 0xe0) = ((0xe0 <=? b) && (b <? 0xf0)) ∧
  (Z.land b 0xf8 =? 0xf0) = ((0xf0 <=? b) && (b <? 0xf8)) ∧
  (Z.land b 0xc0 =? 0x80) = ((0x80 <=? b) && (b <? 0xc0)).
Proof.
  intros Hb%mask_ranges_all. unfold mask_ranges in Hb. rewrite !andb_true_iff, !Bool.eqb_true_iff in Hb. tauto.
Qed.

Lemma land_mod b n : 0 ≤ n → Z.land b (Z.ones n) = b mod 2 ^ n.
Proof. intros. by apply Z.land_ones. Qed.

Lemma low_bits b : Z.land b 0x1f = b mod 32 ∧ Z.land b 0x0f = b mod 16 ∧ Z.land b 0x07 = b mod 8 ∧ Z.land b 0x3f = b mod 64.
Proof. split_and!; [apply (land_mod b 5)|apply (land_mod b 4)|apply (land_mod b 3)|apply (land_mod b 6)]; lia. Qed.

Lemma surrogate_bits c : 0 ≤ c < 2 ^ 32 → Z.land c 0xFFFFF800 = 0xD800 ↔ 0xD800 ≤ c ≤ 0xDFFF.
Proof.
  intros Hc. assert (Z.land c 0xFFFFF800 = c / 2048 * 2048) as ->.
  { replace 0xFFFFF800 with (Z.shiftl (Z.ones 21) 11) by reflexivity.
    transitivity (Z.shiftl (Z.land (Z.shiftr c 11) (Z.ones 21)) 11).
    - apply Z.bits_inj'. intros n Hn. rewrite Z.land_spec, !Z.shiftl_spec by lia.
      destruct (Z.lt_ge_cases n 11).
      + rewrite !(Z.testbit_neg_r _ (n - 11)) by lia. by rewrite andb_false_r.
      + rewrite Z.land_spec, Z.shiftr_spec by lia. by replace (n - 11 + 11) with n by lia.
    - rewrite Z.land_ones, Z.shiftr_div_pow2, Z.shiftl_mul_pow2 by lia. change (2 ^ 11) with 2048. f_equal.
      apply Z.mod_small. split; [apply Z.div_pos; lia|]. apply Z.div_lt_upper_bound; lia. }
  pose proof (Z.div_mod c 2048 ltac:(lia)). pose proof (Z.mod_pos_bound c 2048 ltac:(lia)). lia.
Qed.

Ltac div_lia := Z.to_euclidean_division_equations; lia.

(** The decoder with arithmetic in place of bits. *)
Definition cont (b : Z) : bool := (0x80 <=? b) && (b <? 0xc0).
Definition decode (str : list Z) (in_text_end : option Z) : outcome (Z * nat) :=
  let invalid := IM_UNICODE_CODEPOINT_INVALID in
  b0 ← read str 0;
  if b0 <? 0x80 then Ok (b0, 1%nat)
  else if (0xc0 <=? b0) && (b0 <? 0xe0) then
    if shorter in_text_end 2 then Ok (invalid, 1%nat) else
    if b0 <? 0xc2 then Ok (invalid, 2%nat) else
    b1 ← read str 1;
    if negb (cont b1) then Ok (invalid, 2%nat) else Ok ((b0 - 0xc0) * 64 + (b1 - 0x80), 2%nat)
  else if (0xe0 <=? b0) && (b0 <? 0xf0) then
    if shorter in_text_end 3 then Ok (invalid, 1%nat) else
    b1 ← read str 1;
    if (b0 =? 0xe0) && ((b1 <? 0xa0) || (0xbf <? b1)) then Ok (invalid, 3%nat) else
    if (b0 =? 0xed) && (0x9f <? b1) then Ok (invalid, 3%nat) else
    if negb (cont b1) then Ok (invalid, 3%nat) else
    b2 ← read str 2;
    if negb (cont b2) then Ok (invalid, 3%nat) else
    Ok ((b0 - 0xe0) * 4096 + (b1 - 0x80) * 64 + (b2 - 0x80), 3%nat)
  else if (0xf0 <=? b0) && (b0 <? 0xf8) then
    if shorter in_text_end 4 then Ok (invalid, 1%nat) else
    if 0xf4 <? b0 then Ok (invalid, 4%nat) else
    b1 ← read str 1;
    if (b0 =? 0xf0) && ((b1 <? 0x90) || (0xbf <? b1)) then Ok (invalid, 4%nat) else
    if (b0 =? 0xf4) && (0x8f <? b1) then Ok (invalid, 4%nat) else
    if negb (cont b1) then Ok (invalid, 4%nat) else
    b2 ← read str 2;
    if negb (cont b2) then Ok (invalid, 4%nat) else
    b3 ← read str 3;
    if negb (cont b3) then Ok (invalid, 4%nat) else
    Ok ((b0 - 0xf0) * 262144 + (b1 - 0x80) * 4096 + (b2 - 0x80) * 64 + (b3 - 0x80), 4%nat)
  else Ok (0, 0%nat).

Lemma read_byte str i b : Forall is_byte str → read str i = Ok b → is_byte b.
Proof.
  intros Hs. unfold read. destruct (str !! i) as [b'|] eqn:E; [|done]. intros [= <-].
  eapply Forall_forall; [exact Hs|]. by eapply list_elem_of_lookup_2.
Qed.

Lemma shifts b n : 0 ≤ n → Z.shiftl b n = b * 2 ^ n.
Proof. apply Z.shiftl_mul_pow2. Qed.

(** Reading the next byte. *)
Lemma bind_read {A} str i (f g : Z → outcome A) :
  Forall is_byte str → (∀ b, is_byte b → f b = g b) → (b ← read str i; f b) = (b ← read str i; g b).
Proof.
  intros Hs Hfg. destruct (read str i) as [b| |] eqn:E; [|done..]. cbn [mbind outcome_bind]. apply Hfg. by eapply read_byte.
Qed.

Lemma if_ext {A} (b b' : bool) (x x' y y' : A) : b = b' → (b = true → x = x') → (b = false → y = y') →
  (if b then x else y) = (if b' then x' else y').
Proof. intros <- H1 H2. destruct b; auto. Qed.

Lemma cont_mask b : is_byte b → negb (Z.land b 0xc0 =? 0x80) = negb (cont b).
Proof. intros Hb. by destruct (masks b Hb) as (_ & _ & _ & _ & ->). Qed.

Lemma cont_value b : negb (cont b) = false → Z.land b 0x3f = b - 0x80 ∧ 0x80 ≤ b < 0xc0.
Proof.
  unfold cont. intros Hb. assert (0x80 ≤ b < 0xc0) by lia. destruct (low_bits b) as (_ & _ & _ & ->). split; [div_lia|done].
Qed.

Lemma decode_eq str e : Forall is_byte str → ImTextCharFromUtf8 str e = decode str e.
Proof.
  intros Hs. unfold ImTextCharFromUtf8, decode. apply bind_read; [done|]. intros b0 By0.
  destruct (masks b0 By0) as (-> & -> & -> & -> & _). destruct (low_bits b0) as (-> & -> & -> & _). cbn zeta.
  apply if_ext; [done|done|intros Ha]. apply if_ext; [done|intros Hb|intros Hb].
  { apply if_ext; [done|done|intros _]. apply if_ext; [done|done|intros _]. apply bind_read; [done|]. intros b1 By1.
    apply if_ext; [by apply cont_mask|done|intros Hm]. rewrite cont_mask in Hm by done. apply cont_value in Hm as [-> ?].
    rewrite shifts by lia. do 2 f_equal. div_lia. }
  apply if_ext; [done|intros Hc|intros Hc].
  { apply if_ext; [done|done|intros _]. apply bind_read; [done|]. intros b1 By1.
    apply if_ext; [done|done|intros _]. apply if_ext; [done|done|intros _].
    apply if_ext; [by apply cont_mask|done|intros Hm1]. rewrite cont_mask in Hm1 by done. apply cont_value in Hm1 as [-> ?].
    apply bind_read; [done|]. intros b2 By2. apply if_ext; [by apply cont_mask|done|intros Hm2].
    rewrite cont_mask in Hm2 by done. apply cont_value in Hm2 as [-> ?]. rewrite !shifts by lia. do 2 f_equal. div_lia. }
  apply if_ext; [done|intros Hd|done].
  apply if_ext; [done|done|intros _]. apply if_ext; [done|done|intros Hf4]. apply bind_read; [done|]. intros b1 By1.
  apply if_ext; [done|done|intros Hlow]. apply if_ext; [done|done|intros Hhigh].
  apply if_ext; [by apply cont_mask|done|intros Hm1]. rewrite cont_mask in Hm1 by done. apply cont_value in Hm1 as [-> ?].
  apply bind_read; [done|]. intros b2 By2. apply if_ext; [by apply cont_mask|done|intros Hm2].
  rewrite cont_mask in Hm2 by done. apply cont_value in Hm2 as [-> ?].
  apply bind_read; [done|]. intros b3 By3. apply if_ext; [by apply cont_mask|done|intros Hm3].
  rewrite cont_mask in Hm3 by done. apply cont_value in Hm3 as [-> ?]. rewrite !shifts by lia.
  set (c := b0 mod 8 * 2 ^ 18 + (b1 - 128) * 2 ^ 12 + (b2 - 128) * 2 ^ 6 + (b3 - 128)).
  assert (c = (b0 - 240) * 262144 + (b1 - 128) * 4096 + (b2 - 128) * 64 + (b3 - 128)) as Hv by (unfold c; div_lia).
  rewrite (proj2 (Z.eqb_neq _ _)); [by rewrite Hv|]. rewrite surrogate_bits by lia. lia.
Qed.

(** The decoder reads what the encoding writes. *)
Lemma utf8_bytes c : scalar c → Forall is_byte (utf8 c).
Proof.
  intros [Hc _]. unfold utf8, is_byte. repeat case_match; repeat constructor; div_lia.
Qed.

Lemma shorter_false e n : (∀ k, e = Some k → n ≤ k) → shorter e n = false.
Proof. intros H. destruct e as [k|]; [|done]. cbn. specialize (H k eq_refl). lia. Qed.

Ltac settle t :=
  match goal with
  | |- context [if ?b then _ else _] => let E := fresh in assert (b = t) as E by (unfold cont; lia); rewrite E; clear E
  end.

Lemma decode_utf8 c rest e : scalar c → (∀ k, e = Some k → Z.of_nat (length (utf8 c)) ≤ k) →
  decode (utf8 c ++ rest) e = Ok (c, length (utf8 c)).
Proof.
  intros [Hc Hs] He. unfold utf8 in *.
  destruct (Z.ltb_spec c 0x80); [|destruct (Z.ltb_spec c 0x800); [|destruct (Z.ltb_spec c 0x10000)]];
    cbn [app length] in *; unfold decode; cbn [read lookup list_lookup mbind outcome_bind].
  - by settle true.
  - assert (2 ≤ c / 64 < 32 ∧ 0 ≤ c mod 64 < 64 ∧ c / 64 * 64 + c mod 64 = c) as (? & ? & Hv) by div_lia.
    settle false. settle true. rewrite shorter_false by done. settle false. settle false. do 2 f_equal. lia.
  - assert (0 ≤ c / 4096 < 16 ∧ 0 ≤ c / 64 mod 64 < 64 ∧ 0 ≤ c mod 64 < 64 ∧
      c / 4096 * 4096 + c / 64 mod 64 * 64 + c mod 64 = c) as (? & ? & ? & Hv) by div_lia.
    settle false. settle false. settle true. rewrite shorter_false by done. do 4 settle false. do 2 f_equal. lia.
  - assert (0 ≤ c / 262144 < 5 ∧ 0 ≤ c / 4096 mod 64 < 64 ∧ 0 ≤ c / 64 mod 64 < 64 ∧ 0 ≤ c mod 64 < 64 ∧
      c / 262144 * 262144 + c / 4096 mod 64 * 4096 + c / 64 mod 64 * 64 + c mod 64 = c) as (? & ? & ? & ? & Hv) by div_lia.
    do 3 settle false. settle true. rewrite shorter_false by done. do 6 settle false. do 2 f_equal. lia.
Qed.

(** What it accepts is such an encoding. *)
Lemma utf8_two b0 b1 : 0xc2 ≤ b0 < 0xe0 → 0x80 ≤ b1 < 0xc0 → utf8 ((b0 - 0xc0) * 64 + (b1 - 0x80)) = [b0; b1].
Proof. intros. unfold utf8. settle false. settle true. repeat f_equal; div_lia. Qed.

Lemma utf8_three b0 b1 b2 : 0xe0 ≤ b0 < 0xf0 → 0x80 ≤ b1 < 0xc0 → 0x80 ≤ b2 < 0xc0 → (b0 = 0xe0 → 0xa0 ≤ b1) →
  utf8 ((b0 - 0xe0) * 4096 + (b1 - 0x80) * 64 + (b2 - 0x80)) = [b0; b1; b2].
Proof. intros. unfold utf8. do 2 settle false. settle true. repeat f_equal; div_lia. Qed.

Lemma utf8_four b0 b1 b2 b3 : 0xf0 ≤ b0 ≤ 0xf4 → 0x80 ≤ b1 < 0xc0 → 0x80 ≤ b2 < 0xc0 → 0x80 ≤ b3 < 0xc0 → (b0 = 0xf0 → 0x90 ≤ b1) →
  utf8 ((b0 - 0xf0) * 262144 + (b1 - 0x80) * 4096 + (b2 - 0x80) * 64 + (b3 - 0x80)) = [b0; b1; b2; b3].
Proof. intros. unfold utf8. do 3 settle false. repeat f_equal; div_lia. Qed.

Lemma decode_sound str e c k : Forall is_byte str → decode str e = Ok (c, k) →
  c = IM_UNICODE_CODEPOINT_INVALID ∧ (1 ≤ k ≤ 4)%nat ∨ c = 0 ∧ k = 0%nat ∨
  scalar c ∧ take k str = utf8 c ∧ k = length (utf8 c).
Proof.
  intros Hs. unfold decode. destruct str as [|b0 str]; [done|]. inversion Hs as [|? ? By0 Hs0]; subst. unfold is_byte in By0.
  cbn [read lookup list_lookup mbind outcome_bind]. unfold read, cont, scalar.
  repeat (case_match; cbn [lookup list_lookup mbind outcome_bind] in *); intros [= <- <-];
    try (left; split; [done|lia]); try (right; left; done); right; right; (split; [lia|]).
  - unfold utf8. rewrite (proj2 (Z.ltb_lt _ _)) by lia. done.
  - destruct str as [|b1 str]; simplify_eq/=. rewrite utf8_two by lia. done.
  - destruct str as [|b1 [|b2 str]]; simplify_eq/=. rewrite utf8_three by lia. done.
  - destruct str as [|b1 [|b2 [|b3 str]]]; simplify_eq/=. rewrite utf8_four by lia. done.
Qed.

(** ** Texts *)

(** The characters that 16 bits hold, without the zero that ends a text. *)
Definition plain (c : Z) : Prop := 0 < c < 0x10000 ∧ ¬ (0xD800 ≤ c ≤ 0xDFFF).
Definition utf8_text (t : list Z) : list Z := t ≫= utf8.

Lemma plain_scalar c : plain c → scalar c.
Proof. unfold plain, scalar. lia. Qed.

Lemma byte_small z : 0 ≤ z < 256 → byte z = z.
Proof. intros. by apply uwrap_small. Qed.

Lemma char_to_utf8 room c : plain c → Z.of_nat (length (utf8 c)) ≤ room →
  (if c <? 0x80 then [byte c] else ImTextCharToUtf8 room c) = utf8 c.
Proof.
  intros [Hc Hs] Hroom. unfold utf8, ImTextCharToUtf8 in *. destruct (Z.ltb_spec c 0x80); [by rewrite byte_small by lia|].
  destruct (low_bits c) as (_ & _ & _ & ->). destruct (low_bits (Z.shiftr c 6)) as (_ & _ & _ & ->).
  rewrite !Z.shiftr_div_pow2 by lia. change (2 ^ 6) with 64. change (2 ^ 12) with 4096.
  destruct (Z.ltb_spec c 0x800); cbn [length] in Hroom.
  - settle false. rewrite !byte_small by div_lia. done.
  - do 2 settle false. rewrite (proj2 (Z.ltb_lt c 0x10000)) in * by lia. cbn [length] in Hroom. settle false.
    rewrite !byte_small by div_lia. done.
Qed.

Lemma count_utf8 c : plain c → (if c <? 0x80 then 1 else ImTextCountUtf8BytesFromChar c) = Z.of_nat (length (utf8 c)).
Proof.
  intros [Hc Hs]. unfold ImTextCountUtf8BytesFromChar, utf8. destruct (Z.ltb_spec c 0x80); [done|].
  destruct (Z.ltb_spec c 0x800); [done|]. do 2 settle false. rewrite (proj2 (Z.ltb_lt c 0x10000)) by lia. done.
Qed.

Lemma count_utf8_text t : Forall plain t → ImTextCountUtf8BytesFromStr t = Z.of_nat (length (utf8_text t)).
Proof.
  induction 1 as [|c t Hc Ht IH]; [done|]. cbn [ImTextCountUtf8BytesFromStr utf8_text mbind list_bind].
  rewrite (proj2 (Z.eqb_neq c 0)) by (unfold plain in Hc; lia). rewrite count_utf8, IH, length_app by done.
  unfold utf8_text. lia.
Qed.

Lemma utf8_nonempty c : (0 < length (utf8 c))%nat.
Proof. unfold utf8. repeat case_match; cbn; lia. Qed.

Lemma to_utf8_text t : ∀ room, Forall plain t → Z.of_nat (length (utf8_text t)) ≤ room → to_utf8_loop room t = utf8_text t.
Proof.
  induction t as [|c t IH]; intros room Ht Hroom; [done|]. inversion Ht as [|? ? Hc Ht']; subst.
  cbn [to_utf8_loop utf8_text mbind list_bind] in *. unfold utf8_text in *. rewrite length_app in Hroom. pose proof (utf8_nonempty c).
  rewrite (proj2 (Z.ltb_lt 0 room)), (proj2 (Z.eqb_neq c 0)) by (unfold plain in Hc; lia). cbn [andb negb].
  rewrite char_to_utf8 by (done || lia). f_equal. apply IH; [done|lia].
Qed.

Lemma utf8_head c rest : plain c → ∃ b str, utf8 c ++ rest = b :: str ∧ b ≠ 0.
Proof.
  intros [Hc _]. unfold utf8. repeat case_match; cbn [app]; eexists _, _; (split; [done|]); div_lia.
Qed.

Lemma decode_plain c rest : plain c → Forall is_byte rest →
  ImTextCharFromUtf8 (utf8 c ++ rest) None = Ok (c, length (utf8 c)).
Proof.
  intros Hc Hr. rewrite decode_eq; [by apply decode_utf8; [apply plain_scalar|]|].
  apply Forall_app. split; [by apply utf8_bytes, plain_scalar|done].
Qed.

Lemma utf8_text_bytes t rest : Forall plain t → Forall is_byte rest → Forall is_byte (utf8_text t ++ rest).
Proof.
  intros Ht Hr. apply Forall_app. split; [|done]. unfold utf8_text. induction Ht; cbn; [constructor|].
  apply Forall_app. split; [by apply utf8_bytes, plain_scalar|done].
Qed.

Lemma from_utf8_text t rest : ∀ fuel room, Forall plain t → Forall is_byte rest → (length t < fuel)%nat →
  Z.of_nat (length t) ≤ room →
  from_utf8_loop fuel room (utf8_text t ++ 0 :: rest) None = Ok (t, length (utf8_text t)).
Proof.
  induction t as [|c t IH]; intros fuel room Ht Hr Hfuel Hroom; (destruct fuel as [|fuel]; [cbn in Hfuel; lia|]);
    cbn [from_utf8_loop before_end].
  { cbn. by destruct (0 <? room). }
  inversion Ht as [|? ? Hc Ht']; subst. cbn [length] in *. cbn [utf8_text mbind list_bind]. fold (utf8_text t).
  rewrite <- app_assoc. destruct (utf8_head c (utf8_text t ++ 0 :: rest) Hc) as (b & str & E & Hb).
  rewrite (proj2 (Z.ltb_lt 0 room)) by lia. cbn [andb].
  assert (read (utf8 c ++ utf8_text t ++ 0 :: rest) 0 = Ok b) as -> by (by rewrite E). cbn [mbind outcome_bind].
  rewrite (proj2 (Z.eqb_neq b 0)) by done.
  rewrite decode_plain; [|done|apply utf8_text_bytes; [done|constructor; [done|done]]]. cbn [mbind outcome_bind].
  rewrite (proj2 (Z.eqb_neq c 0)), (proj2 (Z.leb_le c IM_UNICODE_CODEPOINT_MAX)) by (unfold plain, IM_UNICODE_CODEPOINT_MAX in *; lia).
  rewrite drop_app_length. cbn [past fmap option_fmap option_map]. rewrite IH by (done || lia). cbn [mbind outcome_bind].
  by rewrite length_app.
Qed.

Lemma utf8_text_length t : (length t ≤ length (utf8_text t))%nat.
Proof.
  induction t as [|c t IH]; [done|]. unfold utf8_text in *. cbn. rewrite length_app. pose proof (utf8_nonempty c). lia.
Qed.

Lemma count_chars_text t rest : ∀ fuel, Forall plain t → Forall is_byte rest → (length t < fuel)%nat →
  count_chars_loop fuel (utf8_text t ++ 0 :: rest) None = Ok (Z.of_nat (length t)).
Proof.
  induction t as [|c t IH]; intros fuel Ht Hr Hfuel; (destruct fuel as [|fuel]; [cbn in Hfuel; lia|]);
    cbn [count_chars_loop before_end]; [done|].
  inversion Ht as [|? ? Hc Ht']; subst. cbn [length] in *. cbn [utf8_text mbind list_bind]. fold (utf8_text t).
  rewrite <- app_assoc. destruct (utf8_head c (utf8_text t ++ 0 :: rest) Hc) as (b & str & E & Hb).
  assert (read (utf8 c ++ utf8_text t ++ 0 :: rest) 0 = Ok b) as -> by (by rewrite E). cbn [mbind outcome_bind].
  rewrite (proj2 (Z.eqb_neq b 0)) by done.
  rewrite decode_plain; [|done|apply utf8_text_bytes; [done|constructor; [done|done]]]. cbn [mbind outcome_bind].
  rewrite (proj2 (Z.eqb_neq c 0)), (proj2 (Z.leb_le c IM_UNICODE_CODEPOINT_MAX)) by (unfold plain, IM_UNICODE_CODEPOINT_MAX in *; lia).
  rewrite drop_app_length. cbn [past fmap option_fmap option_map]. rewrite IH by (done || lia). cbn [mbind outcome_bind].
  f_equal. lia.
Qed.

(** C31: the conversions are UTF-8.  The decoder of a character reads the RFC 3629 encoding of
    every Unicode scalar value that is there in full; and whatever bytes it is given, what it returns is the
    replacement character, or 0 for a byte that starts no sequence, or a scalar value whose
    encoding it has read: overlong forms, surrogates and values past 0x10FFFF are never
    accepted.  For a text of 16-bit characters without surrogates, the counted size is that of its encoding,
    a buffer of this size and one more byte receives the encoding, and reading it up to its
    zero, into a buffer that is larger than the text, gives the text and its length back. *)
Theorem utf8_conversions :
  (∀ c rest e, scalar c → Forall is_byte rest → (∀ k, e = Some k → Z.of_nat (length (utf8 c)) ≤ k) →
     ImTextCharFromUtf8 (utf8 c ++ rest) e = Ok (c, length (utf8 c))) ∧
  (∀ str e c k, Forall is_byte str → ImTextCharFromUtf8 str e = Ok (c, k) →
     c = IM_UNICODE_CODEPOINT_INVALID ∧ (1 ≤ k ≤ 4)%nat ∨ c = 0 ∧ k = 0%nat ∨
     scalar c ∧ take k str = utf8 c ∧ k = length (utf8 c)) ∧
  (∀ t, Forall plain t →
     let n := ImTextCountUtf8BytesFromStr t in
     n = Z.of_nat (length (utf8_text t)) ∧ ImTextStrToUtf8 (n + 1) t = Ok (utf8_text t) ∧
     ∀ rest size, Forall is_byte rest → Z.of_nat (length t) < size →
       ImTextStrFromUtf8 size (utf8_text t ++ 0 :: rest) None = Ok (t, length (utf8_text t)) ∧
       ImTextCountCharsFromUtf8 (utf8_text t ++ 0 :: rest) None = Ok (Z.of_nat (length t))).
Proof.
  split; [|split].
  - intros c rest e Hc Hr He. rewrite decode_eq; [by apply decode_utf8|]. apply Forall_app. split; [by apply utf8_bytes|done].
  - intros str e c k Hs. rewrite decode_eq by done. by apply decode_sound.
  - intros t Ht n. assert (n = Z.of_nat (length (utf8_text t))) as En by (by apply count_utf8_text). split; [done|]. split.
    + unfold ImTextStrToUtf8. rewrite (proj2 (Z.leb_gt _ _)) by lia. f_equal. apply to_utf8_text; [done|lia].
    + intros rest size Hr Hsize. pose proof (utf8_text_length t). split.
      * unfold ImTextStrFromUtf8. rewrite (proj2 (Z.leb_gt _ _)) by lia. apply from_utf8_text; try done; [rewrite length_app; lia|lia].
      * apply count_chars_text; [done|done|rewrite length_app; lia].
Qed.

(** A text that ends in the middle of a sequence: the decoder skips the zero byte at its end, and
    what follows it is read. *)
Lemma truncated_sequence_overruns : ImTextStrFromUtf8 16 [0x61; 0xE2; 0] None = UB "read past the end of the memory".
Proof. reflexivity. Qed.

(** A high surrogate is written as four bytes that the decoder does not accept. *)
Lemma surrogate_not_read_back :
  ImTextStrToUtf8 16 [0xD83D] = Ok [0xF0; 0x8D; 0xA0; 0xBD] ∧
  ImTextStrFromUtf8 16 [0xF0; 0x8D; 0xA0; 0xBD; 0] None = Ok ([IM_UNICODE_CODEPOINT_INVALID], 4%nat).
Proof. split; reflexivity. Qed.
