(* ===== verification/TextEdit.v ===== *)
(** The text field editor of the vendored imgui: [imstb_textedit.h] with the callbacks of
    [imgui_widgets.cpp] and the state of [imgui_internal.h], all under
    [src/third_party_examples/graphical_interface/imgui_example/imgui].

    The text is a vector of 16-bit characters with a zero after its last one ([InputText]); the
    cursor, the selection and the history are in [STB_TexteditState].  The history keeps records of edits in
    an array that undo fills from its start and redo from its end, and the characters of the
    records in another array in the same way.  Indices are [Z]s, and an access out of an array is undefined
    behaviour; a failed assertion is a [Throw], and so is a loop that runs out of fuel.  What
    the vector has in its elements after it has grown is the parameter [junk]; the font is a
    parameter. *)
From Stdlib Require Import Floats.SpecFloat.
From S2P Require Import Prelude Text Float ImText.
Local Open Scope Z_scope.
Local Open Scope list_scope.

(** ** Memory *)

Definition get {A} (l : list A) (i : Z) : outcome A :=
  if i <? 0 then UB "index out of bounds" else
  match l !! Z.to_nat i with Some a => Ok a | None => UB "index out of bounds" end.
Definition set {A} (l : list A) (i : Z) (a : A) : outcome (list A) :=
  if (0 <=? i) && (i <? Z.of_nat (length l)) then Ok (<[Z.to_nat i := a]> l) else UB "index out of bounds".
(** The [n] elements from [i] on. *)
Definition slice {A} (l : list A) (i n : Z) : outcome (list A) :=
  if (0 <=? i) && (0 <=? n) && (i + n <=? Z.of_nat (length l)) then Ok (take (Z.to_nat n) (drop (Z.to_nat i) l))
  else UB "index out of bounds".
(** The elements [s] are written from [i] on. *)
Definition write {A} (l : list A) (i : Z) (s : list A) : outcome (list A) :=
  if (0 <=? i) && (i + Z.of_nat (length s) <=? Z.of_nat (length l))
  then Ok (take (Z.to_nat i) l ++ s ++ drop (Z.to_nat i + length s) l) else UB "index out of bounds".
(** [memmove(l + dst, l + src, n)], in elements. *)
Definition memmove {A} (l : list A) (dst src n : Z) : outcome (list A) := s ← slice l src n; write l dst s.

Definition im_assert (b : bool) : outcome unit := if b then Ok tt else Throw "assertion failed".

(** The elements before the first zero. *)
Fixpoint until_zero (l : list Z) : outcome (list Z) :=
  match l with
  | [] => UB "index out of bounds"
  | c :: l => if c =? 0 then Ok [] else s ← until_zero l; Ok (c :: s)
  end.

(** ** The text *)

(* @src third_party_examples/graphical_interface/imgui_example/imgui/imgui_internal.h 729-745 ImGuiInputTextState *)
(** The part of the state that is the text; [is_resizable] is a flag of [UserFlags]. *)
Record InputText := mkText { CurLenW : Z; CurLenA : Z; TextW : list Z; BufCapacityA : Z; is_resizable : bool }.

Definition newline : Z := 10.

(* @src third_party_examples/graphical_interface/imgui_example/imgui/imgui_widgets.cpp 3158-3158 STB_TEXTEDIT_GETCHAR *)
Definition STB_TEXTEDIT_GETCHAR (obj : InputText) (idx : Z) : outcome Z := get (TextW obj) idx.

(* @src third_party_examples/graphical_interface/imgui_example/imgui/imgui_widgets.cpp 3160-3160 STB_TEXTEDIT_KEYTOTEXT *)
Definition STB_TEXTEDIT_KEYTOTEXT (key : Z) : Z := if 0x200000 <=? key then 0 else key.

(* @src third_party_examples/graphical_interface/imgui_example/imgui/imgui_internal.h 240-240 ImCharIsBlankW *)
Definition ImCharIsBlankW (c : Z) : bool := (c =? 32) || (c =? 9) || (c =? 0x3000).

(* @src third_party_examples/graphical_interface/imgui_example/imgui/imgui_widgets.cpp 3175-3175 is_separator *)
(** Besides blanks, the characters [, ; ( ) { } \[ \] |]. *)
Definition is_separator (c : Z) : bool :=
  ImCharIsBlankW c || (c =? 44) || (c =? 59) || (c =? 40) || (c =? 41) || (c =? 123) || (c =? 125) || (c =? 91) || (c =? 93) || (c =? 124).

(* @src third_party_examples/graphical_interface/imgui_example/imgui/imgui_widgets.cpp 3176-3176 is_word_boundary_from_right *)
Definition is_word_boundary_from_right (obj : InputText) (idx : Z) : outcome bool :=
  if 0 <? idx then
    a ← get (TextW obj) (idx - 1);
    if is_separator a then b ← get (TextW obj) idx; Ok (negb (is_separator b)) else Ok false
  else Ok true.

Fixpoint word_left_loop (fuel : nat) (obj : InputText) (idx : Z) : outcome Z :=
  match fuel with
  | O => Throw "out of fuel"
  | S fuel =>
      if 0 <=? idx then
        b ← is_word_boundary_from_right obj idx;
        if (b : bool) then Ok idx else word_left_loop fuel obj (idx - 1)
      else Ok idx
  end.

(* @src third_party_examples/graphical_interface/imgui_example/imgui/imgui_widgets.cpp 3177-3177 STB_TEXTEDIT_MOVEWORDLEFT_IMPL *)
Definition STB_TEXTEDIT_MOVEWORDLEFT (obj : InputText) (idx : Z) : outcome Z :=
  idx ← word_left_loop (S (Z.to_nat idx)) obj (idx - 1);
  Ok (if idx <? 0 then 0 else idx).

Fixpoint word_right_loop (fuel : nat) (obj : InputText) (idx len : Z) : outcome Z :=
  match fuel with
  | O => Throw "out of fuel"
  | S fuel =>
      if idx <? len then
        b ← is_word_boundary_from_right obj idx;
        if (b : bool) then Ok idx else word_right_loop fuel obj (idx + 1) len
      else Ok idx
  end.

(* @src third_party_examples/graphical_interface/imgui_example/imgui/imgui_widgets.cpp 3182-3182 STB_TEXTEDIT_MOVEWORDRIGHT_IMPL *)
(** Not on Apple systems. *)
Definition STB_TEXTEDIT_MOVEWORDRIGHT (obj : InputText) (idx : Z) : outcome Z :=
  let len := CurLenW obj in
  idx ← word_right_loop (S (Z.to_nat (len - idx))) obj (idx + 1) len;
  Ok (if len <? idx then len else idx).

(* @src third_party_examples/graphical_interface/imgui_example/imgui/imgui_widgets.cpp 3187-3200 STB_TEXTEDIT_DELETECHARS *)
Definition STB_TEXTEDIT_DELETECHARS (obj : InputText) (pos n : Z) : outcome InputText :=
  s ← slice (TextW obj) pos n;
  let lenA := CurLenA obj - ImTextCountUtf8BytesFromStr s in
  let lenW := CurLenW obj - n in
  rest ← slice (TextW obj) (pos + n) (Z.of_nat (length (TextW obj)) - (pos + n));
  cs ← until_zero rest;
  w ← write (TextW obj) pos (cs ++ [0]);
  Ok (mkText lenW lenA w (BufCapacityA obj) (is_resizable obj)).

(** [ImClamp] *)
Definition ImClamp (v mn mx : Z) : Z := if v <? mn then mn else if mx <? v then mx else v.

Section text.
(** What is in the elements that a vector gets when it grows. *)
Context (junk : nat → Z).

Definition vector_resize (l : list Z) (n : Z) : list Z :=
  take (Z.to_nat n) (l ++ (junk <$> seq (length l) (Z.to_nat n - length l))).

(* @src third_party_examples/graphical_interface/imgui_example/imgui/imgui_widgets.cpp 3202-3231 STB_TEXTEDIT_INSERTCHARS *)
Definition STB_TEXTEDIT_INSERTCHARS (obj : InputText) (pos : Z) (new_text : list Z) : outcome (bool * InputText) :=
  let text_len := CurLenW obj in
  let new_text_len := Z.of_nat (length new_text) in
  _ ← im_assert (pos <=? text_len);
  let new_text_len_utf8 := ImTextCountUtf8BytesFromStr new_text in
  if negb (is_resizable obj) && (BufCapacityA obj <? new_text_len_utf8 + CurLenA obj + 1) then Ok (false, obj) else
  let size := Z.of_nat (length (TextW obj)) in
  let grow := size <? new_text_len + text_len + 1 in
  if grow && negb (is_resizable obj) then Ok (false, obj) else
  _ ← (if grow then im_assert (text_len <? size) else Ok tt);
  let text := if grow then vector_resize (TextW obj) (text_len + ImClamp (new_text_len * 4) 32 (Z.max 256 new_text_len) + 1)
              else TextW obj in
  text ← (if pos =? text_len then Ok text else memmove text (pos + new_text_len) pos (text_len - pos));
  text ← write text pos new_text;
  text ← set text (text_len + new_text_len) 0;
  Ok (true, mkText (text_len + new_text_len) (CurLenA obj + new_text_len_utf8) text (BufCapacityA obj) (is_resizable obj)).
End text.

(** ** Layout *)

(* @src third_party_examples/graphical_interface/imgui_example/imgui/imstb_textedit.h 362-368 StbTexteditRow *)
Record StbTexteditRow := mkRow { x0 : float; x1 : float; baseline_y_delta : float; ymin : float; ymax : float; num_chars : Z }.

(** [ImFont::GetCharAdvance] and the two font sizes. *)
Record font := mkFont { GetCharAdvance : Z → float; FontSize : float; Font_FontSize : float }.

Definition f0 : float := S754_zero false.
Definition fmax (a b : float) : float := if SFleb b a then a else b.

Section layout.
Context (fn : font).
Definition scale : float := fdiv (FontSize fn) (Font_FontSize fn).

(** The loop of [InputTextCalcTextSizeW]: the size, the width of the line and the number of
    characters that have been read. *)
Fixpoint text_size_loop (stop_on_new_line : bool) (text : list Z) (size_x size_y line_width : float) : float * float * float * Z :=
  match text with
  | [] => (size_x, size_y, line_width, 0)
  | c :: text =>
      if c =? newline then
        let size_x := fmax size_x line_width in
        let size_y := fadd size_y (FontSize fn) in
        if stop_on_new_line then (size_x, size_y, f0, 1)
        else let '(sx, sy, lw, n) := text_size_loop stop_on_new_line text size_x size_y f0 in (sx, sy, lw, n + 1)
      else
        let line_width := if c =? 13 then line_width else fadd line_width (fmul (GetCharAdvance fn c) scale) in
        let '(sx, sy, lw, n) := text_size_loop stop_on_new_line text size_x size_y line_width in (sx, sy, lw, n + 1)
  end.

(* @src third_party_examples/graphical_interface/imgui_example/imgui/imgui_widgets.cpp 3108-3150 InputTextCalcTextSizeW *)
(** The size, what is stored in [out_offset], and the number of characters up to
    [remaining]. *)
Definition InputTextCalcTextSizeW (text : list Z) (stop_on_new_line : bool) : float * float * (float * float) * Z :=
  let '(sx, sy, lw, n) := text_size_loop stop_on_new_line text f0 f0 f0 in
  let sx := if SFltb sx lw then lw else sx in
  let out_offset := (lw, fadd sy (FontSize fn)) in
  let sy := if SFltb f0 lw || SFeqb sy f0 then fadd sy (FontSize fn) else sy in
  (sx, sy, out_offset, n).

(* @src third_party_examples/graphical_interface/imgui_example/imgui/imgui_widgets.cpp 3162-3173 STB_TEXTEDIT_LAYOUTROW *)
Definition STB_TEXTEDIT_LAYOUTROW (obj : InputText) (line_start_idx : Z) : outcome StbTexteditRow :=
  text ← slice (TextW obj) line_start_idx (CurLenW obj - line_start_idx);
  let '(sx, sy, _, n) := InputTextCalcTextSizeW text true in
  Ok (mkRow f0 sx sy f0 sy n).

(** [STB_TEXTEDIT_GETWIDTH_NEWLINE] *)
Definition width_newline : float := SFopp (float_of_Z 1).

(* @src third_party_examples/graphical_interface/imgui_example/imgui/imgui_widgets.cpp 3159-3159 STB_TEXTEDIT_GETWIDTH *)
Definition STB_TEXTEDIT_GETWIDTH (obj : InputText) (line_start_idx char_idx : Z) : outcome float :=
  c ← get (TextW obj) (line_start_idx + char_idx);
  Ok (if c =? newline then width_newline else fmul (GetCharAdvance fn c) scale).

(** The search for the row; [inl] is a result. *)
Fixpoint locate_row (fuel : nat) (str : InputText) (n : Z) (y : float) (i : Z) (base_y : float) (r : StbTexteditRow) : outcome (Z + Z * StbTexteditRow) :=
  match fuel with
  | O => Throw "out of fuel"
  | S fuel =>
      if i <? n then
        r ← STB_TEXTEDIT_LAYOUTROW str i;
        if num_chars r <=? 0 then Ok (inl n) else
        if (i =? 0) && SFltb y (fadd base_y (ymin r)) then Ok (inl 0) else
        if SFltb y (fadd base_y (ymax r)) then Ok (inr (i, r)) else
        locate_row fuel str n y (i + num_chars r) (fadd base_y (baseline_y_delta r)) r
      else Ok (inr (i, r))
  end.

(** The search for the character in the row that starts at [i]; [None] if it is not there. *)
Fixpoint locate_char (todo : nat) (str : InputText) (x : float) (i k : Z) (prev_x : float) : outcome (option Z) :=
  match todo with
  | O => Ok None
  | S todo =>
      w ← STB_TEXTEDIT_GETWIDTH str i k;
      if SFltb x (fadd prev_x w) then
        Ok (Some (if SFltb x (fadd prev_x (fdiv w (float_of_Z 2))) then k + i else k + i + 1))
      else locate_char todo str x i (k + 1) (fadd prev_x w)
  end.

(* @src third_party_examples/graphical_interface/imgui_example/imgui/imstb_textedit.h 396-453 stb_text_locate_coord *)
Definition stb_text_locate_coord (str : InputText) (x y : float) : outcome Z :=
  let n := CurLenW str in
  found ← locate_row (S (Z.to_nat n)) str n y 0 f0 (mkRow f0 f0 f0 f0 f0 0);
  match found with
  | inl z => Ok z
  | inr (i, r) =>
      if n <=? i then Ok n else
      if SFltb x (x0 r) then Ok i else
      c ← (if SFltb x (x1 r) then locate_char (Z.to_nat (num_chars r)) str x i 0 (x0 r) else Ok None);
      match c with
      | Some z => Ok z
      | None =>
          ch ← STB_TEXTEDIT_GETCHAR str (i + num_chars r - 1);
          Ok (if ch =? newline then i + num_chars r - 1 else i + num_chars r)
      end
  end.

(* @src third_party_examples/graphical_interface/imgui_example/imgui/imstb_textedit.h 506-512 StbFindState *)
(** [prev_first] is left uninitialised in one case. *)
Record StbFindState := mkFind { find_x : float; find_y : float; find_height : float; first_char : Z; length_ : Z; prev_first : option Z }.

(** The last row: its start and the position after it. *)
Fixpoint last_row (fuel : nat) (str : InputText) (z i prev_start : Z) : outcome (Z * Z) :=
  match fuel with
  | O => Throw "out of fuel"
  | S fuel =>
      if i <? z then r ← STB_TEXTEDIT_LAYOUTROW str i; last_row fuel str z (i + num_chars r) i
      else Ok (prev_start, i)
  end.

(** The row of a character. *)
Fixpoint row_of (fuel : nat) (str : InputText) (n i prev_start : Z) (y : float) : outcome (Z * Z * float * StbTexteditRow) :=
  match fuel with
  | O => Throw "out of fuel"
  | S fuel =>
      r ← STB_TEXTEDIT_LAYOUTROW str i;
      if n <? i + num_chars r then Ok (prev_start, i, y, r)
      else row_of fuel str n (i + num_chars r) i (fadd y (baseline_y_delta r))
  end.

Fixpoint add_widths (todo : nat) (str : InputText) (first i : Z) (x : float) : outcome float :=
  match todo with
  | O => Ok x
  | S todo => w ← STB_TEXTEDIT_GETWIDTH str first i; add_widths todo str first (i + 1) (fadd x w)
  end.

(* @src third_party_examples/graphical_interface/imgui_example/imgui/imstb_textedit.h 516-570 stb_textedit_find_charpos *)
Definition stb_textedit_find_charpos (str : InputText) (n : Z) (single_line : bool) : outcome StbFindState :=
  let z := CurLenW str in
  if n =? z then
    if single_line then
      r ← STB_TEXTEDIT_LAYOUTROW str 0;
      Ok (mkFind (x1 r) f0 (fsub (ymax r) (ymin r)) 0 z None)
    else
      '(prev_start, i) ← last_row (S (Z.to_nat z)) str z 0 0;
      Ok (mkFind f0 f0 (float_of_Z 1) i 0 (Some prev_start))
  else
    '(prev_start, first, y, r) ← row_of (S (Z.to_nat z)) str n 0 0 f0;
    x ← add_widths (Z.to_nat (n - first)) str first 0 (x0 r);
    Ok (mkFind x y (fsub (ymax r) (ymin r)) first (num_chars r) (Some prev_start)).
End layout.

(** ** The history *)

Definition STB_TEXTEDIT_UNDOSTATECOUNT : Z := 99.
Definition STB_TEXTEDIT_UNDOCHARCOUNT : Z := 999.

(* @src third_party_examples/graphical_interface/imgui_example/imgui/imstb_textedit.h 301-308 StbUndoRecord *)
Record StbUndoRecord := mkRec { where_ : Z; insert_length : Z; delete_length : Z; char_storage : Z }.

(* @src third_party_examples/graphical_interface/imgui_example/imgui/imstb_textedit.h 310-317 StbUndoState *)
Record StbUndoState := mkUndo {
  undo_rec : list StbUndoRecord; undo_char : list Z;
  undo_point : Z; redo_point : Z; undo_char_point : Z; redo_char_point : Z }.

Definition set_recs (v : list StbUndoRecord) (s : StbUndoState) : StbUndoState :=
  mkUndo v (undo_char s) (undo_point s) (redo_point s) (undo_char_point s) (redo_char_point s).
Definition set_chars (v : list Z) (s : StbUndoState) : StbUndoState :=
  mkUndo (undo_rec s) v (undo_point s) (redo_point s) (undo_char_point s) (redo_char_point s).
Definition set_undo (p cp : Z) (s : StbUndoState) : StbUndoState :=
  mkUndo (undo_rec s) (undo_char s) p (redo_point s) cp (redo_char_point s).
Definition set_redo (p cp : Z) (s : StbUndoState) : StbUndoState :=
  mkUndo (undo_rec s) (undo_char s) (undo_point s) p (undo_char_point s) cp.
Definition set_storage (z : Z) (r : StbUndoRecord) : StbUndoRecord := mkRec (where_ r) (insert_length r) (delete_length r) z.

(* @src third_party_examples/graphical_interface/imgui_example/imgui/imstb_textedit.h 1091-1095 stb_textedit_flush_redo *)
Definition stb_textedit_flush_redo (s : StbUndoState) : StbUndoState :=
  set_redo STB_TEXTEDIT_UNDOSTATECOUNT STB_TEXTEDIT_UNDOCHARCOUNT s.

(** [for (i = lo; i < hi; ++i) if (undo_rec[i].char_storage >= 0) undo_rec[i].char_storage += d;] *)
Definition shift_storage (lo hi d : Z) (recs : list StbUndoRecord) : list StbUndoRecord :=
  imap (λ i r, if (lo <=? Z.of_nat i) && (Z.of_nat i <? hi) && (0 <=? char_storage r)
               then set_storage (char_storage r + d) r else r) recs.

(* @src third_party_examples/graphical_interface/imgui_example/imgui/imstb_textedit.h 1098-1114 stb_textedit_discard_undo *)
Definition stb_textedit_discard_undo (s : StbUndoState) : outcome StbUndoState :=
  if 0 <? undo_point s then
    r ← get (undo_rec s) 0;
    s ← (if 0 <=? char_storage r then
           let n := insert_length r in
           let cp := undo_char_point s - n in
           chars ← memmove (undo_char s) 0 n cp;
           Ok (set_recs (shift_storage 0 (undo_point s) (- n) (undo_rec s)) (set_chars chars (set_undo (undo_point s) cp s)))
         else Ok s);
    let p := undo_point s - 1 in
    recs ← memmove (undo_rec s) 0 1 p;
    Ok (set_recs recs (set_undo p (undo_char_point s) s))
  else Ok s.

(* @src third_party_examples/graphical_interface/imgui_example/imgui/imstb_textedit.h 1120-1148 stb_textedit_discard_redo *)
Definition stb_textedit_discard_redo (s : StbUndoState) : outcome StbUndoState :=
  let k := STB_TEXTEDIT_UNDOSTATECOUNT - 1 in
  if redo_point s <=? k then
    r ← get (undo_rec s) k;
    s ← (if 0 <=? char_storage r then
           let n := insert_length r in
           let cp := redo_char_point s + n in
           chars ← memmove (undo_char s) cp (cp - n) (STB_TEXTEDIT_UNDOCHARCOUNT - cp);
           Ok (set_recs (shift_storage (redo_point s) k n (undo_rec s)) (set_chars chars (set_redo (redo_point s) cp s)))
         else Ok s);
    let move_size := STB_TEXTEDIT_UNDOSTATECOUNT - redo_point s - 1 in
    _ ← im_assert (0 <=? redo_point s);
    _ ← im_assert (redo_point s + 1 + move_size <=? STB_TEXTEDIT_UNDOSTATECOUNT);
    recs ← memmove (undo_rec s) (redo_point s + 1) (redo_point s) move_size;
    Ok (set_recs recs (set_redo (redo_point s + 1) (redo_char_point s) s))
  else Ok s.

(** [while (undo_char_point + numchars > UNDOCHARCOUNT) stb_textedit_discard_undo(state);] *)
Fixpoint make_room (fuel : nat) (numchars : Z) (s : StbUndoState) : outcome StbUndoState :=
  match fuel with
  | O => Throw "out of fuel"
  | S fuel =>
      if STB_TEXTEDIT_UNDOCHARCOUNT <? undo_char_point s + numchars
      then s ← stb_textedit_discard_undo s; make_room fuel numchars s
      else Ok s
  end.

(* @src third_party_examples/graphical_interface/imgui_example/imgui/imstb_textedit.h 1150-1172 stb_text_create_undo_record *)
(** The index of the record, [None] for a null pointer.  The loop discards a record in each
    turn: when there is none left it goes on for ever. *)
Definition stb_text_create_undo_record (s : StbUndoState) (numchars : Z) : outcome (option Z * StbUndoState) :=
  let s := stb_textedit_flush_redo s in
  s ← (if undo_point s =? STB_TEXTEDIT_UNDOSTATECOUNT then stb_textedit_discard_undo s else Ok s);
  if STB_TEXTEDIT_UNDOCHARCOUNT <? numchars then Ok (None, set_undo 0 0 s) else
  s ← make_room (S (S (Z.to_nat (undo_point s)))) numchars s;
  Ok (Some (undo_point s), set_undo (undo_point s + 1) (undo_char_point s) s).

(* @src third_party_examples/graphical_interface/imgui_example/imgui/imstb_textedit.h 1174-1192 stb_text_createundo *)
(** The index of the characters in [undo_char]. *)
Definition stb_text_createundo (s : StbUndoState) (pos insert_len delete_len : Z) : outcome (option Z * StbUndoState) :=
  '(r, s) ← stb_text_create_undo_record s insert_len;
  match r with
  | None => Ok (None, s)
  | Some i =>
      if insert_len =? 0 then
        recs ← set (undo_rec s) i (mkRec pos insert_len delete_len (-1));
        Ok (None, set_recs recs s)
      else
        let storage := undo_char_point s in
        recs ← set (undo_rec s) i (mkRec pos insert_len delete_len storage);
        Ok (Some storage, set_undo (undo_point s) (undo_char_point s + insert_len) (set_recs recs s))
  end.

(* @src third_party_examples/graphical_interface/imgui_example/imgui/imstb_textedit.h 319-351 STB_TexteditState *)
(** Without the two members that are only ever set. *)
Record STB_TexteditState := mkStb {
  cursor : Z; select_start : Z; select_end : Z; insert_mode : bool; has_preferred_x : bool; single_line : bool;
  preferred_x : float; undostate : StbUndoState }.

Definition set_undostate (u : StbUndoState) (st : STB_TexteditState) : STB_TexteditState :=
  mkStb (cursor st) (select_start st) (select_end st) (insert_mode st) (has_preferred_x st) (single_line st) (preferred_x st) u.
Definition set_cursor (z : Z) (st : STB_TexteditState) : STB_TexteditState :=
  mkStb z (select_start st) (select_end st) (insert_mode st) (has_preferred_x st) (single_line st) (preferred_x st) (undostate st).
Definition set_selection (a b : Z) (st : STB_TexteditState) : STB_TexteditState :=
  mkStb (cursor st) a b (insert_mode st) (has_preferred_x st) (single_line st) (preferred_x st) (undostate st).
Definition set_preferred (b : bool) (x : float) (st : STB_TexteditState) : STB_TexteditState :=
  mkStb (cursor st) (select_start st) (select_end st) (insert_mode st) b (single_line st) x (undostate st).
(** [state->has_preferred_x = 0;] *)
Definition no_preferred (st : STB_TexteditState) : STB_TexteditState := set_preferred false (preferred_x st) st.

Definition has_selection (st : STB_TexteditState) : bool := negb (select_start st =? select_end st).

(** [for (i = 0; i < n; ++i) undo_char[at + i] = STB_TEXTEDIT_GETCHAR(str, where + i);] *)
Definition save_chars (str : InputText) (s : StbUndoState) (at_ where_ n : Z) : outcome StbUndoState :=
  cs ← slice (TextW str) where_ n;
  chars ← write (undo_char s) at_ cs;
  Ok (set_chars chars s).

(* @src third_party_examples/graphical_interface/imgui_example/imgui/imstb_textedit.h 1313-1316 stb_text_makeundo_insert *)
Definition stb_text_makeundo_insert (st : STB_TexteditState) (where_ length : Z) : outcome STB_TexteditState :=
  '(_, u) ← stb_text_createundo (undostate st) where_ 0 length;
  Ok (set_undostate u st).

(* @src third_party_examples/graphical_interface/imgui_example/imgui/imstb_textedit.h 1328-1336 stb_text_makeundo_replace *)
Definition stb_text_makeundo_replace (str : InputText) (st : STB_TexteditState) (where_ old_length new_length : Z) : outcome STB_TexteditState :=
  '(p, u) ← stb_text_createundo (undostate st) where_ old_length new_length;
  u ← match p with Some at_ => save_chars str u at_ where_ old_length | None => Ok u end;
  Ok (set_undostate u st).

(* @src third_party_examples/graphical_interface/imgui_example/imgui/imstb_textedit.h 1318-1326 stb_text_makeundo_delete *)
Definition stb_text_makeundo_delete (str : InputText) (st : STB_TexteditState) (where_ length : Z) : outcome STB_TexteditState :=
  stb_text_makeundo_replace str st where_ length 0.

(** The loop of [stb_text_undo] that makes room for the characters of a redo record; [false] if
    it gives up. *)
Fixpoint redo_room (fuel : nat) (n : Z) (s : StbUndoState) : outcome (bool * StbUndoState) :=
  match fuel with
  | O => Throw "out of fuel"
  | S fuel =>
      if redo_char_point s <? undo_char_point s + n then
        if redo_point s =? STB_TEXTEDIT_UNDOSTATECOUNT then Ok (false, s)
        else s ← stb_textedit_discard_redo s; redo_room fuel n s
      else Ok (true, s)
  end.

Section editing.
Context (junk : nat → Z) (fn : font).

(** The characters of the record go back into the text. *)
Definition insert_stored (str : InputText) (s : StbUndoState) (pos storage n : Z) : outcome InputText :=
  cs ← slice (undo_char s) storage n;
  '(_, str) ← STB_TEXTEDIT_INSERTCHARS junk str pos cs;
  Ok str.

(* @src third_party_examples/graphical_interface/imgui_example/imgui/imstb_textedit.h 1210-1247 stb_text_undo *)
(** The part under [if (u.delete_length)]; [false] is the early return. *)
Definition undo_deletes (str : InputText) (u : StbUndoRecord) (s : StbUndoState) : outcome (bool * InputText * StbUndoState) :=
  let n := delete_length u in
  '(room, s) ←
    (if STB_TEXTEDIT_UNDOCHARCOUNT <=? undo_char_point s + n then
       r ← get (undo_rec s) (redo_point s - 1);
       recs ← set (undo_rec s) (redo_point s - 1) (mkRec (where_ r) 0 (delete_length r) (char_storage r));
       Ok (true, set_recs recs s)
     else
       '(room, s) ← redo_room (S (Z.to_nat STB_TEXTEDIT_UNDOSTATECOUNT)) n s;
       if room : bool then
         r ← get (undo_rec s) (redo_point s - 1);
         let storage := redo_char_point s - n in
         recs ← set (undo_rec s) (redo_point s - 1) (set_storage storage r);
         s ← save_chars str (set_redo (redo_point s) storage (set_recs recs s)) storage (where_ u) n;
         Ok (true, s)
       else Ok (false, s));
  if room : bool then str ← STB_TEXTEDIT_DELETECHARS str (where_ u) n; Ok (true, str, s)
  else Ok (false, str, s).

(* @src third_party_examples/graphical_interface/imgui_example/imgui/imstb_textedit.h 1194-1260 stb_text_undo *)
Definition stb_text_undo (str : InputText) (st : STB_TexteditState) : outcome (InputText * STB_TexteditState) :=
  let s := undostate st in
  if undo_point s =? 0 then Ok (str, st) else
  u ← get (undo_rec s) (undo_point s - 1);
  recs ← set (undo_rec s) (redo_point s - 1) (mkRec (where_ u) (delete_length u) (insert_length u) (-1));
  let s := set_recs recs s in
  '(go_on, str, s) ← (if delete_length u =? 0 then Ok (true, str, s) else undo_deletes str u s);
  if go_on : bool then
    '(str, s) ← (if insert_length u =? 0 then Ok (str, s)
                 else str ← insert_stored str s (where_ u) (char_storage u) (insert_length u);
                      Ok (str, set_undo (undo_point s) (undo_char_point s - insert_length u) s));
    let s := set_redo (redo_point s - 1) (redo_char_point s) (set_undo (undo_point s - 1) (undo_char_point s) s) in
    Ok (str, set_cursor (where_ u + insert_length u) (set_undostate s st))
  else Ok (str, set_undostate s st).

(* @src third_party_examples/graphical_interface/imgui_example/imgui/imstb_textedit.h 1281-1299 stb_text_redo *)
(** The part under [if (r.delete_length)]. *)
Definition redo_deletes (str : InputText) (r : StbUndoRecord) (s : StbUndoState) : outcome (InputText * StbUndoState) :=
  let n := delete_length r in
  s ← (if redo_char_point s <? undo_char_point s + n then
         recs ← set (undo_rec s) (undo_point s) (mkRec (where_ r) 0 0 (-1));
         Ok (set_recs recs s)
       else
         let storage := undo_char_point s in
         recs ← set (undo_rec s) (undo_point s) (mkRec (where_ r) n (insert_length r) storage);
         save_chars str (set_undo (undo_point s) (storage + n) (set_recs recs s)) storage (where_ r) n);
  str ← STB_TEXTEDIT_DELETECHARS str (where_ r) n;
  Ok (str, s).

(* @src third_party_examples/graphical_interface/imgui_example/imgui/imstb_textedit.h 1262-1311 stb_text_redo *)
Definition stb_text_redo (str : InputText) (st : STB_TexteditState) : outcome (InputText * STB_TexteditState) :=
  let s := undostate st in
  if redo_point s =? STB_TEXTEDIT_UNDOSTATECOUNT then Ok (str, st) else
  r ← get (undo_rec s) (redo_point s);
  recs ← set (undo_rec s) (undo_point s) (mkRec (where_ r) (delete_length r) (insert_length r) (-1));
  let s := set_recs recs s in
  '(str, s) ← (if delete_length r =? 0 then Ok (str, s) else redo_deletes str r s);
  '(str, s) ← (if insert_length r =? 0 then Ok (str, s)
               else str ← insert_stored str s (where_ r) (char_storage r) (insert_length r);
                    Ok (str, set_redo (redo_point s) (redo_char_point s + insert_length r) s));
  let s := set_redo (redo_point s + 1) (redo_char_point s) (set_undo (undo_point s + 1) (undo_char_point s) s) in
  Ok (str, set_cursor (where_ r + insert_length r) (set_undostate s st)).

(** ** Cursor and selection *)

(* @src third_party_examples/graphical_interface/imgui_example/imgui/imstb_textedit.h 575-586 stb_textedit_clamp *)
Definition stb_textedit_clamp (str : InputText) (st : STB_TexteditState) : STB_TexteditState :=
  let n := CurLenW str in
  let st :=
    if has_selection st then
      let st := if n <? select_start st then set_selection n (select_end st) st else st in
      let st := if n <? select_end st then set_selection (select_start st) n st else st in
      if select_start st =? select_end st then set_cursor (select_start st) st else st
    else st in
  if n <? cursor st then set_cursor n st else st.

(* @src third_party_examples/graphical_interface/imgui_example/imgui/imstb_textedit.h 589-594 stb_textedit_delete *)
Definition stb_textedit_delete (str : InputText) (st : STB_TexteditState) (where_ len : Z) : outcome (InputText * STB_TexteditState) :=
  st ← stb_text_makeundo_delete str st where_ len;
  str ← STB_TEXTEDIT_DELETECHARS str where_ len;
  Ok (str, no_preferred st).

(* @src third_party_examples/graphical_interface/imgui_example/imgui/imstb_textedit.h 597-610 stb_textedit_delete_selection *)
Definition stb_textedit_delete_selection (str : InputText) (st : STB_TexteditState) : outcome (InputText * STB_TexteditState) :=
  let st := stb_textedit_clamp str st in
  if has_selection st then
    '(str, st) ←
      (if select_start st <? select_end st then
         '(str, st) ← stb_textedit_delete str st (select_start st) (select_end st - select_start st);
         Ok (str, set_cursor (select_start st) (set_selection (select_start st) (select_start st) st))
       else
         '(str, st) ← stb_textedit_delete str st (select_end st) (select_start st - select_end st);
         Ok (str, set_cursor (select_end st) (set_selection (select_end st) (select_end st) st)));
    Ok (str, no_preferred st)
  else Ok (str, st).

(* @src third_party_examples/graphical_interface/imgui_example/imgui/imstb_textedit.h 613-620 stb_textedit_sortselection *)
Definition stb_textedit_sortselection (st : STB_TexteditState) : STB_TexteditState :=
  if select_end st <? select_start st then set_selection (select_end st) (select_start st) st else st.

(* @src third_party_examples/graphical_interface/imgui_example/imgui/imstb_textedit.h 623-631 stb_textedit_move_to_first *)
Definition stb_textedit_move_to_first (st : STB_TexteditState) : STB_TexteditState :=
  if has_selection st then
    let st := stb_textedit_sortselection st in
    no_preferred (set_cursor (select_start st) (set_selection (select_start st) (select_start st) st))
  else st.

(* @src third_party_examples/graphical_interface/imgui_example/imgui/imstb_textedit.h 634-643 stb_textedit_move_to_last *)
Definition stb_textedit_move_to_last (str : InputText) (st : STB_TexteditState) : STB_TexteditState :=
  if has_selection st then
    let st := stb_textedit_clamp str (stb_textedit_sortselection st) in
    no_preferred (set_cursor (select_end st) (set_selection (select_end st) (select_end st) st))
  else st.

(* @src third_party_examples/graphical_interface/imgui_example/imgui/imstb_textedit.h 685-691 stb_textedit_prep_selection_at_cursor *)
Definition stb_textedit_prep_selection_at_cursor (st : STB_TexteditState) : STB_TexteditState :=
  if has_selection st then set_cursor (select_end st) st else set_selection (cursor st) (cursor st) st.

(* @src third_party_examples/graphical_interface/imgui_example/imgui/imstb_textedit.h 694-702 stb_textedit_cut *)
Definition stb_textedit_cut (str : InputText) (st : STB_TexteditState) : outcome (bool * InputText * STB_TexteditState) :=
  if has_selection st then
    '(str, st) ← stb_textedit_delete_selection str st;
    Ok (true, str, no_preferred st)
  else Ok (false, str, st).

(* @src third_party_examples/graphical_interface/imgui_example/imgui/imstb_textedit.h 705-721 stb_textedit_paste_internal *)
Definition stb_textedit_paste (str : InputText) (st : STB_TexteditState) (text : list Z) : outcome (bool * InputText * STB_TexteditState) :=
  let st := stb_textedit_clamp str st in
  '(str, st) ← stb_textedit_delete_selection str st;
  '(ok, str) ← STB_TEXTEDIT_INSERTCHARS junk str (cursor st) text;
  if ok : bool then
    st ← stb_text_makeundo_insert st (cursor st) (Z.of_nat (length text));
    Ok (true, str, no_preferred (set_cursor (cursor st + Z.of_nat (length text)) st))
  else
    let u := undostate st in
    let u := if undo_point u =? 0 then u else set_undo (undo_point u - 1) (undo_char_point u) u in
    Ok (false, str, set_undostate u st).

(* @src third_party_examples/graphical_interface/imgui_example/imgui/imstb_textedit.h 456-471 stb_textedit_click *)
Definition stb_textedit_click (str : InputText) (st : STB_TexteditState) (x y : float) : outcome STB_TexteditState :=
  y ← (if single_line st then r ← STB_TEXTEDIT_LAYOUTROW fn str 0; Ok (ymin r) else Ok y);
  p ← stb_text_locate_coord fn str x y;
  Ok (no_preferred (set_selection p p (set_cursor p st))).

(* @src third_party_examples/graphical_interface/imgui_example/imgui/imstb_textedit.h 474-492 stb_textedit_drag *)
Definition stb_textedit_drag (str : InputText) (st : STB_TexteditState) (x y : float) : outcome STB_TexteditState :=
  y ← (if single_line st then r ← STB_TEXTEDIT_LAYOUTROW fn str 0; Ok (ymin r) else Ok y);
  let st := if has_selection st then st else set_selection (cursor st) (select_end st) st in
  p ← stb_text_locate_coord fn str x y;
  Ok (set_selection (select_start st) p (set_cursor p st)).

(** ** Keys *)

(* @src third_party_examples/graphical_interface/imgui_example/imgui/imstb_textedit.h 732-758 stb_textedit_key *)
(** The default case: a character. *)
Definition key_char (key : Z) (str : InputText) (st : STB_TexteditState) : outcome (InputText * STB_TexteditState) :=
  let c := STB_TEXTEDIT_KEYTOTEXT key in
  if c <=? 0 then Ok (str, st) else
  let ch := uwrap 16 c in
  if (c =? newline) && single_line st then Ok (str, st) else
  if insert_mode st && negb (has_selection st) && (cursor st <? CurLenW str) then
    st ← stb_text_makeundo_replace str st (cursor st) 1 1;
    str ← STB_TEXTEDIT_DELETECHARS str (cursor st) 1;
    '(ok, str) ← STB_TEXTEDIT_INSERTCHARS junk str (cursor st) [ch];
    Ok (str, if ok : bool then no_preferred (set_cursor (cursor st + 1) st) else st)
  else
    '(str, st) ← stb_textedit_delete_selection str st;
    '(ok, str) ← STB_TEXTEDIT_INSERTCHARS junk str (cursor st) [ch];
    if ok : bool then
      st ← stb_text_makeundo_insert st (cursor st) 1;
      Ok (str, no_preferred (set_cursor (cursor st + 1) st))
    else Ok (str, st).

(* @src third_party_examples/graphical_interface/imgui_example/imgui/imstb_textedit.h 776-784 stb_textedit_key *)
Definition key_left (st : STB_TexteditState) : STB_TexteditState :=
  no_preferred
    (if has_selection st then stb_textedit_move_to_first st
     else if 0 <? cursor st then set_cursor (cursor st - 1) st else st).

(* @src third_party_examples/graphical_interface/imgui_example/imgui/imstb_textedit.h 786-794 stb_textedit_key *)
Definition key_right (str : InputText) (st : STB_TexteditState) : STB_TexteditState :=
  let st := if has_selection st then stb_textedit_move_to_last str st else set_cursor (cursor st + 1) st in
  no_preferred (stb_textedit_clamp str st).

(* @src third_party_examples/graphical_interface/imgui_example/imgui/imstb_textedit.h 796-804 stb_textedit_key *)
Definition key_left_shift (str : InputText) (st : STB_TexteditState) : STB_TexteditState :=
  let st := stb_textedit_prep_selection_at_cursor (stb_textedit_clamp str st) in
  let st := if 0 <? select_end st then set_selection (select_start st) (select_end st - 1) st else st in
  no_preferred (set_cursor (select_end st) st).

(* @src third_party_examples/graphical_interface/imgui_example/imgui/imstb_textedit.h 807-814 stb_textedit_key *)
Definition key_wordleft (str : InputText) (st : STB_TexteditState) : outcome STB_TexteditState :=
  if has_selection st then Ok (stb_textedit_move_to_first st)
  else p ← STB_TEXTEDIT_MOVEWORDLEFT str (cursor st); Ok (stb_textedit_clamp str (set_cursor p st)).

(* @src third_party_examples/graphical_interface/imgui_example/imgui/imstb_textedit.h 816-824 stb_textedit_key *)
Definition key_wordleft_shift (str : InputText) (st : STB_TexteditState) : outcome STB_TexteditState :=
  let st := if has_selection st then st else stb_textedit_prep_selection_at_cursor st in
  p ← STB_TEXTEDIT_MOVEWORDLEFT str (cursor st);
  Ok (stb_textedit_clamp str (set_selection (select_start st) p (set_cursor p st))).

(* @src third_party_examples/graphical_interface/imgui_example/imgui/imstb_textedit.h 828-835 stb_textedit_key *)
Definition key_wordright (str : InputText) (st : STB_TexteditState) : outcome STB_TexteditState :=
  if has_selection st then Ok (stb_textedit_move_to_last str st)
  else p ← STB_TEXTEDIT_MOVEWORDRIGHT str (cursor st); Ok (stb_textedit_clamp str (set_cursor p st)).

(* @src third_party_examples/graphical_interface/imgui_example/imgui/imstb_textedit.h 837-845 stb_textedit_key *)
Definition key_wordright_shift (str : InputText) (st : STB_TexteditState) : outcome STB_TexteditState :=
  let st := if has_selection st then st else stb_textedit_prep_selection_at_cursor st in
  p ← STB_TEXTEDIT_MOVEWORDRIGHT str (cursor st);
  Ok (stb_textedit_clamp str (set_selection (select_start st) p (set_cursor p st))).

(* @src third_party_examples/graphical_interface/imgui_example/imgui/imstb_textedit.h 848-855 stb_textedit_key *)
Definition key_right_shift (str : InputText) (st : STB_TexteditState) : STB_TexteditState :=
  let st := stb_textedit_prep_selection_at_cursor st in
  let st := stb_textedit_clamp str (set_selection (select_start st) (select_end st + 1) st) in
  no_preferred (set_cursor (select_end st) st).

(* @src third_party_examples/graphical_interface/imgui_example/imgui/imstb_textedit.h 887-898 stb_textedit_key *)
(** Along the row that starts at [start]: as many characters as end before [goal_x].  The loop is
    the same for the row above, at lines 938 to 949. *)
Fixpoint walk_row (todo : nat) (str : InputText) (start i : Z) (x goal_x : float) (cur : Z) : outcome Z :=
  match todo with
  | O => Ok cur
  | S todo =>
      dx ← STB_TEXTEDIT_GETWIDTH fn str start i;
      if SFeqb dx width_newline then Ok cur else
      let x := fadd x dx in
      if SFltb goal_x x then Ok cur else walk_row todo str start (i + 1) x goal_x (cur + 1)
  end.

(** Into the row at [start], to the column that is preferred. *)
Definition enter_row (str : InputText) (st : STB_TexteditState) (find : StbFindState) (start : Z) (sel : bool) : outcome STB_TexteditState :=
  let goal_x := if has_preferred_x st then preferred_x st else find_x find in
  row ← STB_TEXTEDIT_LAYOUTROW fn str start;
  p ← walk_row (Z.to_nat (num_chars row)) str start 0 (x0 row) goal_x start;
  let st := set_preferred true goal_x (stb_textedit_clamp str (set_cursor p st)) in
  Ok (if sel then set_selection (select_start st) (cursor st) st else st).

(* @src third_party_examples/graphical_interface/imgui_example/imgui/imstb_textedit.h 857-906 stb_textedit_key *)
(** In a text with several lines. *)
Definition key_down (sel : bool) (str : InputText) (st : STB_TexteditState) : outcome STB_TexteditState :=
  let st := if sel then stb_textedit_prep_selection_at_cursor st
            else if has_selection st then stb_textedit_move_to_last str st else st in
  let st := stb_textedit_clamp str st in
  find ← stb_textedit_find_charpos fn str (cursor st) (single_line st);
  if length_ find =? 0 then Ok st
  else enter_row str st find (first_char find + length_ find) sel.

(* @src third_party_examples/graphical_interface/imgui_example/imgui/imstb_textedit.h 908-957 stb_textedit_key *)
Definition key_up (sel : bool) (str : InputText) (st : STB_TexteditState) : outcome STB_TexteditState :=
  let st := if sel then stb_textedit_prep_selection_at_cursor st
            else if has_selection st then stb_textedit_move_to_first st else st in
  let st := stb_textedit_clamp str st in
  find ← stb_textedit_find_charpos fn str (cursor st) (single_line st);
  match prev_first find with
  | None => UB "uninitialised member"
  | Some p => if p =? first_char find then Ok st else enter_row str st find p sel
  end.

(* @src third_party_examples/graphical_interface/imgui_example/imgui/imstb_textedit.h 959-969 stb_textedit_key *)
Definition key_delete (str : InputText) (st : STB_TexteditState) : outcome (InputText * STB_TexteditState) :=
  '(str, st) ←
    (if has_selection st then stb_textedit_delete_selection str st
     else if cursor st <? CurLenW str then stb_textedit_delete str st (cursor st) 1 else Ok (str, st));
  Ok (str, no_preferred st).

(* @src third_party_examples/graphical_interface/imgui_example/imgui/imstb_textedit.h 971-983 stb_textedit_key *)
Definition key_backspace (str : InputText) (st : STB_TexteditState) : outcome (InputText * STB_TexteditState) :=
  '(str, st) ←
    (if has_selection st then stb_textedit_delete_selection str st
     else
       let st := stb_textedit_clamp str st in
       if 0 <? cursor st then
         '(str, st) ← stb_textedit_delete str st (cursor st - 1) 1;
         Ok (str, set_cursor (cursor st - 1) st)
       else Ok (str, st));
  Ok (str, no_preferred st).

(* @src third_party_examples/graphical_interface/imgui_example/imgui/imstb_textedit.h 988-991 stb_textedit_key *)
Definition key_textstart (st : STB_TexteditState) : STB_TexteditState :=
  no_preferred (set_selection 0 0 (set_cursor 0 st)).

(* @src third_party_examples/graphical_interface/imgui_example/imgui/imstb_textedit.h 996-1000 stb_textedit_key *)
Definition key_textend (str : InputText) (st : STB_TexteditState) : STB_TexteditState :=
  no_preferred (set_selection 0 0 (set_cursor (CurLenW str) st)).

(* @src third_party_examples/graphical_interface/imgui_example/imgui/imstb_textedit.h 1005-1009 stb_textedit_key *)
Definition key_textstart_shift (st : STB_TexteditState) : STB_TexteditState :=
  let st := stb_textedit_prep_selection_at_cursor st in
  no_preferred (set_selection (select_start st) 0 (set_cursor 0 st)).

(* @src third_party_examples/graphical_interface/imgui_example/imgui/imstb_textedit.h 1014-1018 stb_textedit_key *)
Definition key_textend_shift (str : InputText) (st : STB_TexteditState) : STB_TexteditState :=
  let st := stb_textedit_prep_selection_at_cursor st in
  no_preferred (set_selection (select_start st) (CurLenW str) (set_cursor (CurLenW str) st)).

(** [while (cursor > 0 && GETCHAR(str, cursor - 1) != NEWLINE) --cursor;] *)
Fixpoint line_start (fuel : nat) (str : InputText) (p : Z) : outcome Z :=
  match fuel with
  | O => Throw "out of fuel"
  | S fuel =>
      if 0 <? p then
        c ← STB_TEXTEDIT_GETCHAR str (p - 1);
        if c =? newline then Ok p else line_start fuel str (p - 1)
      else Ok p
  end.

(** [while (cursor < n && GETCHAR(str, cursor) != NEWLINE) ++cursor;] *)
Fixpoint line_end (fuel : nat) (str : InputText) (n p : Z) : outcome Z :=
  match fuel with
  | O => Throw "out of fuel"
  | S fuel =>
      if p <? n then
        c ← STB_TEXTEDIT_GETCHAR str p;
        if c =? newline then Ok p else line_end fuel str n (p + 1)
      else Ok p
  end.

(** Where the line of the cursor starts, or ends. *)
Definition to_line_start (str : InputText) (st : STB_TexteditState) : outcome Z :=
  if single_line st then Ok 0 else line_start (S (Z.to_nat (cursor st))) str (cursor st).
Definition to_line_end (str : InputText) (st : STB_TexteditState) : outcome Z :=
  let n := CurLenW str in
  if single_line st then Ok n else line_end (S (Z.to_nat (n - cursor st))) str n (cursor st).

(* @src third_party_examples/graphical_interface/imgui_example/imgui/imstb_textedit.h 1024-1032 stb_textedit_key *)
Definition key_linestart (str : InputText) (st : STB_TexteditState) : outcome STB_TexteditState :=
  let st := stb_textedit_move_to_first (stb_textedit_clamp str st) in
  p ← to_line_start str st;
  Ok (no_preferred (set_cursor p st)).

(* @src third_party_examples/graphical_interface/imgui_example/imgui/imstb_textedit.h 1037-1047 stb_textedit_key *)
Definition key_lineend (str : InputText) (st : STB_TexteditState) : outcome STB_TexteditState :=
  let st := stb_textedit_move_to_first (stb_textedit_clamp str st) in
  p ← to_line_end str st;
  Ok (no_preferred (set_cursor p st)).

(* @src third_party_examples/graphical_interface/imgui_example/imgui/imstb_textedit.h 1052-1061 stb_textedit_key *)
Definition key_linestart_shift (str : InputText) (st : STB_TexteditState) : outcome STB_TexteditState :=
  let st := stb_textedit_prep_selection_at_cursor (stb_textedit_clamp str st) in
  p ← to_line_start str st;
  Ok (no_preferred (set_selection (select_start st) p (set_cursor p st))).

(* @src third_party_examples/graphical_interface/imgui_example/imgui/imstb_textedit.h 1066-1077 stb_textedit_key *)
Definition key_lineend_shift (str : InputText) (st : STB_TexteditState) : outcome STB_TexteditState :=
  let st := stb_textedit_prep_selection_at_cursor (stb_textedit_clamp str st) in
  p ← to_line_end str st;
  Ok (no_preferred (set_selection (select_start st) p (set_cursor p st))).
End editing.

(* @src third_party_examples/graphical_interface/imgui_example/imgui/imgui_widgets.cpp 3234-3248 STB_TEXTEDIT_K_LEFT *)
Definition K_LEFT : Z := 0x200000.
Definition K_RIGHT : Z := 0x200001.
Definition K_UP : Z := 0x200002.
Definition K_DOWN : Z := 0x200003.
Definition K_LINESTART : Z := 0x200004.
Definition K_LINEEND : Z := 0x200005.
Definition K_TEXTSTART : Z := 0x200006.
Definition K_TEXTEND : Z := 0x200007.
Definition K_DELETE : Z := 0x200008.
Definition K_BACKSPACE : Z := 0x200009.
Definition K_UNDO : Z := 0x20000A.
Definition K_REDO : Z := 0x20000B.
Definition K_WORDLEFT : Z := 0x20000C.
Definition K_WORDRIGHT : Z := 0x20000D.
Definition K_SHIFT : Z := 0x400000.

Section keys.
Context (junk : nat → Z) (fn : font).

Definition moved (str : InputText) (st : STB_TexteditState) : outcome (InputText * STB_TexteditState) := Ok (str, st).
Definition moves (str : InputText) (o : outcome STB_TexteditState) : outcome (InputText * STB_TexteditState) :=
  st ← o; Ok (str, st).

(* @src third_party_examples/graphical_interface/imgui_example/imgui/imstb_textedit.h 731-1082 stb_textedit_key *)
(** The [switch]; its cases are the definitions above. *)
Definition key_case (str : InputText) (st : STB_TexteditState) (key : Z) : outcome (InputText * STB_TexteditState) :=
  let shift := Z.lor K_SHIFT in
  if key =? K_UNDO then '(str, st) ← stb_text_undo junk str st; Ok (str, no_preferred st)
  else if key =? K_REDO then '(str, st) ← stb_text_redo junk str st; Ok (str, no_preferred st)
  else if key =? K_LEFT then moved str (key_left st)
  else if key =? K_RIGHT then moved str (key_right str st)
  else if key =? shift K_LEFT then moved str (key_left_shift str st)
  else if key =? K_WORDLEFT then moves str (key_wordleft str st)
  else if key =? shift K_WORDLEFT then moves str (key_wordleft_shift str st)
  else if key =? K_WORDRIGHT then moves str (key_wordright str st)
  else if key =? shift K_WORDRIGHT then moves str (key_wordright_shift str st)
  else if key =? shift K_RIGHT then moved str (key_right_shift str st)
  else if key =? K_DOWN then moves str (key_down fn false str st)
  else if key =? shift K_DOWN then moves str (key_down fn true str st)
  else if key =? K_UP then moves str (key_up fn false str st)
  else if key =? shift K_UP then moves str (key_up fn true str st)
  else if (key =? K_DELETE) || (key =? shift K_DELETE) then key_delete str st
  else if (key =? K_BACKSPACE) || (key =? shift K_BACKSPACE) then key_backspace str st
  else if key =? K_TEXTSTART then moved str (key_textstart st)
  else if key =? K_TEXTEND then moved str (key_textend str st)
  else if key =? shift K_TEXTSTART then moved str (key_textstart_shift st)
  else if key =? shift K_TEXTEND then moved str (key_textend_shift str st)
  else if key =? K_LINESTART then moves str (key_linestart str st)
  else if key =? K_LINEEND then moves str (key_lineend str st)
  else if key =? shift K_LINESTART then moves str (key_linestart_shift str st)
  else if key =? shift K_LINEEND then moves str (key_lineend_shift str st)
  else key_char junk key str st.

(* @src third_party_examples/graphical_interface/imgui_example/imgui/imstb_textedit.h 728-1083 stb_textedit_key *)
(** With [goto retry]: up and down are left and right in a single line. *)
Definition stb_textedit_key (str : InputText) (st : STB_TexteditState) (key : Z) : outcome (InputText * STB_TexteditState) :=
  let shift := Z.lor K_SHIFT in
  let key :=
    if single_line st then
      if (key =? K_DOWN) || (key =? shift K_DOWN) then Z.lor K_RIGHT (Z.land key K_SHIFT)
      else if (key =? K_UP) || (key =? shift K_UP) then Z.lor K_LEFT (Z.land key K_SHIFT)
      else key
    else key in
  key_case str st key.

(** ** The text field *)

(** The members of [ImGuiInputTextState] that the editing uses. *)
Record ImGuiInputTextState := mkInput { text : InputText; Stb : STB_TexteditState }.

(* @src third_party_examples/graphical_interface/imgui_example/imgui/imgui_internal.h 756-756 CursorClamp *)
Definition CursorClamp (e : ImGuiInputTextState) : ImGuiInputTextState :=
  let n := CurLenW (text e) in
  mkInput (text e) (set_selection (Z.min (select_start (Stb e)) n) (Z.min (select_end (Stb e)) n)
    (set_cursor (Z.min (cursor (Stb e)) n) (Stb e))).

(* @src third_party_examples/graphical_interface/imgui_example/imgui/imgui_internal.h 758-758 ClearSelection *)
Definition ClearSelection (e : ImGuiInputTextState) : ImGuiInputTextState :=
  mkInput (text e) (set_selection (cursor (Stb e)) (cursor (Stb e)) (Stb e)).

(* @src third_party_examples/graphical_interface/imgui_example/imgui/imgui_internal.h 759-759 SelectAll *)
Definition SelectAll (e : ImGuiInputTextState) : ImGuiInputTextState :=
  let n := CurLenW (text e) in
  mkInput (text e) (no_preferred (set_selection 0 n (set_cursor n (Stb e)))).

(* @src third_party_examples/graphical_interface/imgui_example/imgui/imgui_widgets.cpp 3255-3260 OnKeyPressed *)
(** The members for the blinking and the scrolling are left out. *)
Definition OnKeyPressed (key : Z) (e : ImGuiInputTextState) : outcome ImGuiInputTextState :=
  '(str, st) ← stb_textedit_key (text e) (Stb e) key;
  Ok (mkInput str st).

(* @src third_party_examples/graphical_interface/imgui_example/imgui/imstb_textedit.h 1339-1353 stb_textedit_clear_state *)
Definition stb_textedit_clear_state (st : STB_TexteditState) (is_single_line : bool) : STB_TexteditState :=
  let u := undostate st in
  mkStb 0 0 0 false false is_single_line f0
    (mkUndo (undo_rec u) (undo_char u) 0 STB_TEXTEDIT_UNDOSTATECOUNT 0 STB_TEXTEDIT_UNDOCHARCOUNT).

(** *** Filtering *)

(** The flags that matter here. *)
Record InputTextFlags := mkFlags {
  Multiline : bool; AllowTabInput : bool; CharsDecimal : bool; CharsScientific : bool; CharsHexadecimal : bool;
  CharsUppercase : bool; CharsNoBlank : bool; CallbackCharFilter : bool; AlwaysInsertMode : bool; CallbackResize : bool }.

Definition in_range (a c b : Z) : bool := (a <=? c) && (c <=? b).
(** One of [. - + * /]. *)
Definition decimal_sign (c : Z) : bool := (c =? 46) || (c =? 45) || (c =? 43) || (c =? 42) || (c =? 47).

Section filter.
(** The callback of the user gets a character; it returns its result and the character it leaves. *)
Context (flags : InputTextFlags) (callback : Z → Z * Z).

(* @src third_party_examples/graphical_interface/imgui_example/imgui/imgui_widgets.cpp 3321-3387 InputTextFilterCharacter *)
(** [None] if the character is discarded. *)
Definition InputTextFilterCharacter (c : Z) : option Z :=
  if (c <? 0x20) && negb ((c =? newline) && Multiline flags || (c =? 9) && AllowTabInput flags) then None
  else if c =? 127 then None
  else if in_range 0xE000 c 0xF8FF then None
  else if IM_UNICODE_CODEPOINT_MAX <? c then None
  else if CharsDecimal flags && negb (in_range 48 c 57 || decimal_sign c) then None
  else if CharsScientific flags && negb (in_range 48 c 57 || decimal_sign c || (c =? 101) || (c =? 69)) then None
  else if CharsHexadecimal flags && negb (in_range 48 c 57 || in_range 97 c 102 || in_range 65 c 70) then None
  else
    let c := if CharsUppercase flags && in_range 97 c 122 then c - 32 else c in
    if CharsNoBlank flags && ImCharIsBlankW c then None
    else if CallbackCharFilter flags then
      let '(res, c') := callback (uwrap 16 c) in
      let c' := uwrap 16 c' in
      if negb (res =? 0) then None else if c' =? 0 then None else Some c'
    else Some c.

(* @src third_party_examples/graphical_interface/imgui_example/imgui/imgui_widgets.cpp 3764-3774 InputTextEx *)
(** The clipboard is a zero-terminated text; the characters that are pasted. *)
Fixpoint filter_clipboard (fuel : nat) (s : list Z) : outcome (list Z) :=
  match fuel with
  | O => Throw "out of fuel"
  | S fuel =>
      b ← read s 0;
      if b =? 0 then Ok [] else
      '(c, n) ← ImTextCharFromUtf8 s None;
      if c =? 0 then Ok [] else
      rest ← filter_clipboard fuel (drop n s);
      Ok (match InputTextFilterCharacter c with Some c => uwrap 16 c :: rest | None => rest end)
  end.

(** *** What the user does *)

(** A key or a character that the back end has sent, the shortcuts, and the mouse. *)
Inductive command :=
| Press (key : Z) | Type_ (c : Z) | Undo | Redo | SelectEverything | Cut | Paste (clipboard : list Z)
| Click (x y : float) | Drag (x y : float).

(* @src third_party_examples/graphical_interface/imgui_example/imgui/imgui_widgets.cpp 3656-3662 InputTextEx *)
Definition input_char (c : Z) (e : ImGuiInputTextState) : outcome ImGuiInputTextState :=
  match InputTextFilterCharacter c with Some c => OnKeyPressed c e | None => Ok e end.

(* @src third_party_examples/graphical_interface/imgui_example/imgui/imgui_widgets.cpp 3725-3729 InputTextEx *)
Definition input_undo_redo (is_undo : bool) (e : ImGuiInputTextState) : outcome ImGuiInputTextState :=
  e ← OnKeyPressed (if is_undo then K_UNDO else K_REDO) e;
  Ok (ClearSelection e).

(* @src third_party_examples/graphical_interface/imgui_example/imgui/imgui_widgets.cpp 3735-3756 InputTextEx *)
(** What goes to the clipboard, and the state. *)
Definition input_cut (is_cut : bool) (e : ImGuiInputTextState) : outcome (list Z * ImGuiInputTextState) :=
  let st := Stb e in
  let ib := if has_selection st then Z.min (select_start st) (select_end st) else 0 in
  let ie := if has_selection st then Z.max (select_start st) (select_end st) else CurLenW (text e) in
  cs ← slice (TextW (text e)) ib (ie - ib);
  clipboard ← ImTextStrToUtf8 (ImTextCountUtf8BytesFromStr cs + 1) cs;
  if is_cut then
    let e := if has_selection (Stb e) then e else SelectAll e in
    '(_, str, st) ← stb_textedit_cut (text e) (Stb e);
    Ok (clipboard, mkInput str st)
  else Ok (clipboard, e).

(* @src third_party_examples/graphical_interface/imgui_example/imgui/imgui_widgets.cpp 3757-3784 InputTextEx *)
Definition input_paste (clipboard : list Z) (e : ImGuiInputTextState) : outcome ImGuiInputTextState :=
  filtered ← filter_clipboard (S (length clipboard)) clipboard;
  match filtered with
  | [] => Ok e
  | _ => '(_, str, st) ← stb_textedit_paste junk (text e) (Stb e) filtered; Ok (mkInput str st)
  end.

Definition perform (c : command) (e : ImGuiInputTextState) : outcome ImGuiInputTextState :=
  match c with
  | Press key => OnKeyPressed key e
  | Type_ c => input_char c e
  | Undo => input_undo_redo true e
  | Redo => input_undo_redo false e
  | SelectEverything => Ok (SelectAll e)
  | Cut => '(_, e) ← input_cut true e; Ok e
  | Paste clipboard => input_paste clipboard e
  | Click x y => st ← stb_textedit_click fn (text e) (Stb e) x y; Ok (mkInput (text e) st)
  | Drag x y => st ← stb_textedit_drag fn (text e) (Stb e) x y; Ok (mkInput (text e) st)
  end.

Fixpoint perform_all (cs : list command) (e : ImGuiInputTextState) : outcome ImGuiInputTextState :=
  match cs with [] => Ok e | c :: cs => e ← perform c e; perform_all cs e end.

(* @src third_party_examples/graphical_interface/imgui_example/imgui/imgui_widgets.cpp 3491-3517 InputTextEx *)
(** The field becomes active: it takes a copy of the user's buffer.  [recycle_state] says that
    the state is still that of the same field. *)
Definition input_activate (buf : list Z) (buf_size : Z) (recycle_state : bool) (e : ImGuiInputTextState) : outcome ImGuiInputTextState :=
  let w := vector_resize junk (TextW (text e)) (buf_size + 1) in
  '(cs, n) ← ImTextStrFromUtf8 buf_size buf None;
  w ← write w 0 (cs ++ [0]);
  let t := mkText (Z.of_nat (length cs)) (Z.of_nat n) w buf_size (CallbackResize flags) in
  let e := if recycle_state then CursorClamp (mkInput t (Stb e))
           else mkInput t (stb_textedit_clear_state (Stb e) (negb (Multiline flags))) in
  let st := Stb e in
  Ok (mkInput (text e) (mkStb (cursor st) (select_start st) (select_end st) (insert_mode st || AlwaysInsertMode flags)
    (has_preferred_x st) (single_line st) (preferred_x st) (undostate st))).
End filter.
End keys.

(** ** Back to the user's buffer *)

(* @src third_party_examples/graphical_interface/imgui_example/imgui/imgui.cpp 1173-1180 ImStrncpy *)
(** [src] is a text without the zero at its end. *)
Definition ImStrncpy (dst src : list Z) (count : Z) : outcome (list Z) :=
  if count <? 1 then Ok dst else
  let n := Z.to_nat (count - 1) in
  dst ← (if 1 <? count then write dst 0 (take n (src ++ replicate n 0)) else Ok dst);
  set dst (count - 1) 0.

(* @src third_party_examples/graphical_interface/imgui_example/imgui/imgui_widgets.cpp 3792-3894 InputTextEx *)
(** [apply_new_text] and its length, [None] if it is a null pointer.  [initial] is
    [InitialTextA].  Without the user's callbacks, and where a cancelled edit is not applied as
    well. *)
Definition apply_new_text (cancel_edit : bool) (initial buf : list Z) (e : ImGuiInputTextState) : outcome (option (list Z * Z)) :=
  current ← until_zero buf;
  if cancel_edit then Ok (if decide (current = initial) then None else Some (initial, Z.of_nat (length initial)))
  else
    cs ← until_zero (TextW (text e));
    TextA ← ImTextStrToUtf8 (Z.of_nat (length (TextW (text e))) * 4 + 1) cs;
    Ok (if decide (TextA = current) then None else Some (TextA, CurLenA (text e))).

(* @src third_party_examples/graphical_interface/imgui_example/imgui/imgui_widgets.cpp 3896-3919 InputTextEx *)
(** The user's buffer and whether it has been changed.  [resize] is the user's callback: from
    the buffer, the length of the text and the size of the buffer to what it leaves of them. *)
Definition input_apply (resize : list Z → Z → Z → list Z * Z * Z) (cancel_edit : bool) (initial buf : list Z)
    (buf_size backup_current_text_length : Z) (e : ImGuiInputTextState) : outcome (list Z * bool) :=
  new ← apply_new_text cancel_edit initial buf e;
  match new with
  | None => Ok (buf, false)
  | Some (s, n) =>
      _ ← im_assert (0 <=? n);
      '(buf, n, buf_size) ←
        (if negb (backup_current_text_length =? n) && is_resizable (text e) then
           let '(buf, len, buf_size) := resize buf n (Z.max buf_size (n + 1)) in
           let n := Z.min len (buf_size - 1) in
           _ ← im_assert (n <=? buf_size);
           Ok (buf, n, buf_size)
         else Ok (buf, n, buf_size));
      buf ← ImStrncpy buf s (Z.min (n + 1) buf_size);
      Ok (buf, true)
  end.

(** ** What a callback of the user may do *)

(* @src third_party_examples/graphical_interface/imgui_example/imgui/imgui.h 1505-1530 ImGuiInputTextCallbackData *)
(** The members that the two functions use; [Buf] is all of its memory. *)
Record ImGuiInputTextCallbackData := mkData {
  Buf : list Z; BufTextLen : Z; BufSize : Z; BufDirty : bool; CursorPos : Z; SelectionStart : Z; SelectionEnd : Z;
  may_resize : bool }.

(* @src third_party_examples/graphical_interface/imgui_example/imgui/imgui_widgets.cpp 3270-3286 DeleteChars *)
Definition DeleteChars (pos bytes_count : Z) (d : ImGuiInputTextCallbackData) : outcome ImGuiInputTextCallbackData :=
  _ ← im_assert (pos + bytes_count <=? BufTextLen d);
  rest ← slice (Buf d) (pos + bytes_count) (Z.of_nat (length (Buf d)) - (pos + bytes_count));
  cs ← until_zero rest;
  buf ← write (Buf d) pos (cs ++ [0]);
  let c := if pos <=? CursorPos d + bytes_count then CursorPos d - bytes_count
           else if pos <=? CursorPos d then pos else CursorPos d in
  Ok (mkData buf (BufTextLen d - bytes_count) (BufSize d) true c c c (may_resize d)).

(* @src third_party_examples/graphical_interface/imgui_example/imgui/imgui_widgets.cpp 3288-3318 InsertChars *)
(** The new memory, if there is any, has the old one at its front. *)
Definition InsertChars (junk : nat → Z) (pos : Z) (new_text : list Z) (d : ImGuiInputTextCallbackData) : outcome ImGuiInputTextCallbackData :=
  let n := Z.of_nat (length new_text) in
  let full := BufSize d <=? n + BufTextLen d in
  if full && negb (may_resize d) then Ok d else
  let size := BufTextLen d + ImClamp (n * 4) 32 (Z.max 256 n) + 1 in
  let buf := if full && (Z.of_nat (length (Buf d)) <? size + 1) then vector_resize junk (Buf d) (size + 1) else Buf d in
  buf ← (if BufTextLen d =? pos then Ok buf else memmove buf (pos + n) pos (BufTextLen d - pos));
  buf ← write buf pos new_text;
  buf ← set buf (BufTextLen d + n) 0;
  let c := if pos <=? CursorPos d then CursorPos d + n else CursorPos d in
  Ok (mkData buf (BufTextLen d + n) (if full then size else BufSize d) true c c c (may_resize d)).

(** A state that has just been constructed: all its bytes are zero. *)
Definition zero_state : ImGuiInputTextState :=
  mkInput (mkText 0 0 [] 0 false)
    (mkStb 0 0 0 false false false f0 (mkUndo (replicate 99 (mkRec 0 0 0 0)) (replicate 999 0) 0 0 0 0)).
