(* ===== verification/TextHistory.v ===== *)
(** The history of the text field of [TextEdit]: the two arrays of records and characters are
    a timeline of changes.

    [holds] relates the vector to a text, [hist] the arrays to the changes that can be undone
    and redone; a document ([doc]) is a text with both, and [stores] says that the memory has a document.
    Each routine of the history and each movement of the cursor has a lemma about these; the
    commands of the user are in [TextField]. *)
From Stdlib Require Import Floats.SpecFloat.
From S2P Require Import Prelude Text Float ImText TextEdit.
Local Open Scope Z_scope.
Local Open Scope list_scope.

Abbreviation len l := (Z.of_nat (length l)).

(** ** Memory *)

Lemma slice_app {A} (a s b : list A) : slice (a ++ s ++ b) (len a) (len s) = Ok s.
Proof.
  unfold slice. rewrite !length_app. rewrite (proj2 (Z.leb_le 0 (len a))), (proj2 (Z.leb_le 0 (len s))), (proj2 (Z.leb_le _ _)) by lia.
  cbn [andb]. rewrite !Nat2Z.id, drop_app_length, take_app_length. done.
Qed.

Lemma slice_ok {A} (l a s b : list A) i n : l = a ++ s ++ b → i = len a → n = len s → slice l i n = Ok s.
Proof. intros -> -> ->. apply slice_app. Qed.

Lemma write_ok {A} (l a s s' b : list A) i : l = a ++ s ++ b → i = len a → length s' = length s →
  write l i s' = Ok (a ++ s' ++ b).
Proof.
  intros -> -> Hs. unfold write. rewrite !length_app. rewrite (proj2 (Z.leb_le 0 (len a))), (proj2 (Z.leb_le _ _)) by lia.
  cbn [andb]. rewrite Nat2Z.id, take_app_length. do 3 f_equal.
  rewrite <- drop_drop, drop_app_length, Hs, drop_app_length. done.
Qed.

Lemma set_ok {A} (l a b : list A) x x' i : l = a ++ x :: b → i = len a → set l i x' = Ok (a ++ x' :: b).
Proof.
  intros -> ->. unfold set. rewrite !length_app. cbn [length]. rewrite (proj2 (Z.leb_le 0 (len a))), (proj2 (Z.ltb_lt _ _)) by lia.
  cbn [andb]. rewrite Nat2Z.id, insert_app_r_alt, Nat.sub_diag by lia. done.
Qed.

Lemma get_ok {A} (l a b : list A) x i : l = a ++ x :: b → i = len a → get l i = Ok x.
Proof.
  intros -> ->. unfold get. rewrite (proj2 (Z.ltb_ge _ _)) by lia. rewrite Nat2Z.id, list_lookup_middle by done. done.
Qed.

Lemma memmove_ok {A} (l a s b a' s' b' : list A) dst src n :
  l = a ++ s ++ b → src = len a → n = len s → l = a' ++ s' ++ b' → dst = len a' → length s = length s' →
  memmove l dst src n = Ok (a' ++ s ++ b').
Proof.
  intros E1 -> -> E2 -> Hs. unfold memmove. rewrite (slice_ok l a s b) by done. cbn [mbind outcome_bind].
  by apply (write_ok l a' s' s b').
Qed.

(** ** The text *)

Definition char16 (c : Z) : Prop := 0 < c < 65536.
Abbreviation bytes := ImTextCountUtf8BytesFromStr.

(** The vector has the text, and a zero after it. *)
Record holds (str : InputText) (t : list Z) : Prop := {
  holds_len : CurLenW str = len t;
  holds_bytes : CurLenA str = bytes t;
  holds_mem : ∃ rest, TextW str = t ++ 0 :: rest;
  holds_chars : Forall char16 t }.

(** A text that the user's buffer and the vector can have. *)
Definition fits (str : InputText) (t : list Z) : Prop :=
  is_resizable str = true ∨ bytes t + 1 ≤ BufCapacityA str ∧ len t + 1 ≤ len (TextW str).
#[global] Instance fits_dec str t : Decision (fits str t).
Proof. unfold fits. apply _. Defined.

(** What editing does not change. *)
Definition same_box (str str' : InputText) : Prop :=
  BufCapacityA str' = BufCapacityA str ∧ is_resizable str' = is_resizable str ∧
  (is_resizable str = false → length (TextW str') = length (TextW str)).

Lemma same_box_refl str : same_box str str.
Proof. done. Qed.

Lemma same_box_trans s1 s2 s3 : same_box s1 s2 → same_box s2 s3 → same_box s1 s3.
Proof. unfold same_box. intros (-> & E & H1) (-> & -> & H2). split; [done|]. split; [done|]. intros. rewrite H2, H1; congruence. Qed.

Lemma fits_same str str' t : same_box str str' → fits str' t ↔ fits str t.
Proof.
  intros (E1 & E2 & E3). unfold fits. rewrite E1, E2. destruct (is_resizable str); [tauto|]. by rewrite E3.
Qed.

Lemma bytes_app t1 t2 : Forall char16 t1 → bytes (t1 ++ t2) = bytes t1 + bytes t2.
Proof.
  induction 1 as [|c t Hc Ht IH]; [done|]. cbn [app ImTextCountUtf8BytesFromStr].
  rewrite (proj2 (Z.eqb_neq c 0)) by (unfold char16 in Hc; lia). lia.
Qed.

Lemma until_zero_ok t rest : Forall char16 t → until_zero (t ++ 0 :: rest) = Ok t.
Proof.
  induction 1 as [|c t Hc Ht IH]; [done|]. cbn [app until_zero]. rewrite (proj2 (Z.eqb_neq c 0)) by (unfold char16 in Hc; lia).
  by rewrite IH.
Qed.

Lemma deletechars_spec str a s b : holds str (a ++ s ++ b) →
  ∃ str', STB_TEXTEDIT_DELETECHARS str (len a) (len s) = Ok str' ∧ holds str' (a ++ b) ∧ same_box str str'.
Proof.
  intros [Hlen Hbytes [rest Hmem] Hchars]. rewrite !Forall_app in Hchars. destruct Hchars as (Ha & Hs & Hb).
  unfold STB_TEXTEDIT_DELETECHARS. rewrite Hmem, <- !app_assoc. rewrite slice_app. cbn [mbind outcome_bind].
  rewrite (slice_ok _ (a ++ s) (b ++ 0 :: rest) []); [|by rewrite app_nil_r, <- app_assoc|rewrite length_app; lia|rewrite !length_app; lia].
  cbn [mbind outcome_bind]. rewrite until_zero_ok by done. cbn [mbind outcome_bind].
  rewrite (write_ok _ a (take (length b + 1) (s ++ b ++ 0 :: rest)) (b ++ [0]) (drop (length b + 1) (s ++ b ++ 0 :: rest)));
    [|by rewrite take_drop|done|rewrite length_take, !length_app; cbn; lia].
  cbn [mbind outcome_bind]. eexists. split; [done|]. split; [split; cbn [CurLenW CurLenA TextW]|].
  - rewrite Hlen, !length_app. lia.
  - rewrite Hbytes, !bytes_app by done. lia.
  - eexists. rewrite <- !app_assoc. done.
  - by apply Forall_app.
  - split; [done|]. split; [done|]. intros _. cbn [TextW]. rewrite Hmem, !length_app, length_drop, !length_app. cbn [length]. lia.
Qed.

(** The three writes of an insertion. *)
Lemma insert_writes (a s b m tail : list Z) : m = a ++ b ++ tail → (length s < length tail)%nat →
  ∃ rest, length rest = (length tail - length s - 1)%nat ∧
    (m1 ← (if len a =? len a + len b then Ok m else memmove m (len a + len s) (len a) (len b));
     m2 ← write m1 (len a) s;
     set m2 (len a + len b + len s) 0) = Ok (a ++ s ++ b ++ 0 :: rest).
Proof.
  intros Hm Hs. set (gap := take (length s) (b ++ tail)). set (z := drop (length b + length s) (b ++ tail)).
  assert (length gap = length s) as Hgap by (unfold gap; rewrite length_take, length_app; lia).
  assert (length z = (length tail - length s)%nat) as Hz by (unfold z; rewrite length_drop, length_app; lia).
  assert ((if len a =? len a + len b then Ok m else memmove m (len a + len s) (len a) (len b)) = Ok (a ++ gap ++ b ++ z)) as ->.
  { destruct (Z.eqb_spec (len a) (len a + len b)) as [Eb|_].
    - destruct b as [|? b]; [|cbn in Eb; lia]. rewrite Hm. unfold gap, z. cbn [app length Nat.add]. by rewrite take_drop.
    - rewrite (memmove_ok m a b tail (a ++ gap) (take (length b) (drop (length s) (b ++ tail))) z); try done.
      + by rewrite <- app_assoc.
      + rewrite Hm, <- app_assoc. f_equal. unfold gap, z. rewrite <- (take_drop (length s) (b ++ tail)) at 1. f_equal.
        rewrite <- (take_drop (length b) (drop (length s) (b ++ tail))) at 1. by rewrite drop_drop, Nat.add_comm.
      + rewrite length_app. lia.
      + rewrite length_take, length_drop, length_app. lia. }
  cbn [mbind outcome_bind]. rewrite (write_ok _ a gap s (b ++ z)) by done. cbn [mbind outcome_bind].
  destruct z as [|z0 rest]; [cbn in Hz; lia|]. exists rest. split; [cbn in Hz; lia|].
  rewrite (set_ok _ (a ++ s ++ b) rest z0 0); [by rewrite <- !app_assoc|by rewrite <- !app_assoc|rewrite !length_app; lia].
Qed.

Section junk.
Context (junk : nat → Z).

Lemma resize_grows l n : (length l ≤ Z.to_nat n)%nat → ∃ more, vector_resize junk l n = l ++ more ∧ length (l ++ more) = Z.to_nat n.
Proof.
  intros Hn. unfold vector_resize. exists (junk <$> seq (length l) (Z.to_nat n - length l)).
  assert (length (l ++ (junk <$> seq (length l) (Z.to_nat n - length l))) = Z.to_nat n) as E
    by (rewrite length_app, length_fmap, length_seq; lia).
  split; [|done]. apply take_ge. lia.
Qed.

Lemma insertchars_spec str a s b : holds str (a ++ b) → Forall char16 s →
  if decide (fits str (a ++ s ++ b))
  then ∃ str', STB_TEXTEDIT_INSERTCHARS junk str (len a) s = Ok (true, str') ∧ holds str' (a ++ s ++ b) ∧ same_box str str'
  else STB_TEXTEDIT_INSERTCHARS junk str (len a) s = Ok (false, str).
Proof.
  intros [Hlen Hbytes [rest Hmem] Hchars] Hs. rewrite !Forall_app in Hchars. destruct Hchars as (Ha & Hb).
  assert (fits str (a ++ s ++ b) ↔ is_resizable str = true ∨ bytes a + bytes s + bytes b + 1 ≤ BufCapacityA str ∧
    len s + 1 ≤ len (0 :: rest)) as Hfits.
  { unfold fits. rewrite Hmem, !bytes_app, !length_app by done. rewrite !Nat2Z.inj_add. split; (intros [?|?]; [by left|right; lia]). }
  unfold STB_TEXTEDIT_INSERTCHARS. rewrite Hlen, Hbytes, Hmem, !length_app. cbn [length] in *.
  rewrite (proj2 (Z.leb_le (len a) _)) by lia. cbn [im_assert mbind outcome_bind]. rewrite !bytes_app by done.
  assert (∀ m tail, m = a ++ b ++ tail → (length s < length tail)%nat → ∃ str',
    (text ← (if len a =? Z.of_nat (length a + length b) then Ok m else memmove m (len a + len s) (len a) (Z.of_nat (length a + length b) - len a));
     text ← write text (len a) s; text ← set text (Z.of_nat (length a + length b) + len s) 0;
     Ok (true, mkText (Z.of_nat (length a + length b) + len s) (bytes a + bytes b + bytes s) text (BufCapacityA str) (is_resizable str))) = Ok (true, str') ∧
    holds str' (a ++ s ++ b) ∧ length (TextW str') = length m ∧ BufCapacityA str' = BufCapacityA str ∧ is_resizable str' = is_resizable str) as Hwrites.
  { intros m tail Hm Htail. destruct (insert_writes a s b m tail Hm Htail) as (rest' & Hrest' & E).
    rewrite Nat2Z.inj_add. replace (len a + len b - len a) with (len b) by lia.
    apply outcome_bind_ok in E as (m1 & -> & E). cbn [mbind outcome_bind].
    apply outcome_bind_ok in E as (m2 & -> & E). cbn [mbind outcome_bind]. rewrite E. cbn [mbind outcome_bind].
    eexists. split; [done|]. split; [split; cbn [CurLenW CurLenA TextW]|split].
    - rewrite !length_app. lia.
    - rewrite !bytes_app by done. lia.
    - exists rest'. by rewrite <- !app_assoc.
    - rewrite !Forall_app. done.
    - cbn [TextW]. rewrite Hm, !length_app. cbn [length]. lia.
    - done. }
  rewrite <- app_assoc. destruct (is_resizable str) eqn:Er; cbn [negb andb].
  - rewrite decide_True by (apply Hfits; by left). destruct (Z.ltb_spec (Z.of_nat (length a + length b + S (length rest))) (len s + Z.of_nat (length a + length b) + 1)) as [Hgrow|Hroom]; cbn [andb].
    + rewrite (proj2 (Z.ltb_lt _ _)) by lia. cbn [im_assert mbind outcome_bind].
      destruct (resize_grows (a ++ b ++ 0 :: rest) (Z.of_nat (length a + length b) + ImClamp (len s * 4) 32 (256 `max` len s) + 1)) as (more & -> & Hmore).
      { rewrite !length_app. cbn [length]. unfold ImClamp. repeat case_match; lia. }
      destruct (Hwrites ((a ++ b ++ 0 :: rest) ++ more) ((0 :: rest) ++ more) ltac:(by rewrite <- !app_assoc)) as (str' & -> & Hh & _ & E1 & E2).
      { rewrite !length_app in Hmore. cbn [length app] in *. rewrite length_app in *. unfold ImClamp in Hmore. repeat case_match; lia. }
      exists str'. split; [done|]. split; [done|]. split; [done|]. split; [congruence|]. intros; congruence.
    + destruct (Hwrites (a ++ b ++ 0 :: rest) (0 :: rest) eq_refl) as (str' & -> & Hh & El & E1 & E2); [cbn; lia|].
      exists str'. split; [done|]. split; [done|]. split; [done|]. split; [congruence|]. intros; congruence.
  - case_decide as Hfit; rewrite Hfits in Hfit.
    + destruct Hfit as [?|[Hfit1 Hfit2]]; [done|]. rewrite (proj2 (Z.ltb_ge (BufCapacityA str) _)) by lia.
      rewrite (proj2 (Z.ltb_ge _ _)) by lia. cbn [andb mbind outcome_bind].
      destruct (Hwrites (a ++ b ++ 0 :: rest) (0 :: rest) eq_refl) as (str' & -> & Hh & El & E1 & E2); [cbn; lia|].
      exists str'. split; [done|]. split; [done|]. split; [done|]. split; [congruence|]. intros. rewrite El, Hmem, <- app_assoc. done.
    + destruct (Z.ltb_spec (BufCapacityA str) (bytes s + (bytes a + bytes b) + 1)) as [?|Hc1]; [done|].
      destruct (Z.ltb_spec (Z.of_nat (length a + length b + S (length rest))) (len s + Z.of_nat (length a + length b) + 1)) as [?|Hc2]; [done|].
      destruct Hfit. right. lia.
Qed.
End junk.

(** ** The history *)

(** A change of the text: at a position, characters are replaced by others. *)
Record change := mkChange { c_at : nat; c_old : list Z; c_new : list Z }.

Definition old_size (cs : list change) : Z := len (cs ≫= c_old).
Definition new_size (cs : list change) : Z := len (cs ≫= c_new).

(** The records of changes, when their characters are stored from [σ] on. *)
Definition storage (σ : Z) (s : list Z) : Z := match s with [] => -1 | _ => σ end.
Definition undo_record (σ : Z) (c : change) : StbUndoRecord :=
  mkRec (Z.of_nat (c_at c)) (len (c_old c)) (len (c_new c)) (storage σ (c_old c)).
Definition redo_record (σ : Z) (c : change) : StbUndoRecord :=
  mkRec (Z.of_nat (c_at c)) (len (c_new c)) (len (c_old c)) (storage σ (c_new c)).
Fixpoint undo_records (σ : Z) (cs : list change) : list StbUndoRecord :=
  match cs with [] => [] | c :: cs => undo_record σ c :: undo_records (σ + len (c_old c)) cs end.
Fixpoint redo_records (σ : Z) (cs : list change) : list StbUndoRecord :=
  match cs with [] => [] | c :: cs => redo_record σ c :: redo_records (σ + len (c_new c)) cs end.

(** The arrays: from their starts what can be undone, oldest first, and at their ends what can be
    redone, newest last; [past] and [future] have the change that is next at their head. *)
Record hist (s : StbUndoState) (past future : list change) : Prop := {
  hist_recs : ∃ mid, undo_rec s = undo_records 0 (rev past) ++ mid ++ redo_records (redo_char_point s) future;
  hist_recs_length : length (undo_rec s) = 99%nat;
  hist_chars : ∃ mid, undo_char s = (rev past ≫= c_old) ++ mid ++ (future ≫= c_new);
  hist_chars_length : length (undo_char s) = 999%nat;
  hist_undo : undo_point s = len past;
  hist_redo : redo_point s = 99 - len future;
  hist_undo_chars : undo_char_point s = old_size (rev past);
  hist_redo_chars : redo_char_point s = 999 - new_size future }.

Lemma undo_records_length σ cs : length (undo_records σ cs) = length cs.
Proof. revert σ. induction cs as [|c cs IH]; intros σ; [done|]. cbn. by rewrite IH. Qed.

Lemma redo_records_length σ cs : length (redo_records σ cs) = length cs.
Proof. revert σ. induction cs as [|c cs IH]; intros σ; [done|]. cbn. by rewrite IH. Qed.

Lemma old_size_cons c cs : old_size (c :: cs) = len (c_old c) + old_size cs.
Proof. unfold old_size. cbn. rewrite length_app. lia. Qed.

Lemma new_size_cons c cs : new_size (c :: cs) = len (c_new c) + new_size cs.
Proof. unfold new_size. cbn. rewrite length_app. lia. Qed.

Lemma old_size_app cs cs' : old_size (cs ++ cs') = old_size cs + old_size cs'.
Proof. unfold old_size. rewrite bind_app, length_app. lia. Qed.

Lemma old_size_rev cs : old_size (rev cs) = old_size cs.
Proof.
  induction cs as [|c cs IH]; [done|]. cbn [rev]. rewrite old_size_app, IH, !old_size_cons. unfold old_size at 2. cbn. lia.
Qed.

Lemma old_size_nonneg cs : 0 ≤ old_size cs.
Proof. unfold old_size. lia. Qed.

Lemma new_size_nonneg cs : 0 ≤ new_size cs.
Proof. unfold new_size. lia. Qed.

Lemma undo_records_snoc σ cs c : undo_records σ (cs ++ [c]) = undo_records σ cs ++ [undo_record (σ + old_size cs) c].
Proof.
  revert σ. induction cs as [|d cs IH]; intros σ; cbn [app undo_records]; [by rewrite Z.add_0_r|].
  rewrite IH. cbn. do 3 f_equal. rewrite old_size_cons. f_equal. lia.
Qed.

Lemma hist_flush s past future : hist s past future → hist (stb_textedit_flush_redo s) past [].
Proof.
  intros [[m1 H1] ? [m2 H2] ? ? ? ? ?]. split; try done.
  - exists (m1 ++ redo_records (redo_char_point s) future). by rewrite app_nil_r.
  - exists (m2 ++ (future ≫= c_new)). cbn. by rewrite app_nil_r.
Qed.

(** Moving the characters moves the records. *)
Lemma shift_undo_records σ d cs : ∀ k n, 0 ≤ σ → (k + length cs ≤ n)%nat →
  imap (λ i r, if (0 <=? Z.of_nat (k + i)) && (Z.of_nat (k + i) <? Z.of_nat n) && (0 <=? char_storage r)
               then set_storage (char_storage r + d) r else r) (undo_records σ cs) = undo_records (σ + d) cs.
Proof.
  revert σ. induction cs as [|c cs IH]; intros σ k n Hσ Hn; [done|]. cbn [undo_records imap length] in *. f_equal.
  - rewrite Nat.add_0_r. rewrite (proj2 (Z.leb_le 0 _)), (proj2 (Z.ltb_lt (Z.of_nat k) _)) by lia. cbn [andb].
    unfold undo_record. cbn [char_storage]. destruct (c_old c) as [|x o]; [done|]. cbn [storage].
    rewrite (proj2 (Z.leb_le 0 σ)) by lia. done.
  - replace (σ + d + len (c_old c)) with (σ + len (c_old c) + d) by lia. rewrite <- (IH _ (S k) n) by lia.
    apply imap_ext. intros i r _. cbn. by replace (k + S i)%nat with (S (k + i)) by lia.
Qed.

Lemma imap_same {A} (f : nat → A → A) l : (∀ i x, f i x = x) → imap f l = l.
Proof.
  intros Hf. transitivity (imap (λ _ x, x) l); [by apply imap_ext|].
  apply list_eq. intros i. rewrite list_lookup_imap. by destruct (l !! i).
Qed.

Lemma shift_storage_prefix d X Y : shift_storage 0 (len X) d (X ++ Y) = shift_storage 0 (len X) d X ++ Y.
Proof.
  unfold shift_storage. rewrite imap_app. f_equal. apply imap_same. intros i r. cbn.
  by rewrite (proj2 (Z.ltb_ge (Z.of_nat (length X + i)) _)), andb_false_r by lia.
Qed.

Lemma shift_first d c cs : shift_storage 0 (len (c :: cs)) d (undo_records 0 (c :: cs)) =
  shift_storage 0 1 d [undo_record 0 c] ++ undo_records (len (c_old c) + d) cs.
Proof.
  unfold shift_storage. cbn [undo_records imap app length]. f_equal.
  rewrite Z.add_0_l. apply (shift_undo_records _ _ _ 1); cbn; lia.
Qed.

(** Moving the records [s] to the front. *)
Lemma move_front {A} (x : A) (s m : list A) : ∃ m', length m' = S (length m) ∧
  memmove (x :: s ++ m) 0 1 (len s) = Ok (s ++ m') ∧ drop 1 m' = m.
Proof.
  exists (drop (length s) (x :: s) ++ m). split; [|split].
  - rewrite length_app, length_drop. cbn [length]. lia.
  - rewrite (memmove_ok _ [x] s m [] (take (length s) (x :: s)) (drop (length s) (x :: s) ++ m)); try done.
    + cbn [app]. rewrite app_assoc, take_drop. done.
    + rewrite length_take. cbn. lia.
  - rewrite drop_app_le by (rewrite length_drop; cbn; lia). rewrite drop_drop, (drop_ge (x :: s)) by (cbn; lia). done.
Qed.

Lemma discard_undo_spec s past c future : hist s (past ++ [c]) future →
  ∃ s', stb_textedit_discard_undo s = Ok s' ∧ hist s' past future.
Proof.
  intros [[m1 H1] L1 [m2 H2] L2 Hu Hr Huc Hrc]. rewrite rev_app_distr in *. cbn [rev app] in *.
  set (P := rev past) in *. assert (length P = length past) as HP by apply length_rev. rewrite length_app in Hu. cbn [length] in Hu.
  rewrite old_size_cons in Huc. pose proof (old_size_nonneg P). cbn [undo_records] in H1. rewrite Z.add_0_l in H1.
  unfold stb_textedit_discard_undo. rewrite (proj2 (Z.ltb_lt 0 _)) by lia. 
  assert (get (undo_rec s) 0 = Ok (undo_record 0 c)) as -> by (by rewrite H1). cbn [mbind outcome_bind].
  assert (∃ s1 x m, (if 0 <=? char_storage (undo_record 0 c) then
      chars ← memmove (undo_char s) 0 (insert_length (undo_record 0 c)) (undo_char_point s - insert_length (undo_record 0 c));
      Ok (set_recs (shift_storage 0 (undo_point s) (- insert_length (undo_record 0 c)) (undo_rec s))
        (set_chars chars (set_undo (undo_point s) (undo_char_point s - insert_length (undo_record 0 c)) s)))
      else Ok s) = Ok s1 ∧
    undo_rec s1 = x :: undo_records 0 P ++ m1 ++ redo_records (redo_char_point s) future ∧
    undo_char s1 = (P ≫= c_old) ++ m ++ (future ≫= c_new) ∧ length (undo_char s1) = 999%nat ∧
    undo_point s1 = undo_point s ∧ redo_point s1 = redo_point s ∧ undo_char_point s1 = old_size P ∧ redo_char_point s1 = redo_char_point s)
    as (s1 & x & m & -> & E1 & E2 & E3 & E4 & E5 & E6 & E7).
  { assert (c_old c = [] ∨ storage 0 (c_old c) = 0) as Hcases by (destruct (c_old c); auto).
    unfold undo_record at 1. cbn [char_storage]. destruct Hcases as [Eo|Eo]; rewrite Eo; cbn [storage Z.leb Z.compare].
    - exists s, (undo_record 0 c), m2. rewrite Eo in H1, Huc. cbn in H1, H2, Huc. rewrite Eo in H2. cbn [app] in H2. split_and!; done || lia.
    - unfold undo_record at 1 2 3 4. cbn [insert_length].
      assert (undo_char s = (c_old c) ++ (P ≫= c_old) ++ m2 ++ (future ≫= c_new)) as Ec.
      { rewrite H2. cbn. by rewrite <- app_assoc. }
      set (k := undo_char_point s - len (c_old c)). assert (k = old_size P) as Hk by (unfold k; lia).
      set (l := undo_char s) in *.
      rewrite (memmove_ok l (c_old c) (P ≫= c_old) (m2 ++ (future ≫= c_new)) [] (take (length (P ≫= c_old)) l)
        (drop (length (P ≫= c_old)) l)); [|done|done|done|cbn; by rewrite take_drop|done|rewrite length_take, Ec, !length_app; lia].
      cbn [mbind outcome_bind app].
      exists (set_recs (shift_storage 0 (undo_point s) (- len (c_old c)) (undo_rec s))
        (set_chars ((P ≫= c_old) ++ drop (length (P ≫= c_old)) l) (set_undo (undo_point s) k s))).
      assert (∃ x, shift_storage 0 (undo_point s) (- len (c_old c)) (undo_rec s) =
        x :: undo_records 0 P ++ m1 ++ redo_records (redo_char_point s) future) as [x Hx].
      { rewrite H1. replace (undo_point s) with (len (undo_records 0 (c :: P))) by (rewrite undo_records_length; cbn; lia).
        change (undo_record 0 c :: undo_records (len (c_old c)) P) with (undo_records 0 (c :: P)).
        rewrite shift_storage_prefix, undo_records_length, shift_first. rewrite Z.add_opp_diag_r. cbn [shift_storage imap app]. by eexists. }
      exists x, (drop (length (P ≫= c_old)) (c_old c ++ (P ≫= c_old)) ++ m2). cbn [set_recs set_chars set_undo undo_rec undo_char undo_point redo_point undo_char_point redo_char_point].
      split; [done|]. split; [done|]. split; [|split_and!; try done].
      + f_equal. rewrite <- app_assoc. rewrite Ec at 1. rewrite app_assoc. rewrite drop_app_le by (rewrite length_app; lia). done.
      + rewrite length_app, length_drop. rewrite Ec, !length_app in L2 |- *. lia. }
  cbn [mbind outcome_bind]. rewrite E1, E4.
  destruct (move_front x (undo_records 0 P) (m1 ++ redo_records (redo_char_point s) future)) as (m' & Hm' & Emove & Hdrop).
  replace (undo_point s - 1) with (len (undo_records 0 P)) by (rewrite undo_records_length; lia).
  rewrite Emove. cbn [mbind outcome_bind]. eexists. split; [done|]. destruct m' as [|z m']; [done|]. cbn in Hdrop. rewrite drop_0 in Hdrop. subst m'.
  split; cbn [set_recs set_undo undo_rec undo_char undo_point redo_point undo_char_point redo_char_point]; try done.
  - exists (z :: m1). by rewrite E7.
  - rewrite <- L1, H1. cbn [length app]. rewrite !length_app. cbn [length]. rewrite !length_app, undo_records_length, undo_records_length. lia.
  - by exists m.
  - rewrite undo_records_length. lia.
  - congruence.
  - congruence.
Qed.

(** The newest changes whose old characters are at most [k]. *)
Fixpoint keep (k : Z) (past : list change) : list change :=
  match past with
  | [] => []
  | c :: past => if len (c_old c) <=? k then c :: keep (k - len (c_old c)) past else []
  end.

(** Adding a change to those that can be undone: at most 99 of them with at most 999 old
    characters, the oldest are forgotten. *)
Definition push (c : change) (past : list change) : list change :=
  let past := if (length past =? 99)%nat then removelast past else past in
  if 999 <? len (c_old c) then [] else c :: keep (999 - len (c_old c)) past.

Lemma keep_all k past : old_size past ≤ k → keep k past = past.
Proof.
  revert k. induction past as [|c past IH]; intros k Hk; [done|]. rewrite old_size_cons in Hk. pose proof (old_size_nonneg past).
  cbn [keep]. rewrite (proj2 (Z.leb_le _ _)) by lia. rewrite IH by lia. done.
Qed.

Lemma keep_snoc k past c : k < old_size (past ++ [c]) → 0 ≤ k → keep k (past ++ [c]) = keep k past.
Proof.
  revert k. induction past as [|d past IH]; intros k Hk Hk0; cbn [app keep].
  - rewrite old_size_app in Hk. unfold old_size in Hk. cbn in Hk. rewrite app_nil_r in Hk. by rewrite (proj2 (Z.leb_gt _ _)) by lia.
  - cbn [app] in Hk. rewrite old_size_cons in Hk. destruct (Z.leb_spec (len (c_old d)) k); [|done]. f_equal. apply IH; lia.
Qed.

Lemma keep_length k past : (length (keep k past) ≤ length past)%nat.
Proof. revert k. induction past as [|c past IH]; intros k; cbn; [done|]. case_match; cbn; [specialize (IH (k - len (c_old c)))|]; lia. Qed.

Lemma keep_size k past : 0 ≤ k → old_size (keep k past) ≤ k.
Proof.
  revert k. induction past as [|c past IH]; intros k Hk; cbn [keep]; [done|]. destruct (Z.leb_spec (len (c_old c)) k); [|done].
  rewrite old_size_cons. specialize (IH (k - len (c_old c)) ltac:(lia)). lia.
Qed.

Lemma make_room_spec n past : ∀ fuel s, hist s past [] → 0 ≤ n ≤ 999 → (length past < fuel)%nat →
  ∃ s', make_room fuel n s = Ok s' ∧ hist s' (keep (999 - n) past) [].
Proof.
  induction past as [|c past IH] using rev_ind; intros fuel s Hs Hn Hfuel; (destruct fuel as [|fuel]; [lia|]); cbn [make_room];
    pose proof (hist_undo_chars _ _ _ Hs) as Huc; rewrite old_size_rev in Huc.
  - unfold old_size in Huc. cbn in Huc. rewrite Huc, (proj2 (Z.ltb_ge _ _)) by (unfold STB_TEXTEDIT_UNDOCHARCOUNT; lia). by exists s.
  - rewrite Huc. unfold STB_TEXTEDIT_UNDOCHARCOUNT. destruct (Z.ltb_spec 999 (old_size (past ++ [c]) + n)).
    + destruct (discard_undo_spec s past c [] Hs) as (s' & -> & Hs'). cbn [mbind outcome_bind].
      rewrite keep_snoc by lia. apply IH; [done|done|rewrite length_app in Hfuel; cbn in Hfuel; lia].
    + rewrite keep_all by lia. by exists s.
Qed.

Lemma hist_length s past future : hist s past future → (length past + length future ≤ 99)%nat.
Proof.
  intros [[m H1] L _ _ _ _ _ _]. rewrite <- L, H1, !length_app, undo_records_length, redo_records_length, length_rev. lia.
Qed.

(** A record is made; what can be undone before it is [past']. *)
Lemma create_record_spec s past future n : hist s past future → 0 ≤ n →
  let past0 := if (length past =? 99)%nat then removelast past else past in
  ∃ i s', stb_text_create_undo_record s n = Ok (i, s') ∧
    if 999 <? n then i = None ∧ hist s' [] []
    else ∃ s0, hist s0 (keep (999 - n) past0) [] ∧ (length past0 ≤ 98)%nat ∧ i = Some (undo_point s0) ∧
      s' = set_undo (undo_point s0 + 1) (undo_char_point s0) s0.
Proof.
  intros Hs%hist_flush Hn past0. unfold stb_text_create_undo_record. set (s1 := stb_textedit_flush_redo s) in *.
  pose proof (hist_length _ _ _ Hs) as Hlen. cbn [length] in Hlen.
  assert (∃ s2, (if undo_point s1 =? STB_TEXTEDIT_UNDOSTATECOUNT then stb_textedit_discard_undo s1 else Ok s1) = Ok s2 ∧
    hist s2 past0 [] ∧ (length past0 ≤ 98)%nat) as (s2 & -> & Hs2 & Hlen0).
  { rewrite (hist_undo _ _ _ Hs). unfold STB_TEXTEDIT_UNDOSTATECOUNT, past0. destruct (Nat.eqb_spec (length past) 99) as [E|E].
    - rewrite (proj2 (Z.eqb_eq _ _)) by lia. destruct (exists_last (l := past)) as (p & c & ->); [by intros ->|].
      rewrite removelast_last. rewrite length_app in E. cbn in E.
      destruct (discard_undo_spec _ _ _ _ Hs) as (s2 & -> & Hs2). exists s2. split; [done|]. split; [done|lia].
    - rewrite (proj2 (Z.eqb_neq _ _)) by lia. exists s1. split; [done|]. split; [done|lia]. }
  cbn [mbind outcome_bind]. unfold STB_TEXTEDIT_UNDOCHARCOUNT. destruct (Z.ltb_spec 999 n) as [Hbig|Hsmall].
  - eexists _, _. split; [done|]. split; [done|]. destruct Hs2 as [[m1 H1] ? [m2 H2] ? ? ? ? ?].
    split; cbn [set_undo undo_rec undo_char undo_point redo_point undo_char_point redo_char_point]; try done.
    + exists (undo_rec s2). cbn. by rewrite app_nil_r.
    + exists (undo_char s2). cbn. by rewrite app_nil_r.
  - destruct (make_room_spec n past0 (S (S (Z.to_nat (undo_point s2)))) s2 Hs2 ltac:(lia)) as (s0 & -> & Hs0).
    { rewrite (hist_undo _ _ _ Hs2). lia. }
    cbn [mbind outcome_bind]. eexists _, _. split; [done|]. by exists s0.
Qed.

Lemma rev_past_bind (c : change) past : rev (c :: past) ≫= c_old = (rev past ≫= c_old) ++ c_old c.
Proof. cbn [rev]. rewrite bind_app. cbn. by rewrite app_nil_r. Qed.

(** The state after the record and its characters have been stored. *)
Lemma hist_push s0 past c recs chars mid midc : hist s0 past [] → (length past ≤ 98)%nat → old_size past + len (c_old c) ≤ 999 →
  recs = undo_records 0 (rev past) ++ undo_record (undo_char_point s0) c :: mid → length recs = 99%nat →
  chars = (rev past ≫= c_old) ++ c_old c ++ midc → length chars = 999%nat →
  hist (mkUndo recs chars (undo_point s0 + 1) (redo_point s0) (undo_char_point s0 + len (c_old c)) (redo_char_point s0)) (c :: past) [].
Proof.
  intros [_ _ _ _ Hu Hr Huc Hrc] Hlen Hsize Er Lr Ec Lc.
  split; cbn [undo_rec undo_char undo_point redo_point undo_char_point redo_char_point]; try done.
  - exists mid. cbn [rev redo_records]. rewrite undo_records_snoc, app_nil_r, Er, Huc, Z.add_0_l, <- app_assoc. done.
  - exists midc. rewrite rev_past_bind, Ec, <- app_assoc. cbn. by rewrite app_nil_r.
  - rewrite Hu. cbn. lia.
  - rewrite Huc. cbn [rev]. rewrite old_size_app. unfold old_size at 3. cbn. rewrite app_nil_r. lia.
Qed.

Lemma createundo_spec s past future c : hist s past future →
  ∃ p s', stb_text_createundo s (Z.of_nat (c_at c)) (len (c_old c)) (len (c_new c)) = Ok (p, s') ∧
    if 999 <? len (c_old c) then p = None ∧ hist s' [] [] else
    match c_old c with [] => p = None ∧ hist s' (push c past) []
    | _ => ∃ σ, p = Some σ ∧ ∃ u, write (undo_char s') σ (c_old c) = Ok u ∧ hist (set_chars u s') (push c past) []
    end.
Proof.
  intros Hs. destruct (create_record_spec s past future (len (c_old c)) Hs ltac:(lia)) as (i & s' & E & H).
  unfold stb_text_createundo. rewrite E. cbn [mbind outcome_bind]. unfold push.
  destruct (Z.ltb_spec 999 (len (c_old c))) as [Hbig|Hsmall]; [destruct H as [-> H]; by eexists _, _|].
  destruct H as (s0 & Hs0 & Hlen & -> & ->). set (past' := keep _ _) in *.
  assert (length past' ≤ 98)%nat as Hlen' by (pose proof (keep_length (999 - len (c_old c)) (if (length past =? 99)%nat then removelast past else past)); unfold past'; lia).
  assert (old_size past' + len (c_old c) ≤ 999) as Hsize by (pose proof (keep_size (999 - len (c_old c)) (if (length past =? 99)%nat then removelast past else past)); unfold past'; lia).
  pose proof Hs0 as [[m1 H1] L1 [m2 H2] L2 Hu Hr Huc Hrc]. cbn [redo_records mbind list_bind] in H1, H2. rewrite app_nil_r in H1, H2.
  rewrite old_size_rev in Huc. unfold old_size in Huc, Hsize.
  destruct m1 as [|x m1]; [exfalso; rewrite H1, length_app, undo_records_length, length_rev in L1; cbn in L1; lia|].
  cbn [set_undo undo_rec undo_char undo_point undo_char_point].
  assert (∀ r, set (undo_rec s0) (undo_point s0) r = Ok (undo_records 0 (rev past') ++ r :: m1)) as Hset.
  { intros r. apply (set_ok _ _ _ x); [done|]. rewrite undo_records_length, length_rev. done. }
  rewrite !Hset. cbn [mbind outcome_bind].
  assert (∀ r, length (undo_records 0 (rev past') ++ r :: m1) = 99%nat) as Lrecs.
  { intros r. rewrite <- L1, H1, !length_app. done. }
  assert (len (rev past' ≫= c_old) = old_size past') as Hold by (rewrite <- (old_size_rev past'); done).
  destruct (Z.eqb_spec (len (c_old c)) 0) as [E0|E0].
  - assert (c_old c = []) as En by (destruct (c_old c); [done|cbn in E0; lia]). rewrite En. eexists _, _. split; [done|]. split; [done|].
    pose proof (hist_push s0 past' c (undo_records 0 (rev past') ++ undo_record (undo_char_point s0) c :: m1) (undo_char s0) m1 m2 Hs0 Hlen') as Hp.
    unfold undo_record in Hp. rewrite En in Hp. cbn [storage length app] in Hp. change (Z.of_nat 0) with 0 in Hp. rewrite !Z.add_0_r in Hp.
    apply Hp; try done. unfold old_size. lia.
  - eexists _, _. split; [done|]. destruct (c_old c) as [|o0 o] eqn:Eo; [done|]. rewrite <- Eo in *.
    exists (undo_char_point s0). split; [done|]. cbn [set_undo set_recs undo_char].
    assert (length (c_old c) ≤ length m2)%nat as Hm2.
    { rewrite H2, length_app in L2. unfold old_size in Hold. lia. }
    exists ((rev past' ≫= c_old) ++ c_old c ++ drop (length (c_old c)) m2). split.
    + apply (write_ok _ _ (take (length (c_old c)) m2)); [by rewrite take_drop|unfold old_size in Hold; lia|rewrite length_take; lia].
    + unfold set_chars. cbn [set_undo set_recs undo_rec undo_char undo_point redo_point undo_char_point redo_char_point].
      apply (hist_push s0 past' c _ _ m1 (drop (length (c_old c)) m2)); try done.
      * unfold undo_record. by rewrite Eo.
      * rewrite !length_app, length_drop. rewrite H2, length_app in L2. lia.
Qed.

(** Making the record of a change. *)
Lemma makeundo_replace_spec str st past future a old b new : holds str (a ++ old ++ b) → hist (undostate st) past future →
  let c := mkChange (length a) old new in
  ∃ u, stb_text_makeundo_replace str st (len a) (len old) (len new) = Ok (set_undostate u st) ∧ hist u (push c past) [].
Proof.
  intros Hh Hs c. destruct (createundo_spec _ _ _ c Hs) as (p & u & E & H). cbn [c_at c_old c_new c] in E.
  unfold stb_text_makeundo_replace. rewrite E. cbn [mbind outcome_bind].
  destruct (Z.ltb_spec 999 (len (c_old c))) as [Hbig|Hsmall].
  { destruct H as [-> H]. cbn [mbind outcome_bind]. exists u. split; [done|]. unfold push. by rewrite (proj2 (Z.ltb_lt _ _)). }
  cbn [c_old c] in H. destruct old as [|o0 o] eqn:Eo; [destruct H as [-> H]; by exists u|]. rewrite <- Eo in *.
  destruct H as (σ & -> & chars & Ew & H). unfold save_chars. destruct (holds_mem _ _ Hh) as [rest ->]. rewrite <- !app_assoc, slice_app.
  cbn [mbind outcome_bind]. rewrite Ew. cbn [mbind outcome_bind]. by exists (set_chars chars u).
Qed.

Lemma makeundo_insert_spec st past future (p : nat) new : hist (undostate st) past future →
  ∃ u, stb_text_makeundo_insert st (Z.of_nat p) (len new) = Ok (set_undostate u st) ∧ hist u (push (mkChange p [] new) past) [].
Proof.
  intros Hs. destruct (createundo_spec _ _ _ (mkChange p [] new) Hs) as (q & u & E & H). cbn in H. destruct H as [-> H].
  unfold stb_text_makeundo_insert. cbn [c_at c_old c_new length] in E. change (Z.of_nat 0) with 0 in E. rewrite E. by exists u.
Qed.

(** ** Undo and redo *)
Section undo_redo.
Context (junk : nat → Z).

Lemma insert_stored_spec str s a b cs x y σ : holds str (a ++ b) → Forall char16 cs → fits str (a ++ cs ++ b) →
  undo_char s = x ++ cs ++ y → σ = len x →
  ∃ str', insert_stored junk str s (len a) σ (len cs) = Ok str' ∧ holds str' (a ++ cs ++ b) ∧ same_box str str'.
Proof.
  intros Hh Hc Hfit Ex ->. unfold insert_stored. rewrite Ex, slice_app. cbn [mbind outcome_bind].
  pose proof (insertchars_spec junk str a cs b Hh Hc) as Hi. rewrite decide_True in Hi by done.
  destruct Hi as (str' & -> & H1 & H2). by exists str'.
Qed.

Lemma redo_room_enough fuel n s : undo_char_point s + n ≤ redo_char_point s → redo_room (S fuel) n s = Ok (true, s).
Proof. intros H. cbn [redo_room]. by rewrite (proj2 (Z.ltb_ge _ _)) by lia. Qed.

(** The first part of undo: the record is moved to the redo records, its new characters are
    saved and removed from the text. *)
Lemma undo_first str s past future c a b :
  hist s (c :: past) future → length a = c_at c → holds str (a ++ c_new c ++ b) →
  old_size (c :: past) + len (c_new c) + new_size future ≤ 998 →
  ∃ str' s1, (recs ← set (undo_rec s) (redo_point s - 1) (mkRec (Z.of_nat (c_at c)) (len (c_new c)) (len (c_old c)) (-1));
     if len (c_new c) =? 0 then Ok (true, str, set_recs recs s)
     else undo_deletes str (undo_record (old_size (rev past)) c) (set_recs recs s)) = Ok (true, str', s1) ∧
    holds str' (a ++ b) ∧ same_box str str' ∧ undo_point s1 = undo_point s ∧ redo_point s1 = redo_point s ∧
    undo_char_point s1 = undo_char_point s ∧ redo_char_point s1 = 999 - new_size (c :: future) ∧
    (∃ mid, undo_rec s1 = undo_records 0 (rev past) ++ mid ++ redo_records (redo_char_point s1) (c :: future)) ∧ length (undo_rec s1) = 99%nat ∧
    (∃ mid, undo_char s1 = (rev past ≫= c_old) ++ c_old c ++ mid ++ ((c :: future) ≫= c_new)) ∧ length (undo_char s1) = 999%nat.
Proof.
  intros [[m1 H1] L1 [m2 H2] L2 Hu Hr Huc Hrc] Ha Hh Hsize. rewrite rev_past_bind, <- app_assoc in H2. cbn [rev] in H1, Huc.
  rewrite undo_records_snoc, <- app_assoc in H1. cbn [app] in H1. rewrite old_size_app in Huc. unfold old_size at 2 in Huc. cbn in Huc. rewrite app_nil_r, old_size_rev in Huc.
  rewrite old_size_cons in Hsize. pose proof (old_size_nonneg past). pose proof (new_size_nonneg future).
  (* the records: the last free one, or that of the change itself, becomes the redo record *)
  assert (∃ X x, undo_rec s = X ++ x :: redo_records (redo_char_point s) future ∧ (length past ≤ length X)%nat ∧
    ∃ mid, X = undo_records 0 (rev past) ++ mid) as (X & x & EX & HX & mid & Emid).
  { destruct (exists_last (l := undo_record (0 + old_size (rev past)) c :: m1)) as (mid & x & Em); [done|].
    exists (undo_records 0 (rev past) ++ mid), x. rewrite H1, <- app_assoc. split; [|split; [rewrite length_app, undo_records_length, length_rev; lia|by eexists]].
    f_equal. change (undo_record (0 + old_size (rev past)) c :: m1 ++ redo_records (redo_char_point s) future)
      with ((undo_record (0 + old_size (rev past)) c :: m1) ++ redo_records (redo_char_point s) future). by rewrite Em, <- app_assoc. }
  assert (redo_point s - 1 = len X) as Hrp.
  { rewrite EX, length_app in L1. cbn [length] in L1. rewrite redo_records_length in L1. lia. }
  assert (∀ l r r', l = X ++ r :: redo_records (redo_char_point s) future →
    set l (redo_point s - 1) r' = Ok (X ++ r' :: redo_records (redo_char_point s) future)) as Hset by (intros; by eapply set_ok).
  rewrite (Hset _ x) by done. cbn [mbind outcome_bind].
  assert (∀ r, length (X ++ r :: redo_records (redo_char_point s) future) = 99%nat) as LX by (intros; rewrite <- L1, EX, !length_app; done).
  destruct (Z.eqb_spec (len (c_new c)) 0) as [E0|E0].
  { assert (c_new c = []) as En by (destruct (c_new c); [done|cbn in E0; lia]). rewrite En in *.
    exists str, (set_recs (X ++ mkRec (Z.of_nat (c_at c)) 0 (len (c_old c)) (-1) :: redo_records (redo_char_point s) future) s).
    cbn [set_recs undo_rec undo_char undo_point redo_point undo_char_point redo_char_point]. split; [done|].
    split; [done|]. split_and!; try done.
    - rewrite new_size_cons, En. cbn. lia.
    - exists mid. rewrite Emid, <- app_assoc. cbn [redo_records]. unfold redo_record. rewrite En. cbn [length storage]. by rewrite Z.add_0_r.
    - exists m2. rewrite H2. cbn [mbind list_bind]. by rewrite En. }
  unfold undo_deletes. cbn [undo_record where_ insert_length delete_length char_storage].
  cbn [set_recs undo_char_point]. rewrite (proj2 (Z.leb_gt _ _)) by (unfold STB_TEXTEDIT_UNDOCHARCOUNT; lia).
  rewrite redo_room_enough by (cbn [set_recs undo_char_point redo_char_point]; lia). cbn [mbind outcome_bind set_recs undo_rec redo_point redo_char_point].
  rewrite (get_ok _ X (redo_records (redo_char_point s) future) (mkRec (Z.of_nat (c_at c)) (len (c_new c)) (len (c_old c)) (-1))) by done.
  cbn [mbind outcome_bind]. erewrite Hset by done. cbn [mbind outcome_bind]. unfold save_chars.
  pose proof (holds_mem _ _ Hh) as [rest Ht]. rewrite Ht, <- !app_assoc, <- Ha, slice_app. cbn [mbind outcome_bind set_redo set_recs undo_char].
  (* the characters go in front of those of the other redo records *)
  assert (length (c_new c) ≤ length m2)%nat as Hm2.
  { assert (len (rev past ≫= c_old) = old_size past) by (apply (old_size_rev past)).
    rewrite H2, !length_app in L2. unfold new_size in *. lia. }
  set (k := (length m2 - length (c_new c))%nat).
  rewrite (write_ok _ ((rev past ≫= c_old) ++ c_old c ++ take k m2) (drop k m2) (c_new c) (future ≫= c_new)).
  2: { rewrite H2, <- !app_assoc. do 2 f_equal. by rewrite app_assoc, take_drop. }
  2: { rewrite !length_app, length_take. assert (len (rev past ≫= c_old) = old_size past) as Er by (apply (old_size_rev past)).
    rewrite H2, !length_app in L2. unfold new_size in *. lia. }
  2: { rewrite length_drop. lia. }
  cbn [mbind outcome_bind]. destruct (deletechars_spec str a (c_new c) b Hh) as (str' & -> & Hh' & Hbox). cbn [mbind outcome_bind].
  eexists str', _. split; [done|]. split; [done|]. split; [done|].
  unfold set_storage. cbn [set_chars set_redo set_recs undo_rec undo_char undo_point redo_point undo_char_point redo_char_point where_ insert_length delete_length].
  split_and!; try done.
  - rewrite new_size_cons. lia.
  - exists mid. rewrite Emid, <- app_assoc. cbn [redo_records]. unfold redo_record. do 3 f_equal.
    + f_equal; [by rewrite Ha|]. by destruct (c_new c).
    + f_equal. lia.
  - exists (take k m2). cbn [mbind list_bind]. by rewrite <- !app_assoc.
  - rewrite !length_app, length_take. rewrite H2, !length_app in L2. lia.
Qed.

Lemma len_zero {A} (l : list A) : len l = 0 → l = [].
Proof. destruct l; cbn; [done|lia]. Qed.

Lemma undo_spec str st past future c a b :
  hist (undostate st) (c :: past) future → length a = c_at c → holds str (a ++ c_new c ++ b) →
  Forall char16 (c_old c) → fits str (a ++ c_old c ++ b) →
  old_size (c :: past) + len (c_new c) + new_size future ≤ 998 →
  ∃ str' u, stb_text_undo junk str st = Ok (str', set_cursor (Z.of_nat (c_at c) + len (c_old c)) (set_undostate u st)) ∧
    holds str' (a ++ c_old c ++ b) ∧ same_box str str' ∧ hist u past (c :: future).
Proof.
  intros Hs Ha Hh Hold Hfit Hsize. set (s := undostate st) in *.
  destruct (undo_first str s past future c a b Hs Ha Hh Hsize) as (str1 & s1 & E & Hh1 & Hbox1 & Eu & Er & Euc & Erc & [m1 R1] & L1 & [m2 R2] & L2).
  apply outcome_bind_ok in E as (recs & Eset & E).
  pose proof Hs as [[n1 H1] _ _ _ Hu Hr Huc Hrc]. cbn [rev] in H1, Huc. rewrite undo_records_snoc, <- app_assoc in H1. cbn [app] in H1.
  unfold stb_text_undo. fold s. rewrite (proj2 (Z.eqb_neq (undo_point s) 0)) by (rewrite Hu; cbn; lia).
  rewrite (get_ok _ _ _ _ (undo_point s - 1) H1) by (rewrite undo_records_length, length_rev, Hu; cbn; lia).
  rewrite Z.add_0_l. cbn [mbind outcome_bind undo_record where_ insert_length delete_length char_storage].
  rewrite Eset. cbn [mbind outcome_bind]. cbn zeta. fold (undo_record (old_size (rev past)) c). rewrite E. cbn [mbind outcome_bind].
  assert (undo_char_point s = old_size (rev past) + len (c_old c)) as Huc'.
  { rewrite Huc, old_size_app. unfold old_size at 2. cbn. by rewrite app_nil_r. }
  assert (∀ s2, undo_rec s2 = undo_rec s1 → undo_char s2 = undo_char s1 → redo_char_point s2 = redo_char_point s1 →
    undo_point s2 = undo_point s1 - 1 → redo_point s2 = redo_point s1 - 1 → undo_char_point s2 = old_size (rev past) →
    hist s2 past (c :: future)) as Hhist.
  { intros s2 F1 F2 F3 F4 F5 F6. split; rewrite ?F1, ?F2, ?F3, ?F4, ?F5, ?F6; try done.
    - by exists m1.
    - exists (c_old c ++ m2). by rewrite R2, <- app_assoc.
    - rewrite Eu, Hu. cbn. lia.
    - rewrite Er, Hr. cbn. lia. }
  destruct (Z.eqb_spec (len (c_old c)) 0) as [E0|E0].
  - apply len_zero in E0. rewrite E0 in *. cbn [mbind outcome_bind app length] in *.
    exists str1, (set_redo (redo_point s1 - 1) (redo_char_point s1) (set_undo (undo_point s1 - 1) (undo_char_point s1) s1)).
    split; [done|]. split; [done|]. split; [done|]. apply Hhist; try done. cbn [set_redo set_undo undo_char_point]. lia.
  - assert (storage (old_size (rev past)) (c_old c) = old_size (rev past)) as -> by (by destruct (c_old c)). rewrite <- Ha.
    destruct (insert_stored_spec str1 s1 a b (c_old c) (rev past ≫= c_old) (m2 ++ ((c :: future) ≫= c_new)) (old_size (rev past)))
      as (str2 & -> & Hh2 & Hbox2); try done.
    { by apply (fits_same str). }
    cbn [mbind outcome_bind]. eexists str2, _. split; [done|]. split; [done|]. split; [by eapply same_box_trans|].
    apply Hhist; try done. cbn [set_redo set_undo undo_char_point]. lia.
Qed.

(** The first part of redo. *)
Lemma redo_first str s past future c a b :
  hist s past (c :: future) → length a = c_at c → holds str (a ++ c_old c ++ b) →
  old_size past + len (c_old c) + new_size (c :: future) ≤ 999 →
  ∃ str' s1, (recs ← set (undo_rec s) (undo_point s) (mkRec (Z.of_nat (c_at c)) (len (c_old c)) (len (c_new c)) (-1));
     if len (c_old c) =? 0 then Ok (str, set_recs recs s)
     else redo_deletes str (redo_record (redo_char_point s) c) (set_recs recs s)) = Ok (str', s1) ∧
    holds str' (a ++ b) ∧ same_box str str' ∧ undo_point s1 = undo_point s ∧ redo_point s1 = redo_point s ∧
    undo_char_point s1 = old_size (rev (c :: past)) ∧ redo_char_point s1 = redo_char_point s ∧
    (∃ mid, undo_rec s1 = undo_records 0 (rev (c :: past)) ++ mid ++ redo_records (redo_char_point s + len (c_new c)) future) ∧ length (undo_rec s1) = 99%nat ∧
    (∃ mid, undo_char s1 = (rev (c :: past) ≫= c_old) ++ mid ++ c_new c ++ (future ≫= c_new)) ∧ length (undo_char s1) = 999%nat.
Proof.
  intros [[m1 H1] L1 [m2 H2] L2 Hu Hr Huc Hrc] Ha Hh Hsize. cbn [redo_records mbind list_bind] in H1, H2.
  assert (len (rev past ≫= c_old) = old_size past) as Hold by (apply (old_size_rev past)). rewrite old_size_rev in Huc.
  pose proof (new_size_nonneg future). rewrite new_size_cons in Hsize, Hrc.
  assert (length (c_old c) ≤ length m2)%nat as Hm2 by (rewrite H2, !length_app in L2; unfold new_size in *; lia).
  set (R := redo_records (redo_char_point s + len (c_new c)) future) in *.
  assert (∃ x mid, undo_rec s = undo_records 0 (rev past) ++ x :: mid ++ R) as (x & mid & EX).
  { rewrite H1. destruct m1 as [|x mid]; [by exists (redo_record (redo_char_point s) c), []|].
    exists x, (mid ++ [redo_record (redo_char_point s) c]). by rewrite <- !app_assoc. }
  assert (∀ l r r', l = undo_records 0 (rev past) ++ r :: mid ++ R →
    set l (undo_point s) r' = Ok (undo_records 0 (rev past) ++ r' :: mid ++ R)) as Hset.
  { intros l r r' El. eapply set_ok; [exact El|]. by rewrite undo_records_length, length_rev. }
  rewrite (Hset _ x) by done. cbn [mbind outcome_bind].
  assert (old_size (rev (c :: past)) = undo_char_point s + len (c_old c)) as Hsz by (rewrite old_size_rev, old_size_cons; lia).
  assert (∀ r, length (undo_records 0 (rev past) ++ r :: mid ++ R) = 99%nat) as LX by (intros; rewrite <- L1, EX, !length_app; done).
  assert (undo_records 0 (rev past) ++ undo_record (undo_char_point s) c :: mid ++ R = undo_records 0 (rev (c :: past)) ++ mid ++ R) as Erecs.
  { cbn [rev]. rewrite undo_records_snoc, <- app_assoc, Z.add_0_l, old_size_rev, Huc. done. }
  destruct (Z.eqb_spec (len (c_old c)) 0) as [E0|E0].
  { apply len_zero in E0. rewrite E0 in *. eexists str, _. split; [done|]. split; [done|]. split; [done|].
    cbn [set_recs undo_rec undo_char undo_point redo_point undo_char_point redo_char_point]. split_and!; try done.
    - cbn [length] in Hsz. lia.
    - exists mid. rewrite <- Erecs. unfold undo_record. by rewrite E0.
    - exists m2. rewrite rev_past_bind, E0, app_nil_r. done. }
  unfold redo_deletes. cbn [redo_record where_ insert_length delete_length set_recs undo_rec undo_point redo_char_point undo_char_point].
  rewrite (proj2 (Z.ltb_ge _ _)) by lia. erewrite Hset by done. cbn [mbind outcome_bind]. unfold save_chars.
  pose proof (holds_mem _ _ Hh) as [rest Ht]. rewrite Ht, <- !app_assoc, <- Ha, slice_app. cbn [mbind outcome_bind set_undo set_recs undo_char].
  rewrite (write_ok _ (rev past ≫= c_old) (take (length (c_old c)) m2) (c_old c) (drop (length (c_old c)) m2 ++ c_new c ++ (future ≫= c_new))).
  2: { rewrite H2. f_equal. by rewrite (app_assoc (take _ _)), take_drop. }
  2: { lia. } 2: { rewrite length_take. lia. }
  cbn [mbind outcome_bind]. destruct (deletechars_spec str a (c_old c) b Hh) as (str' & -> & Hh' & Hbox). cbn [mbind outcome_bind].
  eexists str', _. split; [done|]. split; [done|]. split; [done|].
  cbn [set_chars set_undo set_recs undo_rec undo_char undo_point redo_point undo_char_point redo_char_point]. split_and!; try done.
  - exists mid. rewrite <- Erecs. unfold undo_record. rewrite Ha. do 3 f_equal. by destruct (c_old c).
  - exists (drop (length (c_old c)) m2). by rewrite rev_past_bind, <- app_assoc.
  - rewrite !length_app, length_drop. rewrite H2, !length_app in L2. lia.
Qed.

Lemma redo_spec str st past future c a b :
  hist (undostate st) past (c :: future) → length a = c_at c → holds str (a ++ c_old c ++ b) →
  Forall char16 (c_new c) → fits str (a ++ c_new c ++ b) →
  old_size past + len (c_old c) + new_size (c :: future) ≤ 999 →
  ∃ str' u, stb_text_redo junk str st = Ok (str', set_cursor (Z.of_nat (c_at c) + len (c_new c)) (set_undostate u st)) ∧
    holds str' (a ++ c_new c ++ b) ∧ same_box str str' ∧ hist u (c :: past) future.
Proof.
  intros Hs Ha Hh Hnew Hfit Hsize. set (s := undostate st) in *.
  destruct (redo_first str s past future c a b Hs Ha Hh Hsize) as (str1 & s1 & E & Hh1 & Hbox1 & Eu & Er & Euc & Erc & [m1 R1] & L1 & [m2 R2] & L2).
  apply outcome_bind_ok in E as (recs & Eset & E).
  pose proof Hs as [[n1 H1] L0 _ _ Hu Hr Huc Hrc]. cbn [redo_records] in H1. rewrite new_size_cons in Hrc.
  unfold stb_text_redo. fold s. unfold STB_TEXTEDIT_UNDOSTATECOUNT.
  rewrite (proj2 (Z.eqb_neq (redo_point s) 99)) by (rewrite Hr; cbn; lia).
  rewrite (get_ok (undo_rec s) (undo_records 0 (rev past) ++ n1) (redo_records (redo_char_point s + len (c_new c)) future) (redo_record (redo_char_point s) c)).
  2: { by rewrite H1, <- app_assoc. }
  2: { rewrite H1, !length_app in L0. cbn [length] in L0. rewrite redo_records_length in L0. rewrite Hr, length_app. cbn [length]. lia. }
  cbn [mbind outcome_bind redo_record where_ insert_length delete_length char_storage].
  rewrite Eset. cbn [mbind outcome_bind]. cbn zeta. fold (redo_record (redo_char_point s) c). rewrite E. cbn [mbind outcome_bind].
  assert (∀ s2, undo_rec s2 = undo_rec s1 → undo_char s2 = undo_char s1 → redo_char_point s2 = redo_char_point s + len (c_new c) →
    undo_point s2 = undo_point s1 + 1 → redo_point s2 = redo_point s1 + 1 → undo_char_point s2 = undo_char_point s1 →
    hist s2 (c :: past) future) as Hhist.
  { intros s2 F1 F2 F3 F4 F5 F6. split; rewrite ?F1, ?F2, ?F3, ?F4, ?F5, ?F6; try done.
    - by exists m1.
    - exists (m2 ++ c_new c). by rewrite R2, <- app_assoc.
    - rewrite Eu, Hu. cbn. lia.
    - rewrite Er, Hr. cbn. lia.
    - lia. }
  destruct (Z.eqb_spec (len (c_new c)) 0) as [E0|E0].
  - apply len_zero in E0. rewrite E0 in *. cbn [mbind outcome_bind app length] in *.
    eexists str1, _. split; [done|]. split; [done|]. split; [done|]. apply Hhist; try done.
    cbn [set_redo set_undo redo_char_point]. rewrite Erc. lia.
  - assert (storage (redo_char_point s) (c_new c) = redo_char_point s) as -> by (by destruct (c_new c)). rewrite <- Ha.
    destruct (insert_stored_spec str1 s1 a b (c_new c) ((rev (c :: past) ≫= c_old) ++ m2) (future ≫= c_new) (redo_char_point s))
      as (str2 & -> & Hh2 & Hbox2); try done.
    { by apply (fits_same str). }
    { by rewrite <- app_assoc. }
    { rewrite R2, !length_app in L2. unfold new_size in Hrc. rewrite length_app. lia. }
    cbn [mbind outcome_bind]. eexists str2, _. split; [done|]. split; [done|]. split; [by eapply same_box_trans|].
    apply Hhist; try done. cbn [set_redo set_undo redo_char_point]. rewrite Erc. lia.
Qed.
End undo_redo.

(** ** Documents *)

(** A text with what can be undone and redone. *)
Record doc := mkDoc { d_text : list Z; d_past : list change; d_future : list change }.

Definition apply_change (c : change) (t : list Z) : list Z := take (c_at c) t ++ c_new c ++ drop (c_at c + length (c_old c)) t.
Definition revert_change (c : change) (t : list Z) : list Z := take (c_at c) t ++ c_old c ++ drop (c_at c + length (c_new c)) t.

Definition edit (c : change) (d : doc) : doc := mkDoc (apply_change c (d_text d)) (push c (d_past d)) [].

(** The old and the new text of a change. *)
Definition applies (c : change) (t t' : list Z) : Prop :=
  ∃ a b, length a = c_at c ∧ t = a ++ c_old c ++ b ∧ t' = a ++ c_new c ++ b.

Lemma applies_apply c t t' : applies c t t' → apply_change c t = t'.
Proof.
  intros (a & b & Ha & -> & ->). unfold apply_change. rewrite <- Ha, take_app_length, <- drop_drop, !drop_app_length. done.
Qed.

Lemma applies_revert c t t' : applies c t t' → revert_change c t' = t.
Proof.
  intros (a & b & Ha & -> & ->). unfold revert_change. rewrite <- Ha, take_app_length, <- drop_drop, !drop_app_length. done.
Qed.

(** The texts of the timeline are good, and its changes lead from one to the next. *)
Fixpoint back (ok : list Z → Prop) (t : list Z) (past : list change) : Prop :=
  match past with
  | [] => True
  | c :: past => let t0 := revert_change c t in applies c t0 t ∧ ok t0 ∧ back ok t0 past
  end.
Fixpoint forth (ok : list Z → Prop) (t : list Z) (future : list change) : Prop :=
  match future with
  | [] => True
  | c :: future => let t1 := apply_change c t in applies c t t1 ∧ ok t1 ∧ forth ok t1 future
  end.

Lemma back_prefix ok t past past' : back ok t (past ++ past') → back ok t past.
Proof. revert t. induction past as [|c past IH]; intros t; [done|]. cbn. intros (? & ? & ?). split_and!; auto. Qed.

Lemma keep_prefix k past : ∃ past', past = keep k past ++ past'.
Proof.
  revert k. induction past as [|c past IH]; intros k; [by exists []|]. cbn [keep]. case_match; [|by eexists].
  destruct (IH (k - len (c_old c))) as [p Hp]. exists p. cbn. by f_equal.
Qed.

Lemma push_back ok c t t' past : applies c t t' → ok t → back ok t past → back ok t' (push c past).
Proof.
  intros Ha Ht Hb. unfold push. case_match; [done|]. cbn. rewrite (applies_revert _ _ _ Ha). split; [done|]. split; [done|].
  set (past0 := if (length past =? 99)%nat then removelast past else past). assert (back ok t past0) as Hb0.
  { unfold past0. case_match; [|done]. destruct (decide (past = [])) as [-> |Hne]; [done|].
    destruct (exists_last Hne) as (p & x & ->). rewrite removelast_last. by eapply back_prefix. }
  destruct (keep_prefix (999 - len (c_old c)) past0) as [p Hp]. rewrite Hp in Hb0. by eapply back_prefix.
Qed.

Lemma back_mono (ok ok' : list Z → Prop) t past : (∀ t, ok t → ok' t) → back ok t past → back ok' t past.
Proof. intros H. revert t. induction past as [|c past IH]; intros t; [done|]. cbn. intros (? & ? & ?). auto. Qed.
Lemma forth_mono (ok ok' : list Z → Prop) t future : (∀ t, ok t → ok' t) → forth ok t future → forth ok' t future.
Proof. intros H. revert t. induction future as [|c future IH]; intros t; [done|]. cbn. intros (? & ? & ?). auto. Qed.

(** The memory has the document. *)
Definition good (str : InputText) (t : list Z) : Prop := Forall char16 t ∧ fits str t.
Record stores (str : InputText) (u : StbUndoState) (d : doc) : Prop := {
  stores_text : holds str (d_text d);
  stores_hist : hist u (d_past d) (d_future d);
  stores_fits : fits str (d_text d);
  stores_back : back (good str) (d_text d) (d_past d);
  stores_forth : forth (good str) (d_text d) (d_future d) }.

Lemma stores_edit str u d c t' str' u' : stores str u d → applies c (d_text d) t' → holds str' t' → same_box str str' →
  fits str t' → hist u' (push c (d_past d)) [] → stores str' u' (edit c d).
Proof.
  intros [Hh Hs Hf Hb _] Ha Hh' Hbox Hf' Hs'. rewrite <- (applies_apply _ _ _ Ha) in Hh', Hf'.
  split; cbn [edit d_text d_past d_future]; try done.
  - by apply (fits_same str).
  - apply (push_back _ c (d_text d)); [by rewrite (applies_apply _ _ _ Ha)|split; [apply Hh|by apply (fits_same str)]|].
    eapply back_mono; [|exact Hb]. intros t [? ?]. split; [done|by apply (fits_same str)].
Qed.

Lemma bytes_nonneg t : 0 ≤ bytes t.
Proof.
  induction t as [|c t IH]; [done|]. cbn [ImTextCountUtf8BytesFromStr]. unfold ImTextCountUtf8BytesFromChar. repeat case_match; lia.
Qed.

Lemma fits_delete str a s b : Forall char16 (a ++ s ++ b) → fits str (a ++ s ++ b) → fits str (a ++ b).
Proof.
  intros H. rewrite !Forall_app in H. destruct H as (Ha & Hs & Hb). unfold fits. rewrite !bytes_app, !length_app by done.
  pose proof (bytes_nonneg s). intros [?|?]; [by left|right; lia].
Qed.

(** Deleting [n] characters at [i]. *)
Definition delete_range (i n : nat) (d : doc) : doc := edit (mkChange i (take n (drop i (d_text d))) []) d.

Lemma split_range (t : list Z) i n : (i + n ≤ length t)%nat →
  ∃ a s b, t = a ++ s ++ b ∧ length a = i ∧ length s = n ∧ take n (drop i t) = s.
Proof.
  intros H. exists (take i t), (take n (drop i t)), (drop n (drop i t)). rewrite !take_drop. split; [done|].
  rewrite length_take, length_take, length_drop. split; [lia|]. split; [lia|done].
Qed.

Lemma delete_spec str st d i n : stores str (undostate st) d → (i + n ≤ length (d_text d))%nat →
  ∃ str' u, stb_textedit_delete str st (Z.of_nat i) (Z.of_nat n) = Ok (str', no_preferred (set_undostate u st)) ∧
    stores str' u (delete_range i n d) ∧ same_box str str'.
Proof.
  intros Hst Hin. destruct (split_range (d_text d) i n Hin) as (a & s & b & Et & Ha & Hs & Es).
  pose proof (stores_text _ _ _ Hst) as Hh. rewrite Et in Hh. rewrite <- Ha, <- Hs. unfold stb_textedit_delete, stb_text_makeundo_delete.
  destruct (makeundo_replace_spec str st _ _ a s b [] Hh (stores_hist _ _ _ Hst)) as (u & Eu & Hu). cbn [length] in Eu. change (Z.of_nat 0) with 0 in Eu.
  rewrite Eu. cbn [mbind outcome_bind]. destruct (deletechars_spec str a s b Hh) as (str' & -> & Hh' & Hbox). cbn [mbind outcome_bind].
  exists str', u. split; [done|]. split; [|done]. unfold delete_range. rewrite Ha, Hs, Es, <- Ha.
  apply (stores_edit str (undostate st) d _ (a ++ b)); try done.
  - exists a, b. cbn. by rewrite Et.
  - pose proof (stores_fits _ _ _ Hst) as Hf. rewrite Et in Hf. apply (fits_delete str a s b); [apply Hh|done].
Qed.

(** Inserting [s] at [i]. *)
Definition insertion (i : nat) (s : list Z) : change := mkChange i [] s.

Lemma insert_spec junk str st d i s : stores str (undostate st) d → (i ≤ length (d_text d))%nat → Forall char16 s →
  if decide (fits str (apply_change (insertion i s) (d_text d))) then
    ∃ str' u, STB_TEXTEDIT_INSERTCHARS junk str (Z.of_nat i) s = Ok (true, str') ∧
      stb_text_makeundo_insert st (Z.of_nat i) (len s) = Ok (set_undostate u st) ∧
      stores str' u (edit (insertion i s) d) ∧ same_box str str'
  else STB_TEXTEDIT_INSERTCHARS junk str (Z.of_nat i) s = Ok (false, str).
Proof.
  intros Hst Hi Hs. pose proof (stores_text _ _ _ Hst) as Hh.
  assert (d_text d = take i (d_text d) ++ drop i (d_text d)) as Et by (by rewrite take_drop). set (a := take i (d_text d)) in *.
  set (b := drop i (d_text d)) in *. assert (length a = i) as Ha by (unfold a; rewrite length_take; lia).
  assert (apply_change (insertion i s) (d_text d) = a ++ s ++ b) as ->.
  { unfold apply_change, insertion. cbn. by rewrite Nat.add_0_r. }
  rewrite Et in Hh. pose proof (insertchars_spec junk str a s b Hh Hs) as Hi'. rewrite <- Ha. case_decide; [|done].
  destruct Hi' as (str' & -> & Hh' & Hbox).
  destruct (makeundo_insert_spec st _ _ (length a) s (stores_hist _ _ _ Hst)) as (u & -> & Hu).
  exists str', u. split; [done|]. split; [done|]. split; [|done].
  apply (stores_edit str (undostate st) d _ (a ++ s ++ b)); try done. exists a, b. cbn. split; [done|]. by rewrite Et.
Qed.

(** ** Cursor and selection *)

(** The cursor is in the text, and so is the selection if there is one. *)
Definition place_ok (st : STB_TexteditState) (n : nat) : Prop :=
  0 ≤ cursor st ≤ Z.of_nat n ∧
  (select_start st = select_end st ∨ 0 ≤ select_start st ≤ Z.of_nat n ∧ 0 ≤ select_end st ≤ Z.of_nat n).

Lemma has_selection_spec st : has_selection st = true ↔ select_start st ≠ select_end st.
Proof. unfold has_selection. rewrite negb_true_iff, Z.eqb_neq. done. Qed.

Lemma no_selection_spec st : has_selection st = false ↔ select_start st = select_end st.
Proof. unfold has_selection. rewrite negb_false_iff, Z.eqb_eq. done. Qed.

(** The ends of the selection. *)
Definition sel_lo (st : STB_TexteditState) : nat := Z.to_nat (Z.min (select_start st) (select_end st)).
Definition sel_hi (st : STB_TexteditState) : nat := Z.to_nat (Z.max (select_start st) (select_end st)).

Lemma clamp_same str st n : CurLenW str = Z.of_nat n → place_ok st n → stb_textedit_clamp str st = st.
Proof.
  intros Hn [Hc Hs]. unfold stb_textedit_clamp. rewrite Hn. destruct (has_selection st) eqn:E.
  - apply has_selection_spec in E. destruct Hs as [?|[? ?]]; [done|].
    rewrite (proj2 (Z.ltb_ge _ (select_start st))), (proj2 (Z.ltb_ge _ (select_end st))) by lia.
    rewrite (proj2 (Z.eqb_neq _ _)) by done. by rewrite (proj2 (Z.ltb_ge _ (cursor st))) by lia.
  - by rewrite (proj2 (Z.ltb_ge _ (cursor st))) by lia.
Qed.

(** The document after the selection has been deleted. *)
Definition delete_selected (st : STB_TexteditState) (d : doc) : doc :=
  if has_selection st then delete_range (sel_lo st) (sel_hi st - sel_lo st) d else d.
(** Where the next character goes then. *)
Definition insertion_point (st : STB_TexteditState) : nat := if has_selection st then sel_lo st else Z.to_nat (cursor st).

Lemma delete_range_length i n d : (i + n ≤ length (d_text d))%nat → length (d_text (delete_range i n d)) = (length (d_text d) - n)%nat.
Proof.
  intros H. cbn. unfold apply_change. cbn. rewrite length_app, length_drop, !length_take, length_drop. lia.
Qed.

Lemma delete_selection_spec str st d : stores str (undostate st) d → place_ok st (length (d_text d)) →
  ∃ str' st', stb_textedit_delete_selection str st = Ok (str', st') ∧ stores str' (undostate st') (delete_selected st d) ∧
    same_box str str' ∧ has_selection st' = false ∧ cursor st' = Z.of_nat (insertion_point st) ∧
    (insertion_point st ≤ length (d_text (delete_selected st d)))%nat ∧ (has_selection st = false → str' = str ∧ st' = st).
Proof.
  intros Hst Hp. pose proof (stores_text _ _ _ Hst) as Hh. unfold stb_textedit_delete_selection.
  rewrite (clamp_same _ _ _ (holds_len _ _ Hh) Hp). unfold delete_selected, insertion_point. destruct Hp as [Hc Hs].
  destruct (has_selection st) eqn:E.
  2: { exists str, st. split_and!; try done; lia. }
  apply has_selection_spec in E. destruct Hs as [?|[H1 H2]]; [done|].
  assert (∀ p q, p < q → 0 ≤ p → q ≤ len (d_text d) → sel_lo st = Z.to_nat p → sel_hi st = Z.to_nat q → ∃ str' u,
    stb_textedit_delete str st p (q - p) = Ok (str', no_preferred (set_undostate u st)) ∧
    stores str' u (delete_range (sel_lo st) (sel_hi st - sel_lo st) d) ∧ same_box str str') as Hdel.
  { intros p q Hpq Hp0 Hq -> ->. destruct (delete_spec str st d (Z.to_nat p) (Z.to_nat q - Z.to_nat p) Hst ltac:(lia)) as (str' & u & E1 & E2 & E3).
    rewrite Z2Nat.id in E1 by lia. replace (Z.of_nat (Z.to_nat q - Z.to_nat p)) with (q - p) in E1 by lia. by exists str', u. }
  assert (sel_lo st ≤ length (d_text (delete_range (sel_lo st) (sel_hi st - sel_lo st) d)))%nat as Hlo.
  { rewrite delete_range_length; unfold sel_lo, sel_hi; lia. }
  destruct (Z.ltb_spec (select_start st) (select_end st)) as [Hlt|Hge].
  - destruct (Hdel (select_start st) (select_end st)) as (str' & u & -> & Hst' & Hbox); [lia|lia|lia|unfold sel_lo; lia|unfold sel_hi; lia|].
    cbn [mbind outcome_bind]. eexists str', _. split; [done|]. cbn. split_and!; try done.
    + unfold has_selection. cbn. by rewrite Z.eqb_refl.
    + unfold sel_lo. lia.
  - destruct (Hdel (select_end st) (select_start st)) as (str' & u & -> & Hst' & Hbox); [lia|lia|lia|unfold sel_lo; lia|unfold sel_hi; lia|].
    cbn [mbind outcome_bind]. eexists str', _. split; [done|]. cbn. split_and!; try done.
    + unfold has_selection. cbn. by rewrite Z.eqb_refl.
    + unfold sel_lo. lia.
Qed.

(** A movement: the history is as before and the cursor is in the text. *)
Definition moves_to (n : nat) (st st' : STB_TexteditState) : Prop :=
  (undostate st' = undostate st ∧ single_line st' = single_line st) ∧ place_ok st' n.

(** What clamping needs. *)
Definition place_nonneg (st : STB_TexteditState) : Prop :=
  0 ≤ cursor st ∧ (select_start st = select_end st ∨ 0 ≤ select_start st ∧ 0 ≤ select_end st).

Lemma place_ok_nonneg st n : place_ok st n → place_nonneg st.
Proof. unfold place_ok, place_nonneg. lia. Qed.

(** Proves a movement by cases. *)
Ltac place_cases :=
  repeat (case_match; cbn [cursor select_start select_end undostate single_line set_cursor set_selection set_preferred no_preferred] in *);
  repeat match goal with
    | H : has_selection _ = true |- _ => apply has_selection_spec in H; cbn [select_start select_end set_cursor set_selection] in H
    | H : has_selection _ = false |- _ => apply no_selection_spec in H; cbn [select_start select_end set_cursor set_selection] in H
    end;
  unfold moves_to, place_ok, place_nonneg in *;
  cbn [cursor select_start select_end undostate single_line set_cursor set_selection set_preferred no_preferred] in *; (split; [done|]); lia.

Section moves.
Context (junk : nat → Z) (fn : font) (str : InputText) (t : list Z) (Hh : holds str t).
Abbreviation n := (length t).

Lemma length_len : CurLenW str = Z.of_nat n.
Proof. apply Hh. Qed.

Lemma clamp_place st : place_nonneg st → moves_to n st (stb_textedit_clamp str st).
Proof. intros [? ?]. unfold stb_textedit_clamp. rewrite length_len. place_cases. Qed.

Lemma moves_to_trans st1 st2 st3 : moves_to n st1 st2 → moves_to n st2 st3 → moves_to n st1 st3.
Proof. intros [[E1 E2] _] [[E3 E4] ?]. split; [split; congruence|done]. Qed.

Lemma moves_to_refl st : place_ok st n → moves_to n st st.
Proof. done. Qed.

Lemma sort_place st : place_ok st n → moves_to n st (stb_textedit_sortselection st).
Proof. intros [? ?]. unfold stb_textedit_sortselection. place_cases. Qed.

(** To the start or the end of the selection. *)
Lemma at_start st : place_ok st n → has_selection st = true → moves_to n st (no_preferred (set_cursor (select_start st) (set_selection (select_start st) (select_start st) st))).
Proof. intros [? ?] ?. place_cases. Qed.

Lemma at_end st : place_ok st n → 0 ≤ select_end st ≤ Z.of_nat n → moves_to n st (no_preferred (set_cursor (select_end st) (set_selection (select_end st) (select_end st) st))).
Proof. intros [? ?] ?. place_cases. Qed.

Lemma sort_has st : has_selection (stb_textedit_sortselection st) = has_selection st.
Proof. unfold stb_textedit_sortselection, has_selection. case_match; [|done]. cbn. by rewrite Z.eqb_sym. Qed.

Lemma move_to_first_moves st : place_ok st n → moves_to n st (stb_textedit_move_to_first st).
Proof.
  intros H. unfold stb_textedit_move_to_first. destruct (has_selection st) eqn:E; [|done].
  pose proof (sort_place st H) as Hs. eapply moves_to_trans; [exact Hs|]. apply at_start; [apply Hs|by rewrite sort_has].
Qed.

Lemma move_to_last_moves st : place_ok st n → moves_to n st (stb_textedit_move_to_last str st).
Proof.
  intros H. unfold stb_textedit_move_to_last. destruct (has_selection st) eqn:E; [|done].
  pose proof (sort_place st H) as Hs. rewrite (clamp_same _ _ _ length_len (proj2 Hs)). eapply moves_to_trans; [exact Hs|].
  apply at_end; [apply Hs|]. rewrite <- sort_has in E. apply has_selection_spec in E. destruct Hs as [_ [_ [?|?]]]; [done|lia].
Qed.

Lemma prep_moves st : place_ok st n → moves_to n st (stb_textedit_prep_selection_at_cursor st).
Proof. intros [? ?]. unfold stb_textedit_prep_selection_at_cursor. place_cases. Qed.

(** After that, the selection is in the text. *)
Lemma prep_selection st : place_ok st n →
  0 ≤ select_start (stb_textedit_prep_selection_at_cursor st) ≤ Z.of_nat n ∧ 0 ≤ select_end (stb_textedit_prep_selection_at_cursor st) ≤ Z.of_nat n.
Proof.
  intros [? Hs]. unfold stb_textedit_prep_selection_at_cursor. destruct (has_selection st) eqn:E; [|cbn; lia].
  apply has_selection_spec in E. cbn. lia.
Qed.

Lemma key_left_moves st : place_ok st n → moves_to n st (key_left st).
Proof.
  intros H. unfold key_left. destruct (has_selection st) eqn:E; [by apply (move_to_first_moves st)|]. destruct H as [? ?]. place_cases.
Qed.

Lemma key_right_moves st : place_ok st n → moves_to n st (key_right str st).
Proof.
  intros H. unfold key_right. destruct (has_selection st) eqn:E.
  - pose proof (move_to_last_moves st H) as Hm. rewrite (clamp_same _ _ _ length_len (proj2 Hm)). exact Hm.
  - assert (place_nonneg (set_cursor (cursor st + 1) st)) as Hp by (destruct H; unfold place_nonneg; cbn; lia). apply (clamp_place _ Hp).
Qed.

Lemma key_left_shift_moves st : place_ok st n → moves_to n st (key_left_shift str st).
Proof.
  intros H. unfold key_left_shift. rewrite (clamp_same _ _ _ length_len H). pose proof (prep_moves st H) as Hp. pose proof (prep_selection st H).
  eapply moves_to_trans; [exact Hp|]. destruct Hp as [_ [? ?]]. place_cases.
Qed.

Lemma key_right_shift_moves st : place_ok st n → moves_to n st (key_right_shift str st).
Proof.
  intros H. unfold key_right_shift. pose proof (prep_moves st H) as Hp. pose proof (prep_selection st H) as Hs.
  set (st1 := stb_textedit_prep_selection_at_cursor st) in *. set (st2 := set_selection (select_start st1) (select_end st1 + 1) st1).
  assert (place_nonneg st2) as Hn by (destruct Hp as [_ [? ?]]; unfold place_nonneg; cbn; lia).
  pose proof (clamp_place _ Hn) as Hc. eapply moves_to_trans; [exact Hp|]. split; [apply Hc|]. destruct Hc as [_ [Hc1 Hc2]].
  assert (0 ≤ select_end (stb_textedit_clamp str st2) ≤ Z.of_nat n) as He.
  { unfold stb_textedit_clamp. rewrite length_len. assert (has_selection st2 = true ∨ select_start st1 = select_end st1 + 1) as [E|E].
    { unfold has_selection. cbn. destruct (Z.eqb_spec (select_start st1) (select_end st1 + 1)); auto. }
    - rewrite E. repeat (case_match; cbn in *); lia.
    - assert (has_selection st2 = false) as -> by (apply no_selection_spec; cbn; done). cbn. case_match; cbn; lia. }
  unfold place_ok. cbn. split; [done|]. tauto.
Qed.

Lemma key_textstart_moves st : moves_to n st (key_textstart st).
Proof. unfold key_textstart. place_cases. Qed.

Lemma key_textend_moves st : moves_to n st (key_textend str st).
Proof. pose proof length_len. unfold key_textend. place_cases. Qed.

Lemma key_textstart_shift_moves st : place_ok st n → moves_to n st (key_textstart_shift st).
Proof. intros H. unfold key_textstart_shift. pose proof (prep_selection st H). eapply moves_to_trans; [by apply prep_moves|]. place_cases. Qed.

Lemma key_textend_shift_moves st : place_ok st n → moves_to n st (key_textend_shift str st).
Proof. intros H. unfold key_textend_shift. pose proof length_len. pose proof (prep_selection st H). eapply moves_to_trans; [by apply prep_moves|]. place_cases. Qed.

(** *** Movements that look at the text *)

Lemma mem_length : (n < length (TextW str))%nat.
Proof. destruct (holds_mem _ _ Hh) as [rest ->]. rewrite length_app. cbn. lia. Qed.

Lemma get_char i : 0 ≤ i ≤ Z.of_nat n → ∃ c, get (TextW str) i = Ok c.
Proof.
  intros Hi. pose proof mem_length. unfold get. rewrite (proj2 (Z.ltb_ge i 0)) by lia.
  destruct (lookup_lt_is_Some_2 (TextW str) (Z.to_nat i) ltac:(lia)) as [c ->]. by exists c.
Qed.

Lemma boundary_ok idx : idx ≤ Z.of_nat n → ∃ b, is_word_boundary_from_right str idx = Ok b.
Proof.
  intros Hi. unfold is_word_boundary_from_right. destruct (Z.ltb_spec 0 idx); [|by eexists].
  destruct (get_char (idx - 1) ltac:(lia)) as [a ->]. cbn [mbind outcome_bind]. destruct (is_separator a); [|by eexists].
  destruct (get_char idx ltac:(lia)) as [b ->]. by eexists.
Qed.

Lemma word_left_ok fuel : ∀ idx, -1 ≤ idx ≤ Z.of_nat n → idx + 1 < Z.of_nat fuel →
  ∃ p, word_left_loop fuel str idx = Ok p ∧ -1 ≤ p ≤ idx.
Proof.
  induction fuel as [|fuel IH]; intros idx Hi Hf; [lia|]. cbn [word_left_loop]. destruct (Z.leb_spec 0 idx); [|exists idx; split; [done|lia]].
  destruct (boundary_ok idx ltac:(lia)) as [b ->]. cbn [mbind outcome_bind]. destruct b; [exists idx; split; [done|lia]|].
  destruct (IH (idx - 1) ltac:(lia) ltac:(lia)) as (p & -> & ?). exists p. split; [done|lia].
Qed.

Lemma wordleft_ok idx : 0 ≤ idx ≤ Z.of_nat n → ∃ p, STB_TEXTEDIT_MOVEWORDLEFT str idx = Ok p ∧ 0 ≤ p ≤ Z.of_nat n.
Proof.
  intros Hi. unfold STB_TEXTEDIT_MOVEWORDLEFT. destruct (word_left_ok (S (Z.to_nat idx)) (idx - 1) ltac:(lia) ltac:(lia)) as (p & -> & Hp).
  cbn [mbind outcome_bind]. eexists. split; [done|]. case_match; lia.
Qed.

Lemma word_right_ok fuel : ∀ idx, 0 ≤ idx → Z.of_nat n - idx < Z.of_nat fuel → 0 < Z.of_nat fuel →
  ∃ p, word_right_loop fuel str idx (Z.of_nat n) = Ok p ∧ 0 ≤ p.
Proof.
  induction fuel as [|fuel IH]; intros idx Hi Hf Hf0; [lia|]. cbn [word_right_loop]. destruct (Z.ltb_spec idx (Z.of_nat n)); [|by exists idx].
  destruct (boundary_ok idx ltac:(lia)) as [b ->]. cbn [mbind outcome_bind]. destruct b; [by exists idx|]. apply IH; lia.
Qed.

Lemma wordright_ok idx : 0 ≤ idx ≤ Z.of_nat n → ∃ p, STB_TEXTEDIT_MOVEWORDRIGHT str idx = Ok p ∧ 0 ≤ p ≤ Z.of_nat n.
Proof.
  intros Hi. unfold STB_TEXTEDIT_MOVEWORDRIGHT. rewrite length_len.
  destruct (word_right_ok (S (Z.to_nat (Z.of_nat n - idx))) (idx + 1) ltac:(lia) ltac:(lia) ltac:(lia)) as (p & -> & Hp).
  cbn [mbind outcome_bind]. eexists. split; [done|]. case_match; lia.
Qed.

Lemma set_cursor_moves st p : place_ok st n → 0 ≤ p ≤ Z.of_nat n → moves_to n st (set_cursor p st).
Proof. intros [? ?] ?. place_cases. Qed.

Lemma extend_moves st p : 0 ≤ p ≤ Z.of_nat n → 0 ≤ select_start st ≤ Z.of_nat n →
  moves_to n st (set_selection (select_start st) p (set_cursor p st)).
Proof. intros. place_cases. Qed.

Lemma key_wordleft_moves st : place_ok st n → ∃ st', key_wordleft str st = Ok st' ∧ moves_to n st st'.
Proof.
  intros H. unfold key_wordleft. destruct (has_selection st); [eexists; split; [done|by apply move_to_first_moves]|].
  destruct (wordleft_ok (cursor st) (proj1 H)) as (p & -> & Hp). cbn [mbind outcome_bind]. eexists. split; [done|].
  pose proof (set_cursor_moves st p H Hp) as Hm. rewrite (clamp_same _ _ _ length_len (proj2 Hm)). exact Hm.
Qed.

Lemma key_wordright_moves st : place_ok st n → ∃ st', key_wordright str st = Ok st' ∧ moves_to n st st'.
Proof.
  intros H. unfold key_wordright. destruct (has_selection st); [eexists; split; [done|by apply move_to_last_moves]|].
  destruct (wordright_ok (cursor st) (proj1 H)) as (p & -> & Hp). cbn [mbind outcome_bind]. eexists. split; [done|].
  pose proof (set_cursor_moves st p H Hp) as Hm. rewrite (clamp_same _ _ _ length_len (proj2 Hm)). exact Hm.
Qed.

(** The selection is started if there is none. *)
Lemma started st : place_ok st n →
  let st1 := if has_selection st then st else stb_textedit_prep_selection_at_cursor st in
  moves_to n st st1 ∧ 0 ≤ select_start st1 ≤ Z.of_nat n.
Proof.
  intros H st1. unfold st1. destruct (has_selection st) eqn:E.
  - split; [done|]. apply has_selection_spec in E. destruct H as [_ [?|?]]; [done|lia].
  - split; [by apply prep_moves|]. apply (prep_selection st H).
Qed.

Lemma key_wordleft_shift_moves st : place_ok st n → ∃ st', key_wordleft_shift str st = Ok st' ∧ moves_to n st st'.
Proof.
  intros H. unfold key_wordleft_shift. destruct (started st H) as [Hm Hs]. set (st1 := if has_selection st then _ else _) in *.
  destruct (wordleft_ok (cursor st1) (proj1 (proj2 Hm))) as (p & -> & Hp). cbn [mbind outcome_bind]. eexists. split; [done|].
  pose proof (extend_moves st1 p Hp Hs) as Hm2. rewrite (clamp_same _ _ _ length_len (proj2 Hm2)). by eapply moves_to_trans.
Qed.

Lemma key_wordright_shift_moves st : place_ok st n → ∃ st', key_wordright_shift str st = Ok st' ∧ moves_to n st st'.
Proof.
  intros H. unfold key_wordright_shift. destruct (started st H) as [Hm Hs]. set (st1 := if has_selection st then _ else _) in *.
  destruct (wordright_ok (cursor st1) (proj1 (proj2 Hm))) as (p & -> & Hp). cbn [mbind outcome_bind]. eexists. split; [done|].
  pose proof (extend_moves st1 p Hp Hs) as Hm2. rewrite (clamp_same _ _ _ length_len (proj2 Hm2)). by eapply moves_to_trans.
Qed.

Lemma line_start_ok fuel : ∀ p, 0 ≤ p ≤ Z.of_nat n → p < Z.of_nat fuel → ∃ q, line_start fuel str p = Ok q ∧ 0 ≤ q ≤ p.
Proof.
  induction fuel as [|fuel IH]; intros p Hp Hf; [lia|]. cbn [line_start]. destruct (Z.ltb_spec 0 p); [|exists p; split; [done|lia]].
  unfold STB_TEXTEDIT_GETCHAR. destruct (get_char (p - 1) ltac:(lia)) as [c ->]. cbn [mbind outcome_bind].
  destruct (c =? newline); [exists p; split; [done|lia]|]. destruct (IH (p - 1) ltac:(lia) ltac:(lia)) as (q & -> & ?). exists q. split; [done|lia].
Qed.

Lemma line_end_ok fuel : ∀ p, 0 ≤ p ≤ Z.of_nat n → Z.of_nat n - p < Z.of_nat fuel →
  ∃ q, line_end fuel str (Z.of_nat n) p = Ok q ∧ p ≤ q ≤ Z.of_nat n.
Proof.
  induction fuel as [|fuel IH]; intros p Hp Hf; [lia|]. cbn [line_end]. destruct (Z.ltb_spec p (Z.of_nat n)); [|exists p; split; [done|lia]].
  unfold STB_TEXTEDIT_GETCHAR. destruct (get_char p ltac:(lia)) as [c ->]. cbn [mbind outcome_bind].
  destruct (c =? newline); [exists p; split; [done|lia]|]. destruct (IH (p + 1) ltac:(lia) ltac:(lia)) as (q & -> & ?). exists q. split; [done|lia].
Qed.

Lemma to_line_start_ok st : place_ok st n → ∃ p, to_line_start str st = Ok p ∧ 0 ≤ p ≤ Z.of_nat n.
Proof.
  intros [Hc _]. unfold to_line_start. destruct (single_line st); [exists 0; split; [done|lia]|].
  destruct (line_start_ok (S (Z.to_nat (cursor st))) (cursor st) Hc ltac:(lia)) as (p & -> & ?). exists p. split; [done|lia].
Qed.

Lemma to_line_end_ok st : place_ok st n → ∃ p, to_line_end str st = Ok p ∧ 0 ≤ p ≤ Z.of_nat n.
Proof.
  intros [Hc _]. unfold to_line_end. rewrite length_len. destruct (single_line st); [exists (Z.of_nat n); split; [done|lia]|].
  destruct (line_end_ok (S (Z.to_nat (Z.of_nat n - cursor st))) (cursor st) Hc ltac:(lia)) as (p & -> & ?). exists p. split; [done|lia].
Qed.

Lemma key_linestart_moves st : place_ok st n → ∃ st', key_linestart str st = Ok st' ∧ moves_to n st st'.
Proof.
  intros H. unfold key_linestart. rewrite (clamp_same _ _ _ length_len H). pose proof (move_to_first_moves st H) as Hm.
  destruct (to_line_start_ok _ (proj2 Hm)) as (p & -> & Hp). cbn [mbind outcome_bind]. eexists. split; [done|].
  eapply moves_to_trans; [exact Hm|]. by apply (set_cursor_moves _ p (proj2 Hm)).
Qed.

Lemma key_lineend_moves st : place_ok st n → ∃ st', key_lineend str st = Ok st' ∧ moves_to n st st'.
Proof.
  intros H. unfold key_lineend. rewrite (clamp_same _ _ _ length_len H). pose proof (move_to_first_moves st H) as Hm.
  destruct (to_line_end_ok _ (proj2 Hm)) as (p & -> & Hp). cbn [mbind outcome_bind]. eexists. split; [done|].
  eapply moves_to_trans; [exact Hm|]. by apply (set_cursor_moves _ p (proj2 Hm)).
Qed.

Lemma key_linestart_shift_moves st : place_ok st n → ∃ st', key_linestart_shift str st = Ok st' ∧ moves_to n st st'.
Proof.
  intros H. unfold key_linestart_shift. rewrite (clamp_same _ _ _ length_len H). pose proof (prep_moves st H) as Hm.
  destruct (to_line_start_ok _ (proj2 Hm)) as (p & -> & Hp). cbn [mbind outcome_bind]. eexists. split; [done|].
  eapply moves_to_trans; [exact Hm|]. by apply (extend_moves _ p Hp), prep_selection.
Qed.

Lemma key_lineend_shift_moves st : place_ok st n → ∃ st', key_lineend_shift str st = Ok st' ∧ moves_to n st st'.
Proof.
  intros H. unfold key_lineend_shift. rewrite (clamp_same _ _ _ length_len H). pose proof (prep_moves st H) as Hm.
  destruct (to_line_end_ok _ (proj2 Hm)) as (p & -> & Hp). cbn [mbind outcome_bind]. eexists. split; [done|].
  eapply moves_to_trans; [exact Hm|]. by apply (extend_moves _ p Hp), prep_selection.
Qed.

(** *** Rows *)

Lemma text_size_count b cs : ∀ sx sy lw, ∃ sx' sy' lw' k, text_size_loop fn b cs sx sy lw = (sx', sy', lw', k) ∧
  0 ≤ k ≤ len cs ∧ (cs ≠ [] → 0 < k).
Proof.
  induction cs as [|c cs IH]; intros sx sy lw; cbn [text_size_loop length]; [eexists _, _, _, _; split; [done|]; split; [lia|done]|].
  destruct (c =? newline).
  - destruct b; [eexists _, _, _, _; split; [done|]; lia|].
    destruct (IH (fmax sx lw) (fadd sy (FontSize fn)) f0) as (? & ? & ? & k & -> & ? & ?). eexists _, _, _, _. split; [done|]. lia.
  - match goal with |- context [text_size_loop _ _ _ ?x ?y ?z] => destruct (IH x y z) as (? & ? & ? & k & -> & ? & ?) end.
    eexists _, _, _, _. split; [done|]. lia.
Qed.

Lemma layout_ok i : 0 ≤ i ≤ Z.of_nat n → ∃ r, STB_TEXTEDIT_LAYOUTROW fn str i = Ok r ∧ 0 ≤ num_chars r ∧ i + num_chars r ≤ Z.of_nat n ∧
  (i < Z.of_nat n → 0 < num_chars r).
Proof.
  intros Hi. unfold STB_TEXTEDIT_LAYOUTROW. destruct (holds_mem _ _ Hh) as [rest Ht].
  rewrite (slice_ok (TextW str) (take (Z.to_nat i) t) (drop (Z.to_nat i) t) (0 :: rest)).
  2: { by rewrite app_assoc, take_drop. } 2: { rewrite length_take. lia. } 2: { rewrite length_len, length_drop. lia. }
  cbn [mbind outcome_bind]. unfold InputTextCalcTextSizeW.
  destruct (text_size_count true (drop (Z.to_nat i) t) f0 f0 f0) as (? & ? & ? & k & -> & Hk & Hpos). eexists. split; [done|]. cbn.
  rewrite length_drop in Hk. split; [lia|]. split; [lia|]. intros. apply Hpos. intros E%(f_equal length). rewrite length_drop in E. cbn in E. lia.
Qed.

Lemma width_ok i k : 0 ≤ i + k ≤ Z.of_nat n → ∃ w, STB_TEXTEDIT_GETWIDTH fn str i k = Ok w.
Proof. intros H. unfold STB_TEXTEDIT_GETWIDTH. destruct (get_char _ H) as [c ->]. by eexists. Qed.

Lemma locate_row_ok y fuel : ∀ i base_y r, 0 ≤ i ≤ Z.of_nat n → (i = Z.of_nat n ∨ 0 < Z.of_nat fuel) → Z.of_nat n - i < Z.of_nat fuel →
  ∃ f, locate_row fn fuel str (Z.of_nat n) y i base_y r = Ok f ∧
    match f with
    | inl z => 0 ≤ z ≤ Z.of_nat n
    | inr (j, r') => 0 ≤ j ≤ Z.of_nat n ∧ (j < Z.of_nat n → 0 < num_chars r' ∧ j + num_chars r' ≤ Z.of_nat n)
    end.
Proof.
  induction fuel as [|fuel IH]; intros i base_y r Hi Hf0 Hf; [lia|]. cbn [locate_row]. destruct (Z.ltb_spec i (Z.of_nat n)) as [Hlt|Hge].
  2: { eexists. split; [done|]. cbn. lia. }
  destruct (layout_ok i Hi) as (r' & -> & H1 & H2 & H3). specialize (H3 Hlt). cbn [mbind outcome_bind].
  rewrite (proj2 (Z.leb_gt (num_chars r') 0)) by lia. destruct (_ && _); [eexists; split; [done|]; cbn; lia|].
  destruct (SFltb _ _); [eexists; split; [done|]; cbn; lia|]. apply IH; lia.
Qed.

Lemma locate_char_ok x i todo : ∀ k prev_x, 0 ≤ i → 0 ≤ k → i + k + Z.of_nat todo ≤ Z.of_nat n →
  ∃ o, locate_char fn todo str x i k prev_x = Ok o ∧ match o with Some z => 0 ≤ z ≤ Z.of_nat n | None => True end.
Proof.
  induction todo as [|todo IH]; intros k prev_x Hi Hk Hn; cbn [locate_char]; [by eexists|].
  destruct (width_ok i k ltac:(lia)) as [w ->]. cbn [mbind outcome_bind]. destruct (SFltb _ _).
  - eexists. split; [done|]. cbn. destruct (SFltb _ _); lia.
  - apply IH; lia.
Qed.

Lemma locate_coord_ok x y : ∃ p, stb_text_locate_coord fn str x y = Ok p ∧ 0 ≤ p ≤ Z.of_nat n.
Proof.
  unfold stb_text_locate_coord. rewrite length_len.
  destruct (locate_row_ok y (S (Z.to_nat (Z.of_nat n))) 0 f0 (mkRow f0 f0 f0 f0 f0 0) ltac:(lia) ltac:(lia) ltac:(lia)) as (f & -> & Hf).
  cbn [mbind outcome_bind]. destruct f as [z|[i r]]; [by exists z|]. destruct Hf as [Hi Hr].
  destruct (Z.leb_spec (Z.of_nat n) i); [eexists; split; [done|lia]|]. destruct (Hr ltac:(lia)) as [Hr1 Hr2].
  destruct (SFltb x (x0 r)); [eexists; split; [done|lia]|].
  assert (∃ o, (if SFltb x (x1 r) then locate_char fn (Z.to_nat (num_chars r)) str x i 0 (x0 r) else Ok None) = Ok o ∧
    match o with Some z => 0 ≤ z ≤ Z.of_nat n | None => True end) as (o & -> & Ho).
  { destruct (SFltb x (x1 r)); [apply locate_char_ok; lia|by eexists]. }
  cbn [mbind outcome_bind]. destruct o as [z|]; [by exists z|]. unfold STB_TEXTEDIT_GETCHAR.
  destruct (get_char (i + num_chars r - 1) ltac:(lia)) as [c ->]. cbn [mbind outcome_bind]. eexists. split; [done|]. destruct (c =? newline); lia.
Qed.

Lemma row_top st y : ∃ y', (if single_line st then r ← STB_TEXTEDIT_LAYOUTROW fn str 0; Ok (ymin r) else Ok y) = Ok y'.
Proof. destruct (single_line st); [|by eexists]. destruct (layout_ok 0 ltac:(lia)) as (r & -> & _). by eexists. Qed.

Lemma click_moves st x y : ∃ st', stb_textedit_click fn str st x y = Ok st' ∧ moves_to n st st'.
Proof.
  unfold stb_textedit_click. destruct (row_top st y) as [y' ->]. cbn [mbind outcome_bind].
  destruct (locate_coord_ok x y') as (p & -> & Hp). cbn [mbind outcome_bind]. eexists. split; [done|]. place_cases.
Qed.

Lemma drag_moves st x y : place_ok st n → ∃ st', stb_textedit_drag fn str st x y = Ok st' ∧ moves_to n st st'.
Proof.
  intros H. unfold stb_textedit_drag. destruct (row_top st y) as [y' ->]. cbn [mbind outcome_bind].
  destruct (locate_coord_ok x y') as (p & -> & Hp). cbn [mbind outcome_bind]. eexists. split; [done|]. destruct H as [? ?]. place_cases.
Qed.

Lemma last_row_ok fuel : ∀ i ps, 0 ≤ i ≤ Z.of_nat n → 0 ≤ ps ≤ Z.of_nat n → Z.of_nat n - i < Z.of_nat fuel →
  ∃ ps' i', last_row fn fuel str (Z.of_nat n) i ps = Ok (ps', i') ∧ 0 ≤ ps' ≤ Z.of_nat n.
Proof.
  induction fuel as [|fuel IH]; intros i ps Hi Hps Hf; [lia|]. cbn [last_row]. destruct (Z.ltb_spec i (Z.of_nat n)) as [Hlt|Hge].
  2: { eexists _, _. split; [done|lia]. }
  destruct (layout_ok i Hi) as (r & -> & H1 & H2 & H3). specialize (H3 Hlt). cbn [mbind outcome_bind]. apply IH; lia.
Qed.

Lemma row_of_ok p fuel : ∀ i ps y, 0 ≤ i ≤ p → p < Z.of_nat n → 0 ≤ ps ≤ Z.of_nat n → Z.of_nat n - i < Z.of_nat fuel →
  ∃ ps' i' y' r, row_of fn fuel str p i ps y = Ok (ps', i', y', r) ∧ 0 ≤ ps' ≤ Z.of_nat n ∧ 0 ≤ i' ≤ p ∧
    0 ≤ num_chars r ∧ i' + num_chars r ≤ Z.of_nat n.
Proof.
  induction fuel as [|fuel IH]; intros i ps y Hi Hp Hps Hf; [lia|]. cbn [row_of].
  destruct (layout_ok i ltac:(lia)) as (r & -> & H1 & H2 & H3). specialize (H3 ltac:(lia)). cbn [mbind outcome_bind].
  destruct (Z.ltb_spec p (i + num_chars r)); [eexists _, _, _, _; split; [done|]; lia|]. apply IH; lia.
Qed.

Lemma add_widths_ok first todo : ∀ i x, 0 ≤ first → 0 ≤ i → first + i + Z.of_nat todo ≤ Z.of_nat n → ∃ x', add_widths fn todo str first i x = Ok x'.
Proof.
  induction todo as [|todo IH]; intros i x Hf Hi Hn; cbn [add_widths]; [by eexists|].
  destruct (width_ok first i ltac:(lia)) as [w ->]. cbn [mbind outcome_bind]. apply IH; lia.
Qed.

(** In a text with several lines. *)
Lemma find_charpos_ok p : 0 ≤ p ≤ Z.of_nat n → ∃ f, stb_textedit_find_charpos fn str p false = Ok f ∧
  (length_ f ≠ 0 → 0 ≤ first_char f + length_ f ≤ Z.of_nat n) ∧ ∃ q, prev_first f = Some q ∧ 0 ≤ q ≤ Z.of_nat n.
Proof.
  intros Hp. unfold stb_textedit_find_charpos. rewrite length_len. destruct (Z.eqb_spec p (Z.of_nat n)) as [E|E].
  - destruct (last_row_ok (S (Z.to_nat (Z.of_nat n))) 0 0 ltac:(lia) ltac:(lia) ltac:(lia)) as (ps & i & -> & Hps).
    cbn [mbind outcome_bind]. eexists. split; [done|]. cbn. split; [lia|]. by eexists.
  - destruct (row_of_ok p (S (Z.to_nat (Z.of_nat n))) 0 0 f0 ltac:(lia) ltac:(lia) ltac:(lia) ltac:(lia)) as (ps & i & y & r & -> & Hps & Hi & Hr1 & Hr2).
    cbn [mbind outcome_bind]. destruct (add_widths_ok i (Z.to_nat (p - i)) 0 (x0 r) ltac:(lia) ltac:(lia) ltac:(lia)) as [x ->].
    cbn [mbind outcome_bind]. eexists. split; [done|]. cbn. split; [lia|]. by eexists.
Qed.

Lemma walk_row_ok start goal todo : ∀ i x cur, 0 ≤ start → 0 ≤ i → start + i + Z.of_nat todo ≤ Z.of_nat n → cur = start + i →
  ∃ p, walk_row fn todo str start i x goal cur = Ok p ∧ start ≤ p ≤ Z.of_nat n.
Proof.
  induction todo as [|todo IH]; intros i x cur Hs Hi Hn ->; cbn [walk_row]; [eexists; split; [done|lia]|].
  destruct (width_ok start i ltac:(lia)) as [dx ->]. cbn [mbind outcome_bind]. destruct (SFeqb _ _); [eexists; split; [done|lia]|].
  destruct (SFltb _ _); [eexists; split; [done|lia]|]. apply IH; lia.
Qed.

Lemma enter_row_moves st f start (sel : bool) : place_ok st n → 0 ≤ start ≤ Z.of_nat n → (sel = true → 0 ≤ select_start st ≤ Z.of_nat n) →
  ∃ st', enter_row fn str st f start sel = Ok st' ∧ moves_to n st st'.
Proof.
  intros H Hs Hsel. unfold enter_row. destruct (layout_ok start Hs) as (r & -> & H1 & H2 & _). cbn [mbind outcome_bind].
  destruct (walk_row_ok start (if has_preferred_x st then preferred_x st else find_x f) (Z.to_nat (num_chars r)) 0 (x0 r) start) as (p & -> & Hp); [lia..|].
  cbn [mbind outcome_bind]. eexists. split; [done|]. pose proof (set_cursor_moves st p H ltac:(lia)) as Hm.
  rewrite (clamp_same _ _ _ length_len (proj2 Hm)). destruct sel; [|exact Hm]. specialize (Hsel eq_refl). place_cases.
Qed.

(** How a movement to another row starts. *)
Lemma row_started (sel : bool) st first : place_ok st n → moves_to n st first →
  let st1 := if sel then stb_textedit_prep_selection_at_cursor st else if has_selection st then first else st in
  moves_to n st st1 ∧ (sel = true → 0 ≤ select_start st1 ≤ Z.of_nat n).
Proof.
  intros H Hf st1. unfold st1. destruct sel; [split; [by apply prep_moves|intros _; apply (prep_selection st H)]|].
  split; [by destruct (has_selection st)|done].
Qed.

Lemma key_down_moves sel st : place_ok st n → single_line st = false → ∃ st', key_down fn sel str st = Ok st' ∧ moves_to n st st'.
Proof.
  intros H Hl. unfold key_down. destruct (row_started sel st _ H (move_to_last_moves st H)) as [Hm Hs].
  set (st1 := if sel then _ else _) in *. rewrite (clamp_same _ _ _ length_len (proj2 Hm)). assert (single_line st1 = false) as -> by (by rewrite (proj2 (proj1 Hm))).
  destruct (find_charpos_ok (cursor st1) (proj1 (proj2 Hm))) as (f & -> & Hlen & _). cbn [mbind outcome_bind].
  destruct (Z.eqb_spec (length_ f) 0); [by exists st1|]. destruct (enter_row_moves st1 f (first_char f + length_ f) sel (proj2 Hm) ltac:(auto) Hs) as (st' & -> & Hm').
  exists st'. split; [done|]. by eapply moves_to_trans.
Qed.

Lemma key_up_moves sel st : place_ok st n → single_line st = false → ∃ st', key_up fn sel str st = Ok st' ∧ moves_to n st st'.
Proof.
  intros H Hl. unfold key_up. destruct (row_started sel st _ H (move_to_first_moves st H)) as [Hm Hs].
  set (st1 := if sel then _ else _) in *. rewrite (clamp_same _ _ _ length_len (proj2 Hm)). assert (single_line st1 = false) as -> by (by rewrite (proj2 (proj1 Hm))).
  destruct (find_charpos_ok (cursor st1) (proj1 (proj2 Hm))) as (f & -> & _ & q & Eq & Hq). cbn [mbind outcome_bind]. rewrite Eq.
  destruct (q =? first_char f); [by exists st1|]. destruct (enter_row_moves st1 f q sel (proj2 Hm) Hq Hs) as (st' & -> & Hm').
  exists st'. split; [done|]. by eapply moves_to_trans.
Qed.
End moves.
