(* ===== verification/TextField.v ===== *)
(** What the user of a text field sees: every command of [TextEdit] on a field that stores a
    document ([TextHistory]) does to the memory what [spec_step] does to the document.

    The main theorem says that whatever the user does, the field behaves as the document, as
    long as no paste is too long for the user's buffer, every clipboard that is pasted can be decoded
    within its memory (as UTF-8 texts with a zero after them can), and the characters of the history
    leave room for the undo and redo records; the runs at the end show what happens otherwise. *)
From Stdlib Require Import Floats.SpecFloat.
From S2P Require Import Prelude Text Float ImText TextEdit TextHistory.
Local Open Scope Z_scope.
Local Open Scope list_scope.

(** ** Commands *)

(** The field shows the document. *)
Record shows (str : InputText) (st : STB_TexteditState) (d : doc) : Prop := {
  shows_stores : stores str (undostate st) d;
  shows_place : place_ok st (length (d_text d)) }.

Definition ends_in (d : doc) (str : InputText) (o : outcome (InputText * STB_TexteditState)) : Prop :=
  ∃ str' st', o = Ok (str', st') ∧ shows str' st' d ∧ same_box str str'.

Lemma shows_moves str st d st' : shows str st d → moves_to (length (d_text d)) st st' → shows str st' d.
Proof. intros [Hs _] [[E _] Hp]. split; [by rewrite E|done]. Qed.

Lemma ends_moved str st d st' : shows str st d → moves_to (length (d_text d)) st st' → ends_in d str (moved str st').
Proof. intros H Hm. exists str, st'. split; [done|]. split; [by eapply shows_moves|done]. Qed.

Lemma ends_moves str st d o : shows str st d → (∃ st', o = Ok st' ∧ moves_to (length (d_text d)) st st') → ends_in d str (moves str o).
Proof. intros H (st' & -> & Hm). by eapply ends_moved. Qed.

Lemma apply_insertion_length i s t : (i ≤ length t)%nat → length (apply_change (insertion i s) t) = (length t + length s)%nat.
Proof. intros. unfold apply_change, insertion. cbn. rewrite !length_app, length_take, length_drop. lia. Qed.

(** [Delete] *)
Definition spec_delete (st : STB_TexteditState) (d : doc) : doc :=
  if has_selection st then delete_selected st d
  else if cursor st <? len (d_text d) then delete_range (Z.to_nat (cursor st)) 1 d else d.

Lemma delete_selection_shows str st d : shows str st d → ends_in (delete_selected st d) str (stb_textedit_delete_selection str st).
Proof.
  intros [Hs Hp]. destruct (delete_selection_spec str st d Hs Hp) as (str' & st' & -> & Hs' & Hbox & Hsel & Hcur & Hle & _).
  exists str', st'. split; [done|]. split; [|done]. split; [done|]. unfold place_ok. rewrite Hcur. apply no_selection_spec in Hsel. lia.
Qed.

Lemma ends_no_preferred d str o : ends_in d str o → ends_in d str ('(str, st) ← o; Ok (str, no_preferred st)).
Proof. intros (str' & st' & -> & [Hs Hp] & Hb). exists str', (no_preferred st'). split; [done|]. split; [|done]. by split. Qed.

Lemma key_delete_ends str st d : shows str st d → ends_in (spec_delete st d) str (key_delete str st).
Proof.
  intros H. unfold key_delete, spec_delete. apply ends_no_preferred. destruct (has_selection st) eqn:E; [by apply delete_selection_shows|].
  destruct H as [Hs Hp]. rewrite (holds_len _ _ (stores_text _ _ _ Hs)). destruct (Z.ltb_spec (cursor st) (len (d_text d))) as [Hlt|Hge].
  2: { exists str, st. split; [done|]. split; [by split|done]. }
  destruct Hp as [Hc _]. destruct (delete_spec str st d (Z.to_nat (cursor st)) 1 Hs ltac:(lia)) as (str' & u & Ed & Hs' & Hbox).
  rewrite Z2Nat.id in Ed by lia. change (Z.of_nat 1) with 1 in Ed. rewrite Ed. eexists str', _. split; [done|]. split; [|done]. split; [done|].
  rewrite delete_range_length by lia. apply no_selection_spec in E. unfold place_ok. cbn. split; [lia|by left].
Qed.

(** [Backspace] *)
Definition spec_backspace (st : STB_TexteditState) (d : doc) : doc :=
  if has_selection st then delete_selected st d
  else if 0 <? cursor st then delete_range (Z.to_nat (cursor st - 1)) 1 d else d.

Lemma key_backspace_ends str st d : shows str st d → ends_in (spec_backspace st d) str (key_backspace str st).
Proof.
  intros H. unfold key_backspace, spec_backspace. apply ends_no_preferred. destruct (has_selection st) eqn:E; [by apply delete_selection_shows|].
  destruct H as [Hs Hp]. rewrite (clamp_same _ _ _ (holds_len _ _ (stores_text _ _ _ Hs)) Hp). destruct (Z.ltb_spec 0 (cursor st)) as [Hlt|Hge].
  2: { exists str, st. split; [done|]. split; [by split|done]. }
  destruct Hp as [Hc _]. destruct (delete_spec str st d (Z.to_nat (cursor st - 1)) 1 Hs ltac:(lia)) as (str' & u & Ed & Hs' & Hbox).
  rewrite Z2Nat.id in Ed by lia. change (Z.of_nat 1) with 1 in Ed. rewrite Ed. cbn [mbind outcome_bind]. eexists str', _. split; [done|]. split; [|done]. split; [done|].
  rewrite delete_range_length by lia. apply no_selection_spec in E. unfold place_ok. cbn. split; [lia|by left].
Qed.

Section commands.
Context (junk : nat → Z) (fn : font).

(** After the selection has been deleted, [s] is inserted if there is room. *)
Lemma insert_after str st d s : shows str st d → has_selection st = false → Forall char16 s →
  let c := insertion (Z.to_nat (cursor st)) s in
  if decide (fits str (apply_change c (d_text d))) then
    ∃ str' st', STB_TEXTEDIT_INSERTCHARS junk str (cursor st) s = Ok (true, str') ∧
      (st' ← stb_text_makeundo_insert st (cursor st) (len s); Ok (no_preferred (set_cursor (cursor st' + len s) st'))) = Ok st' ∧
      shows str' st' (edit c d) ∧ same_box str str'
  else STB_TEXTEDIT_INSERTCHARS junk str (cursor st) s = Ok (false, str).
Proof.
  intros [Hs [Hc _]] Hsel Hch c. pose proof (insert_spec junk str st d (Z.to_nat (cursor st)) s Hs ltac:(lia) Hch) as Hi.
  rewrite Z2Nat.id in Hi by lia. fold c in Hi. case_decide; [|done]. destruct Hi as (str' & u & -> & -> & Hs' & Hbox).
  eexists str', _. split; [done|]. split; [done|]. split; [|done]. split; [done|]. apply no_selection_spec in Hsel.
  unfold c. cbn [edit d_text]. rewrite apply_insertion_length by lia. unfold place_ok. cbn. lia.
Qed.

(** A character, where [c] is not 0.  [None]: what overwrites a character does not fit. *)
Definition spec_char (c : Z) (str : InputText) (st : STB_TexteditState) (d : doc) : option doc :=
  if (c =? newline) && single_line st then Some d
  else if insert_mode st && negb (has_selection st) && (cursor st <? len (d_text d)) then
    let i := Z.to_nat (cursor st) in
    let ch := mkChange i (take 1 (drop i (d_text d))) [c] in
    if decide (fits str (apply_change ch (d_text d))) then Some (edit ch d) else None
  else
    let d1 := delete_selected st d in
    let ch := insertion (insertion_point st) [c] in
    Some (if decide (fits str (apply_change ch (d_text d1))) then edit ch d1 else d1).

Lemma overwrite_ends str st d c : shows str st d → char16 c → has_selection st = false → cursor st < len (d_text d) →
  let i := Z.to_nat (cursor st) in
  let ch := mkChange i (take 1 (drop i (d_text d))) [c] in
  fits str (apply_change ch (d_text d)) →
  ends_in (edit ch d) str
    (st ← stb_text_makeundo_replace str st (cursor st) 1 1;
     str ← STB_TEXTEDIT_DELETECHARS str (cursor st) 1;
     '(ok, str) ← STB_TEXTEDIT_INSERTCHARS junk str (cursor st) [c];
     Ok (str, if ok : bool then no_preferred (set_cursor (cursor st + 1) st) else st)).
Proof.
  intros [Hs [Hc _]] Hch Hsel Hlt i ch Hfit. unfold ch, i in *. clear ch i.
  destruct (split_range (d_text d) (Z.to_nat (cursor st)) 1 ltac:(lia)) as (a & s & b & Et & Ha & Hl & Es). rewrite Es in *.
  pose proof (stores_text _ _ _ Hs) as Hh. rewrite Et in Hh.
  assert (applies (mkChange (Z.to_nat (cursor st)) s [c]) (d_text d) (a ++ [c] ++ b)) as Happ by (exists a, b; cbn; by rewrite Et, Ha).
  rewrite (applies_apply _ _ _ Happ) in Hfit. assert (cursor st = len a) as Ec by lia. rewrite Ec.
  destruct (makeundo_replace_spec str st _ _ a s b [c] Hh (stores_hist _ _ _ Hs)) as (u & Eu & Hu). rewrite Hl in Eu. cbn [length] in Eu. change (Z.of_nat 1) with 1 in Eu.
  rewrite Eu. cbn [mbind outcome_bind set_undostate cursor]. rewrite Ec.
  destruct (deletechars_spec str a s b Hh) as (str1 & Ed & Hh1 & Hbox1). rewrite Hl in Ed. change (Z.of_nat 1) with 1 in Ed. rewrite Ed. cbn [mbind outcome_bind].
  pose proof (insertchars_spec junk str1 a [c] b Hh1 ltac:(by constructor)) as Hi. rewrite decide_True in Hi by (by apply (fits_same str)).
  destruct Hi as (str2 & -> & Hh2 & Hbox2). cbn [mbind outcome_bind].
  assert (same_box str str2) as Hbox by (by eapply same_box_trans).
  eexists str2, _. split; [done|]. split; [|done]. split.
  - rewrite Nat2Z.id. cbn [no_preferred set_preferred set_cursor set_undostate undostate]. apply (stores_edit str (undostate st) d _ (a ++ [c] ++ b)); try done. by rewrite Ha.
  - apply no_selection_spec in Hsel. cbn [edit d_text]. rewrite Nat2Z.id, Ha, (applies_apply _ _ _ Happ). rewrite !length_app. unfold place_ok. cbn. split; [lia|by left].
Qed.

Lemma key_char_ends str st d c d' : shows str st d → 0 < c < 65536 → spec_char c str st d = Some d' →
  ends_in d' str (key_char junk c str st).
Proof.
  intros H Hc. unfold spec_char, key_char, STB_TEXTEDIT_KEYTOTEXT. rewrite (proj2 (Z.leb_gt 0x200000 c)), (proj2 (Z.leb_gt c 0)) by lia.
  rewrite uwrap_small by (cbn; lia). pose proof (holds_len _ _ (stores_text _ _ _ (shows_stores _ _ _ H))) as El. rewrite El.
  destruct (_ && single_line st); [intros [= <-]; exists str, st; split; [done|]; by split|].
  destruct (insert_mode st && negb (has_selection st) && (cursor st <? len (d_text d))) eqn:Eo.
  - rewrite !andb_true_iff, negb_true_iff, Z.ltb_lt in Eo. destruct Eo as [[_ Hsel] Hlt]. case_decide as Hfit; [|done]. intros [= <-].
    by apply overwrite_ends.
  - intros [= <-]. clear Eo. destruct H as [Hs Hp].
    destruct (delete_selection_spec str st d Hs Hp) as (str1 & st1 & -> & Hs1 & Hbox1 & Hsel1 & Hcur & Hle & _). cbn [mbind outcome_bind].
    assert (shows str1 st1 (delete_selected st d)) as H1.
    { split; [done|]. unfold place_ok. apply no_selection_spec in Hsel1. lia. }
    pose proof (insert_after str1 st1 _ [c] H1 Hsel1 ltac:(by constructor)) as Hi. rewrite Hcur, Nat2Z.id in Hi. rewrite Hcur. cbn zeta in Hi.
    pose proof (fits_same str str1 (apply_change (insertion (insertion_point st) [c]) (d_text (delete_selected st d))) Hbox1) as Hiff.
    destruct (decide (fits str1 _)) as [F1|F1]; [rewrite decide_True by (by apply Hiff)|rewrite decide_False by (by rewrite <- Hiff)].
    + destruct Hi as (str2 & st2 & -> & Em & H2 & Hbox2). cbn [mbind outcome_bind length] in *. change (Z.of_nat 1) with 1 in Em.
      apply outcome_bind_ok in Em as (st3 & Em & [= <-]). rewrite Em. cbn [mbind outcome_bind].
      eexists str2, _. split; [done|]. split; [done|]. by eapply same_box_trans.
    + rewrite Hi. cbn [mbind outcome_bind]. by exists str1, st1.
Qed.

(** *** Keys *)

(** A key of the back end; [None] for a character and for the keys of undo and redo, which have
    commands of their own. *)
Definition spec_press (key : Z) (st : STB_TexteditState) (d : doc) : option doc :=
  if (key <? 0x200000) || (key =? K_UNDO) || (key =? K_REDO) then None
  else if (key =? K_DELETE) || (key =? Z.lor K_SHIFT K_DELETE) then Some (spec_delete st d)
  else if (key =? K_BACKSPACE) || (key =? Z.lor K_SHIFT K_BACKSPACE) then Some (spec_backspace st d)
  else Some d.

Lemma ends_here str st d : shows str st d → ends_in d str (Ok (str, st)).
Proof. intros H. by exists str, st. Qed.

(** The next case of the [switch] is a key that moves the cursor, by [lem]. *)
Ltac key_moves_by lem :=
  match goal with
  | H : shows ?str ?st ?d, Hd : _ = Some ?d' |- ends_in ?d' ?str (if ?k =? ?a then _ else _) =>
      destruct (Z.eqb_spec k a) as [?E|_];
      [ let X := fresh in assert (Some d = Some d') as X by (subst k; exact Hd); injection X as <-;
        first [ refine (ends_moved _ _ _ _ H _); apply lem; auto 6; fail | refine (ends_moves _ _ _ _ H _); apply lem; auto 6; fail ]
      | ]
  end.

Lemma key_case_ends str st d key d' : shows str st d → spec_press key st d = Some d' →
  (key = K_DOWN ∨ key = Z.lor K_SHIFT K_DOWN ∨ key = K_UP ∨ key = Z.lor K_SHIFT K_UP → single_line st = false) →
  ends_in d' str (key_case junk fn str st key).
Proof.
  intros H Hd Hl. pose proof (stores_text _ _ _ (shows_stores _ _ _ H)) as Hh. pose proof (shows_place _ _ _ H) as Hp.
  unfold spec_press in Hd. destruct (Z.ltb_spec key 0x200000) as [|Hge]; [done|]. unfold key_case. cbv zeta. cbn [orb] in Hd.
  destruct (Z.eqb_spec key K_UNDO); [done|]. destruct (Z.eqb_spec key K_REDO); [done|]. cbn [orb] in Hd.
  key_moves_by key_left_moves. key_moves_by key_right_moves. key_moves_by key_left_shift_moves.
  key_moves_by key_wordleft_moves. key_moves_by key_wordleft_shift_moves.
  key_moves_by key_wordright_moves. key_moves_by key_wordright_shift_moves. key_moves_by key_right_shift_moves.
  key_moves_by key_down_moves. key_moves_by key_down_moves. key_moves_by key_up_moves. key_moves_by key_up_moves.
  destruct ((key =? K_DELETE) || (key =? Z.lor K_SHIFT K_DELETE)); [injection Hd as <-; by apply key_delete_ends|].
  destruct ((key =? K_BACKSPACE) || (key =? Z.lor K_SHIFT K_BACKSPACE)); [injection Hd as <-; by apply key_backspace_ends|].
  key_moves_by key_textstart_moves. key_moves_by key_textend_moves.
  key_moves_by key_textstart_shift_moves. key_moves_by key_textend_shift_moves.
  key_moves_by key_linestart_moves. key_moves_by key_lineend_moves.
  key_moves_by key_linestart_shift_moves. key_moves_by key_lineend_shift_moves.
  injection Hd as <-. unfold key_char, STB_TEXTEDIT_KEYTOTEXT. rewrite (proj2 (Z.leb_le 0x200000 key)) by lia. by apply ends_here.
Qed.

Lemma press_ends str st d key d' : shows str st d → spec_press key st d = Some d' →
  ends_in d' str (stb_textedit_key junk fn str st key).
Proof.
  intros H Hd. unfold stb_textedit_key. cbv zeta. destruct (single_line st) eqn:Es; [|by (eapply key_case_ends; eauto)].
  assert (∀ key', spec_press key' st d = Some d' → key' <> K_DOWN → key' <> Z.lor K_SHIFT K_DOWN → key' <> K_UP → key' <> Z.lor K_SHIFT K_UP →
    ends_in d' str (key_case junk fn str st key')) as Hgo by (intros; apply (key_case_ends _ _ d); [done|done|tauto]).
  destruct (Z.eqb_spec key K_DOWN) as [-> |?]; [by apply Hgo; [exact Hd|..]|].
  destruct (Z.eqb_spec key (Z.lor K_SHIFT K_DOWN)) as [-> |?]; [by apply Hgo; [exact Hd|..]|].
  destruct (Z.eqb_spec key K_UP) as [-> |?]; [by apply Hgo; [exact Hd|..]|].
  destruct (Z.eqb_spec key (Z.lor K_SHIFT K_UP)) as [-> |?]; [by apply Hgo; [exact Hd|..]|].
  by apply Hgo.
Qed.

Lemma char_ends str st d c d' : shows str st d → char16 c → spec_char c str st d = Some d' →
  ends_in d' str (stb_textedit_key junk fn str st c).
Proof.
  intros H Hc Hd. assert (stb_textedit_key junk fn str st c = key_char junk c str st) as ->; [|by apply (key_char_ends str st d)].
  assert (∀ k, 0x200000 ≤ k → (c =? k) = false) as Hk by (intros; apply Z.eqb_neq; unfold char16 in Hc; lia).
  unfold stb_textedit_key. cbv zeta. rewrite !Hk by done. cbn [orb]. replace (if single_line st then c else c) with c by (by destruct (single_line st)).
  unfold key_case. cbv zeta. by rewrite !Hk.
Qed.

(** *** Undo and redo *)

(** [None]: the characters of the record that it makes do not fit into the array. *)
Definition spec_undo (d : doc) : option doc :=
  match d_past d with
  | [] => Some d
  | c :: past =>
      if old_size (d_past d) + len (c_new c) + new_size (d_future d) <=? 998
      then Some (mkDoc (revert_change c (d_text d)) past (c :: d_future d)) else None
  end.
Definition spec_redo (d : doc) : option doc :=
  match d_future d with
  | [] => Some d
  | c :: future =>
      if old_size (d_past d) + len (c_old c) + new_size (d_future d) <=? 999
      then Some (mkDoc (apply_change c (d_text d)) (c :: d_past d) future) else None
  end.

Lemma good_same str str' t : same_box str str' → good str t → good str' t.
Proof. intros Hb [? ?]. split; [done|by apply (fits_same str)]. Qed.

(** After an undo or a redo that leaves the cursor at [p]. *)
Lemma stores_shows str st u d p : stores str u d → 0 ≤ p ≤ len (d_text d) → shows str (set_selection p p (set_cursor p (set_undostate u st))) d.
Proof. intros Hs Hp. split; [done|]. unfold place_ok. cbn. split; [lia|by left]. Qed.

Lemma undo_ends str st d d' : stores str (undostate st) d → 0 ≤ cursor st ≤ len (d_text d) → spec_undo d = Some d' →
  ∃ str' u p, stb_text_undo junk str st = Ok (str', set_cursor p (set_undostate u st)) ∧
    stores str' u d' ∧ 0 ≤ p ≤ len (d_text d') ∧ same_box str str'.
Proof.
  intros Hs Hc. unfold spec_undo. destruct Hs as [Hh Hist Hf Hb Hfo]. destruct d as [t past future]. cbn [d_text d_past d_future] in *.
  destruct past as [|c past].
  - intros [= <-]. exists str, (undostate st), (cursor st). cbn [d_text]. split_and!; try done; [|lia..].
    unfold stb_text_undo. rewrite (hist_undo _ _ _ Hist). cbn. by destruct st.
  - destruct (Z.leb_spec (old_size (c :: past) + len (c_new c) + new_size future) 998) as [Hsz|]; [|done]. intros [= <-].
    cbn [back] in Hb. destruct Hb as (Happ & [Hch Hfit] & Hb). destruct Happ as (a & b & Ha & Et0 & Et). rewrite Et0 in *. rewrite Et in Hh.
    assert (Forall char16 (c_old c)) as Hold by (rewrite !Forall_app in Hch; tauto).
    destruct (undo_spec junk str st past future c a b Hist Ha Hh Hold Hfit Hsz) as (str' & u & E & Hh' & Hbox & Hist').
    exists str', u, (Z.of_nat (c_at c) + len (c_old c)). split; [done|]. cbn [d_text]. split; [|split; [rewrite !length_app; lia|done]].
    split; cbn [d_text d_past d_future].
    + done.
    + done.
    + by apply (fits_same str).
    + eapply back_mono; [|exact Hb]. intros; by eapply good_same.
    + assert (applies c (a ++ c_old c ++ b) t) as Happ by (by exists a, b). cbn [forth]. rewrite (applies_apply _ _ _ Happ).
      split; [done|]. split; [apply (good_same str); [done|]; split; [rewrite Et; apply Hh|by rewrite Et; rewrite Et in Hf]|].
      eapply forth_mono; [|exact Hfo]. intros; by eapply good_same.
Qed.

Lemma redo_ends str st d d' : stores str (undostate st) d → 0 ≤ cursor st ≤ len (d_text d) → spec_redo d = Some d' →
  ∃ str' u p, stb_text_redo junk str st = Ok (str', set_cursor p (set_undostate u st)) ∧
    stores str' u d' ∧ 0 ≤ p ≤ len (d_text d') ∧ same_box str str'.
Proof.
  intros Hs Hc. unfold spec_redo. destruct Hs as [Hh Hist Hf Hb Hfo]. destruct d as [t past future]. cbn [d_text d_past d_future] in *.
  destruct future as [|c future].
  - intros [= <-]. exists str, (undostate st), (cursor st). cbn [d_text]. split_and!; try done; [|lia..].
    unfold stb_text_redo. rewrite (hist_redo _ _ _ Hist). cbn. by destruct st.
  - destruct (Z.leb_spec (old_size past + len (c_old c) + new_size (c :: future)) 999) as [Hsz|]; [|done]. intros [= <-].
    cbn [forth] in Hfo. destruct Hfo as (Happ & [Hch Hfit] & Hfo). pose proof Happ as (a & b & Ha & Et & Et1). rewrite Et1 in *. rewrite Et in Hh.
    assert (Forall char16 (c_new c)) as Hnew by (rewrite !Forall_app in Hch; tauto).
    destruct (redo_spec junk str st past future c a b Hist Ha Hh Hnew Hfit Hsz) as (str' & u & E & Hh' & Hbox & Hist').
    exists str', u, (Z.of_nat (c_at c) + len (c_new c)). split; [done|]. cbn [d_text]. split; [|split; [rewrite !length_app; lia|done]].
    split; cbn [d_text d_past d_future].
    + done.
    + done.
    + by apply (fits_same str).
    + cbn [back]. rewrite (applies_revert _ _ _ Happ).
      split; [done|]. split; [apply (good_same str); [done|]; split; [rewrite Et; apply Hh|done]|].
      eapply back_mono; [|exact Hb]. intros; by eapply good_same.
    + eapply forth_mono; [|exact Hfo]. intros; by eapply good_same.
Qed.

(** *** Clipboard *)

Lemma select_all_moves str st t : holds str t → moves_to (length t) st (Stb (SelectAll (mkInput str st))).
Proof. intros Hh. pose proof (holds_len _ _ Hh). unfold SelectAll. cbn [text Stb]. place_cases. Qed.

(** Without a selection, everything is cut. *)
Definition cut_selection (str : InputText) (st : STB_TexteditState) : STB_TexteditState :=
  if has_selection st then st else Stb (SelectAll (mkInput str st)).

Lemma cut_ends str st d : shows str st d → ∃ clipboard str' st', input_cut true (mkInput str st) = Ok (clipboard, mkInput str' st') ∧
  shows str' st' (delete_selected (cut_selection str st) d) ∧ same_box str str'.
Proof.
  intros H. pose proof (stores_text _ _ _ (shows_stores _ _ _ H)) as Hh. pose proof (holds_len _ _ Hh) as El. destruct (holds_mem _ _ Hh) as [rest Em].
  unfold input_cut. cbn [text Stb]. set (ib := if has_selection st then _ else 0). set (ie := if has_selection st then Z.max _ _ else _).
  assert (0 ≤ ib ≤ ie ∧ ie ≤ len (d_text d)) as [Hib Hie].
  { unfold ib, ie. destruct (shows_place _ _ _ H) as [_ Hsel]. destruct (has_selection st) eqn:E; [|lia]. apply has_selection_spec in E. lia. }
  destruct (split_range (d_text d) (Z.to_nat ib) (Z.to_nat ie - Z.to_nat ib) ltac:(lia)) as (a & s & b & Et & Ha & Hs & _).
  rewrite (slice_ok _ a s (b ++ 0 :: rest)); [|by rewrite Em, Et, <- !app_assoc|lia|lia]. cbn [mbind outcome_bind].
  unfold ImTextStrToUtf8. pose proof (bytes_nonneg s). rewrite (proj2 (Z.leb_gt _ _)) by lia. cbn [mbind outcome_bind].
  set (clipboard := to_utf8_loop _ _). assert (shows str (cut_selection str st) d) as H1.
  { unfold cut_selection. destruct (has_selection st); [done|]. eapply shows_moves; [done|]. by apply select_all_moves. }
  replace (if has_selection st then mkInput str st else SelectAll (mkInput str st)) with (mkInput str (cut_selection str st))
    by (unfold cut_selection; by destruct (has_selection st)). cbn [text Stb]. unfold stb_textedit_cut.
  destruct (has_selection (cut_selection str st)) eqn:E.
  - destruct (ends_no_preferred _ _ _ (delete_selection_shows _ _ _ H1)) as (str' & st' & Eo & H' & Hbox).
    apply outcome_bind_ok in Eo as ([str1 st1] & -> & [= -> <-]). cbn [mbind outcome_bind].
    by eexists clipboard, str', _.
  - cbn [mbind outcome_bind]. exists clipboard, str, (cut_selection str st). split; [done|]. unfold delete_selected. by rewrite E.
Qed.

(** [None]: what is pasted does not fit. *)
Definition spec_paste (s : list Z) (str : InputText) (st : STB_TexteditState) (d : doc) : option doc :=
  let d1 := delete_selected st d in
  let ch := insertion (insertion_point st) s in
  if decide (fits str (apply_change ch (d_text d1))) then Some (edit ch d1) else None.

Lemma paste_ends str st d s d' : shows str st d → Forall char16 s → spec_paste s str st d = Some d' →
  ∃ str' st', stb_textedit_paste junk str st s = Ok (true, str', st') ∧ shows str' st' d' ∧ same_box str str'.
Proof.
  intros H Hch. unfold spec_paste, stb_textedit_paste. case_decide as Hfit; [|done]. intros [= <-]. destruct H as [Hs Hp].
  rewrite (clamp_same _ _ _ (holds_len _ _ (stores_text _ _ _ Hs)) Hp).
  destruct (delete_selection_spec str st d Hs Hp) as (str1 & st1 & -> & Hs1 & Hbox1 & Hsel1 & Hcur & Hle & _). cbn [mbind outcome_bind].
  assert (shows str1 st1 (delete_selected st d)) as H1.
  { split; [done|]. unfold place_ok. apply no_selection_spec in Hsel1. lia. }
  pose proof (insert_after str1 st1 _ s H1 Hsel1 Hch) as Hi. rewrite Hcur, Nat2Z.id in Hi. rewrite Hcur. cbn zeta in Hi.
  rewrite decide_True in Hi by (by apply (fits_same str)).
  destruct Hi as (str2 & st2 & -> & Em & H2 & Hbox2). cbn [mbind outcome_bind].
  apply outcome_bind_ok in Em as (st3 & Em & [= <-]). rewrite Em. cbn [mbind outcome_bind].
  eexists str2, _. split; [done|]. split; [done|]. by eapply same_box_trans.
Qed.

(** *** All commands *)
Context (flags : InputTextFlags) (callback : Z → Z * Z).

Lemma accepted_char c c' : InputTextFilterCharacter flags callback c = Some c' → char16 c'.
Proof.
  unfold InputTextFilterCharacter, char16, IM_UNICODE_CODEPOINT_MAX. intros H.
  destruct ((c <? 0x20) && _) eqn:E1; [done|]. destruct (c =? 127); [done|]. destruct (in_range 0xE000 c 0xF8FF); [done|].
  destruct (Z.ltb_spec 0xFFFF c); [done|]. do 3 (destruct (_ && negb _) in H; [done|]).
  assert (0 < c) as Hc.
  { apply andb_false_iff in E1 as [E1|E1]; [apply Z.ltb_ge in E1; lia|]. unfold newline in E1. rewrite negb_false_iff, orb_true_iff, !andb_true_iff, !Z.eqb_eq in E1. destruct E1 as [[-> _]|[-> _]]; lia. }
  set (c1 := if _ && _ then c - 32 else c) in H. assert (0 < c1 < 65536) as Hc1.
  { unfold c1. destruct (CharsUppercase flags); cbn [andb]; [|lia]. unfold in_range. destruct (Z.leb_spec 97 c); cbn [andb]; [|lia]. set (u := c <=? 122); destruct u; lia. }
  destruct (CharsNoBlank flags && _); [done|]. destruct (CallbackCharFilter flags); [|by injection H as <-].
  destruct (callback (uwrap 16 c1)) as [res c2]. destruct (negb (res =? 0)); [done|]. destruct (Z.eqb_spec (uwrap 16 c2) 0); [done|]. injection H as <-.
  pose proof (Z.mod_pos_bound c2 (2 ^ 16) eq_refl). unfold uwrap in *. lia.
Qed.

Lemma filter_clipboard_chars fuel : ∀ clip s, filter_clipboard flags callback fuel clip = Ok s → Forall char16 s.
Proof.
  induction fuel as [|fuel IH]; intros clip s; cbn [filter_clipboard]; [done|]. intros E.
  apply outcome_bind_ok in E as (b & _ & E). destruct (b =? 0); [injection E as <-; constructor|].
  apply outcome_bind_ok in E as ([c n] & _ & E). destruct (c =? 0); [injection E as <-; constructor|].
  apply outcome_bind_ok in E as (rest & Er & E). apply IH in Er. destruct (InputTextFilterCharacter flags callback c) as [c'|] eqn:Ef; injection E as <-; [|done].
  apply accepted_char in Ef. constructor; [|done]. by rewrite uwrap_small by (unfold char16 in Ef; cbn; lia).
Qed.

(** What is pasted of a clipboard: the characters that the filter lets through.  [None] for a
    clipboard that the decoder cannot read within its memory, such as one that ends in the
    middle of a sequence: the decoder then passes over the zero at the end. *)
Definition pasted (clip : list Z) : option (list Z) :=
  match filter_clipboard flags callback (S (length clip)) clip with Ok s => Some s | _ => None end.

Lemma filter_clipboard_utf8 s rest : ∀ fuel, Forall (λ c, 0 < c ∧ scalar c) s → Forall is_byte rest → (length s < fuel)%nat →
  filter_clipboard flags callback fuel (utf8_text s ++ 0 :: rest) = Ok (omap (InputTextFilterCharacter flags callback) s).
Proof.
  induction s as [|c s IH]; intros fuel Hs Hr Hf; (destruct fuel as [|fuel]; [cbn in Hf; lia|]); [done|].
  inversion Hs as [|? ? [Hc Hsc] Hs']; subst. cbn [utf8_text mbind list_bind] in *. rewrite <- app_assoc.
  change (mbind utf8 s) with (utf8_text s). cbn [filter_clipboard omap list_omap].
  assert (∃ b str, utf8 c ++ utf8_text s ++ 0 :: rest = b :: str ∧ b ≠ 0) as (b & str & Eb & Hb).
  { unfold utf8. unfold scalar in Hsc. repeat case_match; cbn [app]; eexists _, _; (split; [done|]); div_lia. }
  assert (read (utf8 c ++ utf8_text s ++ 0 :: rest) 0 = Ok b) as -> by by rewrite Eb.
  cbn [mbind outcome_bind]. rewrite (proj2 (Z.eqb_neq b 0)) by done.
  rewrite decode_eq, decode_utf8; [|done|done|].
  2:{ apply Forall_app. split; [by apply utf8_bytes|]. apply Forall_app. split; [|by constructor].
      clear -Hs'. induction Hs' as [|x s [_ Hx] _ IH]; [done|]. apply Forall_app. split; [by apply utf8_bytes|exact IH]. }
  cbn [mbind outcome_bind]. rewrite (proj2 (Z.eqb_neq c 0)) by lia. rewrite drop_app_length.
  rewrite IH by (done || (cbn in Hf; lia)). cbn [mbind outcome_bind].
  destruct (InputTextFilterCharacter flags callback c) as [c'|] eqn:E; [|done].
  apply accepted_char in E. by rewrite uwrap_small by (unfold char16 in E; cbn; lia).
Qed.

(** A clipboard with the UTF-8 encoding of a text and a zero after it is read within its
    memory, whatever follows. *)
Lemma pasted_utf8 s rest : Forall (λ c, 0 < c ∧ scalar c) s → Forall is_byte rest →
  pasted (utf8_text s ++ 0 :: rest) = Some (omap (InputTextFilterCharacter flags callback) s).
Proof.
  intros Hs Hr. unfold pasted. rewrite filter_clipboard_utf8; [done|done|done|].
  pose proof (utf8_text_length s). rewrite length_app. cbn [length]. lia.
Qed.

(** What a command does to the document, where the cursor, the selection and the modes are those
    of the field.  [None] for what the header excludes. *)
Definition spec_step (c : command) (e : ImGuiInputTextState) (d : doc) : option doc :=
  match c with
  | Press key => spec_press key (Stb e) d
  | Type_ c => match InputTextFilterCharacter flags callback c with Some c => spec_char c (text e) (Stb e) d | None => Some d end
  | Undo => spec_undo d
  | Redo => spec_redo d
  | Cut => Some (delete_selected (cut_selection (text e) (Stb e)) d)
  | Paste clip =>
      match pasted clip with
      | Some [] => Some d
      | Some s => spec_paste s (text e) (Stb e) d
      | None => None
      end
  | SelectEverything | Click _ _ | Drag _ _ => Some d
  end.

Abbreviation perform := (perform junk fn flags callback).

Definition shown (e : ImGuiInputTextState) (d : doc) : Prop := shows (text e) (Stb e) d.

Definition reaches (o : outcome ImGuiInputTextState) (e : ImGuiInputTextState) (d : doc) : Prop :=
  ∃ e', o = Ok e' ∧ shown e' d ∧ same_box (text e) (text e').

Lemma key_shown key e d : ends_in d (text e) (stb_textedit_key junk fn (text e) (Stb e) key) →
  reaches (OnKeyPressed junk fn key e) e d.
Proof. intros (str & st & E & H & Hb). unfold OnKeyPressed. rewrite E. by exists (mkInput str st). Qed.

Lemma history_key_shown (is_undo : bool) e d d' : shown e d → (if is_undo then spec_undo d else spec_redo d) = Some d' →
  reaches (input_undo_redo junk fn is_undo e) e d'.
Proof.
  intros [Hs [Hc _]] Hd. unfold input_undo_redo, OnKeyPressed.
  assert (∃ str u p, stb_textedit_key junk fn (text e) (Stb e) (if is_undo then K_UNDO else K_REDO) =
    Ok (str, no_preferred (set_cursor p (set_undostate u (Stb e)))) ∧ stores str u d' ∧ 0 ≤ p ≤ len (d_text d') ∧ same_box (text e) str) as (str & u & p & -> & Hs' & Hp & Hbox).
  { destruct is_undo.
    - destruct (undo_ends _ _ _ _ Hs Hc Hd) as (str & u & p & E & ? & ? & ?). exists str, u, p. split; [|done].
      unfold stb_textedit_key. cbv zeta. destruct (single_line (Stb e)); unfold key_case; cbn; by rewrite E.
    - destruct (redo_ends _ _ _ _ Hs Hc Hd) as (str & u & p & E & ? & ? & ?). exists str, u, p. split; [|done].
      unfold stb_textedit_key. cbv zeta. destruct (single_line (Stb e)); unfold key_case; cbn; by rewrite E. }
  cbn [mbind outcome_bind]. eexists. split; [done|]. split; [|done]. split; [done|]. unfold place_ok. cbn. split; [lia|by left].
Qed.

Lemma moves_shown e d o : shown e d → (∃ st', o = Ok st' ∧ moves_to (length (d_text d)) (Stb e) st') →
  reaches (st ← o; Ok (mkInput (text e) st)) e d.
Proof. intros H (st' & -> & Hm). eexists. split; [done|]. split; [by eapply shows_moves|done]. Qed.

Lemma step_shown c e d d' : shown e d → spec_step c e d = Some d' → reaches (perform c e) e d'.
Proof.
  intros H. pose proof (stores_text _ _ _ (shows_stores _ _ _ H)) as Hh. pose proof (shows_place _ _ _ H) as Hp.
  destruct c as [key|c| | | | |clip|x y|x y]; cbn [spec_step TextEdit.perform].
  - intros Hd. by apply key_shown, (press_ends _ _ d).
  - unfold input_char. destruct (InputTextFilterCharacter flags callback c) as [c'|] eqn:E; [|intros [= <-]; by exists e].
    intros Hd. apply key_shown, (char_ends _ _ d); try done. by eapply accepted_char.
  - by apply (history_key_shown true).
  - by apply (history_key_shown false).
  - intros [= <-]. exists (SelectAll e). split; [done|]. split; [|done]. eapply shows_moves; [done|]. destruct e. by apply select_all_moves.
  - intros [= <-]. destruct e as [str st]. destruct (cut_ends str st d H) as (clip & str' & st' & -> & H' & Hb). by exists (mkInput str' st').
  - unfold input_paste, pasted. destruct (filter_clipboard flags callback (S (length clip)) clip) as [s| |] eqn:E; try done.
    cbn [mbind outcome_bind]. apply filter_clipboard_chars in E. destruct s as [|c s]; [intros [= <-]; by exists e|].
    intros Hd. destruct (paste_ends _ _ _ _ _ H E Hd) as (str' & st' & -> & H' & Hb). by exists (mkInput str' st').
  - intros [= <-]. by apply (moves_shown e d _ H), click_moves.
  - intros [= <-]. by apply (moves_shown e d _ H), drag_moves.
Qed.

(** The document after a run.  The cursor is taken from the field; where the field fails, the
    document is that of the last command. *)
Fixpoint spec_run (cs : list command) (e : ImGuiInputTextState) (d : doc) : option doc :=
  match cs with
  | [] => Some d
  | c :: cs =>
      d' ← spec_step c e d;
      match perform c e with Ok e' => spec_run cs e' d' | _ => Some d' end
  end.

Lemma run_shown cs : ∀ e d d', shown e d → spec_run cs e d = Some d' →
  reaches (perform_all junk fn flags callback cs e) e d'.
Proof.
  induction cs as [|c cs IH]; intros e d d' H; cbn [spec_run perform_all]; [intros [= <-]; by exists e|].
  destruct (spec_step c e d) as [d1|] eqn:E; [|done]. cbn [mbind option_bind]. destruct (step_shown c e d d1 H E) as (e1 & -> & H1 & Hb1).
  cbn [mbind outcome_bind]. intros Hr. destruct (IH e1 d1 d' H1 Hr) as (e' & E' & H' & Hb'). exists e'. split; [done|]. split; [done|]. by eapply same_box_trans.
Qed.
End commands.

(** ** Activation *)

Lemma plain_char16 c : plain c → char16 c.
Proof. unfold plain, char16. lia. Qed.

Lemma activate_shown junk flags t rest size e : Forall plain t → Forall is_byte rest → len (utf8_text t) < size →
  length (undo_rec (undostate (Stb e))) = 99%nat → length (undo_char (undostate (Stb e))) = 999%nat →
  ∃ e', input_activate junk flags (utf8_text t ++ 0 :: rest) size false e = Ok e' ∧ shown e' (mkDoc t [] []) ∧
    BufCapacityA (text e') = size ∧ is_resizable (text e') = CallbackResize flags.
Proof.
  intros Ht Hr Hsize L1 L2. pose proof (utf8_text_length t). unfold input_activate, ImTextStrFromUtf8. rewrite (proj2 (Z.leb_gt _ _)) by lia.
  rewrite from_utf8_text; [|done|done|rewrite length_app; lia|lia]. cbn [mbind outcome_bind].
  assert (length (vector_resize junk (TextW (text e)) (size + 1)) = Z.to_nat (size + 1)) as Lw.
  { unfold vector_resize. rewrite length_take, length_app, length_fmap, length_seq. lia. }
  set (w := vector_resize _ _ _) in *. rewrite (write_ok w [] (take (length t + 1) w) _ (drop (length t + 1) w));
    [|cbn; by rewrite take_drop|done|rewrite length_take, length_app; cbn; lia].
  cbn [mbind outcome_bind app]. eexists. split; [done|]. split; [|done].
  assert (len (TextW (mkText (len t) (len (utf8_text t)) ((t ++ [0]) ++ drop (length t + 1) w) size (CallbackResize flags))) = size + 1) as Lm.
  { cbn [TextW]. rewrite !length_app, length_drop. cbn. lia. }
  split; [split; cbn [text Stb d_text d_past d_future undostate stb_textedit_clear_state]|].
  - split; [done|by rewrite count_utf8_text| |eapply Forall_impl; [exact Ht|apply plain_char16]].
    exists (drop (length t + 1) w). cbn [TextW]. by rewrite <- app_assoc.
  - split; try done; [by exists (undo_rec (undostate (Stb e))); rewrite app_nil_r|by exists (undo_char (undostate (Stb e))); rewrite app_nil_r].
  - right. rewrite Lm. cbn [BufCapacityA]. rewrite count_utf8_text by done. lia.
  - done.
  - done.
  - unfold place_ok. cbn. split; [lia|by left].
Qed.

(** ** Back to the buffer *)

Lemma bytes_bound t : bytes t ≤ 4 * len t.
Proof.
  induction t as [|c t IH]; cbn [ImTextCountUtf8BytesFromStr length]; [done|]. unfold ImTextCountUtf8BytesFromChar. repeat case_match; lia.
Qed.

Lemma until_zero_text buf s : until_zero buf = Ok s → ∃ rest, buf = s ++ 0 :: rest.
Proof.
  revert s. induction buf as [|c buf IH]; intros s; cbn [until_zero]; [done|]. destruct (Z.eqb_spec c 0) as [-> |Hc]; [intros [= <-]; by exists buf|].
  intros E. apply outcome_bind_ok in E as (s' & E & [= <-]). destruct (IH _ E) as [rest ->]. by exists rest.
Qed.

Lemma strncpy_whole dst s : len s < len dst → ImStrncpy dst s (len s + 1) = Ok (s ++ 0 :: drop (length s + 1) dst).
Proof.
  intros H. unfold ImStrncpy. rewrite (proj2 (Z.ltb_ge _ _)) by lia. replace (len s + 1 - 1) with (len s) by lia. rewrite Nat2Z.id.
  destruct (nth_split dst 0 (n := length s) ltac:(lia)) as (a & b & Ed & La). set (x := nth _ _ _) in Ed. rewrite take_app_length. rewrite Ed.
  assert ((if 1 <? len s + 1 then write (a ++ x :: b) 0 s else Ok (a ++ x :: b)) = Ok (s ++ x :: b)) as ->.
  { destruct (Z.ltb_spec 1 (len s + 1)).
    - by rewrite (write_ok _ [] a s (x :: b)).
    - destruct s; [|cbn in *; lia]. by destruct a. }
  cbn [mbind outcome_bind]. rewrite (set_ok _ s b x 0) by done. do 3 f_equal.
  replace (length s + 1)%nat with (S (length a)) by lia. change (a ++ x :: b) with (a ++ [x] ++ b). rewrite app_assoc, drop_app_length'; [done|]. rewrite length_app. cbn. lia.
Qed.

Lemma apply_saves resize initial buf size backup e t s : holds (text e) t → fits (text e) t → Forall plain t →
  is_resizable (text e) = false → BufCapacityA (text e) = size → len buf = size → until_zero buf = Ok s →
  ∃ rest changed, input_apply resize false initial buf size backup e = Ok (utf8_text t ++ 0 :: rest, changed) ∧
    length (utf8_text t ++ 0 :: rest) = length buf.
Proof.
  intros Hh Hf Ht Er Eb El Es. pose proof (holds_mem _ _ Hh) as [rest Em]. pose proof (count_utf8_text t Ht) as Ec. pose proof (bytes_bound t).
  destruct Hf as [?|[Hf1 Hf2]]; [congruence|]. unfold input_apply, apply_new_text. rewrite Es. cbn [mbind outcome_bind].
  rewrite Em, until_zero_ok by (by apply Hh). cbn [mbind outcome_bind]. unfold ImTextStrToUtf8. rewrite (proj2 (Z.leb_gt _ _)) by lia.
  rewrite to_utf8_text; [|done|rewrite length_app; cbn; lia]. cbn [mbind outcome_bind]. case_decide as E.
  - subst s. destruct (until_zero_text _ _ Es) as [r ->]. exists r, false. done.
  - rewrite (holds_bytes _ _ Hh), Er, andb_false_r, Ec. rewrite (proj2 (Z.leb_le _ _)) by lia. cbn [im_assert mbind outcome_bind].
    rewrite Z.min_l by lia. rewrite strncpy_whole by lia. cbn [mbind outcome_bind]. eexists _, true. split; [done|].
    rewrite length_app. cbn. rewrite length_drop. lia.
Qed.

(** ** Back and forth *)

(** The document [k] changes earlier. *)
Fixpoint rewind (k : nat) (d : doc) : doc :=
  match k, d_past d with
  | S k, c :: past => rewind k (mkDoc (revert_change c (d_text d)) past (c :: d_future d))
  | _, _ => d
  end.

(** All the characters of the history. *)
Definition history_size (d : doc) : Z := old_size (d_past d) + new_size (d_past d) + old_size (d_future d) + new_size (d_future d).

Section back_forth.
Context (junk : nat → Z) (fn : font) (flags : InputTextFlags) (callback : Z → Z * Z).
Abbreviation perform_all := (perform_all junk fn flags callback).

Lemma perform_all_app cs cs' e : perform_all (cs ++ cs') e = (e ← perform_all cs e; perform_all cs' e).
Proof.
  revert e. induction cs as [|c cs IH]; intros e; [done|]. cbn [app TextEdit.perform_all].
  destruct (perform junk fn flags callback c e); cbn [mbind outcome_bind]; [apply IH|done|done].
Qed.

(** One step back, and that step forth again. *)
Lemma undo_step e d c past : shown e d → d_past d = c :: past → history_size d ≤ 998 →
  let d1 := mkDoc (revert_change c (d_text d)) past (c :: d_future d) in
  spec_undo d = Some d1 ∧ spec_redo d1 = Some d ∧ history_size d1 = history_size d.
Proof.
  intros [[_ _ _ Hb _] _] E. destruct d as [t past' future]. cbn [d_text d_past d_future] in *. subst past'. unfold history_size. cbn [d_past d_future]. cbn [back] in Hb.
  destruct Hb as (Happ & _). unfold spec_undo, spec_redo. cbn [d_text d_past d_future]. rewrite !old_size_cons, !new_size_cons.
  pose proof (old_size_nonneg future). pose proof (new_size_nonneg past). intros Hsz. rewrite !(proj2 (Z.leb_le _ _)) by lia.
  rewrite (applies_apply _ _ _ Happ). split; [done|]. split; [done|]. lia.
Qed.

Lemma back_and_forth k : ∀ e d, shown e d → history_size d ≤ 998 → (k ≤ length (d_past d))%nat →
  ∃ e1 e2, perform_all (replicate k Undo) e = Ok e1 ∧ shown e1 (rewind k d) ∧
    perform_all (replicate k Redo) e1 = Ok e2 ∧ shown e2 d.
Proof.
  induction k as [|k IH]; intros e d H Hsz Hk; [by exists e, e|]. destruct (d_past d) as [|c past] eqn:Ep; [cbn in Hk; lia|].
  destruct (undo_step e d c past H Ep Hsz) as (Eu & Er & Es). cbn [rewind]. rewrite Ep. set (d1 := mkDoc _ past _) in *.
  destruct (step_shown junk fn flags callback Undo e d d1 H Eu) as (e' & E' & H' & _).
  destruct (IH e' d1 H' ltac:(lia) ltac:(cbn in *; lia)) as (e1 & e2 & E1 & H1 & E2 & H2).
  destruct (step_shown junk fn flags callback Redo e2 d1 d H2 Er) as (e3 & E3 & H3 & _).
  exists e1, e3. split; [cbn [replicate TextEdit.perform_all]; by rewrite E'|]. split; [done|]. split; [|done].
  rewrite replicate_S_end, perform_all_app, E2. cbn [mbind outcome_bind TextEdit.perform_all]. by rewrite E3.
Qed.
End back_forth.

(** ** The field *)

(** The field is activated with the bytes of [buf], and the user does [cs]. *)
Definition edit_field (junk : nat → Z) (fn : font) (flags : InputTextFlags) (callback : Z → Z * Z) (buf : list Z) (size : Z) (cs : list command) :
    outcome ImGuiInputTextState :=
  e ← input_activate junk flags buf size false zero_state;
  perform_all junk fn flags callback cs e.

(** The document: it starts with [t] and nothing to undo. *)
Definition edit_doc (junk : nat → Z) (fn : font) (flags : InputTextFlags) (callback : Z → Z * Z) (buf : list Z) (size : Z) (cs : list command) (t : list Z) : option doc :=
  match input_activate junk flags buf size false zero_state with
  | Ok e => spec_run junk fn flags callback cs e (mkDoc t [] [])
  | _ => Some (mkDoc t [] [])
  end.

Section field.
Context (junk : nat → Z) (fn : font) (flags : InputTextFlags) (callback : Z → Z * Z) (t rest : list Z) (size : Z).
Context (Ht : Forall plain t) (Hrest : Forall is_byte rest) (Hsize : len (utf8_text t) < size).
Abbreviation buf := (utf8_text t ++ 0 :: rest).

Lemma edit_shown cs d : edit_doc junk fn flags callback buf size cs t = Some d →
  ∃ e, edit_field junk fn flags callback buf size cs = Ok e ∧ shown e d ∧
    BufCapacityA (text e) = size ∧ is_resizable (text e) = CallbackResize flags.
Proof.
  unfold edit_doc, edit_field. destruct (activate_shown junk flags t rest size zero_state Ht Hrest Hsize) as (e0 & -> & H0 & E1 & E2); [done|done|].
  intros Hd. destruct (run_shown junk fn flags callback cs e0 _ d H0 Hd) as (e & E & H & Hb1 & Hb2 & _). exists e. split; [done|]. split; [done|]. split; congruence.
Qed.
End field.

(** C10: a text field behaves as a document with a timeline.  The field is activated with a
    buffer that has the UTF-8 encoding of a text of 16-bit characters and room for it, and then the
    user types, presses keys, uses the mouse, selects, cuts, pastes, undoes and redoes in any
    order, with any flags, filter and font.  As long as the commands have a meaning for the document (a
    clipboard that is pasted can be decoded within its memory: this holds for the UTF-8 encoding of
    any text with a zero after it, and what is pasted is then what the filter lets through, but not
    for one that ends in the middle of a sequence, where the decoder reads past the zero; what
    is pasted, or overwrites a character, fits into the buffer; the characters of an undo
    or redo record fit into the array), no access is out of bounds, no assertion fails
    and every loop ends; the vector has the text of the document with a zero after it, the
    counters of the history are the numbers of changes that can be undone and redone, and the cursor is
    in the text.  When the text is then copied to the user's buffer, of any content with a zero,
    the buffer has its encoding, if its size is fixed and the text has no surrogates. *)
Theorem text_field_history junk fn flags callback t rest size cs d resize initial buf backup s :
  Forall plain t → Forall is_byte rest → len (utf8_text t) < size →
  edit_doc junk fn flags callback (utf8_text t ++ 0 :: rest) size cs t = Some d →
  len buf = size → until_zero buf = Ok s →
  (∀ clip after, Forall (λ c, 0 < c ∧ scalar c) clip → Forall is_byte after →
     pasted flags callback (utf8_text clip ++ 0 :: after) =
       Some (omap (InputTextFilterCharacter flags callback) clip)) ∧
  ∃ e, edit_field junk fn flags callback (utf8_text t ++ 0 :: rest) size cs = Ok e ∧
    holds (text e) (d_text d) ∧
    undo_point (undostate (Stb e)) = len (d_past d) ∧ redo_point (undostate (Stb e)) = 99 - len (d_future d) ∧
    0 ≤ cursor (Stb e) ≤ len (d_text d) ∧
    (CallbackResize flags = false → Forall plain (d_text d) →
     ∃ rest' changed, input_apply resize false initial buf size backup e = Ok (utf8_text (d_text d) ++ 0 :: rest', changed) ∧
       length (utf8_text (d_text d) ++ 0 :: rest') = length buf).
Proof.
  intros Ht Hr Hsize Hd Hbuf Hs. split; [intros clip after; by apply pasted_utf8|].
  destruct (edit_shown junk fn flags callback t rest size Ht Hr Hsize cs d Hd) as (e & E & [[Hh Hi Hf _ _] [Hp _]] & Ec & Er).
  exists e. split; [done|]. split; [done|]. split; [apply Hi|]. split; [apply Hi|]. split; [done|].
  intros Hfix Hpl. apply (apply_saves resize initial buf size backup e (d_text d) s); congruence || done.
Qed.

(** C11: undo and redo go back and forth.  After any commands that have a meaning for the
    document, with at most 998 characters in its changes, undoing [k] of its changes gives the text
    from before them, and redoing [k] then gives the text and the history back. *)
Theorem undo_redo_restores junk fn flags callback t rest size cs d k :
  Forall plain t → Forall is_byte rest → len (utf8_text t) < size →
  edit_doc junk fn flags callback (utf8_text t ++ 0 :: rest) size cs t = Some d →
  history_size d ≤ 998 → (k ≤ length (d_past d))%nat →
  ∃ e1 e2,
    edit_field junk fn flags callback (utf8_text t ++ 0 :: rest) size (cs ++ replicate k Undo) = Ok e1 ∧
    holds (text e1) (d_text (rewind k d)) ∧
    edit_field junk fn flags callback (utf8_text t ++ 0 :: rest) size (cs ++ replicate k Undo ++ replicate k Redo) = Ok e2 ∧
    holds (text e2) (d_text d) ∧
    undo_point (undostate (Stb e2)) = len (d_past d) ∧ redo_point (undostate (Stb e2)) = 99 - len (d_future d).
Proof.
  intros Ht Hr Hsize Hd Hsz Hk. destruct (edit_shown junk fn flags callback t rest size Ht Hr Hsize cs d Hd) as (e & E & H & _).
  destruct (back_and_forth junk fn flags callback k e d H Hsz Hk) as (e1 & e2 & E1 & H1 & E2 & H2). exists e1, e2.
  unfold edit_field in *. apply outcome_bind_ok in E as (e0 & -> & E). cbn [mbind outcome_bind]. rewrite !perform_all_app, E. cbn [mbind outcome_bind].
  rewrite perform_all_app, E1. cbn [mbind outcome_bind]. rewrite E2. destruct H1 as [[? ? _ _ _] _], H2 as [[? Hi _ _ _] _]. split_and!; try done; apply Hi.
Qed.

(** ** What a callback of the user may do *)

(** The memory has the text [t], and room for the size that is given. *)
Record data_holds (d : ImGuiInputTextCallbackData) (t : list Z) : Prop := {
  data_mem : ∃ rest, Buf d = t ++ 0 :: rest;
  data_len : BufTextLen d = len t;
  data_size : BufSize d ≤ len (Buf d);
  data_chars : Forall char16 t }.

Lemma delete_chars_spec d a s b : data_holds d (a ++ s ++ b) →
  ∃ d', DeleteChars (len a) (len s) d = Ok d' ∧ data_holds d' (a ++ b) ∧ BufDirty d' = true ∧
    SelectionStart d' = CursorPos d' ∧ SelectionEnd d' = CursorPos d'.
Proof.
  intros [[rest Hm] Hl Hs Hc]. rewrite !Forall_app in Hc. destruct Hc as (Ha & Hs' & Hb). unfold DeleteChars. rewrite Hl, !length_app.
  rewrite (proj2 (Z.leb_le (len a + len s) _)) by lia. cbn [im_assert mbind outcome_bind]. rewrite Hm, <- !app_assoc.
  rewrite (slice_ok _ (a ++ s) (b ++ 0 :: rest) []); [|by rewrite app_nil_r, <- app_assoc|rewrite length_app; lia|rewrite !length_app; lia].
  cbn [mbind outcome_bind]. rewrite until_zero_ok by done. cbn [mbind outcome_bind].
  rewrite (write_ok _ a (take (length b + 1) (s ++ b ++ 0 :: rest)) (b ++ [0]) (drop (length b + 1) (s ++ b ++ 0 :: rest)));
    [|by rewrite take_drop|done|rewrite length_take, !length_app; cbn; lia].
  cbn [mbind outcome_bind]. eexists. split; [done|]. split; [|done]. split; cbn [Buf BufTextLen BufSize].
  - eexists. rewrite <- !app_assoc. done.
  - rewrite length_app. lia.
  - rewrite Hm in Hs. rewrite !length_app in *. rewrite length_drop, !length_app. cbn [length] in *. lia.
  - by apply Forall_app.
Qed.

(** Without room and without a way to get it, nothing is inserted. *)
Lemma insert_chars_spec junk d a s b : data_holds d (a ++ b) → Forall char16 s →
  if decide (may_resize d = true ∨ len s + len (a ++ b) < BufSize d) then
    ∃ d', InsertChars junk (len a) s d = Ok d' ∧ data_holds d' (a ++ s ++ b) ∧ BufDirty d' = true ∧
      CursorPos d' = (if len a <=? CursorPos d then CursorPos d + len s else CursorPos d)
  else InsertChars junk (len a) s d = Ok d.
Proof.
  intros [[rest Hm] Hl Hs Hc] Hch. rewrite Forall_app in Hc. destruct Hc as (Ha & Hb). unfold InsertChars. rewrite Hl.
  destruct (Z.leb_spec (BufSize d) (len s + len (a ++ b))) as [Hfull|Hroom]; cbn [andb].
  - destruct (may_resize d) eqn:Er; cbn [negb]; [|rewrite decide_False by (intros [?|?]; [done|lia]); done]. rewrite decide_True by (by left).
    set (size := len (a ++ b) + _ + 1). set (buf := if _ <? size + 1 then _ else _).
    assert (∃ tail, buf = a ++ b ++ tail ∧ (length s < length tail)%nat ∧ size ≤ len buf) as (tail & Eb & Ht & Hsz).
    { assert (len s + len (a ++ b) + 1 ≤ size) as Hsize by (unfold size, ImClamp; repeat case_match; lia).
      unfold buf. destruct (Z.ltb_spec (len (Buf d)) (size + 1)) as [Hlt|Hge].
      - destruct (resize_grows junk (Buf d) (size + 1) ltac:(lia)) as (more & -> & Hmore). exists ((0 :: rest) ++ more).
        rewrite Hm in *. rewrite !length_app in *. cbn [length app] in *. split; [by rewrite <- !app_assoc|]. cbn [length]. lia.
      - exists (0 :: rest). rewrite Hm in *. rewrite !length_app in *. cbn [length] in *. split; [by rewrite <- app_assoc|]. lia. }
    destruct (insert_writes a s b buf tail Eb Ht) as (rest' & Hr & E). rewrite length_app, Nat2Z.inj_add in *. rewrite Z.add_simpl_l.
    rewrite (Z.eqb_sym (len a + len b) (len a)). apply outcome_bind_ok in E as (m1 & -> & E). cbn [mbind outcome_bind].
    apply outcome_bind_ok in E as (m2 & -> & E). cbn [mbind outcome_bind]. rewrite E. cbn [mbind outcome_bind].
    eexists. split; [done|]. split; [|done]. split; cbn [Buf BufTextLen BufSize].
    + exists rest'. by rewrite <- !app_assoc.
    + rewrite !length_app. lia.
    + rewrite Eb in Hsz. rewrite !length_app in *. cbn [length]. lia.
    + rewrite !Forall_app. done.
  - rewrite decide_True by (right; lia). rewrite Hm in *. rewrite <- app_assoc in *. cbn [length] in *.
    destruct (insert_writes a s b (a ++ b ++ 0 :: rest) (0 :: rest) eq_refl) as (rest' & Hr & E).
    { rewrite !length_app in *. cbn [length] in *. lia. }
    rewrite !length_app, !Nat2Z.inj_add in *. rewrite Z.add_simpl_l. rewrite (Z.eqb_sym (len a + len b) (len a)).
    apply outcome_bind_ok in E as (m1 & -> & E). cbn [mbind outcome_bind].
    apply outcome_bind_ok in E as (m2 & -> & E). cbn [mbind outcome_bind]. rewrite E. cbn [mbind outcome_bind].
    eexists. split; [done|]. split; [|done]. split; cbn [Buf BufTextLen BufSize].
    + exists rest'. by rewrite <- !app_assoc.
    + rewrite !length_app. lia.
    + cbn [length] in *. rewrite !length_app in *. cbn [length]. lia.
    + rewrite !Forall_app. done.
Qed.

(** Deleting after the cursor moves the cursor. *)
Lemma delete_after_cursor :
  ∃ d', DeleteChars 5 3 (mkData (replicate 10 65 ++ [0]) 10 11 false 4 4 4 false) = Ok d' ∧ CursorPos d' = 1.
Proof. by eexists. Qed.

(** ** Runs *)

Definition some_font : font := mkFont (λ _, float_of_Z 7) (float_of_Z 13) (float_of_Z 13).
Definition plain_flags : InputTextFlags := mkFlags false false false false false false false false false false.
Definition no_callback (c : Z) : Z * Z := (0, c).
Definition some_run : list command :=
  [Press K_TEXTEND; Type_ 99; SelectEverything; Type_ 0xE9; Undo; Undo; Redo; Undo; Press (Z.lor K_SHIFT K_LEFT); Cut; Paste [0xE2; 0x82; 0xAC; 33; 0]].
Definition some_doc : doc :=
  mkDoc [97; 98; 0x20AC; 33] [mkChange 2 [] [0x20AC; 33]; mkChange 2 [99] []; mkChange 2 [] [99]] [].

Lemma text_field_history_witness :
  ∃ e, edit_field Z.of_nat some_font plain_flags no_callback (utf8_text [97; 98] ++ 0 :: replicate 13 0) 16 some_run = Ok e ∧
    holds (text e) [97; 98; 0x20AC; 33] ∧
    undo_point (undostate (Stb e)) = 3 ∧ redo_point (undostate (Stb e)) = 99 ∧ 0 ≤ cursor (Stb e) ≤ 4 ∧
    (CallbackResize plain_flags = false → Forall plain [97; 98; 0x20AC; 33] →
     ∃ rest' changed, input_apply (λ b l s, (b, l, s)) false [] (replicate 16 0) 16 2 e = Ok (utf8_text [97; 98; 0x20AC; 33] ++ 0 :: rest', changed) ∧
       length (utf8_text [97; 98; 0x20AC; 33] ++ 0 :: rest') = length (replicate 16 0)).
Proof.
  apply (text_field_history Z.of_nat some_font plain_flags no_callback [97; 98] (replicate 13 0) 16 some_run some_doc
    (λ b l s, (b, l, s)) [] (replicate 16 0) 2 []).
  - repeat constructor; unfold plain; lia.
  - apply Forall_replicate. unfold is_byte. lia.
  - cbn. lia.
  - vm_compute. reflexivity.
  - reflexivity.
  - reflexivity.
Defined.

Lemma undo_redo_restores_witness :
  ∃ e1 e2,
    edit_field Z.of_nat some_font plain_flags no_callback (utf8_text [97; 98] ++ 0 :: replicate 13 0) 16 (some_run ++ replicate 2 Undo) = Ok e1 ∧
    holds (text e1) [97; 98; 99] ∧
    edit_field Z.of_nat some_font plain_flags no_callback (utf8_text [97; 98] ++ 0 :: replicate 13 0) 16 (some_run ++ replicate 2 Undo ++ replicate 2 Redo) = Ok e2 ∧
    holds (text e2) [97; 98; 0x20AC; 33] ∧
    undo_point (undostate (Stb e2)) = 3 ∧ redo_point (undostate (Stb e2)) = 99.
Proof.
  apply (undo_redo_restores Z.of_nat some_font plain_flags no_callback [97; 98] (replicate 13 0) 16 some_run some_doc 2).
  - repeat constructor; unfold plain; lia.
  - apply Forall_replicate. unfold is_byte. lia.
  - cbn. lia.
  - vm_compute. reflexivity.
  - vm_compute. discriminate.
  - cbn. lia.
Defined.

(** ** What the document excludes *)

Definition resizing_flags : InputTextFlags := mkFlags false false false false false false false false false true.
Definition overwriting_flags : InputTextFlags := mkFlags false false false false false false false false true false.
Definition multiline_flags : InputTextFlags := mkFlags true false false false false false false false false false.
Definition letters (n : nat) : list Z := replicate n 65 ++ [0].
Abbreviation session flags buf size cs := (edit_field Z.of_nat some_font flags no_callback buf size cs).

(** The characters of a redo record do not fit, older redo records are discarded for them, and
    that moves the redo records: the fields of the new one were stored before and are lost.  The
    redo that follows works with what is left in its place. *)
Lemma redo_record_lost :
  session resizing_flags [0] 8 [Paste (letters 600); Paste (letters 600); Undo; Undo; Redo] = Throw "assertion failed".
Proof. vm_compute. reflexivity. Qed.

(** A paste that does not fit takes back an undo record although it has made none: here it is the
    record of the third character, and undo then takes the second. *)
Lemma failed_paste_drops_record :
  ∃ e, session plain_flags (replicate 8 0) 8 [Type_ 97; Type_ 98; Type_ 99; Paste (letters 20); Undo] = Ok e ∧
    take 3 (TextW (text e)) = [97; 99; 0] ∧ undo_point (undostate (Stb e)) = 1.
Proof. eexists. split; [vm_compute; reflexivity|]. split; reflexivity. Qed.

(** With a selection it is the record of the deletion: undo then deletes from an empty text, its
    length becomes negative, and the next character is written before the vector. *)
Lemma failed_paste_corrupts :
  (∃ e, session plain_flags (replicate 8 0) 8 [Type_ 97; Type_ 98; Type_ 99; SelectEverything; Paste (letters 20); Undo] = Ok e ∧
     CurLenW (text e) = -1) ∧
  session plain_flags (replicate 8 0) 8 [Type_ 97; Type_ 98; Type_ 99; SelectEverything; Paste (letters 20); Undo; Type_ 100] =
    UB "index out of bounds".
Proof. split; [eexists; split; [vm_compute; reflexivity|]; reflexivity|vm_compute; reflexivity]. Qed.

(** In overwrite mode a character that does not fit deletes the one it should replace, and the
    record says that there is a new one. *)
Lemma failed_overwrite_corrupts :
  (∃ e, session overwriting_flags [97; 98; 0] 3 [Press K_RIGHT; Type_ 0xE9] = Ok e ∧ take 2 (TextW (text e)) = [97; 0]) ∧
  session overwriting_flags [97; 98; 0] 3 [Press K_RIGHT; Type_ 0xE9; Undo] = Throw "assertion failed".
Proof. split; [eexists; split; [vm_compute; reflexivity|]; reflexivity|vm_compute; reflexivity]. Qed.

(** Without a record to discard, making room goes on for ever. *)
Lemma make_room_stuck n s : undo_point s = 0 → 999 < undo_char_point s + n → ∀ fuel, make_room fuel n s = Throw "out of fuel".
Proof.
  intros E H. induction fuel as [|fuel IH]; [done|]. cbn [make_room]. unfold STB_TEXTEDIT_UNDOCHARCOUNT.
  rewrite (proj2 (Z.ltb_lt _ _)) by lia. unfold stb_textedit_discard_undo. rewrite E. exact IH.
Qed.

(** A failed paste that drops the record of a deletion leaves its characters: the program hangs when the array is too
    short for others. *)
Lemma failed_paste_hangs :
  session plain_flags (replicate 600 65 ++ replicate 100 0) 700
    [SelectEverything; Press K_DELETE; Paste (letters 800); Paste (letters 500); SelectEverything; Press K_DELETE] = Throw "out of fuel".
Proof. vm_compute. reflexivity. Qed.

(** When the field becomes active again its history is kept, also if the program has cleared the buffer in between. *)
Lemma stale_history_corrupts :
  (e ← session plain_flags (replicate 8 0) 8 [Type_ 97; Type_ 98; Type_ 99];
   e ← input_activate Z.of_nat plain_flags (replicate 8 0) 8 true e;
   perform_all Z.of_nat some_font plain_flags no_callback [Undo; Type_ 100] e) = UB "index out of bounds".
Proof. vm_compute. reflexivity. Qed.

(** At the end of a text whose last line is not empty, [Up] goes to the start of that line. *)
Lemma up_from_the_end_stays :
  ∃ e, session multiline_flags [97; 98; 10; 99; 100; 0] 8 [Press K_TEXTEND; Press K_UP] = Ok e ∧ cursor (Stb e) = 3.
Proof. eexists. split; [vm_compute; reflexivity|]. reflexivity. Qed.
