(* ===== verification/Polynomials.v ===== *)
(** Curve fitting with polynomials
    ([src/third_party_examples/ceres_solver_examples]: [include/polynomial.h],
    [quintic_polynomial.cpp] and [polynomial_trajectory_generator.cpp]).

    The functors are templates over the scalar type [T], which is [double] when a curve is
    drawn and a number with derivatives when the solver evaluates a residual; the position
    is a [double].  Here both are type arguments, [T] and [D], with their operations in the
    class [Scalar]; [ScalarLaws] are the laws of exact arithmetic, so that the theorems say
    what the code computes up to rounding.  The solver and the plotting library are not part of the repository:
    [Solve] is an argument of the programs. *)
From Stdlib Require Import QArith.QArith_base QArith.Qcanon.
From S2P Require Import Prelude.
Local Open Scope list_scope.

(** ** Scalars *)

Class Scalar (T D : Type) := {
  t_add : T → T → T; t_sub : T → T → T;
  (** [first * d] *)
  t_scale : T → D → T;
  (** a [double] used as a [T] *)
  t_of : D → T;
  d_add : D → D → D; d_sub : D → D → D; d_mul : D → D → D; d_div : D → D → D;
  d_of : nat → D; d_ltb : D → D → bool;
  (** [std::pow] *)
  d_pow : D → nat → D }.

Class ScalarLaws (T D : Type) {Sc : Scalar T D} : Prop := {
  add_assoc a b c : t_add a (t_add b c) = t_add (t_add a b) c;
  add_zero_l a : t_add (t_of (d_of 0)) a = a;
  add_zero_r a : t_add a (t_of (d_of 0)) = a;
  sub_zero a b : t_sub a b = t_of (d_of 0) ↔ a = b;
  scale_one a : t_scale a (d_of 1) = a;
  scale_zero d : t_scale (t_of (d_of 0)) d = t_of (d_of 0);
  scale_add a b d : t_scale (t_add a b) d = t_add (t_scale a d) (t_scale b d);
  scale_mul a d e : t_scale a (d_mul d e) = t_scale (t_scale a d) e;
  mul_comm d e : d_mul d e = d_mul e d;
  pow_zero d : d_pow d 0 = d_of 1;
  pow_succ d n : d_pow d (S n) = d_mul d (d_pow d n) }.

(** ** Functors *)

Section functors.
Context {T D : Type} {Sc : Scalar T D}.
Abbreviation zero := (t_of (d_of 0)).

(* @src third_party_examples/ceres_solver_examples/include/polynomial.h 5-17 get_polynomial_functor *)
(** The coefficients are the arguments of the template, highest first. *)
Fixpoint get_polynomial_functor (args : list T) (x : D) : T :=
  match args with
  | [] => zero
  | first :: args => t_add (t_scale first (d_pow x (length args))) (get_polynomial_functor args x)
  end.

(* @src third_party_examples/ceres_solver_examples/include/polynomial.h 19-31 get_polynomial_functor_derivative *)
Fixpoint get_polynomial_functor_derivative (first : T) (args : list T) (x : D) : T :=
  match args with
  | [] => zero
  | second :: rest =>
      t_add (t_scale first (d_pow x (length args - 1))) (get_polynomial_functor_derivative second rest x)
  end.

(** ** Residuals *)

(** The six parameters of the problem. *)
Record parameters := mkParameters { pa : T; pb : T; pc : T; pd : T; pe : T; pf : T }.
Definition coefficients (p : parameters) : list T := [pa p; pb p; pc p; pd p; pe p; pf p].

(* @src third_party_examples/ceres_solver_examples/src/quintic_polynomial.cpp 23-41 QuinticPolynomialResidual *)
Definition QuinticPolynomialResidual (x y : D) (p : parameters) : list T :=
  [t_sub (t_of y) (get_polynomial_functor (coefficients p) x)].

(* @src third_party_examples/ceres_solver_examples/src/polynomial_trajectory_generator.cpp 26-50 QuinticTrajectoryGeneratorResidual *)
Definition QuinticTrajectoryGeneratorResidual (t x dx : D) (p : parameters) : list T :=
  [t_sub (t_of x) (get_polynomial_functor (coefficients p) t);
   t_sub (t_of dx) (get_polynomial_functor_derivative (pa p) [pb p; pc p; pd p; pe p; pf p] t)].
End functors.
Arguments parameters T : clear implicits.

(** ** The programs *)

Section programs.
Context {T D : Type} {Sc : Scalar T D} {Sd : Scalar D D}.
(** The solver gets the residual blocks and the start, and leaves the parameters. *)
Context (Solve : list (parameters T → list T) → parameters D → parameters D).

Definition start : parameters D := mkParameters (d_of 0) (d_of 0) (d_of 0) (d_of 0) (d_of 0) (d_of 0).

(* @src third_party_examples/ceres_solver_examples/src/quintic_polynomial.cpp 70-79 main *)
(** The interpolated points. *)
Definition sample (n : nat) (t_min t_max : D) (generator : D → D) : list (D * D) :=
  let interval := d_div (d_sub t_max t_min) (d_of n) in
  (λ i, let x := d_add t_min (d_mul (d_of i) interval) in (x, generator x)) <$> seq 0 n.

(* @src third_party_examples/ceres_solver_examples/src/quintic_polynomial.cpp 19-21 data_x *)
Definition quintic_data : list (D * D) := zip (d_of <$> [2; 3; 4; 5]%nat) (d_of <$> [2; 1; 1; 1]%nat).

(* @src third_party_examples/ceres_solver_examples/src/quintic_polynomial.cpp 43-94 main *)
(** The final parameters and the points that are drawn as a line. *)
Definition quintic_main : parameters D * list (D * D) :=
  let p := Solve ((λ '(x, y), QuinticPolynomialResidual x y) <$> quintic_data) start in
  (p, sample 5000 (d_of 0) (d_of 5) (get_polynomial_functor (coefficients p))).

(* @src third_party_examples/ceres_solver_examples/src/polynomial_trajectory_generator.cpp 19-24 t *)
Definition via_t : list D := d_of <$> [2; 7; 11; 13]%nat.
Definition via_points : list (D * D * D) := zip (zip via_t (d_of <$> [1; 1; 1; 1]%nat)) (d_of <$> [0; 0; 0; 0]%nat).

(** [std::min_element] and [std::max_element] of a vector that is not empty. *)
Definition min_element (d : D) (l : list D) : D := fold_left (λ m x, if d_ltb x m then x else m) l d.
Definition max_element (d : D) (l : list D) : D := fold_left (λ m x, if d_ltb m x then x else m) l d.

(* @src third_party_examples/ceres_solver_examples/src/polynomial_trajectory_generator.cpp 52-106 main *)
Definition trajectory_main : parameters D * list (D * D) :=
  let p := Solve ((λ '(t, x, dx), QuinticTrajectoryGeneratorResidual t x dx) <$> via_points) start in
  let t_min := d_sub (min_element (d_of 2) via_t) (d_of 1) in
  let t_max := d_add (max_element (d_of 2) via_t) (d_of 1) in
  (p, sample 5000 t_min t_max (get_polynomial_functor (coefficients p))).
End programs.

(** ** Theorems *)

Section laws.
Context {T D : Type} {Sc : Scalar T D} {L : ScalarLaws T D}.
Abbreviation zero := (t_of (d_of 0)).

(** The scheme of Horner. *)
Definition horner (cs : list T) (x : D) : T := fold_left (λ acc c, t_add (t_scale acc x) c) cs zero.

Lemma fold_horner cs x : ∀ acc,
  fold_left (λ acc c, t_add (t_scale acc x) c) cs acc =
  t_add (t_scale acc (d_pow x (length cs))) (get_polynomial_functor cs x).
Proof.
  induction cs as [|c cs IH]; intros acc; cbn [fold_left length get_polynomial_functor].
  - by rewrite pow_zero, scale_one, add_zero_r.
  - by rewrite IH, scale_add, pow_succ, <- add_assoc, scale_mul.
Qed.

Lemma functor_horner cs x : get_polynomial_functor cs x = horner cs x.
Proof. unfold horner. by rewrite fold_horner, scale_zero, add_zero_l. Qed.

(** The functor that is called a derivative is the quotient of the polynomial, without its
    constant, by the position. *)
Lemma derivative_quotient args x : ∀ first,
  get_polynomial_functor (first :: args) x =
  t_add (t_scale (get_polynomial_functor_derivative first args x) x) (List.last args first).
Proof.
  induction args as [|second rest IH]; intros first.
  - cbn. by rewrite pow_zero, scale_one, add_zero_r, scale_zero, add_zero_l.
  - change (get_polynomial_functor (first :: second :: rest) x)
      with (t_add (t_scale first (d_pow x (S (length rest)))) (get_polynomial_functor (second :: rest) x)).
    rewrite IH. cbn [get_polynomial_functor_derivative length]. rewrite Nat.sub_succ, Nat.sub_0_r.
    rewrite scale_add, pow_succ, mul_comm, scale_mul, add_assoc. f_equal. clear. revert first second.
    induction rest as [|c rest IH]; intros first second; [done|].
    change (List.last (c :: rest) second = List.last (c :: rest) first). by rewrite <- (IH first c), <- (IH second c).
Qed.
End laws.

(** What the two programs fit.  In exact arithmetic the functor of [polynomial.h] is the
    polynomial of its arguments, evaluated by the scheme of Horner; and when the solver leaves
    parameters for which every residual is zero, the curve that is drawn goes through every given point, in
    both programs. *)
Theorem polynomials_fit {D : Type} {Sd : Scalar D D} (L : ScalarLaws D D) (Solve : list (parameters D → list D) → parameters D → parameters D) :
  (∀ cs x, get_polynomial_functor cs x = horner cs x) ∧
  (let p := (quintic_main Solve).1 in
   (∀ x y, (x, y) ∈ quintic_data → QuinticPolynomialResidual x y p = [t_of (d_of 0)]) →
   ∀ x y, (x, y) ∈ quintic_data → get_polynomial_functor (coefficients p) x = t_of y) ∧
  (let p := (trajectory_main Solve).1 in
   (∀ t x dx, (t, x, dx) ∈ via_points → QuinticTrajectoryGeneratorResidual t x dx p = [t_of (d_of 0); t_of (d_of 0)]) →
   ∀ t x dx, (t, x, dx) ∈ via_points → get_polynomial_functor (coefficients p) t = t_of x).
Proof.
  split; [intros; apply functor_horner|]. split; intros p H.
  - intros x y Hin. specialize (H x y Hin). injection H as H. rewrite sub_zero in H. symmetry. exact H.
  - intros t x dx Hin. specialize (H t x dx Hin). injection H as H _. rewrite sub_zero in H. symmetry. exact H.
Qed.

(** Rational numbers, for runs. *)
Definition rat (n : Z) (d : positive) : Qc := Q2Qc (Qmake n d).
#[global] Instance Qc_scalar : Scalar Qc Qc := {
  t_add := Qcplus; t_sub := Qcminus; t_scale := Qcmult; t_of d := d;
  d_add := Qcplus; d_sub := Qcminus; d_mul := Qcmult; d_div := Qcdiv; d_of n := rat (Z.of_nat n) 1;
  d_ltb x y := match Qccompare x y with Lt => true | _ => false end;
  d_pow := Qcpower }.

Lemma rat_zero : rat (Z.of_nat 0) 1 = 0%Qc.
Proof. by apply Qc_is_canon. Qed.
Lemma rat_one : rat (Z.of_nat 1) 1 = 1%Qc.
Proof. by apply Qc_is_canon. Qed.

#[global] Instance Qc_laws : ScalarLaws Qc Qc.
Proof.
  split; intros; cbn [t_add t_sub t_scale t_of d_of d_mul d_pow Qc_scalar]; rewrite ?rat_zero, ?rat_one; try ring; try done.
  split; [|intros ->; ring]. intros H. replace a with (a - b + b)%Qc by ring. rewrite H. ring.
Qed.

(** The cubic through the points of the first program, and a constant for the second one: the
    residuals of a block tell them apart. *)
Definition some_solver (blocks : list (parameters Qc → list Qc)) (p : parameters Qc) : parameters Qc :=
  match blocks with
  | b :: _ => if (length (b p) =? 1)%nat then mkParameters (rat 0 1) (rat 0 1) (rat (-1) 6) (rat 2 1) (rat (-47) 6) (rat 11 1)
              else mkParameters (rat 0 1) (rat 0 1) (rat 0 1) (rat 0 1) (rat 0 1) (rat 1 1)
  | [] => p
  end.

Lemma polynomials_fit_witness :
  (∀ x y, (x, y) ∈ quintic_data → get_polynomial_functor (coefficients (quintic_main some_solver).1) x = y) ∧
  (∀ t x dx, (t, x, dx) ∈ via_points → get_polynomial_functor (coefficients (trajectory_main some_solver).1) t = x).
Proof.
  destruct (polynomials_fit Qc_laws some_solver) as (_ & H1 & H2). split.
  - apply H1. intros x y Hin. unfold quintic_data in Hin. cbn in Hin.
    repeat (apply elem_of_cons in Hin as [[= -> ->]|Hin]; [f_equal; by apply Qc_is_canon|]). by apply elem_of_nil in Hin.
  - apply H2. intros t x dx Hin. unfold via_points, via_t in Hin. cbn in Hin.
    repeat (apply elem_of_cons in Hin as [[= -> -> ->]|Hin]; [repeat f_equal; by apply Qc_is_canon|]). by apply elem_of_nil in Hin.
Defined.

(** The comment of the residual says that it has the derivative, with the factors 5, 4, 3 and 2:
    at 3, that of the square is 6. *)
Lemma derivative_without_factors : get_polynomial_functor_derivative (rat 1 1) [rat 0 1; rat 0 1] (rat 3 1) = rat 3 1.
Proof. by apply Qc_is_canon. Qed.
