(* ===== verification/Rate.v ===== *)
(** Programs that keep a rate: the controlled rate of [src/cpp_practices/smart_rate] and the SYNC
    provider [src/third_party_examples/lely_examples/sync_byte_provider.cpp].

    The numbers of the rate are [double]s, with the arithmetic of [Float].  The clock is read as
    an integral number of nanoseconds: the readings are arguments, and what [sleep_until]
    promises of them is a hypothesis.  The theorem: with sleeps that take steadily longer than
    asked for, the control brings the measured interval to the desired one, up to the jitter
    and the rounding, the errors of which come from [Rounding]. *)
From Stdlib Require Import Floats.SpecFloat QArith.QArith_base QArith.Qabs Lqa.
From S2P Require Import Prelude Text Float Rounding.
Local Open Scope list_scope.

(** ** Control policies *)

(** What [SmartRate] asks of its template argument: a constructor from the desired value, and the command from the
    last command and the measured value. *)
Class ControlPolicy (P : Type) := { new_control : double → P; get_command : P → double → double → double }.

(* @src cpp_practices/smart_rate/include/smart_rate/simple_control.h 3-8 NoControl *)
Record NoControl := mkNoControl {}.
#[global] Instance NoControl_policy : ControlPolicy NoControl := {
  new_control x_d := mkNoControl; get_command _ x_c x := x_c }.

(* @src cpp_practices/smart_rate/include/smart_rate/simple_control.h 10-23 SimplePControl *)
Record SimplePControl := mkSimplePControl { x_d : double; k_ : double }.
(* @src cpp_practices/smart_rate/include/smart_rate/simple_control.h 13-13 SimplePControl *)
Definition new_SimplePControl (d : double) : SimplePControl := mkSimplePControl d (decimal 1 10).
(* @src cpp_practices/smart_rate/include/smart_rate/simple_control.h 15-18 get_command *)
Definition SimplePControl_get_command (p : SimplePControl) (x_c x : double) : double :=
  dadd x_c (dmul (k_ p) (dsub (x_d p) x)).
#[global] Instance SimplePControl_policy : ControlPolicy SimplePControl := {
  new_control := new_SimplePControl; get_command := SimplePControl_get_command }.

(** ** The rate *)

Section rate.
Context {P : Type} `{ControlPolicy P}.

(* @src cpp_practices/smart_rate/include/smart_rate/smart_rate.h 44-49 SmartRate *)
(** [real_interval_] is not initialised before the first sleep. *)
Record SmartRate := mkRate {
  desired_interval_ : double; command_interval_ : double; real_interval_ : option double; last_t_ : Z; control_ : P }.

(* @src cpp_practices/smart_rate/include/smart_rate/smart_rate.h 10-12 SmartRate *)
Definition new_rate (now : Z) (r : double) : SmartRate :=
  let i := ddiv (double_of_Z 1) r in mkRate i i None now (new_control i).

(** [duration_cast<seconds>] of nanoseconds *)
Definition to_seconds (ns : Z) : double := ddiv (double_of_Z ns) (double_of_Z 1000000000).

(** What [sleep_until(last_t_ + command_interval_)] promises of the clock afterwards. *)
Definition awake (r : SmartRate) (now : Z) : Prop :=
  SFltb (double_of_Z now) (dadd (double_of_Z (last_t_ r)) (dmul (command_interval_ r) (double_of_Z 1000000000))) = false.

(* @src cpp_practices/smart_rate/include/smart_rate/smart_rate.h 39-42 smart_adapt *)
Definition smart_adapt (real : double) (r : SmartRate) : SmartRate :=
  mkRate (desired_interval_ r) (get_command (control_ r) (command_interval_ r) real) (real_interval_ r) (last_t_ r) (control_ r).

(* @src cpp_practices/smart_rate/include/smart_rate/smart_rate.h 13-27 sleep *)
(** The clock is read as [now] after the sleep and as [after] at the end.  The line that is printed, and the new
    state. *)
Definition sleep (now after : Z) (r : SmartRate) : text * SmartRate :=
  let real := to_seconds (now - last_t_ r) in
  let r := mkRate (desired_interval_ r) (command_interval_ r) (Some real) (last_t_ r) (control_ r) in
  let line := txt "desired interval: " ++ show_float (desired_interval_ r)
              ++ txt ", command interval: " ++ show_float (command_interval_ r)
              ++ txt ", real interval: " ++ show_float real
              ++ txt " error: " ++ show_float (dmul (double_of_Z 1000) (SFabs (dsub (desired_interval_ r) real)))
              ++ txt " msecs" ++ txt nl in
  let r := smart_adapt real r in
  (line, mkRate (desired_interval_ r) (command_interval_ r) (real_interval_ r) after (control_ r)).

(* @src cpp_practices/smart_rate/include/smart_rate/smart_rate.h 29-29 setRate *)
Definition setRate (rate : double) (r : SmartRate) : SmartRate :=
  mkRate (desired_interval_ r) (ddiv (double_of_Z 1) rate) (real_interval_ r) (last_t_ r) (control_ r).

(* @src cpp_practices/smart_rate/include/smart_rate/smart_rate.h 31-31 getRealRate *)
Definition getRealRate (r : SmartRate) : outcome double :=
  match real_interval_ r with Some x => Ok (ddiv (double_of_Z 1) x) | None => UB "uninitialised member" end.
(* @src cpp_practices/smart_rate/include/smart_rate/smart_rate.h 32-32 getDesiredRate *)
Definition getDesiredRate (r : SmartRate) : double := ddiv (double_of_Z 1) (desired_interval_ r).
(* @src cpp_practices/smart_rate/include/smart_rate/smart_rate.h 33-33 getCommandRate *)
Definition getCommandRate (r : SmartRate) : double := ddiv (double_of_Z 1) (command_interval_ r).

(** A sequence of sleeps, with the readings of the clock for each. *)
Definition sleeps (readings : list (Z * Z)) (r : SmartRate) : SmartRate :=
  fold_left (λ r '(now, after), (sleep now after r).2) readings r.
End rate.
Arguments SmartRate : clear implicits.

(* @src cpp_practices/smart_rate/src/simple_rate_example.cpp 8-27 main *)
(** The rates after the loop has been run for the given readings, from the moment [t] on: the first thousand
    sleeps are those of the first rate. *)
Definition simple_rate_main (t : Z) (readings : list (Z * Z)) : SmartRate NoControl * SmartRate SimplePControl :=
  (sleeps (take 1000 readings) (new_rate t (double_of_Z 1000)), sleeps (drop 1000 readings) (new_rate t (double_of_Z 1000))).

(* @src cpp_practices/smart_rate/src/krls_rate_example.cpp 34-65 main *)
(** A turn of the loop.  The regression of the library is given by what it answers, [eval], and by what it is
    trained with; [noise] is the random number. *)
Definition krls_turn (i : Z) (now after : Z) (eval noise : double) (r : SmartRate NoControl) : outcome ((double * double) * SmartRate NoControl) :=
  let r := (sleep now after r).2 in
  let r_c := getCommandRate r in
  real ← getRealRate r;
  if (i <? 5000)%Z then Ok ((real, r_c), setRate (dadd (getDesiredRate r) noise) r)
  else Ok ((real, r_c), setRate eval r).

(** *** Without control *)

Lemma no_control_keeps readings : ∀ r : SmartRate NoControl,
  command_interval_ (sleeps readings r) = command_interval_ r ∧ desired_interval_ (sleeps readings r) = desired_interval_ r.
Proof. unfold sleeps. induction readings as [|[now after] readings IH]; intros r; [done|]. cbn [fold_left]. by destruct (IH (sleep now after r).2) as [-> ->]. Qed.

(** After a sleep the real rate is there. *)
Lemma krls_turn_defined i now after eval noise (r : SmartRate NoControl) :
  ∃ s r', krls_turn i now after eval noise r = Ok (s, r') ∧
    s.2 = getCommandRate r ∧ s.1 = ddiv (double_of_Z 1) (to_seconds (now - last_t_ r)).
Proof. unfold krls_turn. cbn. destruct (i <? 5000)%Z; eexists _, _; done. Qed.

(** *** With control *)
Local Open Scope Q_scope.

(** The interval that a sleep will measure. *)
Definition measured {P} (r : SmartRate P) (now : Z) : double := to_seconds (now - last_t_ r).

(** Every sleep takes longer than its command by about [δ]: the overhead of the loop and of the system, with
    a jitter of at most [ε].  No interval is longer than [B]. *)
Fixpoint steady {P} `{ControlPolicy P} (B δ ε : Q) (readings : list (Z * Z)) (r : SmartRate P) : Prop :=
  match readings with
  | [] => True
  | (now, after) :: readings =>
      finite (measured r now) ∧ Qabs (val (measured r now)) <= B ∧
      Qabs (val (measured r now) - val (command_interval_ r) - δ) <= ε ∧ steady B δ ε readings (sleep now after r).2
  end.

Fixpoint shrink (n : nat) (e : Q) : Q := match n with O => e | S n => (9 # 10) * shrink n e end.

Lemma shrink_step n e : shrink n ((9 # 10) * e) == (9 # 10) * shrink n e.
Proof. induction n as [|n IH]; [done|]. cbn [shrink]. by rewrite IH. Qed.

(** What the three operations of [get_command] can be off, for intervals of at most [B]. *)
Definition roundoff (B : Q) : Q := 8 * (ulp * B) + 4 * tiny.

(** The gain: [0.1] as a [double], a little more than a tenth. *)
Lemma gain : finite (decimal 1 10) ∧ (1 # 10) <= val (decimal 1 10) ∧ val (decimal 1 10) <= (11 # 100).
Proof. vm_compute. repeat split; discriminate. Qed.

Lemma small_units : 0 < ulp ∧ 0 < tiny ∧ ulp <= 1 # 1000 ∧ tiny <= 1 # 1000.
Proof. repeat split; vm_compute; (reflexivity || discriminate). Qed.

(** A product with the gain. *)
Lemma gain_bounds k s e : (1 # 10) <= k → k <= (11 # 100) → Qabs s <= e → Qabs (k * s) <= (11 # 100) * e.
Proof.
  intros H1 H2 Hs. rewrite Qabs_Qmult, (Qabs_pos k) by lra. pose proof (Qabs_nonneg s). nra.
Qed.

(** A rounded value of something of at most [e]. *)
Lemma rounds_bounds x y e : rounds x y → Qabs x <= e → Qabs (y - x) <= ulp * e + tiny ∧ Qabs y <= e + ulp * e + tiny.
Proof.
  unfold rounds. intros Hr He. destruct small_units as (Hu & Ht & _). pose proof (Qabs_nonneg x).
  assert (ulp * Qabs x <= ulp * e) as Hm by (apply Qmult_le_l; [exact Hu|exact He]).
  set (a := ulp * Qabs x) in *. set (b := ulp * e) in *. rewrite !abs_le in *. lra.
Qed.

(** The command is, up to the rounding, the last one with the gain times the error. *)
Lemma command_rounds d c x B :
  finite d → finite c → finite x → B <= pow2 800 → Qabs (val d) <= B → Qabs (val x) <= B → Qabs (val c) <= 3 * B →
  let c' := SimplePControl_get_command (mkSimplePControl d (decimal 1 10)) c x in
  finite c' ∧ Qabs (val c' - (val c + val (decimal 1 10) * (val d - val x))) <= roundoff B.
Proof.
  intros Fd Fc Fx HB Hd Hx Hc. cbn zeta. unfold SimplePControl_get_command. cbn [x_d k_].
  destruct gain as (Fk & Hk1 & Hk2). destruct small_units as (Hu & Ht & Hu1 & Ht1).
  assert (0 <= B) as HB0 by (eapply Qle_trans; [apply Qabs_nonneg|exact Hd]).
  destruct (dsub_rounds d x Fd Fx) as [Fs Hs].
  { assert (pow2 800 <= (1 # 2) * pow2 900) by (vm_compute; discriminate). rewrite abs_le in *. lra. }
  set (s := dsub d x) in *. set (k := val (decimal 1 10)) in *.
  destruct (rounds_bounds _ _ (2 * B) Hs) as [Es Bs]; [rewrite abs_le in *; lra|].
  assert (ulp * (2 * B) == 2 * (ulp * B)) as EU by ring. rewrite EU in Es, Bs.
  assert (0 <= ulp * B) as HU by (apply Qmult_le_0_compat; [by apply Qlt_le_weak|done]).
  assert (ulp * B <= (1 # 1000) * B) as HUB by (apply Qmult_le_compat_r; done).
  assert (ulp * tiny <= (1 # 1000) * tiny) as HuT by (apply Qmult_le_compat_r; [done|by apply Qlt_le_weak]).
  assert (0 <= ulp * tiny) as HuT0 by (apply Qmult_le_0_compat; by apply Qlt_le_weak).
  pose proof (gain_bounds k (val s) _ Hk1 Hk2 Bs) as Bks.
  pose proof (gain_bounds k (val s - (val d - val x)) _ Hk1 Hk2 Es) as Eks.
  assert (4 * B + 4 <= pow2 900) as Hbig.
  { assert (4 * pow2 800 + 4 <= pow2 900) by (vm_compute; discriminate). lra. }
  destruct (dmul_rounds (decimal 1 10) s Fk Fs) as [Fp Hp]; [fold k; generalize dependent (pow2 900); intros; lra|].
  fold k in Hp. set (p := dmul (decimal 1 10) s) in *.
  destruct (rounds_bounds _ _ ((1 # 4) * B + tiny) Hp) as [Ep Bp]; [lra|].
  assert (ulp * ((1 # 4) * B + tiny) == (1 # 4) * (ulp * B) + ulp * tiny) as EU2 by ring. rewrite EU2 in Ep, Bp.
  destruct (dadd_rounds c p Fc Fp) as [Fc' Hc'].
  { generalize dependent (pow2 900). intros. rewrite abs_le in *. lra. }
  split; [exact Fc'|]. set (c' := dadd c p) in *.
  destruct (rounds_bounds _ _ (4 * B + 3 * tiny) Hc') as [Ec _]; [rewrite abs_le in *; lra|].
  assert (ulp * (4 * B + 3 * tiny) == 4 * (ulp * B) + 3 * (ulp * tiny)) as EU3 by ring. rewrite EU3 in Ec.
  assert (k * (val s - (val d - val x)) == k * val s - k * (val d - val x)) as Ek by ring. rewrite Ek in Eks.
  unfold roundoff. set (U := ulp * B) in *. set (ks := k * val s) in *. set (kv := k * (val d - val x)) in *.
  set (uT := ulp * tiny) in *. clear - Eks Ep Ec HU Ht HuT HuT0. rewrite abs_le in *. lra.
Qed.

(** After a sleep: [c] was its command, [x] the interval that was measured. *)
Definition adapted (B : Q) (r : SmartRate SimplePControl) (c x : double) : Prop :=
  real_interval_ r = Some x ∧ finite (command_interval_ r) ∧
  Qabs (val (command_interval_ r) - (val c + val (decimal 1 10) * (val (desired_interval_ r) - val x))) <= roundoff B ∧
  control_ r = mkSimplePControl (desired_interval_ r) (decimal 1 10).

Lemma sleep_adapted B now after (r : SmartRate SimplePControl) :
  control_ r = mkSimplePControl (desired_interval_ r) (decimal 1 10) →
  finite (desired_interval_ r) → finite (command_interval_ r) → finite (measured r now) →
  B <= pow2 800 → Qabs (val (desired_interval_ r)) <= B → Qabs (val (measured r now)) <= B →
  Qabs (val (command_interval_ r)) <= 3 * B →
  adapted B (sleep now after r).2 (command_interval_ r) (measured r now).
Proof.
  intros E Fd Fc Fx HB Hd Hx Hc.
  assert (command_interval_ (sleep now after r).2 =
    SimplePControl_get_command (mkSimplePControl (desired_interval_ r) (decimal 1 10)) (command_interval_ r) (measured r now)) as Ec.
  { unfold sleep, smart_adapt. cbn [snd command_interval_ control_ desired_interval_ get_command SimplePControl_policy]. by rewrite E. }
  destruct (command_rounds _ _ _ B Fd Fc Fx HB Hd Hx Hc) as [Fc' Hc'].
  split; [done|]. rewrite Ec. split; [exact Fc'|]. split; [exact Hc'|exact E].
Qed.

Lemma adapted_steady B δ ε readings : ∀ r c x e,
  0 <= ε → ε <= B → Qabs δ <= B → B <= pow2 800 → finite (desired_interval_ r) → Qabs (val (desired_interval_ r)) <= B →
  adapted B r c x → finite x → Qabs (val x) <= B → steady B δ ε readings r → Qabs (val x - val c - δ) <= ε →
  Qabs (val x - val (desired_interval_ r)) <= e + 20 * ε + 10 * roundoff B →
  ∃ x', real_interval_ (sleeps readings r) = Some x' ∧ finite x' ∧
    Qabs (val x' - val (desired_interval_ r)) <= shrink (length readings) e + 20 * ε + 10 * roundoff B.
Proof.
  unfold sleeps. induction readings as [|[now after] readings IH];
    intros r c x e Hε HεB Hδ HB Fd Hd (Er & Fc & Ec & Ek) Fx Hx Hs Hxc He; [by exists x|].
  cbn [steady] in Hs. destruct Hs as (Fm & Hm & Hnow & Hs).
  assert (Qabs (val (command_interval_ r)) <= 3 * B) as Hc by (rewrite abs_le in *; lra).
  pose proof (sleep_adapted B now after r Ek Fd Fc Fm HB Hd Hm Hc) as Ha.
  destruct (IH (sleep now after r).2 _ _ ((9 # 10) * e) Hε HεB Hδ HB Fd Hd Ha Fm Hm Hs Hnow) as (x' & E' & Fx' & Hx').
  - destruct gain as (_ & Hk1 & Hk2). change (desired_interval_ (sleep now after r).2) with (desired_interval_ r).
    set (m := val (measured r now)) in *. set (d := val (desired_interval_ r)) in *. set (k := val (decimal 1 10)) in *.
    set (R := roundoff B) in *. set (b := e + 20 * ε + 10 * R) in *.
    assert (Qabs ((1 - k) * (val x - d)) <= (9 # 10) * b) as Hk.
    { rewrite Qabs_Qmult, (Qabs_pos (1 - k)) by lra. pose proof (Qabs_nonneg (val x - d)). nra. }
    assert ((1 - k) * (val x - d) == val x - d + k * (d - val x)) as EE by ring. rewrite EE in Hk.
    set (kd := k * (d - val x)) in *. unfold b in Hk. clear - Hk Hnow Hxc Ec Hε. rewrite abs_le in *. lra.
  - exists x'. split; [exact E'|]. split; [exact Fx'|]. cbn [length shrink]. by rewrite <- shrink_step.
Qed.

(** C26: The proportional control converges, in the arithmetic of [double]s.  When every sleep
    takes longer than its command by an overhead [δ] with a jitter of at most [ε], the error of
    the measured interval shrinks by a factor of 9/10 with every sleep, from the first one on,
    up to 20 times the jitter and 10 times the rounding error of an adaptation, [2^-50] times
    the bound [B] on the intervals plus [2^-1073] ([roundoff]).  The desired interval and
    the measured ones are finite, and they, the overhead and the jitter are at most [B] (which
    is at most [2^800] seconds).  Where the control
    is unstable at first, as a comment of the class has it, the sleeps are not steady: the
    second rate of the example waits a second before it is used ([first_command_negative]). *)
Theorem rate_converges (t : Z) (rate : double) (B δ ε : Q) (now after : Z) (readings : list (Z * Z)) :
  let r0 := new_rate (P := SimplePControl) t rate in
  let r := sleeps ((now, after) :: readings) r0 in
  0 <= ε → ε <= B → Qabs δ <= B → B <= pow2 800 →
  finite (desired_interval_ r0) → Qabs (val (desired_interval_ r0)) <= B →
  steady B δ ε ((now, after) :: readings) r0 →
  desired_interval_ r = ddiv (double_of_Z 1) rate ∧
  ∃ x, real_interval_ r = Some x ∧ finite x ∧
    Qabs (val x - val (desired_interval_ r)) <=
      shrink (length readings) (Qabs (val (measured r0 now) - val (desired_interval_ r0))) + 20 * ε + 10 * roundoff B.
Proof.
  intros r0 r Hε HεB Hδ HB Fd Hd (Fm & Hm & Hnow & Hs).
  assert (∀ rs (r1 : SmartRate SimplePControl), desired_interval_ (sleeps rs r1) = desired_interval_ r1) as Hdes.
  { unfold sleeps. induction rs as [|[? ?] rs IH]; intros r1; [done|]. cbn [fold_left]. by rewrite IH. }
  split; [unfold r; by rewrite Hdes|]. unfold r. rewrite Hdes.
  assert (0 <= B) as HB0 by (eapply Qle_trans; [apply Qabs_nonneg|exact Hd]).
  assert (Qabs (val (command_interval_ r0)) <= 3 * B) as Hc by (change (Qabs (val (desired_interval_ r0)) <= 3 * B); lra).
  pose proof (sleep_adapted B now after r0 eq_refl Fd Fd Fm HB Hd Hm Hc) as Ha.
  apply (adapted_steady B δ ε readings (sleep now after r0).2 _ _ _ Hε HεB Hδ HB Fd Hd Ha Fm Hm Hs Hnow).
  change (desired_interval_ (sleep now after r0).2) with (desired_interval_ r0).
  assert (0 <= roundoff B).
  { destruct small_units as (Hu & Ht & _). unfold roundoff. assert (0 <= ulp * B) by (apply Qmult_le_0_compat; [by apply Qlt_le_weak|done]). lra. }
  lra.
Qed.

(** A loop that takes 0.1 ms besides the sleep. *)
Lemma rate_converges_witness :
  let r0 := new_rate (P := SimplePControl) 0 (double_of_Z 1000) in
  let r := sleeps [(1100000, 1100000); (2190000, 2190000); (3271000, 3271000)]%Z r0 in
  ∃ x, real_interval_ r = Some x ∧ finite x ∧ Qabs (val x - val (desired_interval_ r)) <= 82 # 1000000.
Proof.
  intros r0 r.
  destruct (rate_converges 0 (double_of_Z 1000) 1 (1 # 10000) (1 # 1000000000000) 1100000 1100000
    [(2190000, 2190000); (3271000, 3271000)]%Z) as [_ (x & Hx & Fx & He)].
  - vm_compute. discriminate.
  - vm_compute. discriminate.
  - vm_compute. discriminate.
  - vm_compute. discriminate.
  - vm_compute. exact I.
  - vm_compute. discriminate.
  - vm_compute. repeat split; discriminate.
  - exists x. split; [exact Hx|]. split; [exact Fx|]. eapply Qle_trans; [exact He|]. vm_compute. discriminate.
Defined.

(** The second rate of the example is made together with the first one, a second before it is
    used: its first measured interval is that second, the command becomes negative, and the loop
    then runs without a pause until the control has worked it off. *)
Definition regular (n : nat) : list (Z * Z) := (λ i, (Z.of_nat (S i) * 1100000, Z.of_nat (S i) * 1100000)%Z) <$> seq 0 n.
Lemma first_command_negative :
  SFltb (command_interval_ (simple_rate_main 0 (regular 1001)).2) (double_of_Z 0) = true.
Proof. unfold simple_rate_main. cbn [snd]. vm_compute. reflexivity. Qed.

(** ** The SYNC provider *)
Local Open Scope Z_scope.

(* @src third_party_examples/lely_examples/sync_byte_provider.cpp 44-44 main *)
(** The period in nanoseconds; [f] is what [std::stod] makes of the argument. *)
Definition sync_duration (f : double) : outcome Z :=
  to_long (dmul (ddiv (double_of_Z 1) f) (double_of_Z 1000000000)).

(* @src third_party_examples/lely_examples/sync_byte_provider.cpp 45-50 main *)
(** A turn of the loop starts at [now]: the frame is written, and the clock reads [awake_at] after the sleep.  The
    time of the frame, when the sleep should end, and the next time to wait for. *)
Definition sync_turn (duration next now : Z) : Z * Z * Z := (now, next, next + duration).

(** The frames of a run: the first reading of the clock is [next] at the start; each turn has the
    time at which it writes. *)
Fixpoint sync_frames (duration next : Z) (turns : list Z) : list (Z * Z) :=
  match turns with
  | [] => []
  | now :: turns => let '(frame, until, next) := sync_turn duration next now in (frame, until) :: sync_frames duration next turns
  end.

(** What [sleep_until] promises: a frame is not written before the sleep of the turn before ends. *)
Fixpoint slept (frames : list (Z * Z)) : Prop :=
  match frames with
  | (_, until) :: ((frame, _) :: _) as frames => until ≤ frame ∧ slept frames
  | _ => True
  end.

(** Frame [k + 1] is not before [k] periods: the first two frames may follow each other at once, and up to
    any time there are at most two more than the frequency asks for. *)
Lemma sync_frame_times duration start turns k frame until : slept (sync_frames duration start turns) →
  sync_frames duration start turns !! S k = Some (frame, until) → start + Z.of_nat k * duration ≤ frame.
Proof.
  revert start k. induction turns as [|now turns IH]; intros start k Hs Hk; [done|]. cbn [sync_frames sync_turn] in *.
  destruct turns as [|now' turns]; [done|]. destruct Hs as [Hle Hs]. destruct k as [|k].
  - cbn in Hk. injection Hk as <- _. cbn in Hle. lia.
  - specialize (IH (start + duration) k Hs Hk). lia.
Qed.

(** A frequency of zero has no period that can be converted. *)
Lemma zero_frequency : sync_duration (double_of_Z 0) = UB "float to integer conversion out of range".
Proof. reflexivity. Qed.

Lemma kilohertz : sync_duration (double_of_Z 1000) = Ok 1000000.
Proof. vm_compute. reflexivity. Qed.
