(* ===== verification/SmallPrograms.v ===== *)
(** Small programs with state of their own: the vector in a monotonic buffer
    ([src/cpp_practices/dynamic_memory_allocation/pmr.cpp]), the Fibonacci numbers
    ([src/cpp_practices/valgrind_examples/fib.cpp]), the type-erased deleter
    ([src/cpp_practices/tricks/src/type_erasure.cpp]) and the keys of the terminal
    ([src/third_party_examples/graphical_interface/ncurses_keyboard/src/main.cpp]). *)
From S2P Require Import Prelude Text.
Local Open Scope Z_scope.
Local Open Scope list_scope.

(** ** A vector in a monotonic buffer *)
Module Pmr.

(** [std::pmr::monotonic_buffer_resource] whose upstream resource is the null resource: the
    address of the free memory and how much there is. *)
Record resource := mkResource { current : Z; available : Z }.

(** [allocate]: the address is aligned upwards; without room the upstream resource is asked, which throws.
    Nothing is ever given back. *)
Definition allocate (bytes alignment : Z) (r : resource) : outcome (Z * resource) :=
  let pad := (- current r) mod alignment in
  if available r <? pad + bytes then Throw "std::bad_alloc"
  else Ok (current r + pad, mkResource (current r + pad + bytes) (available r - pad - bytes)).

(** [std::pmr::vector<int>], which doubles its capacity when it is full. *)
Record vector := mkVector { elements : list Z; capacity : Z; memory : resource }.
Definition size (v : vector) : Z := Z.of_nat (length (elements v)).
Definition construct (l : list Z) (r : resource) : outcome vector :=
  '(_, r) ← allocate (4 * Z.of_nat (length l)) 4 r;
  Ok (mkVector l (Z.of_nat (length l)) r).
Definition push_back (x : Z) (v : vector) : outcome vector :=
  if size v =? capacity v then
    let n := size v + Z.max (size v) 1 in
    '(_, r) ← allocate (4 * n) 4 (memory v);
    Ok (mkVector (elements v ++ [x]) n r)
  else Ok (mkVector (elements v ++ [x]) (capacity v) (memory v)).

Definition line (i size capacity : Z) : text :=
  txt "In for loop - i: " ++ to_text i ++ txt ", size: " ++ to_text size ++ txt ", capacity: " ++ to_text capacity ++ txt nl.

(* @src cpp_practices/dynamic_memory_allocation/pmr.cpp 19-22 main *)
(** The lines that are printed, also before an exception. *)
Fixpoint pmr_loop (todo : list Z) (v : vector) : outcome vector * list text :=
  match todo with
  | [] => (Ok v, [])
  | i :: todo =>
      match push_back i v with
      | Ok v => let '(o, out) := pmr_loop todo v in (o, line i (size v) (capacity v) :: out)
      | UB s => (UB s, [])
      | Throw s => (Throw s, [])
      end
  end.

(* @src cpp_practices/dynamic_memory_allocation/pmr.cpp 12-25 main *)
(** The storage is at the address [base]. *)
Definition pmr_main (base : Z) : outcome vector * list text :=
  match construct [1; 2; 3; 4; 5; 6; 7; 8; 9; 10; 11] (mkResource base 1000) with
  | Ok v =>
      let '(o, out) := pmr_loop (seqZ 0 1000) v in
      (o, (txt "After construction - size: " ++ to_text (size v) ++ txt ", capacity: " ++ to_text (capacity v) ++ txt nl) :: out)
  | UB s => (UB s, [])
  | Throw s => (Throw s, [])
  end.

(** Only the alignment of the storage matters. *)
Definition same_room (r r' : resource) : Prop := current r mod 4 = current r' mod 4 ∧ available r = available r'.
Definition same_vector (v v' : vector) : Prop :=
  elements v = elements v' ∧ capacity v = capacity v' ∧ same_room (memory v) (memory v').
Definition related {A} (R : A → A → Prop) (o o' : outcome A) : Prop :=
  match o, o' with Ok a, Ok a' => R a a' | UB s, UB s' | Throw s, Throw s' => s = s' | _, _ => False end.

Lemma allocate_same n r r' : same_room r r' → related (λ a a', same_room a.2 a'.2) (allocate n 4 r) (allocate n 4 r').
Proof.
  intros [E1 E2]. unfold allocate. assert ((- current r) mod 4 = (- current r') mod 4) as -> by (Z.to_euclidean_division_equations; lia). rewrite E2.
  destruct (_ <? _); [done|]. split; [|done]. cbn [snd current]. Z.to_euclidean_division_equations; lia.
Qed.

Lemma push_back_same x v v' : same_vector v v' → related same_vector (push_back x v) (push_back x v').
Proof.
  intros (E1 & E2 & E3). unfold push_back, size. rewrite E1, E2. destruct (_ =? _); [|done].
  pose proof (allocate_same (4 * (Z.of_nat (length (elements v')) + Z.max (Z.of_nat (length (elements v'))) 1)) _ _ E3) as Ha.
  destruct (allocate _ 4 (memory v)) as [[? ?]| |], (allocate _ 4 (memory v')) as [[? ?]| |]; done.
Qed.

Lemma pmr_loop_same todo : ∀ v v', same_vector v v' → related same_vector (pmr_loop todo v).1 (pmr_loop todo v').1 ∧ (pmr_loop todo v).2 = (pmr_loop todo v').2.
Proof.
  induction todo as [|i todo IH]; intros v v' H; [done|]. cbn [pmr_loop]. pose proof (push_back_same i v v' H) as Hp.
  destruct (push_back i v) as [v1| |], (push_back i v') as [v1'| |]; try done. specialize (IH v1 v1' Hp). destruct Hp as (E1 & E2 & _).
  destruct (pmr_loop todo v1), (pmr_loop todo v1'). cbn in *. unfold size. by destruct IH as [? ->]; rewrite E1, E2.
Qed.

Lemma pmr_main_same base base' : base mod 4 = base' mod 4 →
  related same_vector (pmr_main base).1 (pmr_main base').1 ∧ (pmr_main base).2 = (pmr_main base').2.
Proof.
  intros E. unfold pmr_main, construct. pose proof (allocate_same 44 (mkResource base 1000) (mkResource base' 1000) ltac:(done)) as Ha.
  change (4 * Z.of_nat (length [1; 2; 3; 4; 5; 6; 7; 8; 9; 10; 11])) with 44.
  destruct (allocate 44 4 (mkResource base 1000)) as [[? r]| |], (allocate 44 4 (mkResource base' 1000)) as [[? r']| |]; try done.
  cbn [mbind outcome_bind]. set (v := mkVector _ _ r). set (v' := mkVector _ _ r'). pose proof (pmr_loop_same (seqZ 0 1000) v v' ltac:(done)) as [H1 H2].
  destruct (pmr_loop (seqZ 0 1000) v), (pmr_loop (seqZ 0 1000) v'). cbn in *. by rewrite H2.
Qed.

(** The capacity when the element with index [i] has been appended. *)
Definition capacity_at (i : Z) : Z := if i <? 11 then 22 else if i <? 33 then 44 else 88.

(** The comment at the end of the program is right.  Wherever the storage is, the program prints the size
    and the capacity of the vector 78 times, with capacities 22, 44 and 88, and the allocation of the element with
    index 77 throws [std::bad_alloc]. *)
Theorem pmr_throws base :
  pmr_main base =
    (Throw "std::bad_alloc",
     (txt "After construction - size: 11, capacity: 11" ++ txt nl) :: ((λ i, line i (12 + i) (capacity_at i)) <$> seqZ 0 77)).
Proof.
  destruct (pmr_main_same base (base mod 4) ltac:(by rewrite Z.mod_mod)) as [H1 H2].
  assert (pmr_main (base mod 4) = (Throw "std::bad_alloc",
    (txt "After construction - size: 11, capacity: 11" ++ txt nl) :: ((λ i, line i (12 + i) (capacity_at i)) <$> seqZ 0 77))) as E.
  { pose proof (Z.mod_pos_bound base 4 eq_refl) as Hb. assert (base mod 4 = 0 ∨ base mod 4 = 1 ∨ base mod 4 = 2 ∨ base mod 4 = 3) as Hc by lia.
    destruct Hc as [-> |[-> |[-> | ->]]]; vm_compute; reflexivity. }
  rewrite E in H1, H2. destruct (pmr_main base) as [[]]; cbn in *; try done. by subst.
Qed.
End Pmr.

(** ** Fibonacci numbers *)
Module Fib.

(* @src cpp_practices/valgrind_examples/fib.cpp 4-10 fib *)
Fixpoint fib (fuel : nat) (x : Z) : outcome Z :=
  match fuel with
  | O => Throw "out of fuel"
  | S fuel =>
      if x =? 0 then Ok 0 else if x =? 1 then Ok 1
      else a ← fib fuel (x - 1); b ← fib fuel (x - 2); int_add a b
  end.

(* @src cpp_practices/valgrind_examples/fib.cpp 12-17 main *)
(** The numbers that are printed. *)
Definition fib_main : list (outcome Z) := (λ i : nat, fib (S i) (Z.of_nat i)) <$> seq 0 45.

(** Two neighbours of the sequence. *)
Fixpoint fibs (n : nat) : Z * Z := match n with O => (0, 1) | S n => let '(a, b) := fibs n in (b, a + b) end.

Lemma fibs_pos n : 0 ≤ (fibs n).1 ∧ 1 ≤ (fibs n).2 ∧ (fibs n).1 ≤ (fibs n).2.
Proof. induction n as [|n IH]; [done|]. cbn. destruct (fibs n). cbn in *. lia. Qed.

Lemma fibs_succ n : (fibs (S n)).1 = (fibs n).2.
Proof. cbn. by destruct (fibs n). Qed.

Lemma fibs_sum n : (fibs (S (S n))).1 = (fibs (S n)).1 + (fibs n).1.
Proof. cbn. destruct (fibs n). cbn. lia. Qed.

Lemma fib_fibs n : ∀ fuel m, (m ≤ n)%nat → (m < fuel)%nat → (fibs n).1 ≤ int_max → fib fuel (Z.of_nat m) = Ok (fibs m).1.
Proof.
  induction n as [|n IH]; intros fuel m Hm Hf Hmax; (destruct fuel as [|fuel]; [lia|]).
  - by replace m with 0%nat by lia.
  - pose proof (fibs_pos n). assert ((fibs n).1 ≤ int_max) as Hn by (rewrite fibs_succ in Hmax; lia).
    destruct (decide (m = S n)) as [-> |]; [|apply IH; lia].
    cbn [fib]. rewrite (proj2 (Z.eqb_neq _ 0)) by lia. destruct n as [|n]; [done|].
    rewrite (proj2 (Z.eqb_neq _ 1)) by lia. replace (Z.of_nat (S (S n)) - 1) with (Z.of_nat (S n)) by lia.
    replace (Z.of_nat (S (S n)) - 2) with (Z.of_nat n) by lia. rewrite !IH by (done || lia). cbn [mbind outcome_bind].
    rewrite fibs_sum in *. pose proof (fibs_pos (S n)). pose proof (fibs_pos n). unfold int_add, in_int.
    rewrite (proj2 (Z.leb_le int_min _)), (proj2 (Z.leb_le _ int_max)) by (unfold int_min; lia). done.
Qed.

(** The program prints the first 45 numbers; none overflows. *)
Lemma fib_main_prints : fib_main = (λ i, Ok (fibs i).1) <$> seq 0 45.
Proof.
  unfold fib_main. apply list_fmap_ext. intros j i Hi. apply lookup_seq in Hi as [-> Hj].
  apply (fib_fibs 44); [lia|lia|]. vm_compute. discriminate.
Qed.
End Fib.

(** ** A type-erased deleter *)
Module SmartPtr.

(** The deleter objects on the heap, and which of them have been applied to which pointers. *)
Record heap := mkHeap { next : nat; live : gset nat; applied : list (nat * Z) }.

(* @src cpp_practices/tricks/src/type_erasure.cpp 18-19 smartptr *)
Record smartptr := mkPtr { d_ : nat; p_ : Z }.

(* @src cpp_practices/tricks/src/type_erasure.cpp 22-23 smartptr *)
Definition new_smartptr (p : Z) (h : heap) : smartptr * heap :=
  (mkPtr (next h) p, mkHeap (S (next h)) ({[next h]} ∪ live h) (applied h)).

(* @src cpp_practices/tricks/src/type_erasure.cpp 24-27 ~smartptr *)
Definition delete_smartptr (x : smartptr) (h : heap) : outcome heap :=
  if decide (d_ x ∈ live h) then Ok (mkHeap (next h) (live h ∖ {[d_ x]}) (applied h ++ [(d_ x, p_ x)]))
  else UB "use after free".

(** A scope: the pointers are made in order, and destroyed in the reverse order at its end. *)
Fixpoint scope (ps : list Z) (h : heap) : outcome heap :=
  match ps with
  | [] => Ok h
  | p :: ps => let '(x, h) := new_smartptr p h in h ← scope ps h; delete_smartptr x h
  end.

(** A pointer that is copied: the class has the implicit copy constructor. *)
Definition copied_scope (p : Z) (h : heap) : outcome heap :=
  let '(x, h) := new_smartptr p h in
  h ← delete_smartptr x h; delete_smartptr x h.

(** Every deleter is applied once to its own pointer, and no deleter is left. *)
Lemma scope_applies ps : ∀ h, (∀ d, d ∈ live h → (d < next h)%nat) →
  scope ps h = Ok (mkHeap (next h + length ps) (live h) (applied h ++ rev (zip (seq (next h) (length ps)) ps))).
Proof.
  induction ps as [|p ps IH]; intros h Hh; cbn [scope new_smartptr].
  - cbn. rewrite app_nil_r, Nat.add_0_r. by destruct h.
  - rewrite IH; cbn [live next applied].
    + cbn [mbind outcome_bind]. unfold delete_smartptr. cbn [d_ p_ live next applied]. rewrite decide_True by set_solver. f_equal. f_equal.
      * cbn. lia.
      * apply set_eq. intros d. specialize (Hh d). set_solver by lia.
      * cbn. by rewrite <- app_assoc.
    + intros d Hd. apply elem_of_union in Hd as [->%elem_of_singleton|Hd]; [lia|]. specialize (Hh d Hd). lia.
Qed.

(** A copy makes the destructor run twice on the same deleter. *)
Lemma copy_deletes_twice p h : (∀ d, d ∈ live h → (d < next h)%nat) → copied_scope p h = UB "use after free".
Proof.
  intros Hh. unfold copied_scope, delete_smartptr. cbn [new_smartptr d_ p_ live]. rewrite decide_True by set_solver.
  cbn [mbind outcome_bind live]. rewrite decide_False; [done|]. set_solver.
Qed.
End SmartPtr.

(** ** Keys of the terminal *)
Module Keyboard.

Inductive shown := Line (t : string) | Screen (c : Z).

(* @src third_party_examples/graphical_interface/ncurses_keyboard/src/main.cpp 29-58 main *)
(** A key that has been read in time. *)
Definition on_key (c : Z) (unpressed : bool) : list shown * bool :=
  let direction (t : string) := if unpressed then ([], true) else ([Line t], true) in
  if c =? 119 then direction "up"
  else if c =? 115 then direction "down"
  else if c =? 97 then direction "left"
  else if c =? 100 then direction "right"
  else ([Screen c], unpressed).

(* @src third_party_examples/graphical_interface/ncurses_keyboard/src/main.cpp 20-59 main *)
(** A turn of the loop.  The thread that reads a key gets [c]; [ready] says whether that is within 50 ms.  If not,
    the loop goes on, but the destructor of the future waits for the key first, and the key is lost. *)
Definition turn (ready : bool) (c : Z) (unpressed : bool) : list shown * bool :=
  if ready then on_key c unpressed
  else if unpressed then ([Line "unpressed"], false) else ([], false).

(* @src third_party_examples/graphical_interface/ncurses_keyboard/src/main.cpp 7-61 main *)
Fixpoint keyboard_main (keys : list (bool * Z)) (unpressed : bool) : list shown :=
  match keys with
  | [] => []
  | (ready, c) :: keys => let '(out, unpressed) := turn ready c unpressed in out ++ keyboard_main keys unpressed
  end.

Definition is_line (s : shown) : option string := match s with Line t => Some t | Screen _ => None end.
Definition is_direction (t : string) : bool := bool_decide (t ∈ ["up"; "down"; "left"; "right"]%string).
(** [unpressed] and the directions take turns. *)
Fixpoint alternate (unpressed : bool) (lines : list string) : bool :=
  match lines with
  | [] => true
  | t :: lines => (if unpressed then bool_decide (t = "unpressed"%string) else is_direction t) && alternate (negb unpressed) lines
  end.

Lemma on_key_alternates c u out u' : on_key c u = (out, u') →
  (omap is_line out = [] ∧ u' = u) ∨ (u = false ∧ u' = true ∧ ∃ t, omap is_line out = [t] ∧ is_direction t = true).
Proof.
  unfold on_key. destruct u.
  - intros H. left. repeat case_match; simplify_eq; done.
  - intros H. repeat case_match; simplify_eq; (by left) || (right; split_and!; [done..|]; by eexists).
Qed.

(** The program reports a release, then a direction, and so on, starting with a release, whatever is pressed. *)
Lemma keyboard_alternates keys : ∀ u, alternate u (omap is_line (keyboard_main keys u)) = true.
Proof.
  induction keys as [|[ready c] keys IH]; intros u; [done|]. cbn [keyboard_main turn]. unfold turn. destruct ready.
  - destruct (on_key c u) as [out u'] eqn:E. rewrite omap_app. destruct (on_key_alternates c u out u' E) as [[-> ->]|(-> & -> & t & -> & Ht)]; [apply IH|].
    cbn [app alternate]. rewrite Ht. apply IH.
  - destruct u; [|apply IH]. cbn. apply IH.
Qed.

(** A key after a pause is not reported: the program is still waiting for it in the destructor of the
    future. *)
Lemma key_after_pause_lost c u : omap is_line (keyboard_main [(false, c)] u) = if u then ["unpressed"%string] else [].
Proof. by destruct u. Qed.
End Keyboard.
