(* ===== verification/TupleTricks.v ===== *)
(** Techniques on tuples and structs ([src/cpp_practices/tricks]): sequences of indices, functions applied to all
    elements, transformations, flattening, selection.

    A tuple is the list of its elements, whose types are tags where the code looks at them.  A
    function object has a state [S]; whether the elements are visited in order, and whether they share that
    state, depends on how the code passes the object and expands the pack: an initialiser list is
    evaluated from left to right, the arguments of a function in any order, which is then an argument.  An index out of
    a tuple does not compile: [None]. *)
From S2P Require Import Prelude.
Local Open Scope list_scope.

(** ** Expansion of packs *)

Section packs.
Context {S A B : Type}.

(** The elements of an initialiser list, computed from left to right by an object with state. *)
Fixpoint in_order (f : S → A → B * S) (s : S) (l : list A) : list B * S :=
  match l with
  | [] => ([], s)
  | a :: l => let '(b, s) := f s a in let '(bs, s) := in_order f s l in (b :: bs, s)
  end.

Lemma in_order_length f l : ∀ s, length (in_order f s l).1 = length l.
Proof. induction l as [|a l IH]; intros s; [done|]. cbn. destruct (f s a) as [b s']. specialize (IH s'). destruct (in_order f s' l). cbn in *. by rewrite IH. Qed.
End packs.

(** The arguments of a function, computed in the order [order] of their places: the results with their places. *)
Definition any_order {S A B} (f : S → A → B * S) (s : S) (l : list A) (order : list nat) : option (list (nat * B) * S) :=
  todo ← mapM (λ i, a ← l !! i; Some (i, a)) order;
  Some (in_order (λ s '(i, a), let '(b, s) := f s a in ((i, b), s)) s todo).

(** An object without state computes the same in every order. *)
Lemma in_order_pure {A B} (f : A → B) l : in_order (λ (s : unit) a, (f a, s)) tt l = (f <$> l, tt).
Proof. induction l as [|a l IH]; [done|]. cbn. by rewrite IH. Qed.

(** ** Sequences of indices *)
Module IndicesOwn.

(* @src cpp_practices/tricks/include/indices_trick_own.h 14-22 build_indices *)
Fixpoint build_indices (n : nat) (Is : list nat) : list nat :=
  match n with O => Is | S n => build_indices n (n :: Is) end.

(* @src cpp_practices/tricks/include/indices_trick_own.h 8-13 f_all_dispatch *)
Definition f_all_dispatch {S A B} (op : S → A → B * S) (s : S) (t : list A) (Is : list nat) : option (list B * S) :=
  l ← mapM (λ i, t !! i) Is; Some (in_order op s l).

(* @src cpp_practices/tricks/include/indices_trick_own.h 23-28 execute_all *)
Definition execute_all {S A B} (op : S → A → B * S) (s : S) (t : list A) : option (list B * S) :=
  f_all_dispatch op s t (build_indices (length t) []).

Lemma build_indices_seq n : ∀ k, build_indices n (seq n k) = seq 0 (n + k).
Proof.
  induction n as [|n IH]; intros k; [done|]. cbn [build_indices]. change (n :: seq (S n) k) with (seq n (S k)).
  rewrite IH. f_equal. lia.
Qed.

Lemma get_all {A} (t : list A) : mapM (λ i, t !! i) (seq 0 (length t)) = Some t.
Proof.
  assert (∀ u v : list A, mapM (λ i, (u ++ v) !! i) (seq (length u) (length v)) = Some v) as H; [|exact (H [] t)].
  intros u v. revert u. induction v as [|a v IH]; intros u; [done|]. cbn [length seq mapM mbind option_bind].
  rewrite list_lookup_middle by done. cbn [mbind option_bind]. specialize (IH (u ++ [a])). rewrite length_app, Nat.add_1_r in IH. cbn in IH.
  rewrite <- app_assoc in IH. cbn in IH. by rewrite IH.
Qed.

(** The indices are those of the tuple, in order: every element is visited once, from left to right. *)
Lemma execute_all_in_order {S A B} (op : S → A → B * S) s t : execute_all op s t = Some (in_order op s t).
Proof.
  unfold execute_all, f_all_dispatch. pose proof (build_indices_seq (length t) 0) as E. cbn [seq] in E. rewrite Nat.add_0_r in E.
  by rewrite E, get_all.
Qed.
End IndicesOwn.

(** ** Types of elements *)
Inductive value := VInt (z : Z) | VChar (z : Z) | VFloat (q : Z * positive) | VDouble (q : Z * positive).
#[global] Instance value_eq_dec : EqDecision value.
Proof. solve_decision. Defined.

Module IndicesStd.

(** [sizeof] of the types of the example *)
Definition type_size (v : value) : Z := match v with VInt _ => 4 | VChar _ => 1 | VFloat _ => 4 | VDouble _ => 8 end.

(* @src cpp_practices/tricks/src/indices_trick.cpp 28-43 value_match *)
Definition value_match (target v : value) : bool :=
  match target, v with
  | VInt a, VInt b | VChar a, VChar b => bool_decide (a = b)
  | VFloat a, VFloat b | VDouble a, VDouble b => bool_decide (a = b)
  | _, _ => false
  end.

(* @src cpp_practices/tricks/include/indices_trick_std.h 16-20 execute_all *)
(** Of the namespace [simple_test]: the array is made from an initialiser list. *)
Definition execute_all {S B} (op : S → value → B * S) (s : S) (t : list value) : option (list B * S) :=
  l ← mapM (λ i, t !! i) (seq 0 (length t)); Some (in_order op s l).

(* @src cpp_practices/tricks/src/indices_trick.cpp 45-54 getIndexByValue *)
Definition getIndexByValue (tup : list value) (v : value) : option Z :=
  '(flags, _) ← execute_all (λ (s : unit) x, (value_match v x, s)) tt tup;
  Some (match list_find (λ b : bool, b = true) flags with Some (i, _) => Z.of_nat i | None => (-1)%Z end).

Lemma value_match_spec a b : value_match a b = true ↔ a = b.
Proof. destruct a, b; cbn; rewrite ?bool_decide_eq_true; naive_solver. Qed.

(** The index of the first element with the type and the value, or -1. *)
Lemma getIndexByValue_spec tup v : ∃ i, getIndexByValue tup v = Some i ∧
  (i = (-1)%Z ∧ v ∉ tup ∨ (0 ≤ i)%Z ∧ tup !! Z.to_nat i = Some v ∧ v ∉ take (Z.to_nat i) tup).
Proof.
  unfold getIndexByValue, execute_all. rewrite IndicesOwn.get_all. cbn [mbind option_bind]. rewrite in_order_pure. cbn [mbind option_bind].
  eexists. split; [done|]. destruct (list_find _ _) as [[i b]|] eqn:E.
  - right. split; [lia|]. rewrite Nat2Z.id. apply list_find_Some in E as (Hi & Hb & Hfirst).
    apply list_lookup_fmap_Some in Hi as (x & -> & Hx). apply value_match_spec in Hb as ->. split; [done|].
    intros Hin. apply list_elem_of_lookup in Hin as [j Hj]. apply lookup_take_Some in Hj as [Hj Hlt].
    apply (Hfirst j true); [|done|done]. rewrite list_lookup_fmap, Hj. cbn. f_equal. by apply value_match_spec.
  - left. split; [done|]. intros Hin. apply list_find_None in E. rewrite Forall_fmap, Forall_forall in E. apply (E v Hin). by apply value_match_spec.
Qed.

(* @src cpp_practices/tricks/include/indices_trick_std.h 23-37 f_all_dispatch *)
(** The other [execute_all]: the results are the arguments of [make_tuple]. *)
Definition f_all_dispatch {S A B} (op : S → A → B * S) (s : S) (t : list A) (order : list nat) : option (list (nat * B) * S) :=
  any_order op s t order.

Lemma mapM_omap {A B} (g : A → option B) l k : mapM g l = Some k → omap g l = k.
Proof.
  revert k. induction l as [|a l IH]; intros k; cbn; [by intros [= <-]|]. destruct (g a) as [b|]; [|done]. cbn.
  destruct (mapM g l) as [k'|]; [|done]. intros [= <-]. by rewrite (IH k').
Qed.

Lemma in_order_prints {A} (todo : list (nat * A)) : ∀ out,
  (in_order (λ (s : list A) '(i, a), let '(b, s) := (tt, s ++ [a]) in ((i, b), s)) out todo).2 = out ++ todo.*2.
Proof.
  induction todo as [|[i a] todo IH]; intros out; cbn; [by rewrite app_nil_r|]. specialize (IH (out ++ [a])).
  destruct (in_order _ (out ++ [a]) todo). cbn in *. by rewrite IH, <- app_assoc.
Qed.

(** The tuple that the program prints, in reverse order with one compiler, may be printed in any order, but every
    element once. *)
Lemma printed_in_some_order {A} (t : list A) order : order ≡ₚ seq 0 (length t) →
  ∃ bs out, f_all_dispatch (λ out a, (tt, out ++ [a])) [] t order = Some (bs, out) ∧ out ≡ₚ t.
Proof.
  intros Ho. unfold f_all_dispatch, any_order.
  assert (∃ todo, mapM (λ i, a ← t !! i; Some (i, a)) order = Some todo) as [todo E].
  { apply mapM_is_Some. apply Forall_forall. intros i Hi. rewrite Ho in Hi. apply elem_of_seq in Hi.
    destruct (lookup_lt_is_Some_2 t i) as [a Ha]; [lia|]. exists (i, a). change (t !! i = Some a) in Ha. by rewrite Ha. }
  rewrite E. cbn [mbind option_bind]. destruct (in_order _ [] todo) as [bs out] eqn:Ei. exists bs, out. split; [done|].
  assert (out = [] ++ todo.*2) as -> by exact (eq_trans (eq_sym (f_equal snd Ei)) (in_order_prints todo [])). cbn [app].
  assert (todo.*2 = omap (λ i, t !! i) order) as ->.
  { clear -E. revert todo E. induction order as [|i order IH]; intros todo; cbn; [by intros [= <-]|]. destruct (t !! i) as [a|]; [|done]. cbn.
    destruct (mapM _ order) as [todo'|]; [|done]. intros [= <-]. cbn. by rewrite (IH todo'). }
  rewrite Ho. by rewrite (mapM_omap _ _ _ (IndicesOwn.get_all t)).
Qed.
End IndicesStd.

(** ** Tuples of results *)
Module TupleUtils.
Section transform.
Context {S A B : Type} (f : S → list A → B * S).

(** [std::get<i>(input)...] *)
Definition column (inputs : list (list A)) (i : nat) : option (list A) := mapM (λ t : list A, t !! i) inputs.

(* @src cpp_practices/tricks/include/tuple_transform.h 10-28 transform *)
(** The function object is passed by value: every element gets a copy in its first state.  The
    elements are the arguments of [make_tuple]; they do not depend on the order of their evaluation. *)
Definition transform (s : S) (inputs : list (list A)) : option (list B) :=
  first ← head inputs;
  cols ← mapM (column inputs) (seq 0 (length first));
  Some ((λ col, (f s col).1) <$> cols).
End transform.
End TupleUtils.

Module StructMagic.

(* @src cpp_practices/tricks/include/struct_magic.h 15-22 all_true *)
Definition all_true (conds : list bool) : bool := fold_right (λ c acc : bool, if c then acc else false) true conds.
Definition all_same (types : list nat) : option bool :=
  first ← head types; Some (all_true ((λ t : nat, bool_decide (first = t)) <$> types)).

Section transform.
Context {S A : Type} (f : S → list A → A * S).

(* @src cpp_practices/tricks/include/struct_magic.h 24-54 transform *)
(** The function object is passed by reference, and the fields are in an initialiser list: one
    object computes them from the first to the last. *)
Definition transform (s : S) (inputs : list (list A)) : option (list A * S) :=
  first ← head inputs;
  cols ← mapM (TupleUtils.column inputs) (seq 0 (length first));
  Some (in_order f s cols).

(* @src cpp_practices/tricks/include/struct_magic.h 35-62 apply *)
(** [op] changes the fields in place. *)
Definition apply (op : S → A → A * S) (s : S) (fields : list A) : option (list A * S) :=
  l ← mapM (λ i, fields !! i) (seq 0 (length fields)); Some (in_order op s l).
End transform.

Lemma all_same_spec t ts : all_same (t :: ts) = Some true ↔ Forall (λ u, u = t) ts.
Proof.
  unfold all_same. cbn. rewrite bool_decide_true by done.
  induction ts as [|u ts IH]; cbn; [by split|]. rewrite Forall_cons. destruct (decide (t = u)) as [<-|Hne].
  - rewrite bool_decide_true by done. rewrite IH. naive_solver.
  - rewrite bool_decide_false by done. split; [done|]. intros [-> _]. done.
Qed.
End StructMagic.

(** The states of an object that computes the columns one after the other. *)
Fixpoint states {S A B} (f : S → A → B * S) (s : S) (l : list A) : list S :=
  match l with [] => [] | a :: l => s :: states f (f s a).2 l end.

Lemma in_order_states {S A B} (f : S → A → B * S) l : ∀ s, (in_order f s l).1 = zip_with (λ s a, (f s a).1) (states f s l) l.
Proof.
  induction l as [|a l IH]; intros s; [done|]. cbn. destruct (f s a) as [b s'] eqn:E. cbn. specialize (IH s'). destruct (in_order f s' l). cbn in *. by rewrite IH.
Qed.

Lemma mapM_lookup {A B} (g : A → option B) l k i b : mapM g l = Some k → k !! i = Some b → ∃ a, l !! i = Some a ∧ g a = Some b.
Proof. intros H%mapM_Some Hi. destruct (Forall2_lookup_r _ _ _ _ _ H Hi) as (a & ? & ?). by exists a. Qed.

(** Element [i] of a transformed tuple comes from the elements [i] of the tuples, with the first
    state of the object; element [i] of a transformed struct from the fields [i], with the state that the
    object has after the fields before. *)
Lemma transforms {S A} (f : S → list A → A * S) s inputs ts us s' i t u :
  TupleUtils.transform f s inputs = Some ts → StructMagic.transform f s inputs = Some (us, s') →
  ts !! i = Some t → us !! i = Some u →
  ∃ col cols si, TupleUtils.column inputs i = Some col ∧ mapM (TupleUtils.column inputs) (seq 0 (length ts)) = Some cols ∧
    states f s cols !! i = Some si ∧ t = (f s col).1 ∧ u = (f si col).1.
Proof.
  unfold TupleUtils.transform, StructMagic.transform. destruct (head inputs) as [first|]; [|done]. cbn [mbind option_bind].
  destruct (mapM (TupleUtils.column inputs) (seq 0 (length first))) as [cols|] eqn:E; [|done]. cbn [mbind option_bind].
  intros [= <-] [= Hu] Ht Hi. apply list_lookup_fmap_Some in Ht as (col & -> & Hcol).
  destruct (mapM_lookup _ _ _ _ _ E Hcol) as (j & Hj & Hc). apply lookup_seq in Hj as [-> _].
  assert (us = (in_order f s cols).1) as -> by (by rewrite Hu). rewrite in_order_states in Hi.
  apply lookup_zip_with_Some in Hi as (si & col' & -> & Hsi & Hcol'). rewrite Hcol in Hcol'. injection Hcol' as <-.
  exists col, cols, si. rewrite length_fmap. split; [done|]. split; [|done].
  pose proof (Forall2_length _ _ _ (proj1 (mapM_Some _ _ _) E)) as El. rewrite length_seq in El. by rewrite <- El.
Qed.

(** A counting object: all elements of the tuple have number 0, the fields of the struct their places. *)
Definition number (i : Z) (col : list Z) : Z * Z := (i, (i + 1)%Z).
Lemma numbers : TupleUtils.transform number 0%Z [[5; 6; 7]%Z] = Some [0; 0; 0]%Z ∧ StructMagic.transform number 0%Z [[5; 6; 7]%Z] = Some ([0; 1; 2]%Z, 3%Z).
Proof. done. Qed.

(** ** A tuple indexed at run time *)

(* @src cpp_practices/tricks/include/tuple_get_variant.hpp 4-21 get *)
(** A table of functions, one for each index. *)
Definition get_variant {A} (index : nat) (t : list A) : outcome A :=
  match t !! index with Some a => Ok a | None => UB "index out of bounds" end.

(** ** Flattening *)
Module Flatten.

Inductive ty := Class_ (name : nat) | Tuple (ts : list ty).

(* @src cpp_practices/tricks/src/flatten_tuple.cpp 22-31 flatten_tuple_helper *)
(** The elements of the tuple that it gives. *)
Fixpoint flatten_tuple_helper (t : ty) : list ty :=
  match t with
  | Class_ _ => [t]
  | Tuple ts => concat (map flatten_tuple_helper ts)
  end.

(* @src cpp_practices/tricks/src/flatten_tuple.cpp 32-39 flatten_tuple *)
Definition flatten_tuple (t : ty) : ty := match t with Tuple _ => Tuple (flatten_tuple_helper t) | _ => t end.

(** A type as it is written: with the brackets of its tuples. *)
Inductive token := Name (n : nat) | Open | Close.
Fixpoint render (t : ty) : list token :=
  match t with Class_ n => [Name n] | Tuple ts => Open :: concat (map render ts) ++ [Close] end.
Definition name_of (k : token) : option nat := match k with Name n => Some n | _ => None end.

Fixpoint ty_ind' (P : ty → Prop) (HC : ∀ n, P (Class_ n)) (HT : ∀ ts, Forall P ts → P (Tuple ts)) (t : ty) : P t :=
  match t with
  | Class_ n => HC n
  | Tuple ts => HT ts ((fix go ts := match ts return Forall P ts with [] => Forall_nil_2 P | t :: ts => Forall_cons_2 P t ts (ty_ind' P HC HT t) (go ts) end) ts)
  end.

Lemma flatten_helper_names t : flatten_tuple_helper t = Class_ <$> omap name_of (render t).
Proof.
  induction t as [n|ts IH] using ty_ind'; [done|]. cbn [flatten_tuple_helper render omap list_omap name_of].
  rewrite omap_app. cbn. rewrite app_nil_r. induction IH as [|t ts Ht _ IHts]; [done|]. cbn [map concat].
  by rewrite omap_app, fmap_app, Ht, IHts.
Qed.

(** Flattening removes the inner brackets of a tuple and keeps everything else in its order. *)
Lemma flatten_removes_brackets ts : flatten_tuple (Tuple ts) = Tuple (Class_ <$> omap name_of (render (Tuple ts))).
Proof. cbn [flatten_tuple]. by rewrite flatten_helper_names. Qed.

Lemma flatten_idempotent t : flatten_tuple (flatten_tuple t) = flatten_tuple t.
Proof.
  destruct t as [n|ts]; [done|]. rewrite !flatten_removes_brackets. f_equal. f_equal.
  generalize (omap name_of (render (Tuple ts))). intros l. cbn [render omap list_omap name_of]. rewrite omap_app. cbn. rewrite app_nil_r.
  induction l as [|n l IH]; [done|]. cbn. by rewrite IH.
Qed.

(** The assertions of the program. *)
Lemma static_asserts :
  flatten_tuple (Tuple [Class_ 6; Class_ 5; Tuple [Class_ 4; Tuple [Class_ 3]; Class_ 2]; Class_ 1]) = Tuple (Class_ <$> [6; 5; 4; 3; 2; 1]) ∧
  flatten_tuple (Tuple [Tuple [Tuple [Class_ 3]; Class_ 2]; Class_ 1]) = Tuple (Class_ <$> [3; 2; 1]) ∧
  flatten_tuple (Tuple [Tuple [Tuple [Class_ 5; Class_ 4]; Class_ 3]; Class_ 2; Class_ 1]) = Tuple (Class_ <$> [5; 4; 3; 2; 1]) ∧
  flatten_tuple (Tuple [Tuple [Tuple [Tuple [Tuple [Class_ 6; Class_ 5]; Class_ 4]; Class_ 3]; Class_ 2]; Class_ 1]) = Tuple (Class_ <$> [6; 5; 4; 3; 2; 1]).
Proof. done. Qed.
End Flatten.
